(* ===== verification/_CoqProject ===== *)
-Q . S2P
Prelude.v
Interfaces.v
Text.v
Aes.v
Instances.v
Auth.v
AuthTheorems.v
Datagram.v
CidGenerator.v
Socket.v
Sender.v
SocketTheorems.v
Readiness.v
Writability.v
Ping.v
EchoTasks.v
Endpoint.v
Float64.v
Client.v
Server.v
System.v
Runtime.v
FilterService.v
Conversation.v
Atomics.v
Binaries.v
SplitMix.v
Blaster.v
BlasterTheorems.v
BlasterThreads.v
CommandLine.v
UnitTests.v
IntegrationTests.v
