(* ===== verification/Prelude.v ===== *)
(** * pktauth: a verification development

    pktauth is a QUIC echo server and ping client whose UDP socket drops every
    inbound datagram that does not carry an authentication token in its destination
    connection ID, before the QUIC stack (Quinn) parses it, and a flood generator to
    measure that filter. This library models the program in Rocq and proves what
    its parts promise and that they work together.

    ** The program and its model

    A token is 20 bytes: a 2-byte selector naming a direction, an 8-byte nonce, and
    a 10-byte tag, the truncated AES encryption, under the direction's key, of the
    nonce and the pair of IPv4 addresses of the path. Quinn asks the crate for the
    connection IDs it advertises; the crate mints tokens. Quinn reads and writes
    datagrams through the crate's socket; the crate checks the token of each one it
    reads. The two binaries set up a socket, a generator and an endpoint each, and
    play an echo protocol over QUIC streams.

    - [Prelude.v]: panics ([exec]), [result] and [poll], bytes, wrapping 64-bit
      arithmetic, big- and little-endian encodings, slices, and the lemmas, hints
      and tactics the other files share.
    - [Interfaces.v]: addresses and I/O errors, and the crates outside the
      repository as type classes with laws: the block cipher, the random generator,
      Quinn's connection IDs and its trait [ConnectionIdGenerator].
    - [Text.v]: the standard library's parsers of integers and of IPv4, IPv6 and socket
      addresses, and the texts it prints for them.
    - [Aes.v], [Instances.v]: instances of these: AES-128 of FIPS 197, checked on
      its test vectors, a generator that replays a tape, connection IDs as bytes.
    - [Auth.v], [AuthTheorems.v]: [src/auth.rs], tokens: [tag], [assemble], [mint],
      [verify], [constant_time_eq], and the theorems on them.
    - [Datagram.v]: [src/auth.rs], [destination_cid] and [Authenticator::check],
      behind the interface [InboundFilter] that the receive path is proved against.
    - [CidGenerator.v]: [src/auth.rs], [AuthCidGenerator] and
      [initial_dst_cid_provider].
    - [Socket.v], [Sender.v], [SocketTheorems.v]: [src/socket.rs], the counters,
      [poll_recv] and its two loops, [try_send] and [poll_send].
    - [Readiness.v], [Writability.v]: [src/socket.rs], the same loops on a socket
      object with a readiness flag, a backlog and wakers, an interface with the laws
      Tokio documents, and several [PacketSender]s on one socket.
    - [Atomics.v]: [src/socket.rs], the counters again, as atomic cells that polls on
      several threads add to and that [counts] reads one by one.
    - [Ping.v], [Endpoint.v]: [src/lib.rs], the ping protocol over an interface of
      reliable streams; configurations and endpoints over an interface of the TLS
      libraries, with the process-wide TLS provider as state.
    - [EchoTasks.v]: [src/lib.rs], the echo server as it is spawned: the accept loop,
      a task per connection and a task per stream, under any schedule.
    - [Float64.v], [Client.v]: [src/bin/client.rs], start-up, the ping loop and the
      summary, with the binary64 operations the binaries use.
    - [Server.v]: [src/bin/server.rs], start-up and the end of [main].
    - [System.v]: client and server together, as a step relation over any
      interleaving of what Quinn asks of them, with an unconstrained network.
    - [Runtime.v]: client and server on the socket objects of [Readiness.v] and
      [Writability.v], with arrivals as steps, and the simulation of these runs by
      those of [System.v].
    - [FilterService.v]: the contract of the whole crate as an abstract machine that
      handles one datagram at a time, and the simulation of [System.v] by it.
    - [Conversation.v]: the runs of [System.v] in which Quinn addresses its datagrams
      with the connection IDs it was given, against any network.
    - [Binaries.v]: the two [main]s from their arguments to their end, with the files,
      addresses and names they hand out and the lines they print, and the default
      arguments.
    - [SplitMix.v], [Blaster.v], [BlasterTheorems.v]: [src/bin/blaster.rs], the
      generator, the packet template, the sender loop with its pacing, the plan of a
      run and the throughput report.
    - [BlasterThreads.v]: [src/bin/blaster.rs], a whole run: [main], the reporter and
      the workers as threads, with every access to what they share a step of its own.
    - [CommandLine.v]: the [Args] of the three binaries, from the texts of the options to
      the arguments.
    - [UnitTests.v]: the [#[test]] functions of the three files that have some.
    - [IntegrationTests.v]: [tests/echo.rs], the set-up of the end-to-end tests, the
      datagrams they forge and the pings they echo.

    ** How it is modelled

    A function that can panic (an index, an [expect], an assertion) has result type
    [exec]; a fallible one returns [result]. Mutable state is passed explicitly.
    What the operating system, Tokio and Quinn answer is input: a loop that asks
    them repeatedly takes the list of their answers, in the order of asking, and the
    theorems quantify over all such lists, so over every interleaving of arrivals,
    errors and wake-ups; when a list runs out the answer is [Pending] or
    [WouldBlock]. Recursion is structural, on these lists or on the data. Fuel is used
    in [chunks_of], where the length of the slice is enough because each chunk is
    non-empty, and for the loops on a socket object, which nothing in the code
    bounds: [Readiness.v] proves that 2n + 2 rounds are enough for a receiving poll
    with n arrivals waiting, which is what the steps of [Runtime.v] take, and [Writability.v] that two are for a sending one, on
    sockets that behave as documented. The atomic counters wrap at 2^64, as
    [fetch_add] does, and so do the other 64-bit additions, as in a release build.
    Durations are nanoseconds, and overflowing one panics. One receiving or sending
    poll is one step of the system; that this loses nothing, because the additions of
    concurrent polls commute, is a theorem of [Atomics.v]. Memory is sequentially
    consistent: the cells are only added to and read one at a time, and no theorem
    relates the orders in which two cells change.

    ** What is proved

    - Tokens: [verify] accepts exactly what [assemble] makes for the same direction
      and path and each of its errors has its exact cause; minted tokens verify on
      their path and in no case for the other direction; corrupting a byte or
      changing an address invalidates a token up to a collision of the truncated
      cipher output, and the number of accepted tokens and paths is bounded. The
      cipher is only assumed to be a permutation for each key: nothing is claimed
      about how hard a tag is to guess.
    - Filter: the parser finds the ID exactly in the two QUIC header forms, and the
      filter passes exactly the datagrams with a token of their path.
    - Generation: the IDs made for a peer, and the client's first one, pass the other
      end's filter; those made without an address bind 0.0.0.0.
    - Socket: one poll hands Quinn exactly the accepted part of what it read, in
      order, a flood of rejected datagrams displaces nothing, errors that may not
      kill the endpoint do not; a transmit is written at most once, and no future is
      polled after its completion.
    - Socket objects: every poll on one is a poll of the list model on its answers; a
      receiving poll returns, [Pending] means that nothing was left unread and the
      task is registered, and a task that polls until then is handed all that was
      accepted; senders on one socket never lose each other's registrations.
    - Counters under concurrency: any interleaving of the additions of concurrent
      polls ends as the polls one after the other would; what [counts] returns in
      between is bounded count by count, but not consistent across counts.
    - System: over whole runs, genuine traffic is never rejected, nothing else
      reaches Quinn unless validation is off, the counters are exact, the data stays well-formed and nothing
      panics; and every run is one of the abstract service, which judges each
      datagram by itself. When Quinn uses the IDs it was given, each side's Quinn is
      handed exactly what the other wrote, and a client that arrives from another
      address than it mints for is cut off.
    - Programs on sockets: their runs are runs of the system; and whenever the server's
      receiving task is driven until it has to wait, Quinn has been handed exactly the
      authentic part of everything that ever arrived, or all of it without validation.
    - Echo server: every schedule of its tasks is bounded and ends as the sequential
      reading of the code does, no stream waits for another, and what is printed is
      one line for each failed stream.
    - Ping, client, server: payloads and echoes round-trip, a run with a count ends
      after that many pings with every one accounted for, the summary is in order,
      both binaries start only in settings where filter and generator name the
      address the socket is bound to, their configurations agree in whatever order
      they are built, they shut down in order, and their defaults fit together.
    - Blaster: which sizes give a template, that it is a QUIC Initial, that only the
      connection ID changes and never repeats within 2^64 packets, that its datagrams
      reach the tag check, that pacing keeps the asked rate in spite of its
      floating-point arithmetic; and for whole runs, that a worker among others is
      the sequential one, that a stopped run ends within a bounded number of steps,
      that its summary is exact and that the reporter's subtractions do not overflow.
    - Command lines: the parser of IPv4 addresses reads exactly what is printed, numbers
      and addresses that are read are in range, absent options give the defaults, and
      what the blaster does is settled for every command line that is accepted.
    - Unit tests: which of them pass for every random draw, and that the others fail
      exactly when two truncated cipher blocks coincide.
    - Integration tests: what the assertions on the counts depend on: the test of the
      forged packets fails only if they were not all read, those of tokens for another
      address only if these were not read or on a collision; payloads of
      all tested sizes, concurrent pings and clients that come and go are served
      under every schedule; and the assertions on the counts hold exactly when
      datagrams moved.

    ** What is not modelled

    Quinn, Tokio, rustls, rcgen, aes and rand are interfaces or inputs. The wording of
    what is printed is left out (what is printed where is modelled as values and
    actions), as are the splitting of a command line into options, the value parsers of
    paths and strings, the help texts and the error messages, which are clap's, and the
    scope of an IPv6 address;
    weak-memory effects beyond interleaving; the time a deadline
    takes, which is a step that may happen at any moment; Tokio's cooperative budget,
    under which a ready socket may answer [Pending] once and wake the task itself, and
    [writable()] futures that complete although the socket is no longer writable, which
    would cost a sending poll further rounds;
    the handshake, retransmissions and time-outs the integration tests wait for; the
    scripts and the documents. *)

From Stdlib Require Export ZArith Lia.
From Stdlib Require Strings.Byte.
From Stdlib Require Strings.String.
Export (notations) String.
From stdpp Require Export prelude list numbers option finite.

(** Text as Rust has it: a [String] is its bytes. *)
Definition str (s : String.string) : list Byte.byte := String.list_byte_of_string s.
Arguments str s%_string.

(** ** Panics and results

    A Rust call either returns a value or unwinds with a panic; [exec] keeps the
    two apart, and [result] is [std::result::Result]. *)
Inductive exec (A : Type) : Type :=
| Done (a : A)
| Panic.
Arguments Done {A} a.
Arguments Panic {A}.

Inductive result (A E : Type) : Type :=
| Ok (a : A)
| Err (e : E).
Arguments Ok {A E} a.
Arguments Err {A E} e.

(** [std::task::Poll]. *)
Inductive poll (A : Type) : Type :=
| Ready (a : A)
| Pending.
Arguments Ready {A} a.
Arguments Pending {A}.

#[export] Instance exec_ret : MRet exec := fun A a => Done a.
#[export] Instance exec_bind : MBind exec :=
  fun A B f m => match m with Done a => f a | Panic => Panic end.

#[export] Instance exec_eq_dec `{EqDecision A} : EqDecision (exec A).
Proof. solve_decision. Defined.
#[export] Instance result_eq_dec `{EqDecision A, EqDecision E} : EqDecision (result A E).
Proof. solve_decision. Defined.
#[export] Instance poll_eq_dec `{EqDecision A} : EqDecision (poll A).
Proof. solve_decision. Defined.

(** [is_ok] and [is_err] of the standard library. *)
Definition is_ok {A E} (r : result A E) : bool :=
  match r with Ok _ => true | Err _ => false end.
Definition is_err {A E} (r : result A E) : bool := negb (is_ok r).

(** [assert!]. *)
Definition rust_assert (b : bool) : exec unit := if b then Done tt else Panic.

(** [Option::expect]. *)
Definition expect {A} (o : option A) : exec A :=
  match o with Some a => Done a | None => Panic end.

(** ** Bytes *)
Abbreviation byte := Corelib.Init.Byte.byte.

#[export] Instance byte_eq_dec : EqDecision byte := Byte.byte_eq_dec.

(** The value of a byte, and the [as u8] cast that keeps the low eight bits. *)
Definition u8_Z (b : byte) : Z := Z.of_N (Byte.to_N b).
Definition Z_u8 (z : Z) : byte :=
  match Byte.of_N (Z.to_N (z mod 256)) with Some b => b | None => Byte.x00 end.

Definition u8_xor (a b : byte) : byte := Z_u8 (Z.lxor (u8_Z a) (u8_Z b)).
Definition u8_or (a b : byte) : byte := Z_u8 (Z.lor (u8_Z a) (u8_Z b)).

(** A list of byte literals. *)
Definition bytes_of (l : list Z) : list byte := map Z_u8 l.

Definition all_bytes : list byte := map (fun n => Z_u8 (Z.of_nat n)) (seq 0 256).

(** ** Fixed-width unsigned integers *)
Definition wrap (w z : Z) : Z := z mod 2 ^ w.
Definition u64_wrapping_add (a b : Z) : Z := wrap 64 (a + b).
Definition u64_wrapping_mul (a b : Z) : Z := wrap 64 (a * b).
Definition is_u64 (z : Z) : Prop := (0 <= z < 2 ^ 64)%Z.

(** [to_be_bytes] and [from_be_bytes] of an [n]-byte unsigned integer, and the
    little-endian pair. *)
Fixpoint to_le_bytes (n : nat) (z : Z) : list byte :=
  match n with
  | O => []
  | S n' => Z_u8 z :: to_le_bytes n' (z / 256)
  end.
Fixpoint from_le_bytes (l : list byte) : Z :=
  match l with
  | [] => 0
  | b :: l' => u8_Z b + 256 * from_le_bytes l'
  end%Z.
Definition to_be_bytes (n : nat) (z : Z) : list byte := rev (to_le_bytes n z).
Definition from_be_bytes (l : list byte) : Z := from_le_bytes (rev l).

(** ** Slices *)

(** [slice.get(a..b)]. *)
Definition get_range {A} (l : list A) (a b : nat) : option (list A) :=
  if (a <=? b) && (b <=? length l) then Some (take (b - a) (drop a l)) else None.

(** [slice[a..b]], which panics out of range. *)
Definition index_range {A} (l : list A) (a b : nat) : exec (list A) :=
  expect (get_range l a b).

(** [dst[a..b].copy_from_slice(src)]: panics when the range is out of bounds and
    when the two slices differ in length. *)
Definition copy_range {A} (dst : list A) (a b : nat) (src : list A) : exec (list A) :=
  d ← index_range dst a b;
  if length d =? length src then Done (take a dst ++ src ++ drop b dst) else Panic.

(** [slice.chunks(n)]: panics on zero. The recursion is bounded by the length. *)
Fixpoint chunks_of {A} (fuel n : nat) (l : list A) : list (list A) :=
  match fuel, l with
  | O, _ | _, [] => []
  | S fuel', _ => take n l :: chunks_of fuel' n (drop n l)
  end.
Definition chunks {A} (n : nat) (l : list A) : exec (list (list A)) :=
  if n =? 0 then Panic else Done (chunks_of (length l) n l).

(** [Vec::resize]. *)
Definition resize {A} (l : list A) (n : nat) (x : A) : list A :=
  take n l ++ replicate (n - length l) x.

(** All lists of [n] bytes, for the counting arguments. *)
Fixpoint all_lists (n : nat) : list (list byte) :=
  match n with
  | O => [[]]
  | S n' => flat_map (fun b => map (cons b) (all_lists n')) all_bytes
  end.

(** ** Automation

    [pktauth] holds the length and range facts every component needs; [bytes]
    rewrites byte conversions to normal form and [len] the lengths of byte
    strings. [run] evaluates the panic monad, [solve_len] closes goals about
    lengths. *)
Create HintDb pktauth.
Create Rewrite HintDb bytes.
Create Rewrite HintDb len.

Ltac run := cbn [mbind exec_bind mret exec_ret expect rust_assert is_ok is_err negb].

#[export] Hint Rewrite @length_app @length_take @length_drop @length_replicate @length_insert
  @length_map @length_rev : len.

Ltac solve_len :=
  cbn [length]; autorewrite with len; auto with pktauth; try lia.

(** ** Lemmas on bytes *)

Lemma u8_Z_range b : (0 <= u8_Z b < 256)%Z.
Proof. unfold u8_Z. pose proof (Byte.to_N_bounded b). lia. Qed.

Lemma u8_Z_of z : u8_Z (Z_u8 z) = (z mod 256)%Z.
Proof.
  unfold u8_Z, Z_u8. pose proof (Z.mod_pos_bound z 256 eq_refl).
  destruct (Byte.of_N _) as [b|] eqn:E.
  - apply Byte.to_of_N in E. lia.
  - apply Byte.of_N_None_iff in E. lia.
Qed.

Lemma u8_Z_inj a b : u8_Z a = u8_Z b → a = b.
Proof.
  unfold u8_Z. intros E%N2Z.inj.
  pose proof (Byte.of_to_N a) as Ha. rewrite E, Byte.of_to_N in Ha. congruence.
Qed.

Lemma Z_u8_of b : Z_u8 (u8_Z b) = b.
Proof.
  apply u8_Z_inj. rewrite u8_Z_of. apply Z.mod_small, u8_Z_range.
Qed.

Lemma Z_u8_mod z : Z_u8 (z mod 256) = Z_u8 z.
Proof. unfold Z_u8. by rewrite Z.mod_mod. Qed.

#[export] Hint Resolve u8_Z_range : pktauth.
#[export] Hint Rewrite u8_Z_of Z_u8_of Z_u8_mod : bytes.

(** A range of the form [0, 2^w) is closed under the bit operations. *)
Lemma lxor_bound w a b : (0 <= w → 0 <= a < 2 ^ w → 0 <= b < 2 ^ w → 0 <= Z.lxor a b < 2 ^ w)%Z.
Proof.
  intros Hw Ha Hb.
  rewrite <- (Z.mod_small a (2 ^ w)), <- (Z.mod_small b (2 ^ w)), <- !Z.land_ones by done.
  replace (Z.lxor _ _) with (Z.land (Z.lxor a b) (Z.ones w)).
  - rewrite Z.land_ones by done. apply Z.mod_pos_bound. lia.
  - apply Z.bits_inj'. intros i _. rewrite !Z.land_spec, !Z.lxor_spec, !Z.land_spec.
    by destruct (Z.testbit a i), (Z.testbit b i), (Z.testbit (Z.ones w) i).
Qed.

Lemma lor_bound w a b : (0 <= w → 0 <= a < 2 ^ w → 0 <= b < 2 ^ w → 0 <= Z.lor a b < 2 ^ w)%Z.
Proof.
  intros Hw Ha Hb.
  rewrite <- (Z.mod_small a (2 ^ w)), <- (Z.mod_small b (2 ^ w)), <- !Z.land_ones by done.
  rewrite <- Z.land_lor_distr_l, Z.land_ones by done. apply Z.mod_pos_bound. lia.
Qed.

Lemma u8_xor_Z a b : u8_Z (u8_xor a b) = Z.lxor (u8_Z a) (u8_Z b).
Proof.
  unfold u8_xor. rewrite u8_Z_of. apply Z.mod_small, (lxor_bound 8); auto with pktauth; lia.
Qed.

Lemma u8_or_Z a b : u8_Z (u8_or a b) = Z.lor (u8_Z a) (u8_Z b).
Proof.
  unfold u8_or. rewrite u8_Z_of. apply Z.mod_small, (lor_bound 8); auto with pktauth; lia.
Qed.

Lemma u8_xor_comm a b : u8_xor a b = u8_xor b a.
Proof. apply u8_Z_inj. rewrite !u8_xor_Z. apply Z.lxor_comm. Qed.

Lemma u8_xor_assoc a b c : u8_xor (u8_xor a b) c = u8_xor a (u8_xor b c).
Proof. apply u8_Z_inj. rewrite !u8_xor_Z. apply Z.lxor_assoc. Qed.

Lemma u8_xor_0_l a : u8_xor Byte.x00 a = a.
Proof. apply u8_Z_inj. rewrite u8_xor_Z. apply Z.lxor_0_l. Qed.

Lemma u8_xor_nilpotent a : u8_xor a a = Byte.x00.
Proof. apply u8_Z_inj. rewrite u8_xor_Z. apply Z.lxor_nilpotent. Qed.

Lemma u8_xor_cancel a b : u8_xor (u8_xor a b) b = a.
Proof. by rewrite u8_xor_assoc, u8_xor_nilpotent, u8_xor_comm, u8_xor_0_l. Qed.

Lemma u8_xor_eq_0 a b : u8_xor a b = Byte.x00 ↔ a = b.
Proof.
  split; [intros H | intros ->; apply u8_xor_nilpotent].
  rewrite <- (u8_xor_cancel a b), H. apply u8_xor_0_l.
Qed.

Lemma u8_or_eq_0 a b : u8_or a b = Byte.x00 ↔ a = Byte.x00 ∧ b = Byte.x00.
Proof.
  split; [|by intros [-> ->]].
  intros H. apply (f_equal u8_Z) in H. rewrite u8_or_Z in H.
  apply Z.lor_eq_0_iff in H as [Ha Hb]. split; by apply u8_Z_inj.
Qed.

Lemma elem_of_all_bytes b : b ∈ all_bytes.
Proof.
  unfold all_bytes. rewrite list_elem_of_In, in_map_iff.
  exists (Z.to_nat (u8_Z b)). pose proof (u8_Z_range b).
  rewrite Z2Nat.id, Z_u8_of by lia. split; [done|]. apply in_seq. lia.
Qed.

Lemma NoDup_all_bytes : NoDup all_bytes.
Proof. apply (bool_decide_unpack (NoDup all_bytes)). vm_compute. exact I. Qed.

Lemma length_all_bytes : length all_bytes = 256.
Proof. reflexivity. Qed.

(** A decidable property of bytes is checked on the 256 of them. *)
Lemma byte_forall (P : byte → Prop) `{∀ b, Decision (P b)} :
  forallb (fun b => bool_decide (P b)) all_bytes = true → ∀ b, P b.
Proof.
  intros Hall b. eapply forallb_forall in Hall; [by apply bool_decide_eq_true in Hall|].
  apply list_elem_of_In, elem_of_all_bytes.
Qed.

Lemma byte_forall2 (P : byte → byte → Prop) `{∀ a b, Decision (P a b)} :
  forallb (fun a => forallb (fun b => bool_decide (P a b)) all_bytes) all_bytes = true →
  ∀ a b, P a b.
Proof.
  intros Hall a. apply (byte_forall (P a)). eapply forallb_forall in Hall; [exact Hall|].
  apply list_elem_of_In, elem_of_all_bytes.
Qed.

Ltac by_bytes :=
  lazymatch goal with
  | |- ∀ a b : byte, @?P a b => unshelve refine (@byte_forall2 P _ _)
  | |- ∀ b : byte, @?P b => unshelve refine (@byte_forall P _ _)
  end;
  first [solve [intros; cbv beta; apply _] | vm_compute; reflexivity].

(** ** Lemmas on 64-bit integers *)

Lemma wrap_small z : is_u64 z → wrap 64 z = z.
Proof. apply Z.mod_small. Qed.

Lemma wrap_add_l a b : wrap 64 (wrap 64 a + b) = wrap 64 (a + b).
Proof. unfold wrap. by rewrite Zplus_mod_idemp_l. Qed.

Lemma wrap_u64 z : is_u64 (wrap 64 z).
Proof. apply Z.mod_pos_bound. done. Qed.

#[export] Hint Resolve wrap_u64 : pktauth.

Lemma wrap_eq a b : wrap 64 a = wrap 64 b ↔ (2 ^ 64 | a - b)%Z.
Proof.
  unfold wrap. rewrite <- Z.mod_divide by lia. split; intros E.
  - by rewrite Zminus_mod, E, Z.sub_diag.
  - rewrite <- (Z.sub_add b a), Zplus_mod, E, Z.add_0_l. apply Z.mod_mod. lia.
Qed.

(** ** Counting *)

Lemma elem_of_all_lists n l : l ∈ all_lists n ↔ length l = n.
Proof.
  revert l. induction n as [|n IH]; intros l; cbn [all_lists].
  - rewrite list_elem_of_singleton. by rewrite length_zero_iff_nil.
  - rewrite list_elem_of_In, in_flat_map. split.
    + intros (b & _ & (l' & <- & Hl')%in_map_iff). cbn. f_equal. by apply IH, list_elem_of_In.
    + destruct l as [|b l']; [done|]. intros [= Hl]. exists b. split.
      { apply list_elem_of_In, elem_of_all_bytes. }
      apply in_map, list_elem_of_In, IH, Hl.
Qed.

Lemma NoDup_flat_map_cons (bs : list byte) (ls : list (list byte)) :
  NoDup bs → NoDup ls → NoDup (flat_map (fun b => map (cons b) ls) bs).
Proof.
  intros Hbs Hls. induction Hbs as [|b bs Hb _ IH]; cbn [flat_map]; [constructor|].
  apply NoDup_app. split; [|split].
  - apply NoDup_fmap_2; [intros ?? [=]; done|done].
  - intros l [l' [-> _]]%list_elem_of_fmap Hin.
    apply list_elem_of_In, in_flat_map in Hin as (b' & Hb' & Hin).
    apply in_map_iff in Hin as (l'' & [= -> ->] & _).
    by apply Hb, list_elem_of_In.
  - done.
Qed.

Lemma NoDup_all_lists n : NoDup (all_lists n).
Proof.
  induction n as [|n IH]; cbn [all_lists].
  - apply NoDup_singleton.
  - apply NoDup_flat_map_cons; [apply NoDup_all_bytes|done].
Qed.

Lemma length_flat_map_cons (bs : list byte) (ls : list (list byte)) :
  length (flat_map (fun b => map (cons b) ls) bs) = length bs * length ls.
Proof.
  induction bs as [|b bs IH]; cbn [flat_map]; [done|].
  rewrite length_app, IH, length_map. done.
Qed.

Lemma length_all_lists n : Z.of_nat (length (all_lists n)) = (256 ^ Z.of_nat n)%Z.
Proof.
  induction n as [|n IH]; cbn [all_lists]; [done|].
  rewrite length_flat_map_cons, Nat2Z.inj_mul, IH, length_all_bytes, (Nat2Z.inj_succ n), Z.pow_succ_r; lia.
Qed.

(** An injection bounds the length of a duplicate-free list. *)
Lemma NoDup_inj_length {A B} (f : A → B) (l : list A) (m : list B) :
  NoDup l → (∀ x, x ∈ l → f x ∈ m) →
  (∀ x y, x ∈ l → y ∈ l → f x = f y → x = y) → length l ≤ length m.
Proof.
  intros Hl Hin Hinj. rewrite <- (length_fmap f l).
  apply submseteq_length, NoDup_submseteq.
  - by apply NoDup_fmap_2_strong.
  - intros y (x & -> & Hx)%list_elem_of_fmap. by apply Hin.
Qed.

(** ** Endianness *)

Lemma length_to_le_bytes n z : length (to_le_bytes n z) = n.
Proof. revert z. induction n as [|n IH]; intros z; cbn; auto. Qed.

Lemma length_to_be_bytes n z : length (to_be_bytes n z) = n.
Proof. unfold to_be_bytes. rewrite length_rev. apply length_to_le_bytes. Qed.

#[export] Hint Resolve length_to_le_bytes length_to_be_bytes : pktauth.
#[export] Hint Rewrite length_to_le_bytes length_to_be_bytes : len.

Lemma from_to_le_bytes n z : from_le_bytes (to_le_bytes n z) = (z mod 256 ^ Z.of_nat n)%Z.
Proof.
  revert z. induction n as [|n IH]; intros z; cbn [to_le_bytes from_le_bytes].
  - by rewrite Z.pow_0_r, Z.mod_1_r.
  - rewrite IH, u8_Z_of, (Nat2Z.inj_succ n), Z.pow_succ_r by lia.
    by rewrite Z.rem_mul_r by lia.
Qed.

Lemma to_from_le_bytes l : to_le_bytes (length l) (from_le_bytes l) = l.
Proof.
  induction l as [|b l IH]; cbn [length to_le_bytes from_le_bytes]; [done|].
  pose proof (u8_Z_range b). f_equal.
  - rewrite <- Z_u8_mod, (Z.mul_comm 256), Z.mod_add, Z_u8_mod by lia. apply Z_u8_of.
  - rewrite (Z.mul_comm 256), Z.div_add, Z.div_small by lia. exact IH.
Qed.

Lemma from_le_bytes_range l : (0 <= from_le_bytes l < 256 ^ Z.of_nat (length l))%Z.
Proof.
  rewrite <- (to_from_le_bytes l) at 1 2. rewrite from_to_le_bytes.
  apply Z.mod_pos_bound. lia.
Qed.

Lemma from_to_be_bytes n z : from_be_bytes (to_be_bytes n z) = (z mod 256 ^ Z.of_nat n)%Z.
Proof. unfold from_be_bytes, to_be_bytes. rewrite rev_involutive. apply from_to_le_bytes. Qed.

Lemma to_from_be_bytes l : to_be_bytes (length l) (from_be_bytes l) = l.
Proof.
  unfold to_be_bytes, from_be_bytes. rewrite <- (length_rev l), to_from_le_bytes.
  apply rev_involutive.
Qed.

Lemma from_be_bytes_range l : (0 <= from_be_bytes l < 256 ^ Z.of_nat (length l))%Z.
Proof. unfold from_be_bytes. rewrite <- (length_rev l). apply from_le_bytes_range. Qed.

Lemma from_be_bytes_inj l1 l2 :
  length l1 = length l2 → from_be_bytes l1 = from_be_bytes l2 → l1 = l2.
Proof.
  intros Hlen E. rewrite <- (to_from_be_bytes l1), <- (to_from_be_bytes l2). congruence.
Qed.

Lemma to_le_bytes_inj n a b :
  (0 <= a < 256 ^ Z.of_nat n)%Z → (0 <= b < 256 ^ Z.of_nat n)%Z →
  to_le_bytes n a = to_le_bytes n b → a = b.
Proof.
  intros Ha Hb E%(f_equal from_le_bytes). by rewrite !from_to_le_bytes, !Z.mod_small in E.
Qed.

Lemma to_be_bytes_inj n a b :
  (0 <= a < 256 ^ Z.of_nat n)%Z → (0 <= b < 256 ^ Z.of_nat n)%Z →
  to_be_bytes n a = to_be_bytes n b → a = b.
Proof.
  intros Ha Hb E%(f_equal from_be_bytes). by rewrite !from_to_be_bytes, !Z.mod_small in E.
Qed.

(** ** Slices *)

Section slices.
Context {A : Type}.
Implicit Types l p m s src : list A.

Lemma get_range_Some l a b r :
  get_range l a b = Some r ↔ (a ≤ b ∧ b ≤ length l ∧ r = take (b - a) (drop a l)).
Proof.
  unfold get_range.
  destruct (Nat.leb_spec a b), (Nat.leb_spec b (length l)); cbn; intuition (try congruence; try lia).
Qed.

Lemma get_range_None l a b : get_range l a b = None ↔ b < a ∨ length l < b.
Proof.
  unfold get_range.
  destruct (Nat.leb_spec a b), (Nat.leb_spec b (length l)); cbn; intuition (try congruence; try lia).
Qed.

Lemma get_range_length l a b r : get_range l a b = Some r → length r = b - a.
Proof. intros (Hab & Hb & ->)%get_range_Some. solve_len. Qed.

(** A slice splits the list around it. *)
Lemma get_range_split l a b r :
  get_range l a b = Some r ↔ ∃ p s, l = p ++ r ++ s ∧ length p = a ∧ a + length r = b.
Proof.
  rewrite get_range_Some. split.
  - intros (Hab & Hb & ->). exists (take a l), (drop b l). split; [|solve_len].
    rewrite <- (take_drop a l) at 1. f_equal.
    rewrite <- (take_drop (b - a) (drop a l)) at 1. rewrite drop_drop.
    by replace (a + (b - a)) with b by lia.
  - intros (p & s & -> & <- & <-). split; [lia|]. split; [solve_len|].
    rewrite drop_app_length, Nat.add_comm, Nat.add_sub. by rewrite take_app_length.
Qed.

Lemma get_range_app p m s a b :
  length p = a → a + length m = b → get_range (p ++ m ++ s) a b = Some m.
Proof. intros Hp Hm. apply get_range_split. by exists p, s. Qed.

Lemma get_range_prefix m s b : length m = b → get_range (m ++ s) 0 b = Some m.
Proof. intros <-. by apply (get_range_app [] m s). Qed.

Lemma get_range_full m b : length m = b → get_range m 0 b = Some m.
Proof. intros H. rewrite <- (app_nil_r m) at 1. by apply get_range_prefix. Qed.

(** When the lengths fit, [copy_from_slice] replaces exactly the named range. *)
Lemma copy_range_Done dst a b src :
  a + length src = b → b ≤ length dst →
  copy_range dst a b src = Done (take a dst ++ src ++ drop b dst).
Proof.
  intros Hsrc Hb. unfold copy_range, index_range.
  destruct (get_range dst a b) as [d|] eqn:E.
  - apply get_range_length in E. run. rewrite E.
    by replace (b - a =? length src) with true by (symmetry; apply Nat.eqb_eq; lia).
  - apply get_range_None in E. lia.
Qed.

Lemma copy_range_app p m s src a b :
  length p = a → a + length m = b → length src = length m →
  copy_range (p ++ m ++ s) a b src = Done (p ++ src ++ s).
Proof.
  intros Hp Hm Hsrc. rewrite copy_range_Done by solve_len.
  rewrite take_app_length' by done. rewrite (app_assoc p m s), drop_app_length' by solve_len.
  done.
Qed.

Lemma copy_range_head m s src b :
  length m = b → length src = b → copy_range (m ++ s) 0 b src = Done (src ++ s).
Proof. intros Hm Hs. apply (copy_range_app [] m s); solve_len. Qed.

Lemma copy_range_tail p m src a b :
  length p = a → a + length m = b → length src = length m →
  copy_range (p ++ m) a b src = Done (p ++ src).
Proof.
  intros Hp Hm Hs. pose proof (copy_range_app p m [] src a b Hp Hm Hs) as E.
  by rewrite !app_nil_r in E.
Qed.

Lemma copy_range_full dst src n :
  length dst = n → length src = n → copy_range dst 0 n src = Done src.
Proof.
  intros Hd Hs. rewrite copy_range_Done by lia.
  by rewrite take_0, drop_ge, app_nil_r by lia.
Qed.

Lemma copy_range_length dst a b src r :
  copy_range dst a b src = Done r → length r = length dst.
Proof.
  unfold copy_range, index_range. destruct (get_range dst a b) as [d|] eqn:E; [|done]. run.
  apply get_range_Some in E as (Hab & Hb & ->).
  destruct (Nat.eqb_spec (length (take (b - a) (drop a dst))) (length src)) as [Hl|]; [|done].
  intros [= <-]. rewrite length_take, length_drop in Hl. solve_len.
Qed.
Lemma chunks_of_concat fuel n l : 0 < n → length l ≤ fuel → concat (chunks_of fuel n l) = l.
Proof.
  intros Hn. revert l. induction fuel as [|fuel IH]; intros [|x l] Hl; try done; [cbn in Hl; lia|].
  cbn [chunks_of concat]. rewrite IH, take_drop; [done|]. rewrite length_drop. cbn in *. lia.
Qed.

Lemma chunks_of_bound fuel n l :
  0 < n → Forall (fun seg => 0 < length seg ≤ n) (chunks_of fuel n l).
Proof.
  intros Hn. revert l. induction fuel as [|fuel IH]; intros [|x l]; cbn [chunks_of]; constructor; [|done].
  rewrite length_take. cbn. lia.
Qed.

Lemma take_S_insert l n (x : A) : n < length l → take (S n) (<[n := x]> l) = take n l ++ [x].
Proof.
  intros Hn. rewrite (take_S_r _ _ x) by by apply list_lookup_insert_eq.
  by rewrite take_insert_ge.
Qed.

Lemma resize_ge l n x : length l ≤ n → resize l n x = l ++ replicate (n - length l) x.
Proof. intros Hl. unfold resize. by rewrite take_ge. Qed.
End slices.

(** Equal concatenations with equally long heads. *)
Lemma app_eq_length {A} (l1 l2 k1 k2 : list A) :
  length l1 = length l2 → l1 ++ k1 = l2 ++ k2 → l1 = l2 ∧ k1 = k2.
Proof. intros H E. by apply app_inj_1 in E. Qed.

Ltac app_cut H :=
  apply app_eq_length in H; [destruct H as [? H] | solve [solve_len | congruence]].
