(* ===== verification/Interfaces.v ===== *)
(** * Interfaces to the code outside the crate

    What pktauth uses of the standard library's network types, and the
    third-party code it calls as type classes: the [aes] crate's block cipher,
    the [rand] crate's generator, and the connection IDs of Quinn. Each class of
    operations comes with a class of laws that states the documented behaviour
    the crate relies on; the components are proved against these classes. *)

From S2P Require Import Prelude.

(** ** Addresses ([std::net]) *)

Record Ipv4Addr := Ipv4 { ip_a : byte; ip_b : byte; ip_c : byte; ip_d : byte }.

(** [Ipv4Addr::octets]. *)
Definition octets (ip : Ipv4Addr) : list byte := [ip_a ip; ip_b ip; ip_c ip; ip_d ip].

(** [Ipv4Addr::new]. *)
Definition ipv4 (a b c d : Z) : Ipv4Addr := Ipv4 (Z_u8 a) (Z_u8 b) (Z_u8 c) (Z_u8 d).

(** [Ipv4Addr::UNSPECIFIED] and [is_unspecified]. *)
Definition UNSPECIFIED : Ipv4Addr := ipv4 0 0 0 0.

#[export] Instance Ipv4Addr_eq_dec : EqDecision Ipv4Addr.
Proof. solve_decision. Defined.

Definition is_unspecified (ip : Ipv4Addr) : bool := bool_decide (ip = UNSPECIFIED).

(** An IPv6 address is its 128-bit value; the crate only ever refuses it. *)
Inductive IpAddr :=
| V4 (ip : Ipv4Addr)
| V6 (bits : Z).

#[export] Instance IpAddr_eq_dec : EqDecision IpAddr.
Proof. solve_decision. Defined.

Record SocketAddr := mkSocketAddr { sock_ip : IpAddr; sock_port : Z }.

#[export] Instance SocketAddr_eq_dec : EqDecision SocketAddr.
Proof. solve_decision. Defined.

(** The kinds of [std::io::Error] the crate distinguishes; [OtherIo] stands for
    every other kind. *)
Inductive ErrorKind :=
| WouldBlock
| ConnectionRefused
| ConnectionReset
| HostUnreachable
| NetworkUnreachable
| OtherIo (code : Z).

#[export] Instance ErrorKind_eq_dec : EqDecision ErrorKind.
Proof. solve_decision. Defined.

(** The bytes reported by the successful ones among the outcomes of sends. *)
Definition sum_ok (l : list (result nat ErrorKind)) : Z :=
  foldr (fun r n => match r with Ok k => Z.of_nat k + n | Err _ => n end)%Z 0%Z l.

Lemma sum_ok_app u1 u2 : sum_ok (u1 ++ u2) = (sum_ok u1 + sum_ok u2)%Z.
Proof.
  unfold sum_ok. induction u1 as [|[k|e] u1 IH]; cbn [app foldr]; [done|rewrite IH; lia|done].
Qed.

Lemma length_octets ip : length (octets ip) = 4.
Proof. done. Qed.

#[export] Hint Resolve length_octets : pktauth.
#[export] Hint Rewrite length_octets : len.

Lemma octets_inj a b : octets a = octets b → a = b.
Proof. destruct a, b. unfold octets; cbn. congruence. Qed.

(** ** The block cipher ([aes::Aes128]) *)

(** [Aes128::new(key).encrypt_block(block)]. *)
Class BlockCipher := { encrypt_block : list byte → list byte → list byte }.

(** A 128-bit block cipher is, for each 16-byte key, a permutation of the
    16-byte blocks. *)
Class BlockCipherLaws `{BlockCipher} : Prop := {
  encrypt_block_length key m :
    length key = 16 → length m = 16 → length (encrypt_block key m) = 16;
  encrypt_block_inj key m1 m2 :
    length key = 16 → length m1 = 16 → length m2 = 16 →
    encrypt_block key m1 = encrypt_block key m2 → m1 = m2
}.

(** ** The random number generator ([rand::rng()]) *)

Class Rng := { rng : Type; fill_bytes : nat → rng → list byte * rng }.

(** [fill_bytes] fills the whole buffer it is given. *)
Class RngLaws `{Rng} : Prop := {
  fill_bytes_length n g : length (fill_bytes n g).1 = n
}.

(** ** Connection IDs ([quinn::ConnectionId]) *)

Class QuinnCid := {
  ConnectionId : Type;
  ConnectionId_new : list byte → ConnectionId;
  ConnectionId_bytes : ConnectionId → list byte
}.

(** A connection ID made from at most 20 bytes dereferences to those bytes. *)
Class QuinnCidLaws `{QuinnCid} : Prop := {
  ConnectionId_bytes_new b : length b ≤ 20 → ConnectionId_bytes (ConnectionId_new b) = b
}.

(** [quinn::ConnectionIdGenerator], with [&mut self] passed as state [S]. *)
Class ConnectionIdGenerator `{QuinnCid, Rng} (S : Type) := {
  generate_cid : S → rng → exec (ConnectionId * S * rng);
  generate_cid_for : S → SocketAddr → option IpAddr → rng → exec (ConnectionId * S * rng);
  cid_len : S → nat;
  cid_lifetime : S → option Z
}.
