(* ===== verification/Text.v ===== *)
(** * Text of numbers and addresses ([std])

    What the binaries' arguments go through on their way from the command line: the
    standard library's parsers of integers and socket addresses, and the texts it
    prints for them. A parser takes the text and returns its result with what is
    left of the text. *)

From stdpp Require Import pretty.
From S2P Require Import Prelude Interfaces.

Local Open Scope Z_scope.

(** ** Digits *)

(** [char::to_digit]. *)
Definition to_digit (radix : Z) (b : byte) : option Z :=
  let z := u8_Z b in
  let d := if (48 <=? z) && (z <=? 57) then z - 48
           else if (97 <=? z) && (z <=? 122) then z - 87
           else if (65 <=? z) && (z <=? 90) then z - 55
           else radix in
  if d <? radix then Some d else None.

(** All leading digits. *)
Fixpoint read_digits (radix : Z) (s : list byte) : list Z * list byte :=
  match s with
  | [] => ([], [])
  | b :: s' =>
      match to_digit radix b with
      | Some d => let '(ds, rest) := read_digits radix s' in (d :: ds, rest)
      | None => ([], s)
      end
  end.

(** The number they stand for. *)
Definition number (radix : Z) (ds : list Z) : Z := foldl (fun n d => n * radix + d)%Z 0%Z ds.

(** ** Integers *)

Definition u64_MAX : Z := 2 ^ 64 - 1.

(** [u64::from_str], and [usize::from_str] on a 64-bit machine. *)
Definition u64_from_str (s : list byte) : option Z :=
  let s := match s with b :: s' => if bool_decide (b = Byte.x2b) then s' else s | [] => s end in
  match read_digits 10 s with
  | ([], _) | (_, _ :: _) => None
  | (ds, []) => if number 10 ds <=? u64_MAX then Some (number 10 ds) else None
  end.

(** [to_string]. *)
Definition show_u64 (n : Z) : list byte := str (pretty (Z.to_N n)).

(** ** Addresses *)

(** [Parser::read_number] of [std::net]: as many digits as there are, at most
    [max_digits], with or without leading zeros, up to [bound]. *)
Definition read_number (radix : Z) (max_digits : option nat) (allow_zero_prefix : bool) (bound : Z)
    (s : list byte) : option (Z * list byte) :=
  let has_leading_zero := match s with b :: _ => bool_decide (b = Byte.x30) | [] => false end in
  let '(ds, rest) := read_digits radix s in
  if (length ds =? 0)%nat then None
  else if match max_digits with Some m => (m <? length ds)%nat | None => false end then None
  else if negb allow_zero_prefix && has_leading_zero && (1 <? length ds)%nat then None
  else if number radix ds <=? bound then Some (number radix ds, rest)
  else None.

Definition read_given_char (c : byte) (s : list byte) : option (list byte) :=
  match s with b :: s' => if bool_decide (b = c) then Some s' else None | [] => None end.

(** [read_separator]: the separator before every element but the first. *)
Definition read_separator {A} (sep : byte) (index : nat) (inner : list byte → option (A * list byte))
    (s : list byte) : option (A * list byte) :=
  match index with
  | O => inner s
  | S _ => s ← read_given_char sep s; inner s
  end.

Definition DOT : byte := Byte.x2e.
Definition COLON : byte := Byte.x3a.

Definition read_octet (index : nat) : list byte → option (Z * list byte) :=
  read_separator DOT index (read_number 10 (Some 3%nat) false 255).

Definition read_ipv4_addr (s : list byte) : option (Ipv4Addr * list byte) :=
  '(a, s) ← read_octet 0 s;
  '(b, s) ← read_octet 1 s;
  '(c, s) ← read_octet 2 s;
  '(d, s) ← read_octet 3 s;
  Some (ipv4 a b c d, s).

(** The groups of an IPv6 address from number [i] of [limit] on; an IPv4 address may
    stand for the last two. *)
Fixpoint read_groups (n i limit : nat) (s : list byte) : list Z * bool * list byte :=
  match n with
  | O => ([], false, s)
  | S n' =>
      match (if (i <? limit - 1)%nat then read_separator COLON i read_ipv4_addr s else None) with
      | Some (ip, s) =>
          match octets ip with
          | [a; b; c; d] => ([u8_Z a * 256 + u8_Z b; u8_Z c * 256 + u8_Z d], true, s)
          | _ => ([], false, s)
          end
      | None =>
          match read_separator COLON i (read_number 16 (Some 4%nat) true 65535) s with
          | Some (g, s) => let '(gs, v4, s) := read_groups n' (S i) limit s in (g :: gs, v4, s)
          | None => ([], false, s)
          end
      end
  end.

Definition ipv6_of (groups : list Z) : Z := foldl (fun n g => n * 65536 + g)%Z 0%Z groups.

Definition read_ipv6_addr (s : list byte) : option (Z * list byte) :=
  let '(head, head_ipv4, s) := read_groups 8 0 8 s in
  if (length head =? 8)%nat then Some (ipv6_of head, s)
  else if (head_ipv4 : bool) then None
  else
    s ← read_given_char COLON s;
    s ← read_given_char COLON s;
    let limit := (8 - (length head + 1))%nat in
    let '(tail, _, s) := read_groups limit 0 limit s in
    Some (ipv6_of (head ++ replicate (8 - length head - length tail) 0%Z ++ tail), s).

Definition read_port (s : list byte) : option (Z * list byte) :=
  s ← read_given_char COLON s;
  read_number 10 None true 65535 s.

Definition read_socket_addr_v4 (s : list byte) : option (SocketAddr * list byte) :=
  '(ip, s) ← read_ipv4_addr s;
  '(port, s) ← read_port s;
  Some (mkSocketAddr (V4 ip) port, s).

(** The scope, which the model of an address leaves out. *)
Definition read_scope_id (s : list byte) : list byte :=
  match (s ← read_given_char Byte.x25 s; read_number 10 None true (2 ^ 32 - 1) s) with
  | Some (_, s) => s
  | None => s
  end.

Definition read_socket_addr_v6 (s : list byte) : option (SocketAddr * list byte) :=
  s ← read_given_char Byte.x5b s;
  '(ip, s) ← read_ipv6_addr s;
  s ← read_given_char Byte.x5d (read_scope_id s);
  '(port, s) ← read_port s;
  Some (mkSocketAddr (V6 ip) port, s).

(** [parse_with]: nothing may be left over. *)
Definition parse_with {A} (inner : list byte → option (A * list byte)) (s : list byte) : option A :=
  match inner s with Some (a, []) => Some a | _ => None end.

Definition Ipv4Addr_from_str (s : list byte) : option Ipv4Addr :=
  if (15 <? length s)%nat then None else parse_with read_ipv4_addr s.

Definition SocketAddr_from_str (s : list byte) : option SocketAddr :=
  parse_with (fun s =>
    match read_socket_addr_v4 s with Some r => Some r | None => read_socket_addr_v6 s end) s.

(** The texts of IPv4 addresses. *)
Definition show_ipv4 (ip : Ipv4Addr) : list byte :=
  show_u64 (u8_Z (ip_a ip)) ++ DOT :: show_u64 (u8_Z (ip_b ip)) ++
  DOT :: show_u64 (u8_Z (ip_c ip)) ++ DOT :: show_u64 (u8_Z (ip_d ip)).

Definition show_socket_v4 (ip : Ipv4Addr) (port : Z) : list byte := show_ipv4 ip ++ COLON :: show_u64 port.

Example ex_parses :
  SocketAddr_from_str (str "127.0.0.1:4433") = Some (mkSocketAddr (V4 (ipv4 127 0 0 1)) 4433) ∧
  SocketAddr_from_str (str "[::1]:04433") = Some (mkSocketAddr (V6 1) 4433) ∧
  SocketAddr_from_str (str "[2001:db8::192.0.2.33%7]:1") = Some (mkSocketAddr (V6 0x20010db80000000000000000c0000221) 1) ∧
  SocketAddr_from_str (str "127.0.0.1") = None ∧ SocketAddr_from_str (str "127.0.0.01:1") = None ∧
  SocketAddr_from_str (str "127.0.0.1:65536") = None ∧ SocketAddr_from_str (str "[1:2:3]:4") = None ∧
  Ipv4Addr_from_str (str "256.0.0.1") = None ∧ Ipv4Addr_from_str (str "10.0.0.2 ") = None ∧
  u64_from_str (str "+18446744073709551615") = Some (2 ^ 64 - 1)%Z ∧
  u64_from_str (str "18446744073709551616") = None ∧ u64_from_str (str "-1") = None ∧ u64_from_str (str "+") = None.
Proof. vm_compute. repeat split. Qed.

(** ** Decimal texts *)

Definition digit_byte (d : Z) : byte := Z_u8 (48 + d).

Definition is_digit (d : Z) : Prop := 0 <= d < 10.

(** Digits without a leading zero; none for zero. *)
Definition trimmed (ds : list Z) : Prop := Forall is_digit ds ∧ head ds ≠ Some 0.

(** The digits printed for a number: its trimmed digits, or a single zero. *)
Definition canonical (ds : list Z) : Prop := ds = [0] ∨ (trimmed ds ∧ ds ≠ []).

(** A digit is one of ten numbers. *)
Lemma digit_cases d : is_digit d → ∃ k : nat, (k < 10)%nat ∧ d = Z.of_nat k.
Proof. unfold is_digit. intros H. exists (Z.to_nat d). lia. Qed.

Lemma to_digit_Some b d : to_digit 10 b = Some d ↔ b = digit_byte d ∧ is_digit d.
Proof.
  split.
  - revert b d. enough (∀ b, match to_digit 10 b with
      | Some d => b = digit_byte d ∧ is_digit d | None => True end) as Hall.
    { intros b d E. specialize (Hall b). by rewrite E in Hall. }
    unfold is_digit. intros b. destruct b; vm_compute; split; (reflexivity || (split; congruence)).
  - intros [-> Hd]. destruct (digit_cases d Hd) as (k & Hk & ->).
    do 10 (destruct k as [|k]; [reflexivity|]). lia.
Qed.

Lemma read_digits_app ds rest :
  Forall is_digit ds → match rest with [] => True | b :: _ => to_digit 10 b = None end →
  read_digits 10 (map digit_byte ds ++ rest) = (ds, rest).
Proof.
  intros Hds Hr. induction Hds as [|d ds Hd _ IH]; cbn [map app read_digits].
  - destruct rest as [|b rest]; [done|]. cbn [read_digits]. by rewrite Hr.
  - rewrite (proj2 (to_digit_Some _ _) (conj eq_refl Hd)), IH. done.
Qed.

Lemma read_digits_inv s ds rest :
  read_digits 10 s = (ds, rest) → s = map digit_byte ds ++ rest ∧ Forall is_digit ds.
Proof.
  revert ds rest. induction s as [|b s IH]; intros ds rest; cbn [read_digits]; [by intros [= <- <-]|].
  destruct (to_digit 10 b) as [d|] eqn:E; [|by intros [= <- <-]].
  apply to_digit_Some in E as [-> Hd]. destruct (read_digits 10 s) as [ds' rest'].
  destruct (IH _ _ eq_refl) as [-> Hds]. intros [= <- <-]. split; [done|by constructor].
Qed.

Lemma number_snoc ds d : number 10 (ds ++ [d]) = number 10 ds * 10 + d.
Proof. unfold number. by rewrite foldl_app. Qed.

Lemma trimmed_snoc ds d : trimmed (ds ++ [d]) → trimmed ds ∧ is_digit d ∧ (ds = [] → d ≠ 0).
Proof.
  intros [[Hds Hd%Forall_inv]%Forall_app Hh]. split; [split; [done|]|split; [done|]].
  - by destruct ds.
  - intros ->. cbn in Hh. congruence.
Qed.

Lemma number_pos ds : trimmed ds → 0 <= number 10 ds ∧ (ds ≠ [] → 0 < number 10 ds).
Proof.
  induction ds as [|d ds IH] using rev_ind; [done|]. intros (Ht & Hd & Hne)%trimmed_snoc. destruct (IH Ht) as [Hn Hp].
  rewrite number_snoc. unfold is_digit in Hd. split; [lia|]. intros _.
  destruct ds as [|d' ds]; [specialize (Hne eq_refl); cbn; lia|]. specialize (Hp ltac:(done)). lia.
Qed.

Lemma trimmed_inj ds : ∀ ds', trimmed ds → trimmed ds' → number 10 ds = number 10 ds' → ds = ds'.
Proof.
  induction ds as [|d ds IH] using rev_ind; intros ds' Ht Ht' E.
  - destruct ds' as [|x ds']; [done|]. destruct (number_pos _ Ht') as [_ Hp]. specialize (Hp ltac:(done)).
    rewrite <- E in Hp. by cbn in Hp.
  - destruct ds' as [|d' ds' _] using rev_ind.
    + destruct (number_pos _ Ht) as [_ Hp]. rewrite E in Hp. by specialize (Hp ltac:(by destruct ds)).
    + apply trimmed_snoc in Ht as (Ht & Hd & _). apply trimmed_snoc in Ht' as (Ht' & Hd' & _).
      rewrite !number_snoc in E. unfold is_digit in *.
      assert (number 10 ds = number 10 ds' ∧ d = d') as [En ->] by lia. by rewrite (IH ds' Ht Ht' En).
Qed.

Lemma canonical_inj ds ds' : canonical ds → canonical ds' → number 10 ds = number 10 ds' → ds = ds'.
Proof.
  intros [->|[Ht Hne]] [->|[Ht' Hne']] E; [done|..|by apply trimmed_inj].
  - destruct (number_pos _ Ht') as [_ Hp]. specialize (Hp Hne'). rewrite <- E in Hp. by cbn in Hp.
  - destruct (number_pos _ Ht) as [_ Hp]. specialize (Hp Hne). rewrite E in Hp. by cbn in Hp.
Qed.

Lemma canonical_digits ds : canonical ds → Forall is_digit ds ∧ ds ≠ [].
Proof. intros [->|[[Ht _] Hne]]; [|done]. by split; [repeat constructor|]. Qed.

(** A number below a power of ten has that many digits at most. *)
Lemma trimmed_length ds : trimmed ds → ds ≠ [] → 10 ^ (Z.of_nat (length ds) - 1) <= number 10 ds.
Proof.
  induction ds as [|d ds IH] using rev_ind; [done|]. intros (Ht & Hd & Hz)%trimmed_snoc _. unfold is_digit in Hd.
  rewrite number_snoc, length_app. cbn [length]. destruct ds as [|x ds]; [specialize (Hz eq_refl); cbn; lia|].
  specialize (IH Ht ltac:(done)). replace (Z.of_nat _ - 1) with (Z.succ (Z.of_nat (length (x :: ds)) - 1)) by lia.
  rewrite Z.pow_succ_r by (cbn [length]; lia). lia.
Qed.

(** What [pretty] prints. *)
Lemma pretty_N_go_digits x : ∀ s, ∃ ds, trimmed ds ∧ number 10 ds = Z.of_N x ∧
  str (pretty_N_go x s) = map digit_byte ds ++ str s.
Proof.
  induction (N.lt_wf_0 x) as [x _ IH]. intros s. destruct (decide (x = 0)%N) as [->|Hx].
  - exists []. rewrite pretty_N_go_0. by repeat split.
  - rewrite pretty_N_go_step by lia. pose proof (N.div_mod x 10 ltac:(done)) as Ex. pose proof (N.mod_lt x 10 ltac:(done)) as Hm.
    set (q := (x `div` 10)%N) in *. set (m := (x `mod` 10)%N) in *. clearbody q m.
    destruct (IH q ltac:(lia) (String.String (pretty_N_char m) s)) as (ds & [Hds Hh] & En & ->).
    assert (is_digit (Z.of_N m)) as Hd by (unfold is_digit; lia). exists (ds ++ [Z.of_N m]). split; [split|split].
    + apply Forall_app. split; [done|by constructor].
    + destruct ds as [|d ds]; [|done]. cbn in En |- *. intros [= E0]. lia.
    + rewrite number_snoc, En. lia.
    + rewrite map_app, <- app_assoc. f_equal. unfold str. cbn. f_equal.
      destruct (digit_cases _ Hd) as (k & Hk & Ek). assert (m = N.of_nat k) as -> by lia.
      do 10 (destruct k as [|k]; [reflexivity|]). lia.
Qed.

Lemma show_u64_digits n : 0 <= n → ∃ ds, canonical ds ∧ number 10 ds = n ∧ show_u64 n = map digit_byte ds.
Proof.
  intros Hn. unfold show_u64, pretty, pretty_N. case_decide as H0.
  - exists [0]. split; [by left|]. split; [cbn; lia|done].
  - destruct (pretty_N_go_digits (Z.to_N n) "") as (ds & Ht & En & E). exists ds.
    rewrite E, app_nil_r. split; [|split; [lia|done]]. right. split; [done|]. intros ->. cbn in En. lia.
Qed.

Lemma show_number ds : canonical ds → show_u64 (number 10 ds) = map digit_byte ds.
Proof.
  intros Hc. assert (0 <= number 10 ds) as Hn
    by (destruct Hc as [->|[Ht _]]; [done|by apply number_pos]).
  destruct (show_u64_digits _ Hn) as (ds' & Hc' & En & ->). by rewrite (canonical_inj ds' ds).
Qed.

(** ** Reading numbers back *)

(** No digit follows. *)
Definition no_digit (rest : list byte) : Prop :=
  match rest with [] => True | b :: _ => to_digit 10 b = None end.

Lemma digit_byte_not b d : to_digit 10 b = None → is_digit d → digit_byte d ≠ b.
Proof. intros Hb Hd <-. by rewrite (proj2 (to_digit_Some _ _) (conj eq_refl Hd)) in Hb. Qed.

Lemma digit_byte_zero d : is_digit d → digit_byte d = Byte.x30 → d = 0.
Proof.
  intros Hd E. assert (to_digit 10 (digit_byte d) = Some d) as Hx by by apply to_digit_Some.
  rewrite E in Hx. by injection Hx.
Qed.

(** The text of a number is canonical digits that are read back in full. *)
Lemma read_digits_show n rest :
  0 <= n → no_digit rest →
  ∃ ds, canonical ds ∧ number 10 ds = n ∧ show_u64 n = map digit_byte ds ∧
    read_digits 10 (show_u64 n ++ rest) = (ds, rest).
Proof.
  intros Hn Hr. destruct (show_u64_digits n Hn) as (ds & Hc & En & E). exists ds.
  do 3 (split; [done|]). rewrite E. apply read_digits_app; [by apply canonical_digits|done].
Qed.

(** A number below a power of ten has that many digits at most. *)
Lemma canonical_length ds m :
  canonical ds → number 10 ds < 10 ^ Z.of_nat m → (0 < m)%nat → (length ds <= m)%nat.
Proof.
  intros [->|[Ht Hne]] Hlt Hm; [cbn; lia|]. pose proof (trimmed_length ds Ht Hne) as Hl.
  destruct (decide (length ds <= m)%nat) as [|Hgt]; [done|]. exfalso.
  pose proof (Z.pow_le_mono_r 10 (Z.of_nat m) (Z.of_nat (length ds) - 1) ltac:(lia) ltac:(lia)). lia.
Qed.

(** Leading zeros are what separates the texts that are read from the ones printed. *)
Lemma canonical_iff ds :
  canonical ds ↔ Forall is_digit ds ∧ ds ≠ [] ∧ (head ds = Some 0 → length ds = 1%nat).
Proof.
  split.
  - intros Hc. split; [by apply canonical_digits|]. split; [by apply canonical_digits|].
    destruct Hc as [->|[[_ Hh] _]]; [done|]. intros E. by rewrite E in Hh.
  - intros (Hds & Hne & Hz). destruct ds as [|d ds]; [done|]. destruct (decide (d = 0)) as [->|Hd].
    + left. specialize (Hz eq_refl). by destruct ds.
    + right. split; [|done]. split; [done|]. cbn. congruence.
Qed.

Lemma leading_zero ds rest :
  Forall is_digit ds → ds ≠ [] →
  match map digit_byte ds ++ rest with b :: _ => bool_decide (b = Byte.x30) | [] => false end =
    bool_decide (head ds = Some 0).
Proof.
  intros Hds Hne. destruct Hds as [|d ds Hd _]; [done|]. cbn. apply bool_decide_ext. split.
  - intros E%digit_byte_zero; [by subst|done].
  - by intros [= ->].
Qed.

(** What is printed is read back, *)
Lemma read_number_show max_digits zeros bound n rest :
  0 <= n <= bound → no_digit rest →
  match max_digits with Some m => n < 10 ^ Z.of_nat m ∧ (0 < m)%nat | None => True end →
  read_number 10 max_digits zeros bound (show_u64 n ++ rest) = Some (n, rest).
Proof.
  intros Hn Hr Hm. destruct (read_digits_show n rest ltac:(lia) Hr) as (ds & Hc & En & Es & Er).
  pose proof (proj1 (canonical_iff ds) Hc) as (Hds & Hne & Hz).
  unfold read_number. rewrite Er, Es, leading_zero by done.
  assert ((length ds =? 0)%nat = false) as -> by (by destruct ds).
  assert (match max_digits with Some m => (m <? length ds)%nat | None => false end = false) as ->.
  { destruct max_digits as [m|]; [|done]. apply Nat.ltb_ge, canonical_length; [done|lia|lia]. }
  assert (negb zeros && bool_decide (head ds = Some 0) && (1 <? length ds)%nat = false) as ->.
  { case_bool_decide as Hh; [|by rewrite andb_false_r]. rewrite (Hz Hh). by destruct zeros. }
  rewrite En. assert ((n <=? bound) = true) as -> by lia. done.
Qed.

(** and where leading zeros are refused, nothing else is read. *)
Lemma read_number_inv max_digits bound s n rest :
  read_number 10 max_digits false bound s = Some (n, rest) → s = show_u64 n ++ rest ∧ 0 <= n <= bound.
Proof.
  unfold read_number. destruct (read_digits 10 s) as [ds rest'] eqn:E.
  destruct (read_digits_inv _ _ _ E) as [-> Hds].
  destruct (Nat.eqb_spec (length ds) 0) as [|Hlen]; [done|].
  assert (ds ≠ []) as Hne by (by intros ->). rewrite leading_zero by done.
  destruct (match max_digits with Some m => (m <? length ds)%nat | None => false end); [done|].
  destruct (negb false && _ && _) eqn:Hz; [done|]. destruct (Z.leb_spec (number 10 ds) bound) as [Hb|]; [|done].
  intros [= <- <-]. assert (canonical ds) as Hc.
  { apply canonical_iff. do 2 (split; [done|]). intros Hh. rewrite bool_decide_true in Hz by done.
    destruct (Nat.ltb_spec 1 (length ds)); [done|lia]. }
  rewrite show_number by done. split; [done|]. split; [|done].
  destruct Hc as [->|[Ht _]]; [done|by apply number_pos].
Qed.

(** [u64::from_str] reads the text of every [u64]. *)
Lemma u64_from_str_show n : 0 <= n <= u64_MAX → u64_from_str (show_u64 n) = Some n.
Proof.
  intros Hn. destruct (read_digits_show n [] ltac:(lia) I) as (ds & Hc & En & Es & Er).
  rewrite app_nil_r in Er. destruct (canonical_digits ds Hc) as [Hds Hne]. unfold u64_from_str.
  assert (match show_u64 n with b :: s' => if bool_decide (b = Byte.x2b) then s' else show_u64 n
          | [] => show_u64 n end = show_u64 n) as ->.
  { rewrite Es. destruct Hds as [|d ds Hd _]; [done|]. cbn.
    rewrite bool_decide_false; [done|]. by apply digit_byte_not. }
  rewrite Er, En. assert ((n <=? u64_MAX) = true) as -> by lia. by destruct ds.
Qed.

(** The numbers it reads are the digits of the text, after a sign. *)
Lemma u64_from_str_inv s n :
  u64_from_str s = Some n →
  0 <= n <= u64_MAX ∧ ∃ sign ds, sign ∈ [[]; [Byte.x2b]] ∧ ds ≠ [] ∧ Forall is_digit ds ∧
    s = sign ++ map digit_byte ds ∧ n = number 10 ds.
Proof.
  intros E. assert (∃ sign s', sign ∈ [[]; [Byte.x2b]] ∧ s = sign ++ s' ∧ ∃ ds, read_digits 10 s' = (ds, []) ∧
    ds ≠ [] ∧ number 10 ds = n ∧ n <= u64_MAX) as (sign & s' & Hsign & -> & ds & Er & Hne & En & Hle).
  { unfold u64_from_str in E. destruct s as [|b s]; [done|]. case_bool_decide as Hb.
    - exists [Byte.x2b], s. split; [set_solver|]. split; [by subst|].
      destruct (read_digits 10 s) as [[|d ds] [|? ?]]; simplify_eq. case_match eqn:Hle; simplify_eq.
      eexists. split; [done|]. split; [done|]. split; [done|lia].
    - exists [], (b :: s). split; [set_solver|]. split; [done|].
      destruct (read_digits 10 (b :: s)) as [[|d ds] [|? ?]]; simplify_eq. case_match eqn:Hle; simplify_eq.
      eexists. split; [done|]. split; [done|]. split; [done|lia]. }
  destruct (read_digits_inv _ _ _ Er) as [-> Hds]. rewrite app_nil_r. split; [|eauto 10].
  split; [|done]. subst n. clear -Hds. unfold number.
  enough (∀ k, 0 <= k → 0 <= foldl (fun n d => n * 10 + d) k ds) as Hk by (apply Hk; lia).
  induction Hds as [|d ds Hd _ IH]; intros k Hk0; [done|]. cbn. apply IH. unfold is_digit in Hd. lia.
Qed.

(** ** Reading addresses back *)

Lemma octet_bound b : 0 <= u8_Z b <= 255 ∧ u8_Z b < 10 ^ Z.of_nat 3.
Proof. pose proof (u8_Z_range b). change (10 ^ Z.of_nat 3) with 1000. lia. Qed.

(** The separators are no digits. *)
Lemma separators_no_digit s : no_digit (DOT :: s) ∧ no_digit (COLON :: s).
Proof. done. Qed.

Lemma read_octet_show i b rest :
  no_digit rest → read_octet (S i) (DOT :: show_u64 (u8_Z b) ++ rest) = Some (u8_Z b, rest).
Proof.
  intros Hr. destruct (octet_bound b). unfold read_octet, read_separator, read_given_char.
  rewrite bool_decide_true by done. cbn [mbind option_bind]. apply read_number_show; [done..|]. split; [done|lia].
Qed.

Lemma read_octet_inv i s n rest :
  read_octet (S i) s = Some (n, rest) →
  s = DOT :: show_u64 (u8_Z (Z_u8 n)) ++ rest.
Proof.
  unfold read_octet, read_separator, read_given_char. destruct s as [|b s]; [done|]. case_bool_decide as Hb; [|done].
  cbn [mbind option_bind]. intros [-> Hn]%read_number_inv. rewrite u8_Z_of, Z.mod_small by lia. by subst.
Qed.

Lemma read_ipv4_addr_show ip rest :
  no_digit rest → read_ipv4_addr (show_ipv4 ip ++ rest) = Some (ip, rest).
Proof.
  intros Hr. destruct (octet_bound (ip_a ip)). unfold read_ipv4_addr, show_ipv4.
  repeat (rewrite <- app_assoc; cbn [app]).
  change (read_octet 0) with (read_number 10 (Some 3%nat) false 255).
  rewrite read_number_show by (done || (split; [done|lia])). cbn [mbind option_bind].
  rewrite read_octet_show by done. cbn [mbind option_bind]. rewrite read_octet_show by done.
  cbn [mbind option_bind]. rewrite read_octet_show by done. cbn [mbind option_bind].
  unfold ipv4. rewrite !Z_u8_of. by destruct ip.
Qed.

Lemma read_ipv4_addr_inv s ip rest : read_ipv4_addr s = Some (ip, rest) → s = show_ipv4 ip ++ rest.
Proof.
  unfold read_ipv4_addr. change (read_octet 0) with (read_number 10 (Some 3%nat) false 255).
  intros ([a s1] & Ea & ([b s2] & Eb & ([c s3] & Ec & ([d s4] & Ed & [= <- <-])%bind_Some)%bind_Some)%bind_Some)%bind_Some.
  apply read_number_inv in Ea as [-> Ha]. apply read_octet_inv in Eb as ->. apply read_octet_inv in Ec as ->.
  apply read_octet_inv in Ed as ->. unfold show_ipv4, ipv4. cbn [ip_a ip_b ip_c ip_d].
  rewrite (u8_Z_of a), (Z.mod_small a) by lia. by repeat (rewrite <- app_assoc; cbn [app]).
Qed.

Lemma show_octet_length b : (length (show_u64 (u8_Z b)) <= 3)%nat.
Proof.
  destruct (octet_bound b) as [Hb Hlt]. destruct (show_u64_digits (u8_Z b) ltac:(lia)) as (ds & Hc & En & ->).
  rewrite length_map. apply canonical_length; [done| |lia]. by rewrite En.
Qed.

Lemma show_ipv4_length ip : (length (show_ipv4 ip) <= 15)%nat.
Proof.
  unfold show_ipv4. rewrite !length_app. cbn [length]. rewrite !length_app. cbn [length]. rewrite !length_app. cbn [length].
  pose proof (show_octet_length (ip_a ip)). pose proof (show_octet_length (ip_b ip)).
  pose proof (show_octet_length (ip_c ip)). pose proof (show_octet_length (ip_d ip)). lia.
Qed.

(** An IPv4 address has exactly one text: [from_str] reads what is printed for it and
    nothing else. *)
Lemma Ipv4Addr_from_str_iff s ip : Ipv4Addr_from_str s = Some ip ↔ s = show_ipv4 ip.
Proof.
  unfold Ipv4Addr_from_str, parse_with. split.
  - case_match; [done|]. destruct (read_ipv4_addr s) as [[ip' rest]|] eqn:E; [|done].
    destruct rest; [|done]. intros [= ->]. by rewrite (read_ipv4_addr_inv _ _ _ E), app_nil_r.
  - intros ->. rewrite (proj2 (Nat.ltb_ge _ _) (show_ipv4_length ip)).
    rewrite <- (app_nil_r (show_ipv4 ip)), read_ipv4_addr_show by done. done.
Qed.

(** Where leading zeros are allowed, any digits are read. *)
Lemma read_number_zeros bound s n rest :
  no_digit rest →
  read_number 10 None true bound s = Some (n, rest) ↔
    ∃ ds, ds ≠ [] ∧ Forall is_digit ds ∧ s = map digit_byte ds ++ rest ∧ n = number 10 ds ∧ n <= bound.
Proof.
  intros Hr. unfold read_number. cbn [negb andb]. split.
  - destruct (read_digits 10 s) as [ds rest'] eqn:E. destruct (read_digits_inv _ _ _ E) as [-> Hds].
    destruct (Nat.eqb_spec (length ds) 0); [done|]. destruct (Z.leb_spec (number 10 ds) bound); [|done].
    intros [= <- <-]. exists ds. split; [by intros ->|done].
  - intros (ds & Hne & Hds & -> & -> & Hb). rewrite read_digits_app by done.
    destruct (Nat.eqb_spec (length ds) 0) as [E|]; [by apply nil_length_inv in E|].
    by rewrite (proj2 (Z.leb_le _ _) Hb).
Qed.

(** An IPv4 socket address has the texts that are its address's text, a colon and
    digits of its port, leading zeros allowed. *)
Lemma SocketAddr_from_str_v4_iff s ip port :
  SocketAddr_from_str s = Some (mkSocketAddr (V4 ip) port) ↔
  ∃ ds, ds ≠ [] ∧ Forall is_digit ds ∧ s = show_ipv4 ip ++ COLON :: map digit_byte ds ∧
    port = number 10 ds ∧ port <= 65535.
Proof.
  unfold SocketAddr_from_str, parse_with. split.
  - destruct (read_socket_addr_v4 s) as [[a [|? ?]]|] eqn:E; [|done|].
    + intros [= ->]. unfold read_socket_addr_v4 in E.
      apply bind_Some in E as ([ip' s1] & E1%read_ipv4_addr_inv & E).
      apply bind_Some in E as ([port' s2] & E2 & E5). simplify_eq.
      unfold read_port in E2. apply bind_Some in E2 as (s3 & E3 & E4).
      unfold read_given_char in E3. destruct s1 as [|b s1]; [done|]. case_bool_decide; [|done]. simplify_eq.
      apply read_number_zeros in E4 as (ds & ? & ? & -> & ? & ?); [|done]. exists ds. by rewrite app_nil_r.
    + destruct (read_socket_addr_v6 s) as [[a [|? ?]]|] eqn:E6; [|done..]. intros [= ->]. exfalso.
      unfold read_socket_addr_v6 in E6. apply bind_Some in E6 as (? & _ & E6).
      apply bind_Some in E6 as ([? ?] & _ & E6). apply bind_Some in E6 as (? & _ & E6).
      apply bind_Some in E6 as ([? ?] & _ & E6). done.
  - intros (ds & Hne & Hds & -> & Ep & Hp). unfold read_socket_addr_v4.
    rewrite read_ipv4_addr_show by done. cbn [mbind option_bind]. unfold read_port, read_given_char.
    rewrite bool_decide_true by done. cbn [mbind option_bind].
    rewrite (proj2 (read_number_zeros 65535 (map digit_byte ds) port [] I)); [done|].
    exists ds. by rewrite app_nil_r.
Qed.

Lemma SocketAddr_from_str_show ip port :
  0 <= port <= 65535 → SocketAddr_from_str (show_socket_v4 ip port) = Some (mkSocketAddr (V4 ip) port).
Proof.
  intros Hp. apply SocketAddr_from_str_v4_iff. destruct (show_u64_digits port ltac:(lia)) as (ds & Hc & En & E).
  exists ds. unfold show_socket_v4. rewrite E. destruct (canonical_digits ds Hc). split_and!; [done..|by rewrite En|lia].
Qed.

(** ** Every address read is one *)

Lemma foldl_radix_bound B l k :
  0 < B → 0 <= k → Forall (fun g => 0 <= g < B) l →
  0 <= foldl (fun n g => n * B + g) k l < (k + 1) * B ^ Z.of_nat (length l).
Proof.
  intros HB Hk Hl. revert k Hk. induction Hl as [|g l Hg _ IH]; intros k Hk; cbn [foldl length]; [lia|].
  specialize (IH (k * B + g) ltac:(nia)). rewrite Nat2Z.inj_succ, Z.pow_succ_r by lia.
  pose proof (Z.pow_pos_nonneg B (Z.of_nat (length l)) HB ltac:(lia)). nia.
Qed.

Lemma to_digit_range radix b d : to_digit radix b = Some d → 0 <= d < radix.
Proof. unfold to_digit. cbv zeta. pose proof (u8_Z_range b). repeat case_match; intros; simplify_eq; lia. Qed.

Lemma read_digits_range radix s :
  Forall (fun d => 0 <= d < radix) (read_digits radix s).1.
Proof.
  induction s as [|b s IH]; cbn [read_digits]; [done|]. destruct (to_digit radix b) as [d|] eqn:E; [|done].
  destruct (read_digits radix s). constructor; [by eapply to_digit_range|done].
Qed.

Lemma read_number_range radix max_digits zeros bound s n rest :
  0 < radix → read_number radix max_digits zeros bound s = Some (n, rest) → 0 <= n <= bound.
Proof.
  intros Hr. unfold read_number. pose proof (read_digits_range radix s) as Hd.
  destruct (read_digits radix s) as [ds rest']. repeat case_match; intros; simplify_eq.
  all: split; [by apply (foldl_radix_bound radix ds 0)|lia].
Qed.

Definition is_group (g : Z) : Prop := 0 <= g < 65536.

(** A run of groups fits in the room it is given, *)
Lemma read_groups_range n : ∀ i limit s gs v4 rest,
  (i + n = limit)%nat → read_groups n i limit s = (gs, v4, rest) → (length gs <= n)%nat ∧ Forall is_group gs.
Proof.
  induction n as [|n IH]; intros i limit s gs v4 rest Hn; cbn [read_groups]; [by intros [= <- <- <-]|].
  destruct (if (i <? limit - 1)%nat then _ else _) as [[ip s']|] eqn:E4.
  - destruct (Nat.ltb_spec i (limit - 1)) as [Hi|]; [|done]. cbn [octets]. intros [= <- <- <-].
    pose proof (u8_Z_range (ip_a ip)). pose proof (u8_Z_range (ip_b ip)).
    pose proof (u8_Z_range (ip_c ip)). pose proof (u8_Z_range (ip_d ip)).
    split; [cbn; lia|]. repeat constructor; unfold is_group; lia.
  - clear E4. destruct (read_separator _ _ _ _) as [[g s']|] eqn:Eg; [|intros [= <- <- <-]; split; [cbn; lia|done]].
    destruct (read_groups n (S i) limit s') as [[gs' v4'] rest'] eqn:Er. intros [= <- <- <-].
    destruct (IH (S i) limit s' gs' v4' rest' ltac:(lia) Er) as [Hl Hg]. split; [cbn; lia|]. constructor; [|done].
    assert (0 <= g <= 65535); [|unfold is_group; lia]. unfold read_separator in Eg. destruct i as [|i].
    + by eapply read_number_range; [|exact Eg].
    + apply bind_Some in Eg as (? & _ & Eg). by eapply read_number_range; [|exact Eg].
Qed.

(** and the address read is below 2^128. *)
Lemma read_ipv6_addr_range s bits rest : read_ipv6_addr s = Some (bits, rest) → 0 <= bits < 2 ^ 128.
Proof.
  assert (∀ gs, Forall is_group gs → length gs = 8%nat → 0 <= ipv6_of gs < 2 ^ 128) as Hof.
  { intros gs Hg Hl. pose proof (foldl_radix_bound 65536 gs 0 ltac:(lia) ltac:(lia) Hg) as Hb.
    rewrite Hl in Hb. exact Hb. }
  unfold read_ipv6_addr. destruct (read_groups 8 0 8 s) as [[hd h4] s1] eqn:Eh.
  destruct (read_groups_range _ _ _ _ _ _ _ eq_refl Eh) as [Hl Hg].
  destruct (Nat.eqb_spec (length hd) 8) as [E8|Hne]; [intros [= <- <-]; by apply Hof|].
  destruct h4; [done|]. intros E. apply bind_Some in E as (s2 & _ & E). apply bind_Some in E as (s3 & _ & E).
  cbv zeta in E. destruct (read_groups _ 0 _ s3) as [[tl t4] s4] eqn:Et.
  destruct (read_groups_range _ _ _ _ _ _ _ eq_refl Et) as [Htl Htg]. injection E as <- <-. apply Hof.
  - rewrite !Forall_app. split; [done|]. split; [|done]. by apply Forall_replicate.
  - rewrite !length_app, length_replicate. lia.
Qed.

(** Every socket address read is in range. *)
Definition address_ok (a : SocketAddr) : Prop :=
  0 <= sock_port a <= 65535 ∧ match sock_ip a with V4 _ => True | V6 bits => 0 <= bits < 2 ^ 128 end.

Lemma read_port_range s port rest : read_port s = Some (port, rest) → 0 <= port <= 65535.
Proof. intros (? & _ & E)%bind_Some. by eapply read_number_range; [|exact E]. Qed.

Lemma SocketAddr_from_str_ok s a : SocketAddr_from_str s = Some a → address_ok a.
Proof.
  unfold SocketAddr_from_str, parse_with. destruct (read_socket_addr_v4 s) as [[a4 s4]|] eqn:E.
  - destruct s4; [|done]. intros [= ->]. unfold read_socket_addr_v4 in E. apply bind_Some in E as ([ip s1] & _ & E).
    apply bind_Some in E as ([port s2] & Ep%read_port_range & E5). by simplify_eq.
  - destruct (read_socket_addr_v6 s) as [[a6 [|? ?]]|] eqn:E6; [|done..]. intros [= ->].
    unfold read_socket_addr_v6 in E6. apply bind_Some in E6 as (s1 & _ & E6).
    apply bind_Some in E6 as ([ip s2] & Eip%read_ipv6_addr_range & E6). apply bind_Some in E6 as (s3 & _ & E6).
    apply bind_Some in E6 as ([port s4] & Ep%read_port_range & E6). by simplify_eq.
Qed.
