(* ===== verification/Aes.v ===== *)
(** * AES-128 (FIPS-197)

    The reference block cipher with which the [BlockCipher] interface is
    instantiated: an executable AES-128 encryption in the notation of FIPS-197,
    checked on the vectors of the standard, with the proof that it satisfies the
    interface's laws (blocks keep their length, and encryption under one key is
    injective). *)

From Stdlib Require Import Btauto.
From S2P Require Import Prelude Interfaces.

(** ** Arithmetic in GF(2^8) *)

Definition xtime (b : byte) : byte :=
  u8_xor (Z_u8 (2 * u8_Z b)) (if (128 <=? u8_Z b)%Z then Z_u8 0x1b else Byte.x00).

Fixpoint gf_mul_bits (n : nat) (a : Z) (b : byte) : byte :=
  match n with
  | O => Byte.x00
  | S n' => u8_xor (if Z.odd a then b else Byte.x00) (gf_mul_bits n' (Z.shiftr a 1) (xtime b))
  end.
Definition gf_mul (a b : byte) : byte := gf_mul_bits 8 (u8_Z a) b.

Definition gf_square (a : byte) : byte := gf_mul a a.

(** The inverse of [a] is [a^254]; zero is mapped to itself. *)
Definition gf_inv (a : byte) : byte :=
  let a2 := gf_square a in let a4 := gf_square a2 in let a8 := gf_square a4 in
  let a16 := gf_square a8 in let a32 := gf_square a16 in
  let a64 := gf_square a32 in let a128 := gf_square a64 in
  gf_mul a128 (gf_mul a64 (gf_mul a32 (gf_mul a16 (gf_mul a8 (gf_mul a4 a2))))).

Definition rotl8 (b : byte) (k : Z) : byte :=
  Z_u8 (Z.lor (Z.shiftl (u8_Z b) k) (Z.shiftr (u8_Z b) (8 - k))).

Definition sbox_spec (a : byte) : byte :=
  let b := gf_inv a in
  u8_xor b (u8_xor (rotl8 b 1) (u8_xor (rotl8 b 2) (u8_xor (rotl8 b 3)
    (u8_xor (rotl8 b 4) (Z_u8 0x63))))).

(** The substitution box as a table. *)
Definition sbox_table : list byte := Eval vm_compute in map sbox_spec all_bytes.
Definition sub_byte (b : byte) : byte := nth (Z.to_nat (u8_Z b)) sbox_table Byte.x00.

(** ** The round transformations, on the 16 bytes of the state in column order *)

Definition sub_bytes (s : list byte) : list byte := map sub_byte s.

Definition shift_rows_from : list nat := [0; 5; 10; 15; 4; 9; 14; 3; 8; 13; 2; 7; 12; 1; 6; 11].
Definition shift_rows (s : list byte) : list byte :=
  map (fun i => nth i s Byte.x00) shift_rows_from.

Definition mix_column (a b c d : byte) : list byte :=
  let three x := u8_xor (xtime x) x in
  [u8_xor (xtime a) (u8_xor (three b) (u8_xor c d));
   u8_xor a (u8_xor (xtime b) (u8_xor (three c) d));
   u8_xor a (u8_xor b (u8_xor (xtime c) (three d)));
   u8_xor (three a) (u8_xor b (u8_xor c (xtime d)))].

Fixpoint mix_columns (s : list byte) : list byte :=
  match s with
  | a :: b :: c :: d :: s' => mix_column a b c d ++ mix_columns s'
  | _ => []
  end.

Definition xor_bytes (a b : list byte) : list byte := zip_with u8_xor a b.

(** ** The key schedule *)

(** One step of key expansion: the next four words from the previous four. *)
Definition next_round_key (rcon : Z) (k : list byte) : list byte :=
  let w i := take 4 (drop (4 * i) k) in
  let rot := drop 1 (w 3) ++ take 1 (w 3) in
  let g := xor_bytes (sub_bytes rot) (bytes_of [rcon; 0; 0; 0]%Z) in
  let w0 := xor_bytes (w 0) g in
  let w1 := xor_bytes (w 1) w0 in
  let w2 := xor_bytes (w 2) w1 in
  let w3 := xor_bytes (w 3) w2 in
  w0 ++ w1 ++ w2 ++ w3.

Definition rcons : list Z := [0x01; 0x02; 0x04; 0x08; 0x10; 0x20; 0x40; 0x80; 0x1b; 0x36]%Z.

(** ** Encryption *)

Fixpoint aes_rounds (rcs : list Z) (k s : list byte) : list byte :=
  match rcs with
  | [] => s
  | rc :: rcs' =>
      let k' := next_round_key rc k in
      let t := shift_rows (sub_bytes s) in
      let t' := match rcs' with [] => t | _ :: _ => mix_columns t end in
      aes_rounds rcs' k' (xor_bytes t' k')
  end.

Definition aes_encrypt (rcs : list Z) (key m : list byte) : list byte :=
  aes_rounds rcs key (xor_bytes m key).
Abbreviation aes128_encrypt := (aes_encrypt rcons).

(** The example vectors of FIPS-197, appendices B and C.1. *)
Example fips197_appendix_b :
  aes128_encrypt
    (bytes_of [0x2b; 0x7e; 0x15; 0x16; 0x28; 0xae; 0xd2; 0xa6; 0xab; 0xf7; 0x15; 0x88; 0x09; 0xcf; 0x4f; 0x3c]%Z)
    (bytes_of [0x32; 0x43; 0xf6; 0xa8; 0x88; 0x5a; 0x30; 0x8d; 0x31; 0x31; 0x98; 0xa2; 0xe0; 0x37; 0x07; 0x34]%Z)
  = bytes_of [0x39; 0x25; 0x84; 0x1d; 0x02; 0xdc; 0x09; 0xfb; 0xdc; 0x11; 0x85; 0x97; 0x19; 0x6a; 0x0b; 0x32]%Z.
Proof. vm_compute. reflexivity. Qed.

Example fips197_appendix_c1 :
  aes128_encrypt
    (bytes_of [0x00; 0x01; 0x02; 0x03; 0x04; 0x05; 0x06; 0x07; 0x08; 0x09; 0x0a; 0x0b; 0x0c; 0x0d; 0x0e; 0x0f]%Z)
    (bytes_of [0x00; 0x11; 0x22; 0x33; 0x44; 0x55; 0x66; 0x77; 0x88; 0x99; 0xaa; 0xbb; 0xcc; 0xdd; 0xee; 0xff]%Z)
  = bytes_of [0x69; 0xc4; 0xe0; 0xd8; 0x6a; 0x7b; 0x04; 0x30; 0xd8; 0xcd; 0xb7; 0x80; 0x70; 0xb4; 0xc5; 0x5a]%Z.
Proof. vm_compute. reflexivity. Qed.

(** ** Every round transformation is injective *)

Lemma xtime_xor a b : xtime (u8_xor a b) = u8_xor (xtime a) (xtime b).
Proof. revert a b. by_bytes. Qed.

Lemma sub_byte_spec b : sub_byte b = sbox_spec b.
Proof. revert b. by_bytes. Qed.

Lemma sub_byte_inj a b : sub_byte a = sub_byte b → a = b.
Proof. revert a b. by_bytes. Qed.

Lemma sub_bytes_inj s t : sub_bytes s = sub_bytes t → s = t.
Proof.
  revert t. induction s as [|a s IH]; intros [|b t]; try done.
  intros [= H1%sub_byte_inj H2%IH]. congruence.
Qed.

#[local] Ltac destruct_block s :=
  do 16 (destruct s as [|? s]; [discriminate|]); destruct s; [|discriminate].

Lemma shift_rows_inj s t :
  length s = 16 → length t = 16 → shift_rows s = shift_rows t → s = t.
Proof.
  intros Hs Ht. destruct_block s. destruct_block t.
  cbn. intros [= -> -> -> -> -> -> -> -> -> -> -> -> -> -> -> ->]. done.
Qed.

(** The rows of the inverse matrix, applied to a mixed column, give it back. *)
Definition unmix_row (a b c d : byte) : byte :=
  let x2 := xtime in let x4 x := xtime (xtime x) in let x8 x := xtime (xtime (xtime x)) in
  u8_xor (u8_xor (x8 a) (u8_xor (x4 a) (x2 a)))
    (u8_xor (u8_xor (x8 b) (u8_xor (x2 b) b))
      (u8_xor (u8_xor (x8 c) (u8_xor (x4 c) c)) (u8_xor (x8 d) d))).

Ltac xor_solve :=
  rewrite ?xtime_xor; apply u8_Z_inj; rewrite ?u8_xor_Z;
  apply Z.bits_inj'; intros ? _; rewrite ?Z.lxor_spec;
  repeat match goal with |- context [Z.testbit (u8_Z ?x) ?i] =>
    generalize (Z.testbit (u8_Z x) i); intros ? end; btauto.

Lemma unmix_mix a b c d r0 r1 r2 r3 :
  mix_column a b c d = [r0; r1; r2; r3] →
  a = unmix_row r0 r1 r2 r3 ∧ b = unmix_row r1 r2 r3 r0 ∧
  c = unmix_row r2 r3 r0 r1 ∧ d = unmix_row r3 r0 r1 r2.
Proof.
  unfold mix_column. intros [= <- <- <- <-]. unfold unmix_row. repeat split; xor_solve.
Qed.

Lemma mix_column_inj a b c d a' b' c' d' :
  mix_column a b c d = mix_column a' b' c' d' → a = a' ∧ b = b' ∧ c = c' ∧ d = d'.
Proof.
  intros H. assert (∃ r0 r1 r2 r3, mix_column a' b' c' d' = [r0; r1; r2; r3]) as (r0 & r1 & r2 & r3 & E).
  { repeat eexists. }
  rewrite E in H. apply unmix_mix in E as (-> & -> & -> & ->).
  by apply unmix_mix in H.
Qed.

Lemma mix_columns_step a b c d s a' b' c' d' t :
  mix_columns (a :: b :: c :: d :: s) = mix_columns (a' :: b' :: c' :: d' :: t) →
  [a; b; c; d] = [a'; b'; c'; d'] ∧ mix_columns s = mix_columns t.
Proof.
  cbn [mix_columns]. intros H. apply app_eq_length in H; [|reflexivity].
  destruct H as [H Hst]. split; [|exact Hst].
  apply mix_column_inj in H. destruct H as (-> & -> & -> & ->). reflexivity.
Qed.

Lemma mix_columns_inj s t :
  length s = 16 → length t = 16 → mix_columns s = mix_columns t → s = t.
Proof.
  intros Hs Ht. destruct_block s. destruct_block t. intros H.
  do 4 (apply mix_columns_step in H; destruct H as [[= -> -> -> ->] H]). reflexivity.
Qed.

Lemma xor_bytes_inj k s t :
  length s = length k → length t = length k → xor_bytes s k = xor_bytes t k → s = t.
Proof.
  revert s t. induction k as [|x k IH]; intros [|a s] [|b t]; try done.
  intros [= Hs] [= Ht] [= H1 H2]. f_equal; [|by apply IH].
  by rewrite <- (u8_xor_cancel a x), H1, u8_xor_cancel.
Qed.

(** ** Lengths *)

Lemma length_xor_bytes a b : length a = length b → length (xor_bytes a b) = length a.
Proof. intros H. unfold xor_bytes. rewrite length_zip_with. lia. Qed.

Lemma length_mix_columns s : length s = 16 → length (mix_columns s) = 16.
Proof. intros Hs. by destruct_block s. Qed.

Lemma length_next_round_key rc k : length k = 16 → length (next_round_key rc k) = 16.
Proof. intros Hk. by destruct_block k. Qed.

Lemma length_shift_rows s : length (shift_rows s) = 16.
Proof. done. Qed.

Definition last_or_mix (rcs : list Z) (t : list byte) : list byte :=
  match rcs with [] => t | _ :: _ => mix_columns t end.

Lemma length_last_or_mix rcs t : length t = 16 → length (last_or_mix rcs t) = 16.
Proof. destruct rcs; [done|apply length_mix_columns]. Qed.

Lemma aes_rounds_cons rc rcs k s :
  aes_rounds (rc :: rcs) k s =
  aes_rounds rcs (next_round_key rc k)
    (xor_bytes (last_or_mix rcs (shift_rows (sub_bytes s))) (next_round_key rc k)).
Proof. done. Qed.

Lemma length_aes_rounds rcs k s :
  length k = 16 → length s = 16 → length (aes_rounds rcs k s) = 16.
Proof.
  revert k s. induction rcs as [|rc rcs IH]; intros k s Hk Hs; [done|].
  rewrite aes_rounds_cons. pose proof (length_next_round_key rc k Hk) as Hk'.
  pose proof (length_last_or_mix rcs _ (length_shift_rows (sub_bytes s))) as Ht.
  apply IH; [done|]. rewrite length_xor_bytes; congruence.
Qed.

Lemma aes_rounds_inj rcs k s t :
  length k = 16 → length s = 16 → length t = 16 →
  aes_rounds rcs k s = aes_rounds rcs k t → s = t.
Proof.
  revert k s t. induction rcs as [|rc rcs IH]; intros k s t Hk Hs Ht; [done|].
  rewrite !aes_rounds_cons. intros H.
  pose proof (length_next_round_key rc k Hk) as Hk'.
  pose proof (length_last_or_mix rcs _ (length_shift_rows (sub_bytes s))) as Hs'.
  pose proof (length_last_or_mix rcs _ (length_shift_rows (sub_bytes t))) as Ht'.
  apply IH in H; [|by rewrite ?length_xor_bytes; congruence..].
  apply xor_bytes_inj in H; [|congruence..].
  assert (shift_rows (sub_bytes s) = shift_rows (sub_bytes t)) as E.
  { destruct rcs; [done|]. by apply mix_columns_inj in H. }
  apply sub_bytes_inj, shift_rows_inj, E; unfold sub_bytes; by rewrite length_map.
Qed.

Lemma aes_encrypt_length rcs key m :
  length key = 16 → length m = 16 → length (aes_encrypt rcs key m) = 16.
Proof.
  intros Hk Hm. apply length_aes_rounds; [done|]. rewrite length_xor_bytes; congruence.
Qed.

Lemma aes_encrypt_inj rcs key m1 m2 :
  length key = 16 → length m1 = 16 → length m2 = 16 →
  aes_encrypt rcs key m1 = aes_encrypt rcs key m2 → m1 = m2.
Proof.
  intros Hk H1 H2 H.
  apply aes_rounds_inj in H; [|done|rewrite length_xor_bytes; congruence..].
  apply xor_bytes_inj in H; congruence.
Qed.

(** ** The instance *)

#[export] Instance aes128 : BlockCipher := { encrypt_block := aes128_encrypt }.

#[export] Instance aes128_laws : BlockCipherLaws.
Proof. split; [exact (aes_encrypt_length rcons) | exact (aes_encrypt_inj rcons)]. Qed.
