(* ===== verification/Instances.v ===== *)
(** * Concrete instances of the interfaces

    A generator that replays a fixed byte string and connection IDs that are
    their own bytes, so that the components can be evaluated on concrete input.
    The block cipher's instance is [Aes.v]. *)

From S2P Require Import Prelude Interfaces.

(** The generator hands out the bytes of a tape, then zeros. *)
#[export] Instance tape_rng : Rng := {
  rng := list byte;
  fill_bytes n g := (take n (g ++ replicate n Byte.x00), drop n g)
}.

#[export] Instance tape_rng_laws : RngLaws.
Proof. constructor. intros n g. cbn [fill_bytes tape_rng fst]. solve_len. Qed.

#[export] Instance bytes_cid : QuinnCid := {
  ConnectionId := list byte;
  ConnectionId_new b := take 20 b;
  ConnectionId_bytes c := c
}.

#[export] Instance bytes_cid_laws : QuinnCidLaws.
Proof. constructor. intros b Hb. by apply take_ge. Qed.
