(* ===== verification/Auth.v ===== *)
(** * Authentication tokens ([src/auth.rs])

    The 20-byte token [selector(2) || nonce(8) || tag(10)], how it is minted and
    how it is verified. The block cipher and the random number generator are
    the interfaces of [Interfaces.v]. *)

From S2P Require Import Prelude Interfaces.

(** ** The token format *)

Definition TOKEN_LEN : nat := 20.
Definition SELECTOR_LEN : nat := 2.
Definition NONCE_LEN : nat := 8.
Definition TAG_LEN : nat := 10.
Definition AES_BLOCK_LEN : nat := 16.

(** Where the fields are, as half-open ranges. *)
Definition SELECTOR_RANGE : nat * nat := (0, SELECTOR_LEN).
Definition NONCE_RANGE : nat * nat := (SELECTOR_LEN, SELECTOR_LEN + NONCE_LEN).
Definition TAG_RANGE : nat * nat := (SELECTOR_LEN + NONCE_LEN, TOKEN_LEN).

(** The two assertions checked when the crate is compiled: the fields fill the
    token, and the authenticated message is one block. *)
Definition layout_asserts : exec unit :=
  _ ← rust_assert (SELECTOR_LEN + NONCE_LEN + TAG_LEN =? TOKEN_LEN);
  rust_assert (NONCE_LEN + 2 * 4 =? AES_BLOCK_LEN).

(** [F_AB], client to server, and [F_BA], server to client. *)
Definition F_AB : list byte := bytes_of
  [0xa0; 0xb1; 0xc2; 0xd3; 0xe4; 0xf5; 0x06; 0x17; 0x28; 0x39; 0x4a; 0x5b; 0x6c; 0x7d; 0x8e; 0x9f]%Z.
Definition F_BA : list byte := bytes_of
  [0x5f; 0x4e; 0x3d; 0x2c; 0x1b; 0x0a; 0xf9; 0xe8; 0xd7; 0xc6; 0xb5; 0xa4; 0x93; 0x82; 0x71; 0x60]%Z.

Record Peers := mkPeers { client : Ipv4Addr; server : Ipv4Addr }.

Inductive Direction := ClientToServer | ServerToClient.

#[export] Instance Direction_eq_dec : EqDecision Direction.
Proof. solve_decision. Defined.

Definition selector (d : Direction) : Z :=
  match d with
  | ClientToServer => 0x0001
  | ServerToClient => 0x0002
  end%Z.

Definition direction_key (d : Direction) : list byte :=
  match d with
  | ClientToServer => F_AB
  | ServerToClient => F_BA
  end.

Definition from_selector (s : Z) : option Direction :=
  if (s =? 0x0001)%Z then Some ClientToServer
  else if (s =? 0x0002)%Z then Some ServerToClient
  else None.

Definition direction_path (d : Direction) (peers : Peers) : Ipv4Addr * Ipv4Addr :=
  match d with
  | ClientToServer => (client peers, server peers)
  | ServerToClient => (server peers, client peers)
  end.

Inductive AuthError :=
| BadLength (n : nat)
| UnknownSelector (s : Z)
| WrongDirection
| BadTag
| NotQuic
| NotIpv4 (ip : IpAddr).

#[export] Instance AuthError_eq_dec : EqDecision AuthError.
Proof. solve_decision. Defined.

(** [constant_time_eq]: the fold over the zipped slices accumulates the
    differing bits. *)
Definition constant_time_eq (a b : list byte) : bool :=
  if negb (length a =? length b) then false
  else bool_decide
    (fold_left (fun acc '(x, y) => u8_or acc (u8_xor x y)) (zip a b) Byte.x00 = Byte.x00).

Section token.
Context `{BlockCipher}.

(** [Trunc80(AES(key, nonce || src || dst))]. *)
Definition tag (key nonce : list byte) (src dst : Ipv4Addr) : exec (list byte) :=
  _ ← rust_assert (length nonce =? NONCE_LEN);
  let message := replicate AES_BLOCK_LEN Byte.x00 in
  message ← copy_range message 0 NONCE_LEN nonce;
  message ← copy_range message NONCE_LEN (NONCE_LEN + 4) (octets src);
  message ← copy_range message (NONCE_LEN + 4) AES_BLOCK_LEN (octets dst);
  let block := encrypt_block key message in
  prefix ← index_range block 0 TAG_LEN;
  copy_range (replicate TAG_LEN Byte.x00) 0 TAG_LEN prefix.

Definition assemble (direction : Direction) (nonce : list byte) (src dst : Ipv4Addr)
    : exec (list byte) :=
  let token := replicate TOKEN_LEN Byte.x00 in
  token ← copy_range token SELECTOR_RANGE.1 SELECTOR_RANGE.2 (to_be_bytes 2 (selector direction));
  token ← copy_range token NONCE_RANGE.1 NONCE_RANGE.2 nonce;
  t ← tag (direction_key direction) nonce src dst;
  copy_range token TAG_RANGE.1 TAG_RANGE.2 t.

(** The nonce comes from the generator, whose next state is returned with the
    token. *)
Definition mint_between `{Rng} (direction : Direction) (src dst : Ipv4Addr) (g : rng)
    : exec (list byte * rng) :=
  let '(nonce, g') := fill_bytes NONCE_LEN g in
  token ← assemble direction nonce src dst;
  mret (token, g').

Definition mint `{Rng} (direction : Direction) (peers : Peers) (g : rng)
    : exec (list byte * rng) :=
  let '(src, dst) := direction_path direction peers in
  mint_between direction src dst g.

Definition verify (token : list byte) (direction : Direction) (src dst : Ipv4Addr)
    : exec (result unit AuthError) :=
  if negb (length token =? TOKEN_LEN) then mret (Err (BadLength (length token)))
  else
    match get_range token SELECTOR_RANGE.1 SELECTOR_RANGE.2,
          get_range token NONCE_RANGE.1 NONCE_RANGE.2,
          get_range token TAG_RANGE.1 TAG_RANGE.2 with
    | Some sel, Some nonce, Some claimed =>
        s0 ← expect (sel !! 0);
        s1 ← expect (sel !! 1);
        let s := from_be_bytes [s0; s1] in
        match from_selector s with
        | None => mret (Err (UnknownSelector s))
        | Some found =>
            if bool_decide (found ≠ direction) then mret (Err WrongDirection)
            else
              expected ← tag (direction_key direction) nonce src dst;
              if constant_time_eq claimed expected then mret (Ok tt)
              else mret (Err BadTag)
        end
    | _, _, _ => mret (Err (BadLength (length token)))
    end.

End token.

(** ** Specification

    The tag and the token as mathematical functions of their fields, and
    verification as a decision on the fields of a token. *)
Section spec.
Context `{BlockCipher}.

Definition token_tag (d : Direction) (nonce : list byte) (src dst : Ipv4Addr) : list byte :=
  take TAG_LEN (encrypt_block (direction_key d) (nonce ++ octets src ++ octets dst)).

Definition token_of (d : Direction) (nonce : list byte) (src dst : Ipv4Addr) : list byte :=
  to_be_bytes 2 (selector d) ++ nonce ++ token_tag d nonce src dst.

(** The three fields of a token. *)
Definition selector_field (token : list byte) : Z := from_be_bytes (take 2 token).
Definition nonce_field (token : list byte) : list byte := take 8 (drop 2 token).
Definition tag_field (token : list byte) : list byte := drop 10 token.

Definition verify_spec (token : list byte) (d : Direction) (src dst : Ipv4Addr)
    : result unit AuthError :=
  if decide (length token = 20) then
    match from_selector (selector_field token) with
    | None => Err (UnknownSelector (selector_field token))
    | Some found =>
        if decide (found = d) then
          if decide (tag_field token = token_tag d (nonce_field token) src dst)
          then Ok tt else Err BadTag
        else Err WrongDirection
    end
  else Err (BadLength (length token)).

Definition reverse (d : Direction) : Direction :=
  match d with ClientToServer => ServerToClient | ServerToClient => ClientToServer end.
End spec.

(** ** Lemmas on the parts *)

Lemma layout_fits : layout_asserts = Done tt.
Proof. reflexivity. Qed.

Lemma length_direction_key d : length (direction_key d) = 16.
Proof. by destruct d. Qed.

#[export] Hint Resolve length_direction_key : pktauth.

Lemma selector_range d : (0 <= selector d < 256 ^ Z.of_nat 2)%Z.
Proof. destruct d; vm_compute; split; congruence. Qed.

Lemma selector_inj d d' : selector d = selector d' → d = d'.
Proof. by destruct d, d'. Qed.

Lemma from_selector_Some s d : from_selector s = Some d ↔ s = selector d.
Proof.
  unfold from_selector. destruct (Z.eqb_spec s 1), (Z.eqb_spec s 2), d; cbn; intuition congruence.
Qed.

Lemma from_selector_selector d : from_selector (selector d) = Some d.
Proof. by apply from_selector_Some. Qed.

Lemma from_selector_None s : from_selector s = None ↔ s ≠ 1%Z ∧ s ≠ 2%Z.
Proof.
  unfold from_selector. destruct (Z.eqb_spec s 1), (Z.eqb_spec s 2); intuition congruence.
Qed.

Lemma reverse_ne d : reverse d ≠ d.
Proof. by destruct d. Qed.

Lemma fold_diff_0 (l : list (byte * byte)) acc :
  fold_left (fun acc '(x, y) => u8_or acc (u8_xor x y)) l acc = Byte.x00 ↔
  acc = Byte.x00 ∧ Forall (fun '(x, y) => x = y) l.
Proof.
  revert acc. induction l as [|[x y] l IH]; intros acc; cbn [fold_left].
  - rewrite Forall_nil. tauto.
  - rewrite IH, Forall_cons, u8_or_eq_0, u8_xor_eq_0. tauto.
Qed.

Lemma zip_all_eq (a b : list byte) :
  length a = length b → Forall (fun '(x, y) => x = y) (zip a b) ↔ a = b.
Proof.
  revert b. induction a as [|x a IH]; intros [|y b] Hl; try discriminate Hl; cbn [zip zip_with].
  - split; [done|constructor].
  - injection Hl as Hl. rewrite Forall_cons. unfold zip in IH. rewrite IH by done. intuition congruence.
Qed.

Lemma constant_time_eq_true a b : constant_time_eq a b = true ↔ a = b.
Proof.
  unfold constant_time_eq. destruct (Nat.eqb_spec (length a) (length b)) as [Hl|Hl]; cbn.
  - rewrite bool_decide_eq_true, fold_diff_0, zip_all_eq by done. tauto.
  - split; congruence.
Qed.

Lemma constant_time_eq_decide a b : constant_time_eq a b = bool_decide (a = b).
Proof.
  apply eq_bool_prop_intro. split; intros Hx.
  - apply bool_decide_pack, constant_time_eq_true, Is_true_true, Hx.
  - apply Is_true_true, constant_time_eq_true, (bool_decide_unpack _ Hx).
Qed.

Section lemmas.
Context `{BlockCipherLaws}.
Implicit Types (d : Direction) (nonce token : list byte) (src dst : Ipv4Addr).

Lemma length_message nonce src dst :
  length nonce = 8 → length (nonce ++ octets src ++ octets dst) = 16.
Proof. intros Hn. rewrite !length_app, !length_octets. lia. Qed.

Lemma length_token_tag d nonce src dst :
  length nonce = 8 → length (token_tag d nonce src dst) = 10.
Proof.
  intros Hn. unfold token_tag. rewrite length_take, encrypt_block_length.
  - done.
  - apply length_direction_key.
  - by apply length_message.
Qed.

Lemma length_token_of d nonce src dst :
  length nonce = 8 → length (token_of d nonce src dst) = 20.
Proof.
  intros Hn. unfold token_of.
  rewrite !length_app, length_to_be_bytes, length_token_tag, Hn by done. done.
Qed.

(** The message is filled in completely, and no copy panics. *)
Lemma fill_message nonce src dst :
  length nonce = 8 →
  (m ← copy_range (replicate 16 Byte.x00) 0 8 nonce;
   m ← copy_range m 8 12 (octets src);
   copy_range m 12 16 (octets dst)) = Done (nonce ++ octets src ++ octets dst).
Proof.
  intros Hn. change (replicate 16 Byte.x00) with
    (replicate 8 Byte.x00 ++ replicate 4 Byte.x00 ++ replicate 4 Byte.x00).
  rewrite copy_range_head by solve_len. run.
  rewrite copy_range_app by solve_len. run.
  rewrite app_assoc, copy_range_tail by solve_len. by rewrite <- app_assoc.
Qed.

Lemma tag_eq d nonce src dst :
  length nonce = 8 → tag (direction_key d) nonce src dst = Done (token_tag d nonce src dst).
Proof.
  intros Hn. unfold tag, NONCE_LEN, AES_BLOCK_LEN, TAG_LEN. rewrite Hn. cbn [Nat.eqb Nat.add]. run.
  pose proof (fill_message nonce src dst Hn) as E. revert E.
  destruct (copy_range _ 0 8 nonce) as [m1|]; run; [|done].
  destruct (copy_range m1 8 12 _) as [m2|]; run; [|done]. intros ->. run.
  pose proof (length_token_tag d nonce src dst Hn) as Hl. unfold token_tag, TAG_LEN in *.
  set (block := encrypt_block _ _) in *. unfold index_range.
  rewrite <- (take_drop 10 block) at 1. rewrite get_range_prefix by done. run.
  by rewrite copy_range_full.
Qed.

Lemma tag_panics key nonce src dst : length nonce ≠ 8 → tag key nonce src dst = Panic.
Proof.
  intros Hn. unfold tag, NONCE_LEN. destruct (Nat.eqb_spec (length nonce) 8); done.
Qed.

Lemma assemble_eq d nonce src dst :
  length nonce = 8 → assemble d nonce src dst = Done (token_of d nonce src dst).
Proof.
  intros Hn. unfold assemble, token_of, SELECTOR_RANGE, NONCE_RANGE, TAG_RANGE, TOKEN_LEN, SELECTOR_LEN, NONCE_LEN.
  cbn [fst snd Nat.add].
  change (replicate 20 Byte.x00) with
    (replicate 2 Byte.x00 ++ replicate 8 Byte.x00 ++ replicate 10 Byte.x00).
  rewrite copy_range_head by solve_len. run.
  rewrite copy_range_app by solve_len. run.
  rewrite tag_eq by done. run.
  rewrite app_assoc, copy_range_tail by (rewrite ?length_token_tag by done; solve_len).
  by rewrite <- app_assoc.
Qed.

Lemma token_of_fields d nonce src dst :
  length nonce = 8 →
  selector_field (token_of d nonce src dst) = selector d ∧
  nonce_field (token_of d nonce src dst) = nonce ∧
  tag_field (token_of d nonce src dst) = token_tag d nonce src dst.
Proof.
  intros Hn. unfold token_of, selector_field, nonce_field, tag_field. split; [|split].
  - rewrite take_app_length' by solve_len. rewrite from_to_be_bytes.
    apply Z.mod_small, selector_range.
  - rewrite drop_app_length' by solve_len. by rewrite take_app_length' by done.
  - rewrite app_assoc. by rewrite drop_app_length' by solve_len.
Qed.

(** A 20-byte string is its three fields. *)
Lemma token_split token :
  length token = 20 →
  token = to_be_bytes 2 (selector_field token) ++ nonce_field token ++ tag_field token ∧
  length (nonce_field token) = 8 ∧ length (tag_field token) = 10.
Proof.
  intros Hl. unfold selector_field, nonce_field, tag_field.
  assert (length (take 2 token) = 2) as Hs by solve_len.
  split; [|solve_len].
  rewrite <- Hs at 1. rewrite to_from_be_bytes.
  rewrite <- (take_drop 2 token) at 1. f_equal.
  rewrite <- (take_drop 8 (drop 2 token)) at 1. by rewrite drop_drop.
Qed.

Lemma token_fields_inj t1 t2 :
  length t1 = 20 → length t2 = 20 → selector_field t1 = selector_field t2 →
  nonce_field t1 = nonce_field t2 → tag_field t1 = tag_field t2 → t1 = t2.
Proof.
  intros H1 H2 Hs Hn Ht. destruct (token_split t1 H1) as [-> _].
  destruct (token_split t2 H2) as [-> _]. congruence.
Qed.

(** [verify] computes its specification, and never panics. *)
Lemma verify_eq token d src dst : verify token d src dst = Done (verify_spec token d src dst).
Proof.
  unfold verify, verify_spec, SELECTOR_RANGE, NONCE_RANGE, TAG_RANGE, TOKEN_LEN, SELECTOR_LEN, NONCE_LEN.
  cbn [fst snd Nat.add].
  destruct (Nat.eqb_spec (length token) 20) as [Hl|Hl]; [|by rewrite decide_False].
  rewrite decide_True by done. cbn [negb].
  destruct (token_split token Hl) as (Htok & Hn & Ht).
  assert (∃ s0 s1, take 2 token = [s0; s1]) as (s0 & s1 & Hsel).
  { destruct token as [|s0 [|s1 ?]]; [done..|]. by exists s0, s1. }
  assert (get_range token 0 2 = Some [s0; s1]) as ->.
  { apply get_range_Some. rewrite <- Hsel, drop_0. split; [lia|split; [lia|done]]. }
  assert (get_range token 2 10 = Some (nonce_field token)) as ->.
  { apply get_range_Some. split; [lia|split; [lia|done]]. }
  assert (get_range token 10 20 = Some (tag_field token)) as ->.
  { apply get_range_Some. split; [lia|split; [lia|]]. unfold tag_field. rewrite take_ge; solve_len. }
  cbn [lookup list_lookup]. run. unfold selector_field. rewrite <- Hsel.
  destruct (from_selector _) as [found|]; [|done].
  destruct (decide (found = d)) as [->|Hne].
  - rewrite bool_decide_eq_false_2 by naive_solver. rewrite tag_eq by done. run.
    rewrite constant_time_eq_decide.
    case_bool_decide; [rewrite decide_True by done | rewrite decide_False by done]; done.
  - by rewrite bool_decide_eq_true_2.
Qed.

Lemma verify_spec_Ok token d src dst :
  verify_spec token d src dst = Ok tt ↔
  length token = 20 ∧ selector_field token = selector d ∧
  tag_field token = token_tag d (nonce_field token) src dst.
Proof.
  unfold verify_spec. destruct (decide (length token = 20)) as [Hl|Hl]; [|by split; [|intros [? _]]].
  destruct (from_selector _) as [found|] eqn:E.
  - apply from_selector_Some in E. rewrite E.
    destruct (decide (found = d)) as [->|Hne].
    + destruct (decide (tag_field token = _)) as [Ht|Ht]; [done|]. by split; [|intros (_ & _ & ?)].
    + split; [done|]. by intros (_ & ?%selector_inj & _).
  - apply from_selector_None in E. split; [done|]. intros (_ & Hs & _). destruct d; cbn in Hs; lia.
Qed.

(** The accepted tokens of a path are the images of the nonces. *)
Lemma verify_spec_token_of token d src dst :
  verify_spec token d src dst = Ok tt ↔
  ∃ nonce, length nonce = 8 ∧ token = token_of d nonce src dst.
Proof.
  rewrite verify_spec_Ok. split.
  - intros (Hl & Hs & Ht). destruct (token_split token Hl) as (E & Hn & _).
    exists (nonce_field token). split; [done|]. unfold token_of. by rewrite <- Ht, <- Hs.
  - intros (nonce & Hn & ->). destruct (token_of_fields d nonce src dst Hn) as (-> & -> & ->).
    split; [|done]. by apply length_token_of.
Qed.

Lemma token_of_inj d nonce nonce' src dst src' dst' :
  length nonce = 8 → length nonce' = 8 →
  token_of d nonce src dst = token_of d nonce' src' dst' → nonce = nonce'.
Proof.
  intros Hn Hn' E. destruct (token_of_fields d nonce src dst Hn) as (_ & <- & _).
  destruct (token_of_fields d nonce' src' dst' Hn') as (_ & <- & _). by rewrite E.
Qed.

Lemma mint_between_eq `{RngLaws} d src dst g :
  ∃ nonce, length nonce = 8 ∧ fill_bytes 8 g = (nonce, (fill_bytes 8 g).2) ∧
    mint_between d src dst g = Done (token_of d nonce src dst, (fill_bytes 8 g).2).
Proof.
  unfold mint_between, NONCE_LEN. pose proof (fill_bytes_length 8 g) as Hn.
  destruct (fill_bytes 8 g) as [nonce g']. exists nonce. cbn [fst snd] in *.
  rewrite assemble_eq by done. done.
Qed.
End lemmas.
