(* ===== verification/AuthTheorems.v ===== *)
(** * What the token scheme guarantees

    The theorems on [Auth.v], for every block cipher that satisfies the
    interface, each with an instance at concrete addresses under AES-128. *)

From S2P Require Import Prelude Interfaces Aes Instances Auth.

(** ** Example data *)

Definition ex_client : Ipv4Addr := ipv4 10 0 0 1.
Definition ex_server : Ipv4Addr := ipv4 10 0 0 2.
Definition ex_elsewhere : Ipv4Addr := ipv4 192 0 2 9.
Definition ex_peers : Peers := mkPeers ex_client ex_server.
Definition ex_nonce : list byte := bytes_of [7; 7; 7; 7; 7; 7; 7; 7]%Z.
Definition ex_tape : rng := ex_nonce.
Definition ex_token : list byte :=
  Eval vm_compute in token_of ClientToServer ex_nonce ex_client ex_server.

Example ex_token_verifies :
  verify ex_token ClientToServer ex_client ex_server = Done (Ok tt).
Proof. vm_compute. reflexivity. Qed.

(** The unit test [tokens_are_bound_to_the_address_pair]. *)
Example ex_token_bound_to_pair :
  verify ex_token ClientToServer ex_elsewhere ex_server = Done (Err BadTag) ∧
  verify ex_token ClientToServer ex_client ex_elsewhere = Done (Err BadTag) ∧
  verify ex_token ClientToServer ex_server ex_client = Done (Err BadTag).
Proof. vm_compute. auto. Qed.

(** The unit test [every_corrupted_byte_is_detected]. *)
Example ex_every_corrupted_byte :
  forallb (fun i =>
    match ex_token !! i with
    | Some b => bool_decide (verify (<[i := u8_xor b Byte.x01]> ex_token) ClientToServer
                               ex_client ex_server ≠ Done (Ok tt))
    | None => false
    end) (seq 0 TOKEN_LEN) = true.
Proof. vm_compute. reflexivity. Qed.

(** ** Helper lemmas *)

Section helpers.
Context `{BlockCipherLaws}.

Lemma list_insert_ne (l : list byte) i old b :
  l !! i = Some old → b ≠ old → <[i := b]> l ≠ l.
Proof.
  intros Hi Hb E. assert (<[i:=b]> l !! i = Some b) as E'.
  { apply list_lookup_insert_eq. by eapply lookup_lt_Some. }
  rewrite E in E'. congruence.
Qed.

(** A token that verifies is determined by its nonce. *)
Lemma accepted_same_nonce t t' d src dst :
  verify_spec t d src dst = Ok tt → verify_spec t' d src dst = Ok tt →
  nonce_field t' = nonce_field t → t' = t.
Proof.
  intros (Hl & Hs & Ht)%verify_spec_Ok (Hl' & Hs' & Ht')%verify_spec_Ok Hn.
  apply token_fields_inj; congruence.
Qed.

Lemma nonce_field_insert_out i b t :
  i < 2 ∨ 10 ≤ i → nonce_field (<[i := b]> t) = nonce_field t.
Proof.
  unfold nonce_field. intros [Hi|Hi].
  - by rewrite drop_insert_lt.
  - rewrite drop_insert_ge by lia. by rewrite take_insert_ge by lia.
Qed.

Lemma selector_field_insert_out i b t :
  2 ≤ i → selector_field (<[i := b]> t) = selector_field t.
Proof. intros Hi. unfold selector_field. by rewrite take_insert_ge. Qed.

Lemma tag_field_insert_out i b t : i < 10 → tag_field (<[i := b]> t) = tag_field t.
Proof. intros Hi. unfold tag_field. by rewrite drop_insert_lt. Qed.

(** A single changed byte is noticed, unless it is in the nonce and the tags collide. *)
Lemma corrupted_byte_iff token d src dst i old b :
  verify_spec token d src dst = Ok tt → token !! i = Some old → b ≠ old →
  verify_spec (<[i := b]> token) d src dst = Ok tt ↔
  2 ≤ i < 2 + 8 ∧
  token_tag d (nonce_field (<[i := b]> token)) src dst = token_tag d (nonce_field token) src dst.
Proof.
  intros Hok Hi Hb. pose proof (list_insert_ne token i old b Hi Hb) as Hne.
  destruct (decide (2 ≤ i < 10)) as [Hin|Hout].
  - apply verify_spec_Ok in Hok as (Hl & Hs & Ht). split.
    + intros (_ & _ & Ht')%verify_spec_Ok. rewrite tag_field_insert_out in Ht' by lia.
      split; [lia|congruence].
    + intros [_ E]. apply verify_spec_Ok.
      rewrite length_insert, selector_field_insert_out, tag_field_insert_out by lia.
      repeat split; congruence.
  - split; [|intros [? _]; lia]. intros Hok'. destruct Hne.
    eapply accepted_same_nonce; [done..|]. apply nonce_field_insert_out. lia.
Qed.

(** On another path a genuine token fails on its tag, or collides. *)
Lemma token_of_other_path d nonce src dst src' dst' :
  length nonce = 8 →
  verify_spec (token_of d nonce src dst) d src' dst' =
  if decide (token_tag d nonce src dst = token_tag d nonce src' dst') then Ok tt else Err BadTag.
Proof.
  intros Hn. unfold verify_spec. rewrite decide_True by by apply length_token_of.
  destruct (token_of_fields d nonce src dst Hn) as (-> & -> & ->).
  by rewrite from_selector_selector, decide_True.
Qed.

(** The ciphertext blocks behind two tags differ when the paths differ. *)
Lemma blocks_differ d nonce src dst src' dst' :
  length nonce = 8 → (src, dst) ≠ (src', dst') →
  encrypt_block (direction_key d) (nonce ++ octets src ++ octets dst) ≠
  encrypt_block (direction_key d) (nonce ++ octets src' ++ octets dst').
Proof.
  intros Hn Hne E. apply encrypt_block_inj in E; [|by auto using length_message with pktauth..].
  app_cut E. app_cut E. apply Hne. f_equal; by apply octets_inj.
Qed.

(** The last six bytes of the block identify the path among those a token
    verifies on. *)
Definition block_rest (d : Direction) (nonce : list byte) (path : Ipv4Addr * Ipv4Addr) : list byte :=
  drop 10 (encrypt_block (direction_key d) (nonce ++ octets path.1 ++ octets path.2)).

Lemma length_block_rest d nonce path : length nonce = 8 → length (block_rest d nonce path) = 6.
Proof.
  intros Hn. unfold block_rest.
  rewrite length_drop, encrypt_block_length; auto using length_message with pktauth.
Qed.

Lemma block_rest_inj d t p p' :
  verify_spec t d p.1 p.2 = Ok tt → verify_spec t d p'.1 p'.2 = Ok tt →
  block_rest d (nonce_field t) p = block_rest d (nonce_field t) p' → p = p'.
Proof.
  intros (Hl & _ & Ht)%verify_spec_Ok (_ & _ & Ht')%verify_spec_Ok E.
  destruct (token_split t Hl) as (_ & Hn & _).
  destruct (decide (p = p')) as [|Hne]; [done|]. destruct p as [src dst], p' as [src' dst'].
  destruct (blocks_differ d (nonce_field t) src dst src' dst' Hn Hne).
  rewrite <- (take_drop 10 (encrypt_block _ (_ ++ octets src ++ _))).
  rewrite <- (take_drop 10 (encrypt_block _ (_ ++ octets src' ++ _))).
  f_equal; [|exact E]. exact (eq_trans (eq_sym Ht) Ht').
Qed.
End helpers.

(** Closes the equivalences between an outcome and its cause. *)
Ltac outcome :=
  repeat split; intros; repeat match goal with H : _ ∧ _ |- _ => destruct H end;
  subst; try congruence; exfalso; eauto.

(** ** Theorems *)

Section theorems.
Context `{BlockCipherLaws}.

(** C1: [verify] accepts exactly the tokens that [assemble] makes from some
    8-byte nonce for the same direction and path: completeness and soundness of
    the check, for every input of every length. *)
Theorem verify_accepts_exactly_minted token d src dst :
  verify token d src dst = Done (Ok tt) ↔
  ∃ nonce, length nonce = NONCE_LEN ∧ assemble d nonce src dst = Done token.
Proof.
  rewrite verify_eq. split.
  - intros [= (nonce & Hn & ->)%verify_spec_token_of]. exists nonce. by rewrite assemble_eq.
  - intros (nonce & Hn & E). rewrite assemble_eq in E by done. injection E as <-.
    f_equal. apply verify_spec_token_of. by exists nonce.
Qed.

(** C18: [verify] never panics, and each outcome has its exact cause, in the
    order of the checks: the length, then the selector, then the direction, then
    the tag. *)
Theorem verify_outcome token d src dst :
  ∃ r, verify token d src dst = Done r ∧
    (∀ n, r = Err (BadLength n) ↔ n = length token ∧ length token ≠ TOKEN_LEN) ∧
    (∀ s, r = Err (UnknownSelector s) ↔
       length token = TOKEN_LEN ∧ s = selector_field token ∧
       s ≠ selector ClientToServer ∧ s ≠ selector ServerToClient) ∧
    (r = Err WrongDirection ↔
       length token = TOKEN_LEN ∧ selector_field token = selector (reverse d)) ∧
    (r = Err BadTag ↔
       length token = TOKEN_LEN ∧ selector_field token = selector d ∧
       tag_field token ≠ token_tag d (nonce_field token) src dst) ∧
    r ≠ Err NotQuic ∧ (∀ ip, r ≠ Err (NotIpv4 ip)).
Proof.
  exists (verify_spec token d src dst). split; [apply verify_eq|].
  unfold verify_spec, TOKEN_LEN.
  destruct (decide (length token = 20)) as [Hl|Hl]; [|outcome].
  destruct (from_selector _) as [found|] eqn:E.
  - apply from_selector_Some in E. rewrite E.
    assert (∀ s, s = selector found → s ≠ selector ClientToServer → s = selector ServerToClient)
      as Hknown by (intros; subst; by destruct found).
    destruct (decide (found = d)) as [->|Hne].
    + assert (selector d ≠ selector (reverse d)) by (by destruct d).
      destruct (decide (tag_field token = _)); outcome.
    + assert (selector found = selector (reverse d)) by (by destruct d, found).
      assert (selector found ≠ selector d) by (by intros ?%selector_inj).
      outcome.
  - apply from_selector_None in E. destruct E as [E1 E2].
    assert (∀ d', selector_field token ≠ selector d') as Hs by (by intros []).
    outcome.
Qed.

(** A freshly minted token is 20 bytes long and verifies for its own
    direction on its own path, whatever nonce the generator produced. *)
Theorem minted_tokens_verify_on_their_own_path `{RngLaws} d peers g :
  ∃ token g', mint d peers g = Done (token, g') ∧ length token = TOKEN_LEN ∧
    verify token d (direction_path d peers).1 (direction_path d peers).2 = Done (Ok tt).
Proof.
  unfold mint. destruct (direction_path d peers) as [src dst].
  destruct (mint_between_eq d src dst g) as (nonce & Hn & _ & ->).
  eexists _, _. split; [done|]. split; [by apply length_token_of|].
  rewrite verify_eq. f_equal. apply verify_spec_token_of. by exists nonce.
Qed.

(** A token minted for one direction is refused by the other with
    [WrongDirection], on every path: a token captured on the way out cannot be
    replayed at its own sender. *)
Theorem tokens_do_not_verify_for_the_reverse_direction `{RngLaws} d src dst g token g' src' dst' :
  mint_between d src dst g = Done (token, g') →
  verify token (reverse d) src' dst' = Done (Err WrongDirection).
Proof.
  destruct (mint_between_eq d src dst g) as (nonce & Hn & _ & ->). intros [= <- _].
  rewrite verify_eq. unfold verify_spec. rewrite decide_True by by apply length_token_of.
  destruct (token_of_fields d nonce src dst Hn) as (-> & _ & _).
  rewrite from_selector_selector, decide_False; [done|]. intros E. by apply (reverse_ne d).
Qed.

(** C19: changing any single byte of an accepted token makes [verify] reject it on
    its path, except that a changed nonce byte is accepted when the cipher maps
    the new nonce to the same 80-bit tag. *)
Theorem corrupted_byte_is_detected token d src dst i old b :
  verify token d src dst = Done (Ok tt) → token !! i = Some old → b ≠ old →
  verify (<[i := b]> token) d src dst = Done (Ok tt) ↔
  SELECTOR_LEN ≤ i < SELECTOR_LEN + NONCE_LEN ∧
  token_tag d (nonce_field (<[i := b]> token)) src dst = token_tag d (nonce_field token) src dst.
Proof.
  rewrite !verify_eq. intros [= Hok] Hi Hb.
  rewrite <- (corrupted_byte_iff token d src dst i old b Hok Hi Hb). split; [by intros [= E]|by intros ->].
Qed.

(** C20: a token minted for one path verifies on another exactly when two distinct
    ciphertext blocks of the cipher share their first 80 bits; otherwise the
    answer is [BadTag]. This is all the address binding depends on. *)
Theorem tokens_are_bound_to_the_address_pair d nonce src dst src' dst' token :
  assemble d nonce src dst = Done token → length nonce = NONCE_LEN → (src, dst) ≠ (src', dst') →
  ∃ block block',
    block = encrypt_block (direction_key d) (nonce ++ octets src ++ octets dst) ∧
    block' = encrypt_block (direction_key d) (nonce ++ octets src' ++ octets dst') ∧
    block ≠ block' ∧
    verify token d src' dst' =
      Done (if decide (take TAG_LEN block = take TAG_LEN block') then Ok tt else Err BadTag).
Proof.
  intros E Hn Hne. rewrite assemble_eq in E by done. injection E as <-.
  eexists _, _. split; [done|]. split; [done|]. split; [by apply blocks_differ|].
  rewrite verify_eq, token_of_other_path by done. done.
Qed.

(** For each direction and path there are exactly 2^64 tokens that verify, one
    per nonce, out of the 2^160 byte strings of a connection ID's length: a random
    connection ID passes with probability 2^-96. *)
Theorem accepted_tokens_count d src dst :
  ∃ accepted : list (list byte),
    NoDup accepted ∧
    (∀ token, token ∈ accepted ↔ verify token d src dst = Done (Ok tt)) ∧
    Z.of_nat (length accepted) = (2 ^ 64)%Z ∧
    Z.of_nat (length (all_lists TOKEN_LEN)) = (2 ^ 96 * 2 ^ 64)%Z.
Proof.
  exists ((fun nonce => token_of d nonce src dst) <$> all_lists 8).
  split; [|split; [|split]].
  - apply NoDup_fmap_2_strong; [|apply NoDup_all_lists].
    intros n n' Hn%elem_of_all_lists Hn'%elem_of_all_lists. by apply token_of_inj.
  - intros token. rewrite verify_eq, list_elem_of_fmap. split.
    + intros (n & -> & Hn%elem_of_all_lists). f_equal. apply verify_spec_token_of. by exists n.
    + intros [= (n & Hn & ->)%verify_spec_token_of]. exists n. by rewrite elem_of_all_lists.
  - rewrite length_fmap, length_all_lists. done.
  - rewrite length_all_lists. done.
Qed.

(** A given token verifies on at most 2^48 of the 2^64 pairs of source and
    destination addresses, because the cipher is a permutation and the tag keeps
    80 of the 128 bits of its output. *)
Theorem accepted_paths_bound token d (paths : list (Ipv4Addr * Ipv4Addr)) :
  NoDup paths →
  (∀ p, p ∈ paths → verify token d p.1 p.2 = Done (Ok tt)) →
  (Z.of_nat (length paths) <= 2 ^ 48)%Z.
Proof.
  intros Hnd Hok.
  assert (∀ p, p ∈ paths → verify_spec token d p.1 p.2 = Ok tt) as Hok'.
  { intros p Hp. specialize (Hok p Hp). rewrite verify_eq in Hok. congruence. }
  assert (length paths ≤ length (all_lists 6)) as Hle.
  { apply (NoDup_inj_length (block_rest d (nonce_field token))); [done|..].
    - intros p Hp. apply elem_of_all_lists, length_block_rest.
      apply Hok', verify_spec_Ok in Hp as (Hl & _ & _). by apply token_split.
    - intros p p' Hp Hp'. by apply block_rest_inj; apply Hok'. }
  apply Nat2Z.inj_le in Hle. rewrite length_all_lists in Hle. exact Hle.
Qed.
End theorems.

(** The constant-time comparison is equality of byte strings. *)
Theorem constant_time_eq_is_equality a b : constant_time_eq a b = true ↔ a = b.
Proof. apply constant_time_eq_true. Qed.

(** ** Instances at concrete input *)

Lemma verify_accepts_exactly_minted_witness :
  ∃ nonce, length nonce = NONCE_LEN ∧
    assemble ClientToServer nonce ex_client ex_server = Done ex_token.
Proof.
  apply (verify_accepts_exactly_minted ex_token ClientToServer ex_client ex_server).
  vm_compute. reflexivity.
Defined.

Lemma verify_outcome_witness :
  ∃ r, verify (<[0 := Byte.xff]> ex_token) ClientToServer ex_client ex_server = Done r ∧
    r = Err (UnknownSelector 0xff01).
Proof.
  destruct (verify_outcome (<[0 := Byte.xff]> ex_token) ClientToServer ex_client ex_server)
    as (r & Hr & _ & Hsel & _).
  exists r. split; [exact Hr|]. apply Hsel. vm_compute. repeat split; congruence.
Defined.

Lemma minted_tokens_verify_on_their_own_path_witness :
  ∃ token g', mint ServerToClient ex_peers ex_tape = Done (token, g') ∧ length token = TOKEN_LEN ∧
    verify token ServerToClient ex_server ex_client = Done (Ok tt).
Proof. exact (minted_tokens_verify_on_their_own_path ServerToClient ex_peers ex_tape). Defined.

Lemma tokens_do_not_verify_for_the_reverse_direction_witness :
  verify ex_token ServerToClient ex_server ex_client = Done (Err WrongDirection).
Proof.
  apply (tokens_do_not_verify_for_the_reverse_direction ClientToServer ex_client ex_server
           ex_tape ex_token []).
  vm_compute. reflexivity.
Defined.

Lemma corrupted_byte_is_detected_witness :
  verify (<[12 := Byte.x00]> ex_token) ClientToServer ex_client ex_server = Done (Ok tt) ↔
  SELECTOR_LEN ≤ 12 < SELECTOR_LEN + NONCE_LEN ∧
  token_tag ClientToServer (nonce_field (<[12 := Byte.x00]> ex_token)) ex_client ex_server =
  token_tag ClientToServer (nonce_field ex_token) ex_client ex_server.
Proof.
  apply (corrupted_byte_is_detected ex_token ClientToServer ex_client ex_server 12
           (nth 12 ex_token Byte.x00) Byte.x00); vm_compute; [reflexivity..|congruence].
Defined.

Lemma tokens_are_bound_to_the_address_pair_witness :
  ∃ block block',
    block = encrypt_block F_AB (ex_nonce ++ octets ex_client ++ octets ex_server) ∧
    block' = encrypt_block F_AB (ex_nonce ++ octets ex_elsewhere ++ octets ex_server) ∧
    block ≠ block' ∧
    verify ex_token ClientToServer ex_elsewhere ex_server =
      Done (if decide (take TAG_LEN block = take TAG_LEN block') then Ok tt else Err BadTag).
Proof.
  apply (tokens_are_bound_to_the_address_pair ClientToServer ex_nonce ex_client ex_server
           ex_elsewhere ex_server ex_token); vm_compute; [reflexivity..|congruence].
Defined.

Lemma accepted_tokens_count_witness :
  ∃ accepted : list (list byte),
    NoDup accepted ∧
    (∀ token, token ∈ accepted ↔
       verify token ClientToServer ex_client ex_server = Done (Ok tt)) ∧
    Z.of_nat (length accepted) = (2 ^ 64)%Z ∧
    Z.of_nat (length (all_lists TOKEN_LEN)) = (2 ^ 96 * 2 ^ 64)%Z.
Proof. exact (accepted_tokens_count ClientToServer ex_client ex_server). Defined.

Lemma accepted_paths_bound_witness :
  (Z.of_nat (length [(ex_client, ex_server)]) <= 2 ^ 48)%Z.
Proof.
  apply (accepted_paths_bound ex_token ClientToServer).
  - apply NoDup_singleton.
  - intros p ->%list_elem_of_singleton. vm_compute. reflexivity.
Defined.
