(* ===== verification/Datagram.v ===== *)
(** * The packet filter ([src/auth.rs], [destination_cid] and [Authenticator])

    Finding the destination connection ID in a QUIC datagram, and the check that
    runs on every inbound datagram before Quinn parses it. *)

From S2P Require Import Prelude Interfaces Aes Auth AuthTheorems.

Definition destination_cid (datagram : list byte) : option (list byte) :=
  match datagram !! 0 with
  | None => None
  | Some first =>
      if negb (Z.land (u8_Z first) 0x80 =? 0)%Z then
        match datagram !! 5 with
        | None => None
        | Some b =>
            let len := Z.to_nat (u8_Z b) in
            if TOKEN_LEN <? len then None else get_range datagram 6 (6 + len)
        end
      else get_range datagram 1 (1 + TOKEN_LEN)
  end.

Record Authenticator := Authenticator_new { inbound : Direction; auth_local_ip : Ipv4Addr }.

Definition check `{BlockCipher} (a : Authenticator) (datagram : list byte) (src : IpAddr)
    : exec (result unit AuthError) :=
  match src with
  | V6 _ => mret (Err (NotIpv4 src))
  | V4 src =>
      match destination_cid datagram with
      | None => mret (Err NotQuic)
      | Some cid => verify cid (inbound a) src (auth_local_ip a)
      end
  end.

(** What the receive path asks of a packet filter: a verdict on every datagram
    from every source. *)
Class InboundFilter (A : Type) := {
  filter_check : A → list byte → IpAddr → exec (result unit AuthError)
}.
Class InboundFilterLaws (A : Type) `{InboundFilter A} : Prop := {
  filter_check_total a datagram src : ∃ r, filter_check a datagram src = Done r
}.

#[export] Instance Authenticator_filter `{BlockCipher} : InboundFilter Authenticator :=
  { filter_check := check }.

(** ** Specification

    The two header forms of QUIC (RFC 9000, section 17) as far as the connection
    ID: a long header has its top bit set and carries the ID's length on the
    wire; a short header is followed by an ID of the receiver's own length. *)
Inductive quic_dcid : list byte → list byte → Prop :=
| long_header first version cid rest :
    (128 <= u8_Z first)%Z → length version = 4 → length cid ≤ TOKEN_LEN →
    quic_dcid (first :: version ++ [Z_u8 (Z.of_nat (length cid))] ++ cid ++ rest) cid
| short_header first cid rest :
    (u8_Z first < 128)%Z → length cid = TOKEN_LEN → quic_dcid (first :: cid ++ rest) cid.

(** ** Lemmas *)

Lemma high_bit_set b : negb (Z.land (u8_Z b) 0x80 =? 0)%Z = (128 <=? u8_Z b)%Z.
Proof. revert b. by_bytes. Qed.

Lemma byte_of_length (cid : list byte) :
  length cid ≤ TOKEN_LEN → Z.to_nat (u8_Z (Z_u8 (Z.of_nat (length cid)))) = length cid.
Proof. unfold TOKEN_LEN. intros Hl. rewrite u8_Z_of, Z.mod_small by lia. apply Nat2Z.id. Qed.

Lemma long_header_prefix (datagram : list byte) p r s :
  datagram = p ++ r ++ s → length p = 6 →
  ∃ first version lenb, p = first :: version ++ [lenb] ∧ length version = 4 ∧
    datagram !! 0 = Some first ∧ datagram !! 5 = Some lenb.
Proof.
  intros -> Hp. do 6 (destruct p as [|? p]; [done|]). destruct p; [|done].
  eexists _, [_; _; _; _], _. done.
Qed.

Lemma destination_cid_iff datagram cid : destination_cid datagram = Some cid ↔ quic_dcid datagram cid.
Proof.
  unfold destination_cid. split.
  - destruct (datagram !! 0) as [first|] eqn:Hf; [|done]. rewrite high_bit_set.
    destruct (Z.leb_spec 128 (u8_Z first)) as [Hhi|Hlo].
    + destruct (datagram !! 5) as [lenb|] eqn:Hb; [|done].
      destruct (Nat.ltb_spec TOKEN_LEN (Z.to_nat (u8_Z lenb))) as [|Hle]; [done|].
      intros (p & s & E & Hp & Hr)%get_range_split.
      destruct (long_header_prefix _ _ _ _ E Hp) as (f & v & lb & -> & Hv & Hf' & Hb').
      assert (f = first) as -> by congruence. assert (lb = lenb) as -> by congruence.
      assert (lenb = Z_u8 (Z.of_nat (length cid))) as ->.
      { pose proof (u8_Z_range lenb). replace (length cid) with (Z.to_nat (u8_Z lenb)) by lia.
        rewrite Z2Nat.id, Z_u8_of by lia. done. }
      rewrite E. cbn [app]. rewrite <- app_assoc. constructor; [done..|lia].
    + intros ([|f p] & s & E & Hp & Hr)%get_range_split; [done|]. injection Hp as Hp.
      apply length_zero_iff_nil in Hp as ->. rewrite E in Hf |- *. injection Hf as ->.
      apply (short_header first cid s); [done|lia].
  - intros [first version c rest Hhi Hv Hc|first c rest Hlo Hc]; cbn [lookup list_lookup];
      rewrite high_bit_set.
    + replace (128 <=? u8_Z first)%Z with true by lia.
      do 4 (destruct version as [|? version]; [done|]). destruct version; [|done].
      cbn [app lookup list_lookup]. rewrite byte_of_length by done.
      destruct (Nat.ltb_spec TOKEN_LEN (length c)); [lia|].
      by apply (get_range_app [_; _; _; _; _; _]).
    + replace (128 <=? u8_Z first)%Z with false by lia.
      apply (get_range_app [_]); [done|lia].
Qed.

(** At most one connection ID is found in a datagram, of at most 20 bytes. *)
Lemma quic_dcid_unique datagram c1 c2 : quic_dcid datagram c1 → quic_dcid datagram c2 → c1 = c2.
Proof. rewrite <- !destination_cid_iff. congruence. Qed.

Lemma quic_dcid_length datagram cid : quic_dcid datagram cid → length cid ≤ TOKEN_LEN.
Proof. destruct 1; lia. Qed.

Section lemmas.
Context `{BlockCipherLaws}.

Lemma check_total a datagram src : ∃ r, check a datagram src = Done r.
Proof.
  unfold check. destruct src as [ip|bits]; [|by eexists].
  destruct (destination_cid datagram); [|by eexists]. rewrite verify_eq. by eexists.
Qed.

#[export] Instance Authenticator_filter_laws : InboundFilterLaws Authenticator.
Proof. constructor. apply check_total. Qed.

Lemma check_Ok a datagram src :
  check a datagram src = Done (Ok tt) ↔
  ∃ ip nonce, src = V4 ip ∧ length nonce = 8 ∧
    quic_dcid datagram (token_of (inbound a) nonce ip (auth_local_ip a)).
Proof.
  unfold check. destruct src as [ip|bits].
  - destruct (destination_cid datagram) as [cid|] eqn:E.
    + apply destination_cid_iff in E. rewrite verify_eq. split.
      * intros [= (nonce & Hn & ->)%verify_spec_token_of]. by exists ip, nonce.
      * intros (ip' & nonce & [= <-] & Hn & E'). f_equal.
        rewrite (quic_dcid_unique _ _ _ E E'). apply verify_spec_token_of. by exists nonce.
    + split; [done|]. intros (ip' & nonce & _ & _ & E'). apply destination_cid_iff in E'. congruence.
  - split; [done|]. by intros (ip' & nonce & ? & _).
Qed.

Lemma check_carried a datagram cid ip :
  quic_dcid datagram cid →
  check a datagram (V4 ip) = Done (verify_spec cid (inbound a) ip (auth_local_ip a)).
Proof. intros E%destination_cid_iff. unfold check. by rewrite E, verify_eq. Qed.
End lemmas.

(** ** Theorems *)

(** The parser finds the connection ID exactly when the datagram has one of
    the two QUIC header forms, whole and with an ID of at most 20 bytes; on every
    other input, truncated datagrams included, it answers [None]. *)
Theorem destination_cid_is_located datagram cid :
  destination_cid datagram = Some cid ↔ quic_dcid datagram cid.
Proof. apply destination_cid_iff. Qed.

(** C13: the filter lets a datagram through exactly when it came from an IPv4
    source and carries a token minted for the filter's direction on the path from
    that source to the filter's own address. On every other datagram it answers
    with an error and does not panic. *)
Theorem check_accepts_exactly_its_path `{BlockCipherLaws} a datagram src :
  (check a datagram src = Done (Ok tt) ↔
   ∃ ip nonce token, src = V4 ip ∧ length nonce = NONCE_LEN ∧
     assemble (inbound a) nonce ip (auth_local_ip a) = Done token ∧
     quic_dcid datagram token) ∧
  (check a datagram src ≠ Done (Ok tt) → ∃ e, check a datagram src = Done (Err e)).
Proof.
  split.
  - rewrite check_Ok. split.
    + intros (ip & nonce & -> & Hn & Hq). exists ip, nonce. eexists.
      by rewrite (assemble_eq _ _ _ _ Hn).
    + intros (ip & nonce & token & -> & Hn & E & Hq). exists ip, nonce.
      rewrite (assemble_eq _ _ _ _ Hn) in E. by injection E as <-.
  - intros Hne. destruct (check_total a datagram src) as [[[]|e] E]; [done|]. by exists e.
Qed.

(** ** Instances at concrete input *)

(** A long-header datagram as in the unit test
    [destination_cid_is_located_in_both_header_forms]. *)
Definition ex_datagram : list byte :=
  bytes_of [0xc0; 0x00; 0x00; 0x00; 0x01; 20]%Z ++ ex_token ++ replicate 32 (Z_u8 0xaa).

Example ex_short_header_found :
  destination_cid (Z_u8 0x40 :: ex_token ++ replicate 32 (Z_u8 0xaa)) = Some ex_token.
Proof. vm_compute. reflexivity. Qed.

(** The unit test [truncated_datagrams_do_not_panic]. *)
Example ex_truncated_datagrams :
  destination_cid [] = None ∧
  destination_cid (bytes_of [0xc0; 0; 0; 0; 1; 20; 0]%Z) = None ∧
  destination_cid (bytes_of [0x40; 0]%Z) = None ∧
  destination_cid (bytes_of [0xc0; 0; 0; 0; 1; 21]%Z) = None.
Proof. vm_compute. auto. Qed.

Lemma check_accepts_exactly_its_path_witness :
  ∃ ip nonce token, V4 ex_client = V4 ip ∧ length nonce = NONCE_LEN ∧
    assemble ClientToServer nonce ip ex_server = Done token ∧ quic_dcid ex_datagram token.
Proof.
  apply (check_accepts_exactly_its_path (Authenticator_new ClientToServer ex_server)
           ex_datagram (V4 ex_client)).
  vm_compute. reflexivity.
Defined.
