(* ===== verification/CidGenerator.v ===== *)
(** * Issuing connection IDs ([src/auth.rs], [AuthCidGenerator])

    The generator Quinn asks for the connection IDs it advertises, the provider
    of the client's first destination connection ID, and their agreement with
    the filter of [Datagram.v] at the other end of the path. *)

From S2P Require Import Prelude Interfaces Aes Instances Auth AuthTheorems Datagram.

Record AuthCidGenerator := AuthCidGenerator_new { gen_direction : Direction; gen_local_ip : Ipv4Addr }.

Section generator.
Context `{BlockCipher, Rng, QuinnCid}.

(** [ConnectionId::new(&mint_between(direction, src, local_ip))]. *)
Definition mint_cid (direction : Direction) (src dst : Ipv4Addr) (g : rng)
    : exec (ConnectionId * rng) :=
  '(token, g') ← mint_between direction src dst g;
  mret (ConnectionId_new token, g').

Definition gen_generate_cid (self : AuthCidGenerator) (g : rng)
    : exec (ConnectionId * AuthCidGenerator * rng) :=
  '(cid, g') ← mint_cid (gen_direction self) UNSPECIFIED (gen_local_ip self) g;
  mret (cid, self, g').

Definition gen_generate_cid_for (self : AuthCidGenerator) (remote : SocketAddr)
    (_local_ip : option IpAddr) (g : rng) : exec (ConnectionId * AuthCidGenerator * rng) :=
  match sock_ip remote with
  | V4 peer =>
      '(cid, g') ← mint_cid (gen_direction self) peer (gen_local_ip self) g;
      mret (cid, self, g')
  | V6 _ =>
      '(cid, g') ← mint_cid (gen_direction self) UNSPECIFIED (gen_local_ip self) g;
      mret (cid, self, g')
  end.

Definition gen_cid_len (self : AuthCidGenerator) : nat := TOKEN_LEN.

Definition gen_cid_lifetime (self : AuthCidGenerator) : option Z := None.

#[export] Instance AuthCidGenerator_generator : ConnectionIdGenerator AuthCidGenerator := {
  generate_cid := gen_generate_cid;
  generate_cid_for := gen_generate_cid_for;
  cid_len := gen_cid_len;
  cid_lifetime := gen_cid_lifetime
}.

Definition initial_dst_cid_provider (peers : Peers) (g : rng) : exec (ConnectionId * rng) :=
  '(token, g') ← mint ClientToServer peers g;
  mret (ConnectionId_new token, g').
End generator.

(** The address a generator binds as the source of a peer's packets. *)
Definition bound_source (remote : SocketAddr) : Ipv4Addr :=
  match sock_ip remote with V4 peer => peer | V6 _ => UNSPECIFIED end.

(** ** Lemmas *)

Section lemmas.
Context `{BlockCipherLaws, RngLaws, QuinnCidLaws}.

Lemma mint_cid_eq d src dst g :
  ∃ nonce cid, length nonce = 8 ∧ mint_cid d src dst g = Done (cid, (fill_bytes 8 g).2) ∧
    ConnectionId_bytes cid = token_of d nonce src dst.
Proof.
  destruct (mint_between_eq d src dst g) as (nonce & Hn & _ & E).
  exists nonce, (ConnectionId_new (token_of d nonce src dst)). split; [done|].
  unfold mint_cid. rewrite E. split; [done|].
  apply ConnectionId_bytes_new. by rewrite length_token_of.
Qed.

Lemma generate_cid_for_eq self remote local g :
  ∃ nonce cid, length nonce = 8 ∧
    generate_cid_for self remote local g = Done (cid, self, (fill_bytes 8 g).2) ∧
    ConnectionId_bytes cid = token_of (gen_direction self) nonce (bound_source remote) (gen_local_ip self).
Proof.
  destruct (mint_cid_eq (gen_direction self) (bound_source remote) (gen_local_ip self) g)
    as (nonce & cid & Hn & E & Hb).
  exists nonce, cid. split; [done|]. split; [|done].
  cbn [generate_cid_for AuthCidGenerator_generator]. unfold gen_generate_cid_for, bound_source in *.
  by destruct (sock_ip remote); rewrite E.
Qed.

Lemma generate_cid_eq self g :
  ∃ nonce cid, length nonce = 8 ∧ generate_cid self g = Done (cid, self, (fill_bytes 8 g).2) ∧
    ConnectionId_bytes cid = token_of (gen_direction self) nonce UNSPECIFIED (gen_local_ip self).
Proof.
  destruct (mint_cid_eq (gen_direction self) UNSPECIFIED (gen_local_ip self) g)
    as (nonce & cid & Hn & E & Hb).
  exists nonce, cid. split; [done|]. split; [|done].
  cbn [generate_cid AuthCidGenerator_generator]. unfold gen_generate_cid. by rewrite E.
Qed.
End lemmas.

(** ** Theorems *)

Section theorems.
Context `{BlockCipherLaws, RngLaws, QuinnCidLaws}.

(** C22: a connection ID generated for an IPv4 peer is accepted by the filter of
    the same direction and address in every datagram, of either header form, that
    carries it from that peer, whatever the port and the random state. *)
Theorem generated_cids_authenticate_their_peer self remote local g peer datagram :
  sock_ip remote = V4 peer →
  ∃ cid g', generate_cid_for self remote local g = Done (cid, self, g') ∧
    length (ConnectionId_bytes cid) = cid_len self ∧
    (quic_dcid datagram (ConnectionId_bytes cid) →
     check (Authenticator_new (gen_direction self) (gen_local_ip self)) datagram (V4 peer) =
       Done (Ok tt)).
Proof.
  intros Hr. destruct (generate_cid_for_eq self remote local g) as (nonce & cid & Hn & E & Hb).
  exists cid, (fill_bytes 8 g).2. split; [done|].
  unfold bound_source in Hb. rewrite Hr in Hb. rewrite Hb. split; [by apply length_token_of|].
  intros Hq. apply check_Ok. by exists peer, nonce.
Qed.

(** C23: a connection ID made without a usable peer address, by [generate_cid] or
    for an IPv6 peer, authenticates exactly the sources whose tag coincides with
    the tag of the unspecified address: the source 0.0.0.0 itself is accepted, and
    any other only on a collision of the truncated cipher output. *)
Theorem cids_without_a_peer_bind_the_unspecified_address self remote local g bits :
  sock_ip remote = V6 bits →
  ∃ nonce cid g', length nonce = NONCE_LEN ∧
    generate_cid_for self remote local g = Done (cid, self, g') ∧
    generate_cid self g = Done (cid, self, g') ∧
    (∀ datagram src, quic_dcid datagram (ConnectionId_bytes cid) →
       check (Authenticator_new (gen_direction self) (gen_local_ip self)) datagram (V4 src) =
       Done (if decide (token_tag (gen_direction self) nonce UNSPECIFIED (gen_local_ip self) =
                        token_tag (gen_direction self) nonce src (gen_local_ip self))
             then Ok tt else Err BadTag)).
Proof.
  intros Hr. destruct (generate_cid_eq self g) as (nonce & cid & Hn & E & Hb).
  exists nonce, cid, (fill_bytes 8 g).2. split; [done|]. split; [|split; [done|]].
  - cbn [generate_cid generate_cid_for AuthCidGenerator_generator] in *.
    unfold gen_generate_cid_for. rewrite Hr. exact E.
  - intros datagram src Hq. rewrite (check_carried _ _ _ _ Hq), Hb. cbn [inbound auth_local_ip].
    by rewrite token_of_other_path.
Qed.

(** The first packet of a connection authenticates: the connection ID the
    client's provider picks is accepted by the server's filter in any datagram
    that carries it from the client's address. *)
Theorem initial_dst_cid_authenticates peers g datagram :
  ∃ cid g', initial_dst_cid_provider peers g = Done (cid, g') ∧
    (quic_dcid datagram (ConnectionId_bytes cid) →
     check (Authenticator_new ClientToServer (server peers)) datagram (V4 (client peers)) =
       Done (Ok tt)).
Proof.
  unfold initial_dst_cid_provider, mint. cbn [direction_path].
  destruct (mint_between_eq ClientToServer (client peers) (server peers) g) as (nonce & Hn & _ & ->).
  eexists _, _. split; [done|]. rewrite ConnectionId_bytes_new by by rewrite length_token_of.
  intros Hq. apply check_Ok. by exists (client peers), nonce.
Qed.
End theorems.

(** ** Instances at concrete input *)

Definition ex_generator : AuthCidGenerator := AuthCidGenerator_new ClientToServer ex_server.

Lemma generated_cids_authenticate_their_peer_witness :
  ∃ cid g', generate_cid_for ex_generator (mkSocketAddr (V4 ex_client) 4433) None ex_tape =
      Done (cid, ex_generator, g') ∧
    length (ConnectionId_bytes cid) = cid_len ex_generator ∧
    (quic_dcid ex_datagram (ConnectionId_bytes cid) →
     check (Authenticator_new ClientToServer ex_server) ex_datagram (V4 ex_client) = Done (Ok tt)).
Proof.
  apply (generated_cids_authenticate_their_peer ex_generator). reflexivity.
Defined.

Lemma cids_without_a_peer_bind_the_unspecified_address_witness :
  ∃ cid g', generate_cid ex_generator ex_tape = Done (cid, ex_generator, g') ∧
    (∀ datagram, quic_dcid datagram (ConnectionId_bytes cid) →
       check (Authenticator_new ClientToServer ex_server) datagram (V4 UNSPECIFIED) =
       Done (Ok tt)).
Proof.
  destruct (cids_without_a_peer_bind_the_unspecified_address ex_generator
              (mkSocketAddr (V6 1) 4433) None ex_tape 1 eq_refl)
    as (nonce & cid & g' & _ & _ & E & Hc).
  exists cid, g'. split; [exact E|]. intros datagram Hq.
  refine (eq_trans (Hc datagram UNSPECIFIED Hq) _). by rewrite decide_True.
Defined.

Lemma initial_dst_cid_authenticates_witness :
  ∃ cid g', initial_dst_cid_provider ex_peers ex_tape = Done (cid, g') ∧
    (quic_dcid ex_datagram (ConnectionId_bytes cid) →
     check (Authenticator_new ClientToServer ex_server) ex_datagram (V4 ex_client) = Done (Ok tt)).
Proof. exact (initial_dst_cid_authenticates ex_peers ex_tape ex_datagram). Defined.
