(* ===== verification/Socket.v ===== *)
(** * The receive path ([src/socket.rs])

    [PacketSocket] and its counters, and [poll_recv], the loop that reads
    datagrams, authenticates each one and hands the accepted ones to Quinn.

    The operating system and Tokio are inputs: [poll_recv] is given the answers
    of the successive [poll_recv_ready] calls and the outcomes of the successive
    [try_recv_from] calls, in the order the loop asks for them, so that every
    interleaving of arrivals, errors and wake-ups is a pair of lists. When a list
    runs out, the call answers [Pending] or [WouldBlock]. *)

From S2P Require Import Prelude Interfaces Aes Auth AuthTheorems Datagram.

(** ** Counters *)

Record PacketCounts := mkPacketCounts {
  pc_sent : Z; pc_sent_bytes : Z; pc_received : Z; pc_received_bytes : Z; pc_rejected : Z }.

(** The [AtomicU64] cells. *)
Record Counters := mkCounters {
  sent : Z; sent_bytes : Z; received : Z; received_bytes : Z; rejected : Z }.

Definition Counters_default : Counters := mkCounters 0 0 0 0 0.

(** [fetch_add], which wraps around. *)
Definition count_received (c : Counters) (len : nat) : Counters :=
  mkCounters (sent c) (sent_bytes c) (u64_wrapping_add (received c) 1)
    (u64_wrapping_add (received_bytes c) (Z.of_nat len)) (rejected c).
Definition count_rejected (c : Counters) : Counters :=
  mkCounters (sent c) (sent_bytes c) (received c) (received_bytes c)
    (u64_wrapping_add (rejected c) 1).
Definition count_sent (c : Counters) (len : nat) : Counters :=
  mkCounters (u64_wrapping_add (sent c) 1) (u64_wrapping_add (sent_bytes c) (Z.of_nat len))
    (received c) (received_bytes c) (rejected c).

(** ** The socket *)

(** The shared [Inner]; the I/O handle is the environment. *)
Record Inner (A : Type) := mkInner { authenticator : option A; counters : Counters }.
Arguments mkInner {A}.
Arguments authenticator {A}.
Arguments counters {A}.

(** [PacketSocket::bind], given the outcomes of binding, of switching to
    non-blocking mode and of registering with the runtime. *)
Definition bind {A} (bound nonblocking registered : result unit ErrorKind) (a : option A)
    : result (Inner A) ErrorKind :=
  match bound with
  | Err e => Err e
  | Ok _ =>
      match nonblocking with
      | Err e => Err e
      | Ok _ =>
          match registered with
          | Err e => Err e
          | Ok _ => Ok (mkInner a Counters_default)
          end
      end
  end.

Definition counts {A} (inner : Inner A) : PacketCounts :=
  let c := counters inner in
  mkPacketCounts (sent c) (sent_bytes c) (received c) (received_bytes c) (rejected c).

Definition is_transient (e : ErrorKind) : bool :=
  match e with
  | ConnectionRefused | ConnectionReset | HostUnreachable | NetworkUnreachable => true
  | _ => false
  end.

Definition max_receive_segments : nat := 1.
Definition may_fragment : bool := true.

(** ** Receiving *)

(** The outcome of one [try_recv_from]: the bytes the kernel copied into the
    buffer with the sender's address, or an error. *)
Inductive rx_event :=
| RxDatagram (data : list byte) (addr : SocketAddr)
| RxError (e : ErrorKind).

(** [quinn::udp::RecvMeta]: the fields the loop sets, and the others ([X]). *)
Record RecvMeta (X : Type) := mkRecvMeta {
  meta_addr : SocketAddr; meta_len : nat; meta_stride : nat; meta_other : X }.
Arguments mkRecvMeta {X}.
Arguments meta_addr {X}.
Arguments meta_len {X}.
Arguments meta_stride {X}.
Arguments meta_other {X}.

Section recv.
Context {A X : Type} `{InboundFilter A} (RecvMeta_default : RecvMeta X).

(** The mutable state of one poll: the counters, Quinn's buffers and metadata,
    and the outcomes still to come. *)
Record RecvState := mkRecvState {
  rs_counters : Counters; rs_bufs : list (list byte); rs_metas : list (RecvMeta X);
  rs_rx : list rx_event }.

(** How the inner [while let] ends: by running off the buffers or a [break], or
    by the early return of an error. *)
Inductive batch_exit := Broke (filled : nat) | Failed (e : ErrorKind).

(** A datagram written over the front of a buffer. *)
Definition write_buf (buf data : list byte) : list byte :=
  take (length buf) data ++ drop (length data) buf.

Fixpoint recv_batch (auth : option A) (filled : nat) (c : Counters) (bufs : list (list byte))
    (metas : list (RecvMeta X)) (rx : list rx_event) {struct rx}
    : exec (batch_exit * RecvState) :=
  match bufs !! filled with
  | None => mret (Broke filled, mkRecvState c bufs metas rx)
  | Some buf =>
      match rx with
      | [] => mret (Broke filled, mkRecvState c bufs metas [])
      | RxDatagram data addr :: rx' =>
          let len := length data in
          let buf := write_buf buf data in
          let bufs := <[filled := buf]> bufs in
          let c := count_received c len in
          accepted ← match auth with
                     | None => mret true
                     | Some a =>
                         datagram ← expect (get_range buf 0 len);
                         r ← filter_check a datagram (sock_ip addr);
                         mret (is_ok r)
                     end;
          if accepted : bool then
            match metas !! filled with
            | None => mret (Broke filled, mkRecvState c bufs metas rx')
            | Some _ =>
                let m := mkRecvMeta addr len len (meta_other RecvMeta_default) in
                recv_batch auth (S filled) c bufs (<[filled := m]> metas) rx'
            end
          else recv_batch auth filled (count_rejected c) bufs metas rx'
      | RxError e :: rx' =>
          if bool_decide (e = WouldBlock) then mret (Broke filled, mkRecvState c bufs metas rx')
          else if is_transient e then mret (Broke filled, mkRecvState c bufs metas rx')
          else if 0 <? filled then mret (Broke filled, mkRecvState c bufs metas rx')
          else mret (Failed e, mkRecvState c bufs metas rx')
      end
  end.

(** The outer [loop]. *)
Fixpoint recv_loop (auth : option A) (rdy : list (poll (result unit ErrorKind))) (st : RecvState)
    : exec (poll (result nat ErrorKind) * RecvState) :=
  match rdy with
  | [] | Pending :: _ => mret (Pending, st)
  | Ready (Err e) :: _ => mret (Ready (Err e), st)
  | Ready (Ok _) :: rdy' =>
      '(exit, st) ← recv_batch auth 0 (rs_counters st) (rs_bufs st) (rs_metas st) (rs_rx st);
      match exit with
      | Failed e => mret (Ready (Err e), st)
      | Broke filled =>
          if 0 <? filled then mret (Ready (Ok filled), st) else recv_loop auth rdy' st
      end
  end.

Definition poll_recv (self : Inner A) (bufs : list (list byte)) (metas : list (RecvMeta X))
    (rdy : list (poll (result unit ErrorKind))) (rx : list rx_event)
    : exec (poll (result nat ErrorKind) * Inner A * RecvState) :=
  '(r, st) ← recv_loop (authenticator self) rdy (mkRecvState (counters self) bufs metas rx);
  mret (r, mkInner (authenticator self) (rs_counters st), st).
End recv.
Arguments RecvState X : clear implicits.
Arguments mkRecvState {X}.
Arguments rs_counters {X}.
Arguments rs_bufs {X}.
Arguments rs_metas {X}.
Arguments rs_rx {X}.

(** ** Specification

    Which datagrams of a sequence of outcomes reach Quinn: those the filter
    accepts, in the order they were read. *)
Section spec.
Context {A X : Type} `{InboundFilter A}.

Definition accepts (auth : option A) (data : list byte) (addr : SocketAddr) : bool :=
  match auth with
  | None => true
  | Some a => bool_decide (filter_check a data (sock_ip addr) = Done (Ok tt))
  end.

(** The datagrams among the outcomes, with the stride Quinn is told. *)
Definition datagrams (rx : list rx_event) : list (list byte * SocketAddr * nat) :=
  omap (fun e => match e with
                 | RxDatagram data addr => Some (data, addr, length data)
                 | RxError _ => None
                 end) rx.

Definition accepted (auth : option A) (rx : list rx_event) : list (list byte * SocketAddr * nat) :=
  List.filter (fun '(data, addr, _) => accepts auth data addr) (datagrams rx).

(** What Quinn reads from the first [n] slots. *)
Definition delivered (bufs : list (list byte)) (metas : list (RecvMeta X)) (n : nat)
    : list (list byte * SocketAddr * nat) :=
  zip_with (fun buf m => (take (meta_len m) buf, meta_addr m, meta_stride m))
    (take n bufs) (take n metas).

(** A datagram is never longer than the buffer it was read into. *)
Definition fits (bufs : list (list byte)) (rx : list rx_event) : Prop :=
  Forall (fun e => match e with
                   | RxDatagram data _ => Forall (fun buf => length data ≤ length buf) bufs
                   | RxError _ => True
                   end) rx.

Definition total_bytes (l : list (list byte * SocketAddr * nat)) : Z :=
  foldr (fun '(data, _, _) n => Z.of_nat (length data) + n)%Z 0%Z l.

Definition wf_counters (c : Counters) : Prop :=
  is_u64 (sent c) ∧ is_u64 (sent_bytes c) ∧ is_u64 (received c) ∧
  is_u64 (received_bytes c) ∧ is_u64 (rejected c).

(** The counters after the outcomes [used] have been read. *)
Definition counted (auth : option A) (c : Counters) (used : list rx_event) : Counters :=
  mkCounters (sent c) (sent_bytes c)
    (wrap 64 (received c + Z.of_nat (length (datagrams used))))
    (wrap 64 (received_bytes c + total_bytes (datagrams used)))
    (wrap 64 (rejected c + (Z.of_nat (length (datagrams used)) - Z.of_nat (length (accepted auth used))))).
End spec.

(** ** Lemmas *)

Lemma length_write_buf buf data : length (write_buf buf data) = length buf.
Proof. unfold write_buf. solve_len. Qed.

Lemma take_write_buf buf data :
  length data ≤ length buf → take (length data) (write_buf buf data) = data.
Proof. intros Hl. unfold write_buf. rewrite (take_ge data) by done. by rewrite take_app_length. Qed.

Lemma get_range_write_buf buf data :
  length data ≤ length buf → get_range (write_buf buf data) 0 (length data) = Some data.
Proof.
  intros Hl. apply get_range_Some. rewrite length_write_buf, drop_0, Nat.sub_0_r.
  rewrite take_write_buf by done. split; [lia|done].
Qed.

Section recv_lemmas.
Context {A X : Type} `{InboundFilterLaws A} (dflt : RecvMeta X).
Implicit Types (auth : option A) (bufs : list (list byte)) (metas : list (RecvMeta X)).

Lemma fits_insert bufs rx i data buf :
  bufs !! i = Some buf → fits bufs rx → fits (<[i := write_buf buf data]> bufs) rx.
Proof.
  intros Hi Hf. eapply Forall_impl; [exact Hf|]. intros [d addr|e]; [|done]. intros Hd.
  apply Forall_insert; [done|]. rewrite length_write_buf. exact (Forall_lookup_1 _ _ _ _ Hd Hi).
Qed.

Lemma fits_head bufs rx data addr i buf :
  fits bufs (RxDatagram data addr :: rx) → bufs !! i = Some buf → length data ≤ length buf.
Proof. intros [Hd _]%Forall_cons Hi. exact (Forall_lookup_1 _ _ _ _ Hd Hi). Qed.

Lemma fits_app bufs rx1 rx2 : fits bufs (rx1 ++ rx2) ↔ fits bufs rx1 ∧ fits bufs rx2.
Proof. apply Forall_app. Qed.

Lemma delivered_insert_ge bufs metas n i buf :
  n ≤ i → delivered (<[i := buf]> bufs) metas n = delivered bufs metas n.
Proof. intros Hi. unfold delivered. by rewrite take_insert_ge. Qed.

Lemma delivered_push bufs metas n buf data addr x :
  bufs !! n = Some buf → n < length metas → length data ≤ length buf →
  delivered (<[n := write_buf buf data]> bufs)
    (<[n := mkRecvMeta addr (length data) (length data) x]> metas) (S n) =
  delivered bufs metas n ++ [(data, addr, length data)].
Proof.
  intros Hb Hm Hl. pose proof (lookup_lt_Some _ _ _ Hb) as Hn. unfold delivered.
  rewrite !take_S_insert by done.
  rewrite zip_with_app by (rewrite !length_take; lia). cbn [zip_with meta_len meta_addr meta_stride].
  by rewrite take_write_buf.
Qed.

Lemma accepted_cons_datagram auth data addr rx :
  accepted auth (RxDatagram data addr :: rx) =
  (if accepts auth data addr then [(data, addr, length data)] else []) ++ accepted auth rx.
Proof. unfold accepted. cbn. by destruct (accepts auth data addr). Qed.

Lemma accepted_app auth rx1 rx2 : accepted auth (rx1 ++ rx2) = accepted auth rx1 ++ accepted auth rx2.
Proof. unfold accepted, datagrams. by rewrite omap_app, List.filter_app. Qed.

Lemma datagrams_app rx1 rx2 : datagrams (rx1 ++ rx2) = datagrams rx1 ++ datagrams rx2.
Proof. apply omap_app. Qed.

Lemma total_bytes_app l1 l2 : total_bytes (l1 ++ l2) = (total_bytes l1 + total_bytes l2)%Z.
Proof.
  unfold total_bytes. induction l1 as [|[[d a] n] l1 IH]; cbn [app foldr]; [done|]. rewrite IH. lia.
Qed.

Lemma accepted_length_le auth rx : length (accepted auth rx) ≤ length (datagrams rx).
Proof. unfold accepted. apply List.filter_length_le. Qed.

Lemma counted_wf auth c used : wf_counters c → wf_counters (counted auth c used).
Proof. intros (?&?&_). unfold wf_counters, counted; cbn. split_and!; try done; apply wrap_u64. Qed.

Lemma counted_nil auth c : wf_counters c → counted auth c [] = c.
Proof.
  intros (?&?&?&?&?). unfold counted. cbn. rewrite !Z.add_0_r, !wrap_small by done. by destruct c.
Qed.

Lemma counted_app auth c u1 u2 :
  counted auth (counted auth c u1) u2 = counted auth c (u1 ++ u2).
Proof.
  unfold counted. cbn. rewrite !wrap_add_l, datagrams_app, accepted_app, total_bytes_app, !length_app, !Nat2Z.inj_add.
  f_equal; f_equal; lia.
Qed.

Lemma counted_error auth c e : wf_counters c → counted auth c [RxError e] = c.
Proof. exact (counted_nil auth c). Qed.

Lemma counted_accepted auth c data addr :
  wf_counters c → accepts auth data addr = true →
  count_received c (length data) = counted auth c [RxDatagram data addr].
Proof.
  intros (?&?&?&?&?) Ha. unfold counted, count_received. rewrite accepted_cons_datagram, Ha. cbn.
  rewrite !Z.add_0_r, (wrap_small (rejected c)) by done. done.
Qed.

Lemma counted_rejected auth c data addr :
  wf_counters c → accepts auth data addr = false →
  count_rejected (count_received c (length data)) = counted auth c [RxDatagram data addr].
Proof.
  intros (?&?&?&?&?) Ha. unfold counted, count_received, count_rejected.
  rewrite accepted_cons_datagram, Ha. cbn. by rewrite !Z.add_0_r.
Qed.
End recv_lemmas.

(** ** The inner loop *)

Section batch.
Context {A X : Type} `{InboundFilterLaws A} (dflt : RecvMeta X).
Implicit Types (auth : option A) (bufs : list (list byte)) (metas : list (RecvMeta X)).

(** The check of one datagram as the loop writes it is [accepts]. *)
Lemma check_in_loop auth buf data addr :
  length data ≤ length buf →
  match auth with
  | None => mret true
  | Some a =>
      datagram ← expect (get_range (write_buf buf data) 0 (length data));
      r ← filter_check a datagram (sock_ip addr);
      mret (is_ok r)
  end = Done (accepts auth data addr).
Proof.
  intros Hl. destruct auth as [a|]; [|done]. rewrite get_range_write_buf by done. run.
  unfold accepts. destruct (filter_check_total a data (sock_ip addr)) as [[[]|e] ->]; run.
  - by rewrite bool_decide_eq_true_2.
  - by rewrite bool_decide_eq_false_2.
Qed.

(** What the inner loop is started with, and what one run of it from slot
    [filled] does: it reads some outcomes [used], puts the accepted datagrams of
    [used] into the next slots in order and counts every datagram; it fails only
    on an error that is neither [WouldBlock] nor transient, with no slot filled. *)
Record batch_pre (filled : nat) (c : Counters) bufs metas (rx : list rx_event) : Prop := {
  pre_fits : fits bufs rx;
  pre_metas : length bufs ≤ length metas;
  pre_filled : filled ≤ length bufs;
  pre_wf : wf_counters c
}.

Record batch_post auth (filled : nat) (c : Counters) bufs metas (rx : list rx_event)
    (exit : batch_exit) (st : RecvState X) (used : list rx_event) : Prop := {
  post_rx : rx = used ++ rs_rx st;
  post_bufs : length (rs_bufs st) = length bufs;
  post_metas : length (rs_metas st) = length metas;
  post_fits : fits (rs_bufs st) (rs_rx st);
  post_counters : rs_counters st = counted auth c used;
  post_delivered :
    delivered (rs_bufs st) (rs_metas st) (filled + length (accepted auth used)) =
    delivered bufs metas filled ++ accepted auth used;
  post_bound : filled + length (accepted auth used) ≤ length bufs;
  post_exit :
    match exit with
    | Broke n => n = filled + length (accepted auth used)
    | Failed e =>
        filled + length (accepted auth used) = 0 ∧ e ≠ WouldBlock ∧ is_transient e = false ∧
        RxError e ∈ used
    end
}.

(** Leaving the loop without reading anything more. *)
Lemma batch_stop auth filled c bufs metas rx :
  batch_pre filled c bufs metas rx →
  batch_post auth filled c bufs metas rx (Broke filled) (mkRecvState c bufs metas rx) [].
Proof.
  intros [Hfit Hm Hf Hwf]. split; cbn; rewrite ?Nat.add_0_r, ?app_nil_r; try done.
  by rewrite counted_nil.
Qed.

(** Leaving the loop on an error. *)
Lemma batch_error auth filled c bufs metas rx e exit :
  batch_pre filled c bufs metas (RxError e :: rx) →
  match exit with
  | Broke n => n = filled
  | Failed e' => e' = e ∧ filled = 0 ∧ e ≠ WouldBlock ∧ is_transient e = false
  end →
  batch_post auth filled c bufs metas (RxError e :: rx) exit (mkRecvState c bufs metas rx) [RxError e].
Proof.
  intros [Hfit Hm Hf Hwf] Hx. apply Forall_cons in Hfit as [_ Hfit].
  split; cbn; rewrite ?Nat.add_0_r, ?app_nil_r; try done.
  - by rewrite counted_error.
  - destruct exit; [done|]. destruct Hx as (-> & -> & ? & ?). split_and!; try done. constructor.
Qed.

(** Going on after a datagram that was accepted into slot [filled]. *)
Lemma batch_accept auth filled c bufs metas rx buf data addr x exit st used :
  let bufs' := <[filled := write_buf buf data]> bufs in
  let metas' := <[filled := mkRecvMeta addr (length data) (length data) x]> metas in
  bufs !! filled = Some buf → accepts auth data addr = true →
  batch_pre filled c bufs metas (RxDatagram data addr :: rx) →
  batch_post auth (S filled) (counted auth c [RxDatagram data addr]) bufs' metas' rx exit st used →
  batch_post auth filled c bufs metas (RxDatagram data addr :: rx) exit st
    (RxDatagram data addr :: used).
Proof.
  intros bufs' metas' Hb Ha Hpre [Hrx Hlb Hlm Hf Hc Hd Hle Hx].
  pose proof (fits_head _ _ _ _ _ _ (pre_fits _ _ _ _ _ Hpre) Hb) as Hl.
  pose proof (lookup_lt_Some _ _ _ Hb) as Hlt. pose proof (pre_metas _ _ _ _ _ Hpre) as Hm.
  unfold bufs', metas' in *. 
  rewrite length_insert in Hlb. rewrite length_insert in Hlm. rewrite length_insert in Hle.
  split; rewrite ?accepted_cons_datagram, ?Ha; cbn [app length]; rewrite ?Nat.add_succ_r; try done.
  - by rewrite Hrx.
  - by rewrite Hc, counted_app.
  - rewrite delivered_push in Hd by (done || lia). by rewrite <- app_assoc in Hd.
  - destruct exit; [done|]. by destruct Hx.
Qed.

(** Going on after a datagram that was rejected: the slot is reused. *)
Lemma batch_reject auth filled c bufs metas rx buf data addr exit st used :
  let bufs' := <[filled := write_buf buf data]> bufs in
  bufs !! filled = Some buf → accepts auth data addr = false →
  batch_post auth filled (counted auth c [RxDatagram data addr]) bufs' metas rx exit st used →
  batch_post auth filled c bufs metas (RxDatagram data addr :: rx) exit st
    (RxDatagram data addr :: used).
Proof.
  intros bufs' Hb Ha [Hrx Hlb Hlm Hf Hc Hd Hle Hx]. unfold bufs' in *.
  rewrite length_insert in Hlb. rewrite length_insert in Hle. rewrite delivered_insert_ge in Hd by done.
  split; rewrite ?accepted_cons_datagram, ?Ha; cbn [app]; try done.
  - by rewrite Hrx.
  - by rewrite Hc, counted_app.
  - destruct exit; [done|]. destruct Hx as (? & ? & ? & ?). split_and!; try done. by constructor.
Qed.

Lemma batch_pre_next filled filled' auth c bufs metas metas' rx buf data addr :
  bufs !! filled = Some buf → batch_pre filled c bufs metas (RxDatagram data addr :: rx) →
  filled' ≤ S filled → length metas' = length metas →
  batch_pre filled' (counted auth c [RxDatagram data addr])
    (<[filled := write_buf buf data]> bufs) metas' rx.
Proof.
  intros Hb [Hfit Hm Hf Hwf] Hf' Hm'. apply Forall_cons in Hfit as [_ Hfit].
  pose proof (lookup_lt_Some _ _ _ Hb).
  split; rewrite ?length_insert; [by apply fits_insert|lia|lia|by apply counted_wf].
Qed.

Ltac leaves post := eexists _, _, _; split; [done | apply post; try done].

Lemma recv_batch_spec auth rx : ∀ filled c bufs metas,
  batch_pre filled c bufs metas rx →
  ∃ exit st used, recv_batch dflt auth filled c bufs metas rx = Done (exit, st) ∧
    batch_post auth filled c bufs metas rx exit st used.
Proof.
  induction rx as [|ev rx IH]; intros filled c bufs metas Hpre; cbn [recv_batch];
    destruct (bufs !! filled) as [buf|] eqn:Hb; [leaves batch_stop..| |leaves batch_stop].
  destruct ev as [data addr|e].
  - pose proof (fits_head _ _ _ _ _ _ (pre_fits _ _ _ _ _ Hpre) Hb) as Hl.
    pose proof (lookup_lt_Some _ _ _ Hb) as Hlt. pose proof (pre_metas _ _ _ _ _ Hpre) as Hm.
    rewrite check_in_loop by done. run. destruct (accepts auth data addr) eqn:Ha.
    + destruct (lookup_lt_is_Some_2 metas filled) as [m ->]; [lia|].
      rewrite (counted_accepted auth _ data addr (pre_wf _ _ _ _ _ Hpre) Ha).
      edestruct (IH (S filled)) as (exit & st & used & -> & Hpost);
        [by eapply batch_pre_next; [..|apply length_insert]|].
      eexists _, _, _. split; [done|]. by eapply batch_accept.
    + rewrite (counted_rejected auth _ data addr (pre_wf _ _ _ _ _ Hpre) Ha).
      edestruct (IH filled) as (exit & st & used & -> & Hpost);
        [eapply batch_pre_next; [done..|lia|done]|].
      eexists _, _, _. split; [done|]. by eapply batch_reject.
  - case_bool_decide as Hwb; [leaves batch_error|].
    destruct (is_transient e) eqn:Ht; [leaves batch_error|].
    destruct (Nat.ltb_spec 0 filled); [leaves batch_error|].
    leaves batch_error. split_and!; (done || lia).
Qed.
End batch.

(** ** The outer loop *)

Section loop.
Context {A X : Type} `{InboundFilterLaws A} (dflt : RecvMeta X).
Implicit Types (auth : option A) (bufs : list (list byte)) (metas : list (RecvMeta X)).

(** The datagrams a poll hands to Quinn: the filled slots, if it reports any. *)
Definition handed (r : poll (result nat ErrorKind)) (st : RecvState X)
    : list (list byte * SocketAddr * nat) :=
  match r with
  | Ready (Ok n) => delivered (rs_bufs st) (rs_metas st) n
  | _ => []
  end.

Record poll_post auth (rdy : list (poll (result unit ErrorKind))) (st0 : RecvState X)
    (r : poll (result nat ErrorKind)) (st : RecvState X) (used : list rx_event) : Prop := {
  poll_rx : rs_rx st0 = used ++ rs_rx st;
  poll_fits : fits (rs_bufs st) (rs_rx st);
  poll_bufs : length (rs_bufs st) = length (rs_bufs st0);
  poll_metas : length (rs_metas st) = length (rs_metas st0);
  poll_counters : rs_counters st = counted auth (rs_counters st0) used;
  poll_handed : handed r st = accepted auth used;
  poll_result :
    match r with
    | Ready (Ok n) => 0 < n ≤ length (rs_bufs st0) ∧ n = length (accepted auth used)
    | Ready (Err e) =>
        Ready (Err e) ∈ rdy ∨ (RxError e ∈ used ∧ e ≠ WouldBlock ∧ is_transient e = false)
    | Pending => True
    end
}.

(** A poll that stops before reading. *)
Lemma poll_stop auth rdy st r :
  fits (rs_bufs st) (rs_rx st) → wf_counters (rs_counters st) →
  match r with
  | Ready (Ok _) => False
  | Ready (Err e) => Ready (Err e) ∈ rdy
  | Pending => True
  end →
  poll_post auth rdy st r st [].
Proof.
  intros Hf Hwf Hr. destruct r as [[n|e]|]; [done|..]; split; cbn; try done.
  1, 3: by rewrite counted_nil. by left.
Qed.

(** A batch that filled slots ends the poll. *)
Lemma poll_batch_ok auth rdy st0 exit st used n :
  batch_post auth 0 (rs_counters st0) (rs_bufs st0) (rs_metas st0) (rs_rx st0) exit st used →
  exit = Broke n → 0 < n → poll_post auth rdy st0 (Ready (Ok n)) st used.
Proof.
  intros [Hrx Hb Hm Hf Hc Hd Hle Hx] -> Hn. cbn in Hx, Hd, Hle. subst n.
  by split.
Qed.

(** So does a batch that failed. *)
Lemma poll_batch_failed auth rdy st0 st used e :
  batch_post auth 0 (rs_counters st0) (rs_bufs st0) (rs_metas st0) (rs_rx st0) (Failed e) st used →
  poll_post auth rdy st0 (Ready (Err e)) st used.
Proof.
  intros [Hrx Hb Hm Hf Hc Hd Hle (Hx & ? & ? & ?)]. cbn in Hx. apply length_zero_iff_nil in Hx.
  split; try done. by right.
Qed.

(** A batch without accepted datagrams is followed by another round. *)
Lemma poll_batch_again auth rdy ev st0 st1 r st used1 used2 :
  batch_post auth 0 (rs_counters st0) (rs_bufs st0) (rs_metas st0) (rs_rx st0) (Broke 0) st1 used1 →
  poll_post auth rdy st1 r st used2 → poll_post auth (ev :: rdy) st0 r st (used1 ++ used2).
Proof.
  intros [Hrx Hb Hm Hf Hc _ _ Hx] [Hrx2 Hf2 Hb2 Hm2 Hc2 Hh2 Hr2]. cbn in Hx.
  symmetry in Hx. apply length_zero_iff_nil in Hx.
  split; rewrite ?accepted_app, ?Hx; try done; try congruence.
  - by rewrite Hrx, Hrx2, app_assoc.
  - by rewrite Hc2, Hc, counted_app.
  - destruct r as [[n|e]|]; [by rewrite Hb in Hr2| |done].
    destruct Hr2 as [?|(? & ?)]; [left; by constructor|right]. split; [|done].
    apply elem_of_app. by right.
Qed.

Lemma recv_loop_spec auth rdy : ∀ st0,
  fits (rs_bufs st0) (rs_rx st0) → length (rs_bufs st0) ≤ length (rs_metas st0) →
  wf_counters (rs_counters st0) →
  ∃ r st used, recv_loop dflt auth rdy st0 = Done (r, st) ∧ poll_post auth rdy st0 r st used.
Proof.
  induction rdy as [|[[[]|e]|] rdy IH]; intros st0 Hf Hm Hwf; cbn [recv_loop].
  1, 3, 4: eexists _, _, _; split; [done|]; apply poll_stop; [done..|by constructor || done].
  destruct (recv_batch_spec dflt auth (rs_rx st0) 0 (rs_counters st0) (rs_bufs st0) (rs_metas st0))
    as (exit & st1 & used1 & -> & Hpost); [split; (done || lia)|]. run.
  destruct exit as [n|e]; [|by eauto 10 using poll_batch_failed].
  destruct (Nat.ltb_spec 0 n) as [Hn|Hn]; [by eauto 10 using poll_batch_ok|].
  assert (n = 0) as -> by lia.
  destruct (IH st1) as (r & st & used2 & -> & Hpost2); [by apply Hpost|..].
  - by rewrite (post_bufs _ _ _ _ _ _ _ _ _ Hpost), (post_metas _ _ _ _ _ _ _ _ _ Hpost).
  - rewrite (post_counters _ _ _ _ _ _ _ _ _ Hpost). by apply counted_wf.
  - eexists _, _, _. split; [done|]. by eapply poll_batch_again.
Qed.

(** [poll_recv] is the loop on the socket's own counters. *)
Lemma poll_recv_spec (self : Inner A) bufs metas rdy rx :
  fits bufs rx → length bufs ≤ length metas → wf_counters (counters self) →
  ∃ r st used,
    poll_recv dflt self bufs metas rdy rx =
      Done (r, mkInner (authenticator self) (rs_counters st), st) ∧
    poll_post (authenticator self) rdy (mkRecvState (counters self) bufs metas rx) r st used.
Proof.
  intros Hf Hm Hwf.
  destruct (recv_loop_spec (authenticator self) rdy (mkRecvState (counters self) bufs metas rx))
    as (r & st & used & E & Hpost); [done..|].
  exists r, st, used. unfold poll_recv. by rewrite E.
Qed.
End loop.
