(* ===== verification/Sender.v ===== *)
(** * The send path ([src/socket.rs], [try_send] and [PacketSender])

    Splitting a transmit into datagrams, writing each one, and the poll loop that
    waits for the socket to become writable. The outcomes of the successive
    [try_send_to] calls and of polling the [writable()] futures are inputs; the
    datagrams the kernel took are logged in the order they were written. *)

From S2P Require Import Prelude Interfaces Socket.

(** The parts of [quinn::udp::Transmit] that are used. *)
Record Transmit := mkTransmit {
  destination : SocketAddr; contents : list byte; segment_size : option nat }.

Record SendState := mkSendState {
  ss_counters : Counters;
  ss_wire : list (SocketAddr * list byte);
  ss_tx : list (result nat ErrorKind) }.

Definition send_datagram (st : SendState) (dst : SocketAddr) (data : list byte)
    : result unit ErrorKind * SendState :=
  match ss_tx st with
  | [] => (Err WouldBlock, st)
  | Err e :: tx => (Err e, mkSendState (ss_counters st) (ss_wire st) tx)
  | Ok n :: tx =>
      (Ok tt, mkSendState (count_sent (ss_counters st) n) (ss_wire st ++ [(dst, data)]) tx)
  end.

(** The [for] loop over the segments, leaving at the first error. *)
Fixpoint send_segments (st : SendState) (dst : SocketAddr) (segs : list (list byte))
    : result unit ErrorKind * SendState :=
  match segs with
  | [] => (Ok tt, st)
  | seg :: segs' =>
      match send_datagram st dst seg with
      | (Ok _, st') => send_segments st' dst segs'
      | (Err e, st') => (Err e, st')
      end
  end.

Definition try_send (st : SendState) (t : Transmit) : exec (result unit ErrorKind * SendState) :=
  match segment_size t with
  | None => mret (send_datagram st (destination t) (contents t))
  | Some n =>
      segs ← chunks n (contents t);
      mret (send_segments st (destination t) segs)
  end.

(** A [writable()] future: polling one that has completed panics. *)
Inductive writable_future := Live | Completed.

#[export] Instance writable_future_eq_dec : EqDecision writable_future.
Proof. solve_decision. Defined.

(** [PacketSender::poll_send]; the sender's own state is its [writable] slot. *)
Fixpoint poll_send (writable : option writable_future) (t : Transmit)
    (wr : list (poll (result unit ErrorKind))) (st : SendState)
    : exec (poll (result unit ErrorKind) * option writable_future * SendState) :=
  let writable := match writable with None => Some Live | Some f => Some f end in
  f ← expect writable;
  match f with
  | Completed => Panic
  | Live =>
      match wr with
      | [] | Pending :: _ => mret (Pending, Some Live, st)
      | Ready ready :: wr' =>
          let writable := None in
          match ready with
          | Err e => mret (Ready (Err e), writable, st)
          | Ok _ =>
              '(r, st) ← try_send st t;
              match r with
              | Ok _ => mret (Ready (Ok tt), writable, st)
              | Err e =>
                  if bool_decide (e = WouldBlock) then poll_send writable t wr' st
                  else mret (Ready (Ok tt), writable, st)
              end
          end
      end
  end.

Definition max_transmit_segments : nat := 1.

(** [create_sender]: a fresh sender has no future in flight. *)
Definition create_sender : option writable_future := None.

(** ** Specification *)

(** The datagrams a transmit stands for. *)
Definition segments (t : Transmit) : list (list byte) :=
  match segment_size t with
  | None => [contents t]
  | Some n => chunks_of (length (contents t)) n (contents t)
  end.

Definition sendable (t : Transmit) : Prop := segment_size t ≠ Some 0.

(** The counters after the outcomes [used] of [try_send_to]. *)
Definition sent_counted (c : Counters) (used : list (result nat ErrorKind)) : Counters :=
  mkCounters (wrap 64 (sent c + Z.of_nat (length (List.filter is_ok used))))
    (wrap 64 (sent_bytes c + sum_ok used)) (received c) (received_bytes c) (rejected c).

(** ** Lemmas *)

Lemma segments_concat t : sendable t → concat (segments t) = contents t.
Proof.
  unfold sendable, segments. destruct (segment_size t) as [n|]; intros Hs.
  - apply chunks_of_concat; [|done]. destruct n; [done|lia].
  - apply app_nil_r.
Qed.

Lemma try_send_eq st t :
  sendable t → try_send st t = Done (send_segments st (destination t) (segments t)).
Proof.
  unfold sendable, try_send, segments, chunks. destruct (segment_size t) as [n|]; intros Hs.
  - destruct (Nat.eqb_spec n 0) as [->|]; done.
  - cbn [send_segments]. by destruct (send_datagram _ _ _) as [[[]|e] st'].
Qed.

Lemma sent_counted_nil c : wf_counters c → sent_counted c [] = c.
Proof.
  intros (?&?&_). unfold sent_counted. cbn. rewrite !Z.add_0_r, !wrap_small by done. by destruct c.
Qed.

Lemma sent_counted_app c u1 u2 :
  sent_counted (sent_counted c u1) u2 = sent_counted c (u1 ++ u2).
Proof.
  unfold sent_counted. cbn. rewrite !wrap_add_l, sum_ok_app, List.filter_app, length_app, Nat2Z.inj_add.
  f_equal; f_equal; lia.
Qed.

Lemma sent_counted_wf c used : wf_counters c → wf_counters (sent_counted c used).
Proof.
  intros (_&_&?&?&?). unfold wf_counters, sent_counted; cbn. split_and!; try done; apply wrap_u64.
Qed.

Lemma sent_counted_ok c n : sent_counted c [Ok n] = count_sent c n.
Proof. unfold sent_counted, count_sent. cbn. by rewrite Z.add_0_r. Qed.

(** Writing a list of segments: a prefix of them goes out, all of them exactly
    when the result is [Ok]. *)
Record segments_post (st0 : SendState) (dst : SocketAddr) (segs : list (list byte))
    (r : result unit ErrorKind) (st : SendState) (used : list (result nat ErrorKind))
    (out : list (list byte)) : Prop := {
  seg_tx : ss_tx st0 = used ++ ss_tx st;
  seg_wire : ss_wire st = ss_wire st0 ++ map (pair dst) out;
  seg_out : length out = length (List.filter is_ok used);
  seg_counters : ss_counters st = sent_counted (ss_counters st0) used;
  seg_result :
    match r with
    | Ok _ => out = segs
    | Err e => (∃ rest, segs = out ++ rest ∧ rest ≠ []) ∧ (e = WouldBlock ∨ Err e ∈ ss_tx st0)
    end
}.

Lemma send_datagram_spec st dst seg :
  wf_counters (ss_counters st) →
  ∃ used out, segments_post st dst [seg] (send_datagram st dst seg).1 (send_datagram st dst seg).2 used out.
Proof.
  intros Hwf. unfold send_datagram. destruct st as [c wire [|[n|e] tx]]; cbn in *.
  - exists [], []. split; cbn; rewrite ?app_nil_r, ?sent_counted_nil; try done.
    split; [by exists [seg]|by left].
  - exists [Ok n], [seg]. split; try done. cbn. by rewrite sent_counted_ok.
  - exists [Err e], []. split; cbn; rewrite ?app_nil_r; try done.
    + symmetry. exact (sent_counted_nil c Hwf).
    + split; [by exists [seg]|right; constructor].
Qed.

Lemma send_segments_spec dst segs : ∀ st r st',
  wf_counters (ss_counters st) → send_segments st dst segs = (r, st') →
  ∃ used out, segments_post st dst segs r st' used out.
Proof.
  induction segs as [|seg segs IH]; intros st r st' Hwf; cbn [send_segments].
  - intros [= <- <-]. exists [], []. split; cbn; rewrite ?app_nil_r, ?sent_counted_nil; done.
  - destruct (send_datagram_spec st dst seg Hwf) as (u1 & o1 & [Htx Hw Ho Hc Hr]).
    destruct (send_datagram st dst seg) as [[[]|e] st1]; cbn [fst snd] in *.
    + intros E. edestruct IH as (u2 & o2 & [Htx2 Hw2 Ho2 Hc2 Hr2]); [|exact E|].
      { rewrite Hc. by apply sent_counted_wf. }
      exists (u1 ++ u2), (o1 ++ o2). subst o1. split.
      * by rewrite Htx, Htx2, app_assoc.
      * by rewrite Hw2, Hw, map_app, app_assoc.
      * rewrite List.filter_app, !length_app. congruence.
      * by rewrite Hc2, Hc, sent_counted_app.
      * destruct r as [[]|e]; [by rewrite Hr2|]. destruct Hr2 as [(rest & -> & Hne) Hin].
        split; [by exists rest|]. destruct Hin; [by left|right]. rewrite Htx. apply elem_of_app. by right.
    + intros [= <- <-]. exists u1, o1. destruct Hr as [(rest & E & Hne) Hin].
      split; try done. split; [|done]. exists (rest ++ segs). split; [|by destruct rest].
      by rewrite app_assoc, <- E.
Qed.

(** ** The poll loop *)

Definition partial (t : Transmit) (out : list (list byte)) : Prop :=
  ∃ rest, segments t = out ++ rest ∧ rest ≠ [].

(** What one [poll_send] does: rounds that met [WouldBlock] wrote part of the
    segments, the last round wrote [final]. *)
Record send_post (t : Transmit) (wr : list (poll (result unit ErrorKind))) (st0 : SendState)
    (r : poll (result unit ErrorKind)) (w : option writable_future) (st : SendState)
    (used : list (result nat ErrorKind)) (retried : list (list (list byte)))
    (final : list (list byte)) : Prop := {
  send_tx : ss_tx st0 = used ++ ss_tx st;
  send_wire : ss_wire st = ss_wire st0 ++ map (pair (destination t)) (concat retried ++ final);
  send_count : length (concat retried ++ final) = length (List.filter is_ok used);
  send_counters : ss_counters st = sent_counted (ss_counters st0) used;
  send_retried : Forall (partial t) retried;
  send_writable : w = match r with Pending => Some Live | Ready _ => None end;
  send_result :
    match r with
    | Pending => final = []
    | Ready (Err e) => final = [] ∧ Ready (Err e) ∈ wr
    | Ready (Ok _) =>
        final = segments t ∨ (partial t final ∧ ∃ e, e ≠ WouldBlock ∧ Err e ∈ ss_tx st0)
    end
}.

Lemma send_stop t wr st r :
  wf_counters (ss_counters st) →
  match r with Pending => True | Ready (Ok _) => False | Ready (Err e) => Ready (Err e) ∈ wr end →
  send_post t wr st r (match r with Pending => Some Live | Ready _ => None end) st [] [] [].
Proof.
  intros Hwf Hr. split; cbn; rewrite ?app_nil_r, ?sent_counted_nil; try done.
  by destruct r as [[]|].
Qed.

Lemma send_finish t wr st0 r st used out :
  segments_post st0 (destination t) (segments t) r st used out →
  match r with Ok _ => True | Err e => e ≠ WouldBlock end →
  send_post t wr st0 (Ready (Ok tt)) None st used [] out.
Proof.
  intros [Htx Hw Ho Hc Hr] Hne. split; try done. destruct r as [[]|e]; [by left|].
  destruct Hr as [Hp [->|Hin]]; [done|]. right. split; [exact Hp|]. by exists e.
Qed.

Lemma send_again t wr ev st0 st1 st r w used1 out used2 retried final :
  segments_post st0 (destination t) (segments t) (Err WouldBlock) st1 used1 out →
  send_post t wr st1 r w st used2 retried final →
  send_post t (ev :: wr) st0 r w st (used1 ++ used2) (out :: retried) final.
Proof.
  intros [Htx Hw Ho Hc [Hp _]] [Htx2 Hw2 Ho2 Hc2 Hp2 Hwr Hr2]. split; try done.
  - by rewrite Htx, Htx2, app_assoc.
  - cbn [concat]. by rewrite Hw2, Hw, <- !app_assoc, (map_app _ out).
  - cbn [concat]. rewrite <- app_assoc, List.filter_app, length_app, Ho2, length_app. congruence.
  - by rewrite Hc2, Hc, sent_counted_app.
  - by constructor.
  - destruct r as [[[]|e]|]; [|destruct Hr2; split; [done|by constructor]|done].
    destruct Hr2 as [?|(? & e & ? & ?)]; [by left|right]. split; [done|]. exists e. split; [done|].
    rewrite Htx. apply elem_of_app. by right.
Qed.

Lemma poll_send_spec t : sendable t → ∀ wr w0 st0,
  w0 ≠ Some Completed → wf_counters (ss_counters st0) →
  ∃ r w st used retried final,
    poll_send w0 t wr st0 = Done (r, w, st) ∧ send_post t wr st0 r w st used retried final.
Proof.
  intros Hs. induction wr as [|[[[]|e]|] wr IH]; intros w0 st0 Hw0 Hwf;
    assert (expect (match w0 with None => Some Live | Some f => Some f end) = Done Live) as Hlive
      by (destruct w0 as [[]|]; (reflexivity || congruence));
    cbn [poll_send]; rewrite Hlive; run.
  1, 3, 4: do 6 eexists; split; [done|]; apply (send_stop t _ st0 (Ready (Err _))) ||
    apply (send_stop t _ st0 Pending); (done || by constructor).
  rewrite try_send_eq by done. run.
  destruct (send_segments st0 (destination t) (segments t)) as [r1 st1] eqn:E.
  destruct (send_segments_spec _ _ _ _ _ Hwf E) as (used1 & out & Hseg).
  destruct r1 as [[]|e]; [by do 6 eexists; split; [|by eapply send_finish]|].
  case_bool_decide as He; [subst|by do 6 eexists; split; [|by eapply send_finish]].
  destruct (IH None st1) as (r & w & st & used2 & retried & final & -> & Hpost); [done|..].
  - rewrite (seg_counters _ _ _ _ _ _ _ Hseg). by apply sent_counted_wf.
  - do 6 eexists. split; [done|]. by eapply send_again.
Qed.

(** Without segmentation nothing is ever written in part. *)
Lemma partial_single t out : segment_size t = None → partial t out → out = [].
Proof.
  unfold partial, segments. intros -> (rest & E & Hne).
  destruct out as [|o out]; [done|]. injection E as <- E. by destruct out, rest.
Qed.

Lemma retried_single t retried :
  segment_size t = None → Forall (partial t) retried → concat retried = [].
Proof.
  intros Hs. induction 1 as [|out retried Hp _ IH]; cbn; [done|].
  by rewrite (partial_single t out Hs Hp), IH.
Qed.
