(* ===== verification/SocketTheorems.v ===== *)
(** * What the socket guarantees

    The theorems on [Socket.v] and [Sender.v]: the receive path against every
    packet filter that gives a verdict on each datagram, then with the
    authenticator of [Datagram.v] as the filter, and the send path. *)

From S2P Require Import Prelude Interfaces Aes Instances Auth AuthTheorems Datagram Socket Sender.

(** ** Skipping rejected datagrams *)

Section skip.
Context {A X : Type} `{InboundFilterLaws A} (dflt : RecvMeta X).

Definition rejected_event (auth : option A) (ev : rx_event) : Prop :=
  match ev with
  | RxDatagram data addr => accepts auth data addr = false
  | RxError _ => False
  end.

(** Rejected datagrams only move the counters and overwrite the slot. *)
Lemma recv_batch_skip auth forged filled : ∀ c bufs metas rx,
  Forall (rejected_event auth) forged → filled < length bufs → fits bufs (forged ++ rx) →
  wf_counters c →
  ∃ bufs', length bufs' = length bufs ∧ fits bufs' rx ∧
    recv_batch dflt auth filled c bufs metas (forged ++ rx) =
    recv_batch dflt auth filled (counted auth c forged) bufs' metas rx.
Proof.
  induction forged as [|[data addr|e] forged IH]; intros c bufs metas rx Hrej Hlt Hfit Hwf.
  - exists bufs. by rewrite counted_nil.
  - apply Forall_cons in Hrej as [Ha Hrej].
    destruct (lookup_lt_is_Some_2 bufs filled Hlt) as [buf Hb].
    pose proof (fits_head _ _ _ _ _ _ Hfit Hb) as Hl. apply Forall_cons in Hfit as [_ Hfit].
    destruct (IH (counted auth c [RxDatagram data addr]) (<[filled := write_buf buf data]> bufs) metas rx)
      as (bufs' & Hlb & Hf & E); [done|by rewrite length_insert|by apply fits_insert|by apply counted_wf|].
    exists bufs'. split; [by rewrite Hlb, length_insert|]. split; [done|].
    cbn [recv_batch app]. rewrite Hb, check_in_loop by done. run. rewrite Ha.
    rewrite (counted_rejected auth _ _ addr) by done. by rewrite E, counted_app.
  - by apply Forall_cons in Hrej as [[] _].
Qed.

(** An accepted datagram is taken when a slot is free, and then the batch does not
    fail. *)
Lemma recv_batch_take auth c bufs metas rx data addr :
  batch_pre 0 c bufs metas (RxDatagram data addr :: rx) → bufs ≠ [] →
  accepts auth data addr = true →
  ∃ n st used, recv_batch dflt auth 0 c bufs metas (RxDatagram data addr :: rx) = Done (Broke n, st) ∧
    batch_post auth 0 c bufs metas (RxDatagram data addr :: rx) (Broke n) st
      (RxDatagram data addr :: used).
Proof.
  intros Hpre Hne Ha. destruct bufs as [|buf bufs]; [done|].
  pose proof (pre_metas _ _ _ _ _ Hpre) as Hm. destruct metas as [|m metas]; [cbn in Hm; lia|].
  pose proof (fits_head _ _ _ _ 0 buf (pre_fits _ _ _ _ _ Hpre) eq_refl) as Hl.
  cbn [recv_batch lookup list_lookup]. rewrite check_in_loop by done. run. rewrite Ha.
  rewrite (counted_accepted auth _ data addr (pre_wf _ _ _ _ _ Hpre) Ha).
  set (bufs' := <[0 := _]> (buf :: bufs)). set (metas' := <[0 := _]> (m :: metas)).
  destruct (recv_batch_spec dflt auth rx 1 (counted auth c [RxDatagram data addr]) bufs' metas')
    as (exit & st & used & -> & Hpost).
  { eapply batch_pre_next; [done|exact Hpre|lia|apply length_insert]. }
  eapply (batch_accept auth 0) in Hpost; [|done..].
  destruct exit as [n|e]; [by eexists _, _, _|].
  destruct (post_exit _ _ _ _ _ _ _ _ _ Hpost) as [Hx _].
  by rewrite accepted_cons_datagram, Ha in Hx.
Qed.

Lemma counted_forged auth c forged :
  Forall (rejected_event auth) forged →
  counted auth c forged = mkCounters (sent c) (sent_bytes c)
    (wrap 64 (received c + Z.of_nat (length forged)))
    (wrap 64 (received_bytes c + total_bytes (datagrams forged)))
    (wrap 64 (rejected c + Z.of_nat (length forged))).
Proof.
  intros Hrej. assert (length (datagrams forged) = length forged ∧ accepted auth forged = []) as [Hl Ha].
  { induction Hrej as [|[data addr|] forged Ha _ [IHl IHa]]; [done| |done].
    split; [cbn; by f_equal|]. by rewrite accepted_cons_datagram, Ha. }
  unfold counted. rewrite Hl, Ha. cbn. by rewrite Z.sub_0_r.
Qed.
End skip.

(** ** The receive path *)

Section recv_theorems.
Context {A X : Type} `{InboundFilterLaws A} (dflt : RecvMeta X).

(** C2: one [poll_recv] on any arrivals, errors and wake-ups neither panics nor
    loses, reorders or lets through anything: what it hands to Quinn is exactly
    the datagrams it read that the filter accepts, in order, each with its own
    length and sender; and the counters advance by the datagrams read, their bytes
    and the rejected ones, modulo 2^64. *)
Theorem poll_recv_hands_quinn_exactly_the_accepted (self : Inner A) bufs metas rdy rx :
  fits bufs rx → length bufs ≤ length metas → wf_counters (counters self) →
  ∃ r st used,
    poll_recv dflt self bufs metas rdy rx =
      Done (r, mkInner (authenticator self)
                 (counted (authenticator self) (counters self) used), st) ∧
    rx = used ++ rs_rx st ∧
    handed r st = accepted (authenticator self) used.
Proof.
  intros Hf Hm Hwf. destruct (poll_recv_spec dflt self bufs metas rdy rx Hf Hm Hwf)
    as (r & st & used & E & [Hrx _ _ _ Hc Hh _]).
  exists r, st, used. cbn in Hc, Hrx. by rewrite E, Hc.
Qed.

(** A poll that reports a count fills between one and all of the slots, and a
    poll that fails reports either a readiness error or an error of the socket
    that is neither [WouldBlock] nor one of the transient ICMP errors: an
    unreachable peer never kills the endpoint. *)
Theorem poll_recv_errors (self : Inner A) bufs metas rdy rx r self' st :
  fits bufs rx → length bufs ≤ length metas → wf_counters (counters self) →
  poll_recv dflt self bufs metas rdy rx = Done (r, self', st) →
  match r with
  | Ready (Ok n) => 0 < n ≤ length bufs
  | Ready (Err e) =>
      Ready (Err e) ∈ rdy ∨ (RxError e ∈ rx ∧ e ≠ WouldBlock ∧ is_transient e = false)
  | Pending => True
  end.
Proof.
  intros Hf Hm Hwf E. destruct (poll_recv_spec dflt self bufs metas rdy rx Hf Hm Hwf)
    as (r' & st' & used & E' & [Hrx _ _ _ _ _ Hr]).
  rewrite E in E'. injection E' as <- -> <-. destruct r as [[n|e]|]; [by destruct Hr| |done].
  destruct Hr as [?|(? & ?)]; [by left|right]. split; [|done]. cbn in Hrx. rewrite Hrx.
  apply elem_of_app. by left.
Qed.

(** However many rejected datagrams arrive first, they take up no slot and end
    no poll: the first accepted datagram behind them is delivered in slot zero by
    the same poll, and the flood shows up only in the counters. *)
Theorem flood_does_not_displace_traffic (self : Inner A) bufs metas rdy forged data addr rx :
  Forall (rejected_event (authenticator self)) forged →
  accepts (authenticator self) data addr = true →
  fits bufs (forged ++ RxDatagram data addr :: rx) → length bufs ≤ length metas →
  bufs ≠ [] → wf_counters (counters self) →
  ∃ n c st more,
    poll_recv dflt self bufs metas (Ready (Ok tt) :: rdy) (forged ++ RxDatagram data addr :: rx) =
      Done (Ready (Ok n), mkInner (authenticator self) c, st) ∧
    handed (Ready (Ok n)) st = (data, addr, length data) :: more ∧
    (∃ used, c = counted (authenticator self) (counters self) (forged ++ RxDatagram data addr :: used)).
Proof.
  intros Hrej Ha Hfit Hm Hb Hwf. destruct self as [auth c0]. cbn [authenticator counters] in *.
  assert (0 < length bufs) as Hlt by (destruct bufs; [done|cbn; lia]).
  destruct (recv_batch_skip dflt auth forged 0 c0 bufs metas (RxDatagram data addr :: rx))
    as (bufs1 & Hlb & Hf1 & E); [done..|].
  destruct (recv_batch_take dflt auth (counted auth c0 forged) bufs1 metas rx data addr)
    as (n & st & used & Eb & Hpost).
  { split; [done|by rewrite Hlb|lia|by apply counted_wf]. }
  { by destruct bufs1, bufs. }
  { done. }
  pose proof (post_exit _ _ _ _ _ _ _ _ _ Hpost) as Hn.
  pose proof (post_delivered _ _ _ _ _ _ _ _ _ Hpost) as Hd.
  change (delivered bufs1 metas 0) with (@nil (list byte * SocketAddr * nat)) in Hd.
  rewrite accepted_cons_datagram, Ha in Hn, Hd. cbn [app length Nat.add] in Hn, Hd.
  exists n, (rs_counters st), st, (accepted auth used). split; [|split].
  - unfold poll_recv. cbn [recv_loop authenticator counters rs_counters rs_bufs rs_metas rs_rx].
    rewrite E, Eb. run. by destruct (Nat.ltb_spec 0 n); [|lia].
  - cbn [handed]. by rewrite Hn, Hd.
  - exists used. by rewrite (post_counters _ _ _ _ _ _ _ _ _ Hpost), counted_app.
Qed.
End recv_theorems.

Lemma accepted_None {A} `{InboundFilter A} (rx : list rx_event) :
  accepted (@None A) rx = datagrams rx.
Proof.
  induction rx as [|[data addr|e] rx IH]; [done| |done]. by rewrite accepted_cons_datagram, IH.
Qed.

Lemma accepted_elem {A} `{InboundFilter A} (auth : option A) rx data addr n :
  (data, addr, n) ∈ accepted auth rx → accepts auth data addr = true.
Proof. unfold accepted. rewrite list_elem_of_In, filter_In. by intros [_ ?]. Qed.

Section auth_theorems.
Context {X : Type} `{BlockCipherLaws} (dflt : RecvMeta X).

(** With the authenticator in place, Quinn only ever parses datagrams that
    came from an IPv4 source and carry, as their destination connection ID, a
    token minted for this direction on the path from that source to this socket. *)
Theorem quinn_only_sees_authenticated_datagrams a c bufs metas rdy rx r self' st data addr n :
  fits bufs rx → length bufs ≤ length metas → wf_counters c →
  poll_recv dflt (mkInner (Some a) c) bufs metas rdy rx = Done (r, self', st) →
  (data, addr, n) ∈ handed r st →
  ∃ ip nonce token, sock_ip addr = V4 ip ∧ length nonce = NONCE_LEN ∧
    assemble (inbound a) nonce ip (auth_local_ip a) = Done token ∧ quic_dcid data token.
Proof.
  intros Hf Hm Hwf E Hin.
  destruct (poll_recv_spec dflt (mkInner (Some a) c) bufs metas rdy rx Hf Hm Hwf)
    as (r' & st' & used & E' & [_ _ _ _ _ Hh _]).
  rewrite E in E'. injection E' as <- -> <-. rewrite Hh in Hin.
  apply accepted_elem, bool_decide_eq_true, check_Ok in Hin as (ip & nonce & Hip & Hn & Hq).
  exists ip, nonce. eexists. by rewrite (assemble_eq _ _ _ _ Hn).
Qed.

(** A socket bound without an authenticator hands Quinn every datagram it
    reads and never counts one as rejected. *)
Theorem without_authenticator_everything_is_delivered c bufs metas rdy rx :
  fits bufs rx → length bufs ≤ length metas → wf_counters c →
  ∃ r c' st used,
    poll_recv dflt (mkInner (@None Authenticator) c) bufs metas rdy rx =
      Done (r, mkInner None c', st) ∧
    rx = used ++ rs_rx st ∧ handed r st = datagrams used ∧ rejected c' = rejected c.
Proof.
  intros Hf Hm Hwf.
  destruct (poll_recv_spec dflt (mkInner (@None Authenticator) c) bufs metas rdy rx Hf Hm Hwf)
    as (r & st & used & E & [Hrx _ _ _ Hc Hh _]).
  exists r, (rs_counters st), st, used. cbn in Hc, Hrx, Hh.
  rewrite E, Hh, accepted_None. split_and!; try done.
  rewrite Hc. unfold counted. cbn. rewrite accepted_None, Z.sub_diag, Z.add_0_r.
  apply wrap_small, Hwf.
Qed.
End auth_theorems.

(** ** The send path *)

(** C21: [poll_send] never panics on a transmit with a positive segment size, from
    a sender that holds no completed future; it leaves a future behind exactly
    when it is pending, so a completed one is never polled again; and the only
    error it reports is one of waiting for writability: an error of writing a
    datagram drops that datagram and nothing else. *)
Theorem poll_send_is_safe t wr w st :
  sendable t → w ≠ Some Completed → wf_counters (ss_counters st) →
  ∃ r st',
    poll_send w t wr st = Done (r, match r with Pending => Some Live | Ready _ => None end, st') ∧
    (∀ e, r = Ready (Err e) → Ready (Err e) ∈ wr).
Proof.
  intros Hs Hw Hwf. destruct (poll_send_spec t Hs wr w st Hw Hwf)
    as (r & w' & st' & used & retried & final & E & [_ _ _ _ _ -> Hr]).
  exists r, st'. split; [done|]. intros e ->. by destruct Hr.
Qed.

(** C24: a transmit without segmentation is written at most once: not at all while
    [poll_send] is pending, and exactly once when it is done unless the kernel
    refused the datagram with an error other than [WouldBlock]; the counters
    record exactly the datagrams written. *)
Theorem poll_send_writes_at_most_once t wr w st :
  segment_size t = None → w ≠ Some Completed → wf_counters (ss_counters st) →
  ∃ r w' st' used,
    poll_send w t wr st = Done (r, w', st') ∧ ss_tx st = used ++ ss_tx st' ∧
    ss_counters st' = sent_counted (ss_counters st) used ∧
    ((ss_wire st' = ss_wire st ++ [(destination t, contents t)] ∧ r = Ready (Ok tt) ∧
      length (List.filter is_ok used) = 1) ∨
     (ss_wire st' = ss_wire st ∧ length (List.filter is_ok used) = 0 ∧
      (r = Ready (Ok tt) → ∃ e, e ≠ WouldBlock ∧ Err e ∈ ss_tx st))).
Proof.
  intros Hs Hw Hwf. assert (sendable t) as Hst by (unfold sendable; congruence).
  destruct (poll_send_spec t Hst wr w st Hw Hwf)
    as (r & w' & st' & used & retried & final & E & [Htx Hwire Hcnt Hc Hp _ Hr]).
  exists r, w', st', used. do 3 (split; [done|]).
  rewrite (retried_single t retried Hs Hp) in Hwire, Hcnt. cbn [app] in Hwire, Hcnt.
  unfold segments in Hr. rewrite Hs in Hr.
  destruct r as [[[]|e]|].
  - destruct Hr as [->|(->%(partial_single t) & He)]; [left|right|done].
    + done.
    + rewrite app_nil_r in Hwire. done.
  - destruct Hr as [-> _]. right. rewrite app_nil_r in Hwire. done.
  - subst final. right. rewrite app_nil_r in Hwire. done.
Qed.

(** A segmented transmit is split into non-empty datagrams of at most the
    segment size whose concatenation is its contents, and when every write
    succeeds they go out in order, once each. *)
Theorem try_send_splits_segments st t n r st' :
  segment_size t = Some n → 0 < n → wf_counters (ss_counters st) →
  try_send st t = Done (r, st') →
  concat (segments t) = contents t ∧
  Forall (fun seg => 0 < length seg ≤ n) (segments t) ∧
  (r = Ok tt → ss_wire st' = ss_wire st ++ map (pair (destination t)) (segments t)) ∧
  (∀ e, r = Err e → ∃ out, partial t out ∧
     ss_wire st' = ss_wire st ++ map (pair (destination t)) out).
Proof.
  intros Hn Hpos Hwf E. assert (sendable t) as Hs by (unfold sendable; rewrite Hn; congruence || (intros [= ->]; lia)).
  rewrite try_send_eq in E by done. injection E as E.
  destruct (send_segments_spec _ _ _ _ _ Hwf E) as (used & out & [_ Hw _ _ Hr]).
  split; [by apply segments_concat|]. split; [|split].
  - unfold segments. rewrite Hn. by apply chunks_of_bound.
  - intros ->. by rewrite <- Hr.
  - intros e ->. exists out. by destruct Hr.
Qed.

(** Outcomes of [try_send_to] that all succeed. *)
Lemma send_segments_all dst segs : ∀ c wire ks tx,
  length ks = length segs →
  ∃ c', send_segments (mkSendState c wire (map Ok ks ++ tx)) dst segs =
    (Ok tt, mkSendState c' (wire ++ map (pair dst) segs) tx).
Proof.
  induction segs as [|seg segs IH]; intros c wire [|k ks] tx Hl; try done.
  - eexists. cbn. by rewrite app_nil_r.
  - injection Hl as Hl. cbn [send_segments map app send_datagram ss_tx ss_counters ss_wire].
    destruct (IH (count_sent c k) (wire ++ [(dst, seg)]) ks tx Hl) as [c' E].
    exists c'. rewrite E. by rewrite <- app_assoc.
Qed.

Lemma send_segments_blocked dst out rest e : ∀ c wire ks tx,
  length ks = length out → rest ≠ [] →
  ∃ c', send_segments (mkSendState c wire (map Ok ks ++ Err e :: tx)) dst (out ++ rest) =
    (Err e, mkSendState c' (wire ++ map (pair dst) out) tx).
Proof.
  induction out as [|seg out IH]; intros c wire [|k ks] tx Hl Hne; try done.
  - destruct rest as [|seg rest]; [done|]. eexists. cbn. by rewrite app_nil_r.
  - injection Hl as Hl. cbn [send_segments map app send_datagram ss_tx ss_counters ss_wire].
    destruct (IH (count_sent c k) (wire ++ [(dst, seg)]) ks tx Hl Hne) as [c' E].
    exists c'. rewrite E. by rewrite <- app_assoc.
Qed.

(** When a segmented transmit meets [WouldBlock] after some of its segments
    have been written, the retry starts over from the first segment: the segments
    already written go out twice. Quinn never asks for this, because
    [max_transmit_segments] is 1. *)
Theorem poll_send_repeats_written_segments t n out rest ks ks' tx c wire wr :
  segment_size t = Some n → 0 < n → segments t = out ++ rest → rest ≠ [] →
  length ks = length out → length ks' = length (segments t) →
  ∃ c', poll_send None t (Ready (Ok tt) :: Ready (Ok tt) :: wr)
          (mkSendState c wire (map Ok ks ++ Err WouldBlock :: map Ok ks' ++ tx)) =
    Done (Ready (Ok tt), None,
      mkSendState c' (wire ++ map (pair (destination t)) (out ++ segments t)) tx).
Proof.
  intros Hn Hpos Hseg Hne Hk Hk'.
  assert (sendable t) as Hs by (unfold sendable; rewrite Hn; intros [= ->]; lia).
  destruct (send_segments_blocked (destination t) out rest WouldBlock c wire ks (map Ok ks' ++ tx) Hk Hne)
    as [c1 E1].
  destruct (send_segments_all (destination t) (segments t) c1 (wire ++ map (pair (destination t)) out) ks' tx Hk')
    as [c2 E2].
  exists c2. cbn [poll_send expect]. run. rewrite (try_send_eq _ t Hs), Hseg, E1. run.
  rewrite (try_send_eq _ t Hs), E2. run. by rewrite <- Hseg, map_app, app_assoc.
Qed.

(** ** Instances at concrete input *)

Definition ex_meta : RecvMeta unit := mkRecvMeta (mkSocketAddr (V4 UNSPECIFIED) 0) 0 0 tt.
Definition ex_authenticator : Authenticator := Authenticator_new ClientToServer ex_server.
Definition ex_socket : Inner Authenticator := mkInner (Some ex_authenticator) Counters_default.
Definition ex_bufs : list (list byte) := replicate 2 (replicate 64 Byte.x00).
Definition ex_metas : list (RecvMeta unit) := replicate 2 ex_meta.
Definition ex_from : SocketAddr := mkSocketAddr (V4 ex_client) 50000.
Definition ex_attacker : SocketAddr := mkSocketAddr (V4 ex_elsewhere) 666.
Definition ex_rdy : list (poll (result unit ErrorKind)) := [Ready (Ok tt)].
Definition ex_forged : list rx_event := replicate 3 (RxDatagram ex_datagram ex_attacker).
Definition ex_rx : list rx_event :=
  ex_forged ++ [RxDatagram ex_datagram ex_from; RxError WouldBlock].

Lemma ex_fits : fits ex_bufs ex_rx.
Proof. unfold fits. repeat constructor. Qed.

Lemma ex_metas_enough : length ex_bufs ≤ length ex_metas.
Proof. apply Nat.leb_le. reflexivity. Qed.

Lemma wf_Counters_default : wf_counters Counters_default.
Proof. unfold wf_counters, is_u64. cbn. lia. Qed.

(** Three forged datagrams, one genuine: Quinn is handed the genuine one. *)
Example ex_poll :
  match poll_recv ex_meta ex_socket ex_bufs ex_metas ex_rdy ex_rx with
  | Done (r, self, st) =>
      r = Ready (Ok 1) ∧ handed r st = [(ex_datagram, ex_from, 58)] ∧
      counts self = mkPacketCounts 0 0 4 232 3 ∧ rs_rx st = []
  | Panic => False
  end.
Proof. vm_compute. auto. Qed.

Lemma poll_recv_hands_quinn_exactly_the_accepted_witness :
  ∃ r st used,
    poll_recv ex_meta ex_socket ex_bufs ex_metas ex_rdy ex_rx =
      Done (r, mkInner (Some ex_authenticator)
                 (counted (Some ex_authenticator) Counters_default used), st) ∧
    ex_rx = used ++ rs_rx st ∧ handed r st = accepted (Some ex_authenticator) used.
Proof.
  exact (poll_recv_hands_quinn_exactly_the_accepted ex_meta ex_socket ex_bufs ex_metas ex_rdy ex_rx
           ex_fits ex_metas_enough wf_Counters_default).
Defined.

Lemma poll_recv_errors_witness :
  Ready (Err (OtherIo 5)) ∈ ex_rdy ∨
  (RxError (OtherIo 5) ∈ [RxError (OtherIo 5)] ∧ OtherIo 5 ≠ WouldBlock ∧ is_transient (OtherIo 5) = false).
Proof.
  assert (fits ex_bufs [RxError (OtherIo 5)]) as Hfits by (unfold fits; repeat constructor).
  exact (poll_recv_errors ex_meta ex_socket ex_bufs ex_metas ex_rdy [RxError (OtherIo 5)]
           (Ready (Err (OtherIo 5))) ex_socket (mkRecvState Counters_default ex_bufs ex_metas [])
           Hfits ex_metas_enough wf_Counters_default eq_refl).
Defined.

Lemma flood_does_not_displace_traffic_witness :
  ∃ n c st more,
    poll_recv ex_meta ex_socket ex_bufs ex_metas ex_rdy ex_rx =
      Done (Ready (Ok n), mkInner (Some ex_authenticator) c, st) ∧
    handed (Ready (Ok n)) st = (ex_datagram, ex_from, length ex_datagram) :: more ∧
    (∃ used, c = counted (Some ex_authenticator) Counters_default
                   (ex_forged ++ RxDatagram ex_datagram ex_from :: used)).
Proof.
  apply (flood_does_not_displace_traffic ex_meta ex_socket ex_bufs ex_metas [] ex_forged
           ex_datagram ex_from [RxError WouldBlock]).
  - repeat constructor; vm_compute; reflexivity.
  - vm_compute. reflexivity.
  - exact ex_fits.
  - exact ex_metas_enough.
  - discriminate.
  - exact wf_Counters_default.
Defined.

Lemma quinn_only_sees_authenticated_datagrams_witness :
  ∃ ip nonce token, V4 ex_client = V4 ip ∧ length nonce = NONCE_LEN ∧
    assemble ClientToServer nonce ip ex_server = Done token ∧ quic_dcid ex_datagram token.
Proof.
  destruct (poll_recv ex_meta ex_socket ex_bufs ex_metas ex_rdy ex_rx) as [[[r self] st]|] eqn:E;
    [|exfalso; revert E; vm_compute; discriminate].
  apply (quinn_only_sees_authenticated_datagrams ex_meta ex_authenticator Counters_default ex_bufs
           ex_metas ex_rdy ex_rx r self st ex_datagram ex_from 58
           ex_fits ex_metas_enough wf_Counters_default E).
  revert E. vm_compute. intros [= <- _ <-]. constructor.
Defined.

Lemma without_authenticator_everything_is_delivered_witness :
  ∃ r c' st used,
    poll_recv ex_meta (mkInner (@None Authenticator) Counters_default) ex_bufs ex_metas ex_rdy ex_rx =
      Done (r, mkInner None c', st) ∧
    ex_rx = used ++ rs_rx st ∧ handed r st = datagrams used ∧ rejected c' = 0%Z.
Proof.
  exact (without_authenticator_everything_is_delivered ex_meta Counters_default ex_bufs ex_metas
           ex_rdy ex_rx ex_fits ex_metas_enough wf_Counters_default).
Defined.

Definition ex_transmit : Transmit := mkTransmit ex_from (bytes_of [1; 2; 3; 4; 5]%Z) None.
Definition ex_gso : Transmit := mkTransmit ex_from (bytes_of [1; 2; 3; 4; 5]%Z) (Some 2).

Lemma poll_send_is_safe_witness :
  ∃ r st',
    poll_send None ex_transmit [Ready (Ok tt)] (mkSendState Counters_default [] [Ok 5]) =
      Done (r, match r with Pending => Some Live | Ready _ => None end, st') ∧
    (∀ e, r = Ready (Err e) → Ready (Err e) ∈ [Ready (A := result unit ErrorKind) (Ok tt)]).
Proof.
  apply (poll_send_is_safe ex_transmit [Ready (Ok tt)] None); try discriminate.
  exact wf_Counters_default.
Defined.

Lemma poll_send_writes_at_most_once_witness :
  ∃ r w' st' used,
    poll_send None ex_transmit [Ready (Ok tt); Ready (Ok tt)]
      (mkSendState Counters_default [] [Err WouldBlock; Ok 5]) = Done (r, w', st') ∧
    [Err WouldBlock; Ok 5] = used ++ ss_tx st' ∧
    ss_counters st' = sent_counted Counters_default used ∧
    ((ss_wire st' = [] ++ [(ex_from, contents ex_transmit)] ∧ r = Ready (Ok tt) ∧
      length (List.filter is_ok used) = 1) ∨
     (ss_wire st' = [] ∧ length (List.filter is_ok used) = 0 ∧
      (r = Ready (Ok tt) → ∃ e, e ≠ WouldBlock ∧ Err e ∈ [Err WouldBlock; Ok (A := nat) 5]))).
Proof.
  apply (poll_send_writes_at_most_once ex_transmit [Ready (Ok tt); Ready (Ok tt)] None
           (mkSendState Counters_default [] [Err WouldBlock; Ok 5])).
  - reflexivity.
  - discriminate.
  - exact wf_Counters_default.
Defined.

Lemma try_send_splits_segments_witness :
  concat (segments ex_gso) = contents ex_gso ∧
  Forall (fun seg => 0 < length seg ≤ 2) (segments ex_gso).
Proof.
  destruct (try_send_splits_segments (mkSendState Counters_default [] [Ok 2; Ok 2; Ok 1]) ex_gso 2
              (Ok tt) (mkSendState (mkCounters 3 5 0 0 0)
                 (map (pair ex_from) (segments ex_gso)) [])) as (H1 & H2 & _).
  - reflexivity.
  - lia.
  - exact wf_Counters_default.
  - vm_compute. reflexivity.
  - split; assumption.
Defined.

Lemma poll_send_repeats_written_segments_witness :
  ∃ c', poll_send None ex_gso [Ready (Ok tt); Ready (Ok tt)]
          (mkSendState Counters_default [] [Ok 2; Err WouldBlock; Ok 2; Ok 2; Ok 1]) =
    Done (Ready (Ok tt), None,
      mkSendState c' (map (pair ex_from) [bytes_of [1; 2]; bytes_of [1; 2]; bytes_of [3; 4]; bytes_of [5]]%Z) []).
Proof.
  apply (poll_send_repeats_written_segments ex_gso 2 [bytes_of [1; 2]%Z] [bytes_of [3; 4]; bytes_of [5]]%Z
           [2] [2; 2; 1] [] Counters_default [] []); try reflexivity; [lia|discriminate].
Defined.
