(* ===== verification/Readiness.v ===== *)
(** * The receive path on a real socket ([src/socket.rs] over Tokio)

    [Socket.v] takes what the operating system answers as lists. Here the same loop
    runs against a socket object whose answers depend on what was asked before: its
    readiness, its backlog of datagrams and errors, and whether a task is registered
    to be woken. Every such run is one of the list model, so that the theorems on
    the latter hold of it; and for sockets that behave as Tokio documents, a poll
    returns, a poll that returns [Pending] leaves nothing unread and a waker behind,
    and a task that is woken and polls until [Pending] hands Quinn everything that
    has arrived and is accepted. *)

From S2P Require Import Prelude Interfaces Aes Instances Auth AuthTheorems Datagram Socket Sender SocketTheorems.

(** ** The socket object ([tokio::net::UdpSocket]) *)

(** [poll_recv_ready] registers the calling task when it answers [Pending];
    [try_recv_from] is given the length of the buffer. *)
Class UdpSocket := {
  io : Type;
  poll_recv_ready : io → poll (result unit ErrorKind) * io;
  try_recv_from : nat → io → rx_event * io
}.

(** What can be observed of a socket: its readiness flag, whether a task is
    registered with it, and what the kernel holds for it. *)
Class UdpSocketState `{UdpSocket} := {
  recv_ready : io → bool;
  recv_armed : io → bool;
  backlog : io → list rx_event
}.

(** A datagram longer than the buffer is cut to it. *)
Definition cut (n : nat) (ev : rx_event) : rx_event :=
  match ev with
  | RxDatagram data addr => RxDatagram (take n data) addr
  | RxError e => RxError e
  end.

(** A socket whose driver runs: one that is not ready has been drained, and
    "would block" is not among the errors the kernel queues. *)
Definition io_wf `{UdpSocketState} (s : io) : Prop :=
  (recv_ready s = false → backlog s = []) ∧ RxError WouldBlock ∉ backlog s.

(** Readiness stays until a read finds nothing; waiting for it registers the task;
    reads take what has arrived in order. *)
Class UdpSocketLaws `{UdpSocketState} : Prop := {
  ready_answers s : io_wf s → recv_ready s = true →
    ∃ s', poll_recv_ready s = (Ready (Ok tt), s') ∧ recv_ready s' = true ∧ backlog s' = backlog s;
  unready_waits s : io_wf s → recv_ready s = false →
    ∃ s', poll_recv_ready s = (Pending, s') ∧ recv_ready s' = false ∧ recv_armed s' = true ∧
      backlog s' = backlog s;
  read_takes n s ev rest : io_wf s → recv_ready s = true → backlog s = ev :: rest →
    ∃ s', try_recv_from n s = (cut n ev, s') ∧ recv_ready s' = true ∧ backlog s' = rest;
  read_finds_nothing n s : io_wf s → recv_ready s = true → backlog s = [] →
    ∃ s', try_recv_from n s = (RxError WouldBlock, s') ∧ recv_ready s' = false ∧ backlog s' = []
}.

(** ** [poll_recv] on a socket object

    The loops of [Socket.v] with the calls in place of the lists. Nothing in the
    code bounds how often they go round, so they take fuel, and [None] means that
    it ran out. *)

Section recv_io.
Context {A X : Type} `{InboundFilter A, UdpSocket} (RecvMeta_default : RecvMeta X).

Record IoState := mkIoState {
  is_counters : Counters; is_bufs : list (list byte); is_metas : list (RecvMeta X); is_io : io }.

Fixpoint recv_batch_io (fuel : nat) (auth : option A) (filled : nat) (c : Counters)
    (bufs : list (list byte)) (metas : list (RecvMeta X)) (s : io) : option (exec (batch_exit * IoState)) :=
  match bufs !! filled with
  | None => Some (Done (Broke filled, mkIoState c bufs metas s))
  | Some buf =>
      match fuel with
      | O => None
      | S fuel =>
          let '(ev, s) := try_recv_from (length buf) s in
          match ev with
          | RxDatagram data addr =>
              let len := length data in
              let buf := write_buf buf data in
              let bufs := <[filled := buf]> bufs in
              let c := count_received c len in
              match match auth with
                    | None => mret true
                    | Some a =>
                        datagram ← expect (get_range buf 0 len);
                        r ← filter_check a datagram (sock_ip addr);
                        mret (is_ok r)
                    end with
              | Panic => Some Panic
              | Done true =>
                  match metas !! filled with
                  | None => Some (Done (Broke filled, mkIoState c bufs metas s))
                  | Some _ =>
                      let m := mkRecvMeta addr len len (meta_other RecvMeta_default) in
                      recv_batch_io fuel auth (S filled) c bufs (<[filled := m]> metas) s
                  end
              | Done false => recv_batch_io fuel auth filled (count_rejected c) bufs metas s
              end
          | RxError e =>
              if bool_decide (e = WouldBlock) then Some (Done (Broke filled, mkIoState c bufs metas s))
              else if is_transient e then Some (Done (Broke filled, mkIoState c bufs metas s))
              else if 0 <? filled then Some (Done (Broke filled, mkIoState c bufs metas s))
              else Some (Done (Failed e, mkIoState c bufs metas s))
          end
      end
  end.

Fixpoint recv_loop_io (fuel : nat) (auth : option A) (st : IoState)
    : option (exec (poll (result nat ErrorKind) * IoState)) :=
  match fuel with
  | O => None
  | S fuel =>
      let '(ready, s) := poll_recv_ready (is_io st) in
      let st := mkIoState (is_counters st) (is_bufs st) (is_metas st) s in
      match ready with
      | Pending => Some (Done (Pending, st))
      | Ready (Err e) => Some (Done (Ready (Err e), st))
      | Ready (Ok _) =>
          match recv_batch_io fuel auth 0 (is_counters st) (is_bufs st) (is_metas st) (is_io st) with
          | None => None
          | Some Panic => Some Panic
          | Some (Done (Failed e, st)) => Some (Done (Ready (Err e), st))
          | Some (Done (Broke filled, st)) =>
              if 0 <? filled then Some (Done (Ready (Ok filled), st)) else recv_loop_io fuel auth st
          end
      end
  end.

Definition poll_recv_io (fuel : nat) (self : Inner A) (bufs : list (list byte))
    (metas : list (RecvMeta X)) (s : io)
    : option (exec (poll (result nat ErrorKind) * Inner A * IoState)) :=
  match recv_loop_io fuel (authenticator self) (mkIoState (counters self) bufs metas s) with
  | None => None
  | Some Panic => Some Panic
  | Some (Done (r, st)) => Some (Done (r, mkInner (authenticator self) (is_counters st), st))
  end.

(** A task that polls until it has to wait or fails, using its buffers again; what
    it is handed, and how it ended. *)
Fixpoint drive (polls fuel : nat) (self : Inner A) (bufs : list (list byte)) (metas : list (RecvMeta X)) (s : io)
    : option (list (list byte * SocketAddr * nat) * option ErrorKind * Inner A * io) :=
  match polls with
  | O => None
  | S polls =>
      match poll_recv_io fuel self bufs metas s with
      | Some (Done (Ready (Ok n), self, st)) =>
          match drive polls fuel self (is_bufs st) (is_metas st) (is_io st) with
          | Some (l, e, self, s) => Some (delivered (is_bufs st) (is_metas st) n ++ l, e, self, s)
          | None => None
          end
      | Some (Done (Ready (Err e), self, st)) => Some ([], Some e, self, is_io st)
      | Some (Done (Pending, self, st)) => Some ([], None, self, is_io st)
      | Some Panic | None => None
      end
  end.
End recv_io.
Arguments IoState X {_}.
Arguments mkIoState {X _}.
Arguments is_counters {X _}.
Arguments is_bufs {X _}.
Arguments is_metas {X _}.
Arguments is_io {X _}.

(** ** Every run is one of the list model *)

(** A state of the list model with [rx] still to come. *)
Definition with_rx {X} `{UdpSocket} (st : IoState X) (rx : list rx_event) : RecvState X :=
  mkRecvState (is_counters st) (is_bufs st) (is_metas st) rx.

Section refinement.
Context {A X : Type} `{InboundFilter A, UdpSocket} (dflt : RecvMeta X).

Lemma recv_batch_io_refines fuel auth : ∀ filled c bufs metas s r,
  recv_batch_io dflt fuel auth filled c bufs metas s = Some r →
  ∃ used, ∀ rest, recv_batch dflt auth filled c bufs metas (used ++ rest) =
    match r with Done (exit, st) => Done (exit, with_rx st rest) | Panic => Panic end.
Proof.
  induction fuel as [|fuel IH]; intros filled c bufs metas s r; cbn [recv_batch_io];
    destruct (bufs !! filled) as [buf|] eqn:Hb; [done|..].
  1, 3: intros [= <-]; exists []; intros rest; destruct rest as [|[]]; cbn [recv_batch app]; by rewrite Hb.
  destruct (try_recv_from (length buf) s) as [[data addr|e] s'].
  - destruct (match auth with Some _ => _ | None => _ end) as [[]|] eqn:Hc.
    + destruct (metas !! filled) as [m|] eqn:Hm.
      * intros (used & Hu)%IH. exists (RxDatagram data addr :: used). intros rest.
        cbn [recv_batch app]. rewrite Hb, Hc. run. by rewrite Hm.
      * intros [= <-]. exists [RxDatagram data addr]. intros rest. cbn [recv_batch app].
        rewrite Hb, Hc. run. by rewrite Hm.
    + intros (used & Hu)%IH. exists (RxDatagram data addr :: used). intros rest.
      cbn [recv_batch app]. rewrite Hb, Hc. run. apply Hu.
    + intros [= <-]. exists [RxDatagram data addr]. intros rest. cbn [recv_batch app]. by rewrite Hb, Hc.
  - intros E. exists [RxError e]. intros rest. cbn [recv_batch app]. rewrite Hb.
    case_bool_decide; [|destruct (is_transient e); [|destruct (0 <? filled)]]; by injection E as <-.
Qed.

Lemma recv_loop_io_refines fuel auth : ∀ st r,
  recv_loop_io dflt fuel auth st = Some r →
  ∃ rdy used, ∀ rest, recv_loop dflt auth rdy (with_rx st (used ++ rest)) =
    match r with Done (r, st') => Done (r, with_rx st' rest) | Panic => Panic end.
Proof.
  induction fuel as [|fuel IH]; intros st r; cbn [recv_loop_io]; [done|].
  destruct (poll_recv_ready (is_io st)) as [[[[]|e]|] s'];
    [|intros [= <-]; by exists [Ready (Err e)], []|intros [= <-]; by exists [Pending], []].
  cbn [is_counters is_bufs is_metas is_io].
  destruct (recv_batch_io _ _ _ _ _ _ _ _) as [[[[filled|e] st1]|]|] eqn:Eb; [..|done];
    apply recv_batch_io_refines in Eb as (used & Hu).
  - destruct (0 <? filled) eqn:Hf.
    + intros [= <-]. exists [Ready (Ok tt)], used. intros rest. cbn [recv_loop].
      cbn [with_rx rs_counters rs_bufs rs_metas rs_rx]. rewrite Hu. run. by rewrite Hf.
    + intros (rdy & used' & Hu')%IH. exists (Ready (Ok tt) :: rdy), (used ++ used'). intros rest. cbn [recv_loop].
      cbn [with_rx rs_counters rs_bufs rs_metas rs_rx]. rewrite <- app_assoc, Hu. run. rewrite Hf. apply Hu'.
  - intros [= <-]. exists [Ready (Ok tt)], used. intros rest. cbn [recv_loop].
    cbn [with_rx rs_counters rs_bufs rs_metas rs_rx]. rewrite Hu. by run.
  - intros [= <-]. exists [Ready (Ok tt)], used. intros rest. cbn [recv_loop].
    cbn [with_rx rs_counters rs_bufs rs_metas rs_rx]. by rewrite Hu.
Qed.

Lemma poll_recv_io_refines fuel self bufs metas s r :
  poll_recv_io dflt fuel self bufs metas s = Some r →
  ∃ rdy used, ∀ rest, poll_recv dflt self bufs metas rdy (used ++ rest) =
    match r with Done (r, self', st) => Done (r, self', with_rx st rest) | Panic => Panic end.
Proof.
  unfold poll_recv_io, poll_recv.
  destruct (recv_loop_io _ _ _ _) as [[[r' st]|]|] eqn:E; [..|done];
    apply recv_loop_io_refines in E as (rdy & used & Hu); intros [= <-]; exists rdy, used; intros rest;
    specialize (Hu rest); unfold with_rx in Hu at 1; cbn [is_counters is_bufs is_metas] in Hu; by rewrite Hu.
Qed.
End refinement.

(** A batch keeps the number of buffers, whatever it is given. *)
Lemma recv_batch_bufs {A X} `{InboundFilter A} (dflt : RecvMeta X) auth rx : ∀ filled c bufs metas exit st,
  recv_batch dflt auth filled c bufs metas rx = Done (exit, st) → length (rs_bufs st) = length bufs.
Proof.
  induction rx as [|[data addr|e] rx IH]; intros filled c bufs metas exit st; cbn [recv_batch];
    (destruct (bufs !! filled) as [buf|]; [|by intros [= _ <-]]).
  - by intros [= _ <-].
  - destruct (match auth with Some _ => _ | None => _ end) as [[]|]; run; [|intros E; apply IH in E; by rewrite E, length_insert|done].
    destruct (metas !! filled); [intros E; apply IH in E; by rewrite E, length_insert|].
    intros [= _ <-]. apply length_insert.
  - case_bool_decide; [|destruct (is_transient e); [|destruct (0 <? filled)]]; by intros [= _ <-].
Qed.

(** ** Sockets that behave as documented *)

Section documented.
Context {A X : Type} `{InboundFilterLaws A, UdpSocketLaws} (dflt : RecvMeta X).
Implicit Types (auth : option A) (bufs : list (list byte)) (metas : list (RecvMeta X)) (s : io).

(** Buffers of one length, with metadata for each. *)
Definition slots (n : nat) bufs metas : Prop :=
  Forall (fun buf => length buf = n) bufs ∧ length bufs ≤ length metas.

Lemma slots_insert n bufs metas i buf data :
  slots n bufs metas → bufs !! i = Some buf → slots n (<[i := write_buf buf data]> bufs) metas.
Proof.
  intros [Hf Hm] Hi. split; [|by rewrite length_insert]. apply Forall_insert; [done|].
  rewrite length_write_buf. exact (Forall_lookup_1 _ _ _ _ Hf Hi).
Qed.

Lemma slots_insert_meta n bufs metas i m : slots n bufs metas → slots n bufs (<[i := m]> metas).
Proof. intros [Hf Hm]. split; [done|by rewrite length_insert]. Qed.

Lemma io_wf_rest s s' ev rest :
  io_wf s → backlog s = ev :: rest → recv_ready s' = true → backlog s' = rest → io_wf s' ∧ ev ≠ RxError WouldBlock.
Proof.
  intros [_ Hw] Eb Hr Eb'. rewrite Eb in Hw. apply not_elem_of_cons in Hw as [Hne Hw].
  split; [|congruence]. split; [congruence|]. by rewrite Eb'.
Qed.

(** What a batch took from the socket and the outcomes the list model is given for
    it: those, and the "would block" if the socket was drained. *)
Record batch_took n (s : io) (st : IoState X) (taken used : list rx_event) : Prop := {
  took_backlog : backlog s = taken ++ backlog (is_io st);
  took_wf : io_wf (is_io st);
  took_slots : slots n (is_bufs st) (is_metas st);
  took_used :
    used = map (cut n) taken ∧ recv_ready (is_io st) = true ∨
    used = map (cut n) taken ++ [RxError WouldBlock] ∧ recv_ready (is_io st) = false }.

Lemma batch_took_cons n s s' st ev taken used rest :
  backlog s = ev :: rest → backlog s' = rest → batch_took n s' st taken used →
  batch_took n s st (ev :: taken) (cut n ev :: used).
Proof.
  intros Eb Eb' [Hb Hw Hs Hu]. split; [|done..|].
  - by rewrite Eb, <- Eb', Hb.
  - destruct Hu as [[-> ?]|[-> ?]]; [left|right]; done.
Qed.

Lemma batch_took_last n s s' c bufs metas ev rest :
  backlog s = ev :: rest → backlog s' = rest → recv_ready s' = true → io_wf s' → slots n bufs metas →
  batch_took n s (mkIoState c bufs metas s') [ev] [cut n ev].
Proof. intros Eb <- Hr Hw Hs. split; [done..|by left]. Qed.

(** A batch on a socket that is ready. *)
Lemma recv_batch_io_runs n auth bl : ∀ fuel filled c bufs metas s,
  io_wf s → recv_ready s = true → backlog s = bl → slots n bufs metas → length bl < fuel →
  ∃ exit st taken used,
    recv_batch_io dflt fuel auth filled c bufs metas s = Some (Done (exit, st)) ∧
    batch_took n s st taken used ∧
    (filled < length bufs → used ≠ []) ∧
    ∀ rest, recv_batch dflt auth filled c bufs metas (used ++ rest) = Done (exit, with_rx st rest).
Proof.
  induction bl as [|ev bl IH]; intros fuel filled c bufs metas s Hw Hr Eb Hsl Hfuel;
    (destruct fuel as [|fuel]; [cbn in Hfuel; lia|]); cbn [recv_batch_io];
    (destruct (bufs !! filled) as [buf|] eqn:Hb;
     [|apply lookup_ge_None in Hb as Hge; eexists _, _, [], []; split; [done|]; split; [split; try done; by left|];
       split; [lia|]; intros [|[]]; cbn [recv_batch app]; by rewrite Hb]).
  - destruct (read_finds_nothing (length buf) s Hw Hr Eb) as (s' & -> & Hr' & Eb').
    eexists _, _, [], [RxError WouldBlock]. split; [done|]. split.
    { split; cbn [is_io is_bufs is_metas]; [by rewrite Eb, Eb'|split; [done|rewrite Eb'; by apply not_elem_of_nil]|done|by right]. }
    split; [done|]. intros rest. cbn [recv_batch app]. by rewrite Hb.
  - destruct (read_takes (length buf) s ev bl Hw Hr Eb) as (s' & -> & Hr' & Eb').
    destruct (io_wf_rest s s' ev bl Hw Eb Hr' Eb') as [Hw' Hne].
    pose proof (Forall_lookup_1 _ _ _ _ (proj1 Hsl) Hb) as Hn. cbn beta in Hn. rewrite Hn.
    cbn in Hfuel. destruct ev as [data addr|e]; cbn [cut].
    + rewrite check_in_loop by (rewrite length_take; lia). destruct (accepts auth (take n data) addr) eqn:Ha.
      * destruct (lookup_lt_is_Some_2 metas filled) as [m Hm].
        { apply lookup_lt_Some in Hb. destruct Hsl. lia. }
        rewrite Hm.
        edestruct (IH fuel (S filled)) as (exit & st & taken & used & -> & Ht & _ & Hu);
          [done|done|done|by apply slots_insert_meta, slots_insert|lia|].
        eexists _, _, _, _. split; [done|]. split; [by eapply batch_took_cons|]. split; [done|].
        intros rest. cbn [recv_batch app cut]. rewrite Hb, check_in_loop by (rewrite length_take; lia). run.
        by rewrite Ha, Hm.
      * edestruct (IH fuel filled) as (exit & st & taken & used & -> & Ht & _ & Hu);
          [done|done|done|by apply slots_insert|lia|].
        eexists _, _, _, _. split; [done|]. split; [by eapply batch_took_cons|]. split; [done|].
        intros rest. cbn [recv_batch app cut]. rewrite Hb, check_in_loop by (rewrite length_take; lia). run.
        by rewrite Ha.
    + rewrite bool_decide_eq_false_2 by congruence.
      destruct (is_transient e) eqn:Ht; [|destruct (0 <? filled) eqn:Hfi];
        (eexists _, _, [RxError e], [RxError e]; split; [done|]; split;
         [by apply (batch_took_last n s s' c bufs metas (RxError e) bl)|]; split; [done|];
         intros rest; cbn [recv_batch app]; rewrite Hb, bool_decide_eq_false_2 by congruence;
         rewrite Ht, ?Hfi; done).
Qed.

Definition io_left (s : io) : nat := 2 * length (backlog s) + (if recv_ready s then 1 else 0).

(** What a poll took, as above, over all its batches. *)
Record poll_took n (s : io) (r : poll (result nat ErrorKind)) (st : IoState X) (taken used : list rx_event) : Prop := {
  polled_backlog : backlog s = taken ++ backlog (is_io st);
  polled_wf : io_wf (is_io st);
  polled_slots : slots n (is_bufs st) (is_metas st);
  polled_datagrams : datagrams used = datagrams (map (cut n) taken);
  polled_errors e : RxError e ∈ used → e = WouldBlock ∨ RxError e ∈ taken;
  polled_pending : r = Pending → recv_ready (is_io st) = false ∧ recv_armed (is_io st) = true }.

Lemma used_datagrams n taken used ready :
  used = map (cut n) taken ∧ ready = true ∨ used = map (cut n) taken ++ [RxError WouldBlock] ∧ ready = false →
  datagrams used = datagrams (map (cut n) taken) ∧
  ∀ e, RxError e ∈ used → e = WouldBlock ∨ RxError e ∈ taken.
Proof.
  assert (∀ e, RxError e ∈ map (cut n) taken → RxError e ∈ taken) as Hin.
  { intros e (ev & Hev & Hin)%list_elem_of_fmap. by destruct ev as [|e']; [|injection Hev as <-]. }
  intros [[-> _]|[-> _]]; [by auto|]. split; [by rewrite datagrams_app, app_nil_r|].
  intros e [Hi|[= ->]%list_elem_of_singleton]%elem_of_app; auto.
Qed.

Lemma poll_took_batch n s s0 r st taken used :
  backlog s0 = backlog s → batch_took n s0 st taken used → r ≠ Pending → poll_took n s r st taken used.
Proof.
  intros E0 [Hb Hw Hs Hu] Hr. destruct (used_datagrams _ _ _ _ Hu) as [Hd He].
  split; try done. by rewrite <- E0.
Qed.

Lemma poll_took_again n s s0 st1 r st taken1 used1 taken2 used2 :
  backlog s0 = backlog s → batch_took n s0 st1 taken1 used1 → poll_took n (is_io st1) r st taken2 used2 →
  poll_took n s r st (taken1 ++ taken2) (used1 ++ used2).
Proof.
  intros E0 [Hb Hw Hs Hu] [Hb2 Hw2 Hs2 Hd2 He2 Hp2]. destruct (used_datagrams _ _ _ _ Hu) as [Hd He].
  split; try done.
  - by rewrite <- E0, Hb, Hb2, app_assoc.
  - change (map (cut n) (taken1 ++ taken2)) with ((cut n) <$> (taken1 ++ taken2)). rewrite fmap_app.
    by rewrite !datagrams_app, Hd, Hd2.
  - intros e [[->|Hi]%He|[->|Hi]%He2]%elem_of_app; auto; right; apply elem_of_app; auto.
Qed.

Lemma poll_took_nothing n s s' c bufs metas :
  io_wf s → backlog s' = backlog s → recv_ready s = false → recv_ready s' = false → recv_armed s' = true →
  slots n bufs metas → poll_took n s Pending (mkIoState c bufs metas s') [] [].
Proof.
  intros [He Hwb] Eb Hr Hr' Ha Hs. split; cbn [is_io is_bufs is_metas app]; try done.
  - split; rewrite Eb; [by intros _; apply He|done].
  - by intros e ?%not_elem_of_nil.
Qed.

(** Every round of the outer loop that goes on takes something from the socket or
    finds that there is nothing. *)
Lemma batch_took_decreases n s0 st taken used :
  recv_ready s0 = true → batch_took n s0 st taken used → used ≠ [] → io_left (is_io st) < io_left s0.
Proof.
  intros Hr [Hb _ _ Hu] Hne. unfold io_left. rewrite Hr, Hb, length_app.
  destruct Hu as [[-> ->]|[-> ->]]; [|lia]. destruct taken; [done|]. cbn [length]. lia.
Qed.

Lemma recv_loop_io_runs n auth k : ∀ fuel st,
  io_left (is_io st) ≤ k → io_wf (is_io st) → slots n (is_bufs st) (is_metas st) → is_bufs st ≠ [] →
  io_left (is_io st) < fuel →
  ∃ r st' taken used rdy,
    recv_loop_io dflt fuel auth st = Some (Done (r, st')) ∧ poll_took n (is_io st) r st' taken used ∧
    (∀ rest, recv_loop dflt auth rdy (with_rx st (used ++ rest)) = Done (r, with_rx st' rest)) ∧
    (∀ e, Ready (Err e) ∉ rdy).
Proof.
  induction k as [|k IH]; intros fuel st Hk Hw Hsl Hne Hfuel; (destruct fuel as [|fuel]; [lia|]); cbn [recv_loop_io];
    (destruct (recv_ready (is_io st)) eqn:Hr;
     [|destruct (unready_waits _ Hw Hr) as (s' & -> & Hr' & Ha & Eb);
       eexists _, _, [], [], [Pending]; split; [done|]; split; [by apply poll_took_nothing|]; split; [done|];
       intros e Hin; by apply list_elem_of_singleton in Hin]);
    destruct (ready_answers _ Hw Hr) as (s' & -> & Hr' & Eb); cbn [is_counters is_bufs is_metas is_io].
  - unfold io_left in Hk. rewrite Hr in Hk. lia.
  - assert (io_wf s') as Hw' by (split; rewrite Eb; [congruence|apply Hw]).
    assert (io_left s' = io_left (is_io st)) as Hleft by (unfold io_left; by rewrite Eb, Hr, Hr').
    destruct (recv_batch_io_runs n auth (backlog s') fuel 0 (is_counters st) (is_bufs st) (is_metas st) s'
                Hw' Hr' eq_refl Hsl) as (exit & st1 & taken & used & -> & Ht & Hu & Hrun).
    { unfold io_left in *. rewrite Hr, <- Eb in *. rewrite Hr' in *. lia. }
    assert (used ≠ []) as Hus by (apply Hu; destruct (is_bufs st); [done|cbn; lia]).
    pose proof (batch_took_decreases n s' st1 taken used Hr' Ht Hus) as Hdec.
    assert (∀ e, Ready (Err e) ∉ [Ready (Ok tt) : poll (result unit ErrorKind)]) as Hrdy
      by (intros e Hin; by apply list_elem_of_singleton in Hin).
    destruct exit as [filled|e].
    + destruct (0 <? filled) eqn:Hf.
      * eexists _, _, _, _, [Ready (Ok tt)]. split; [done|]. split; [by eapply poll_took_batch|]. split; [|done].
        intros rest. cbn [recv_loop with_rx rs_counters rs_bufs rs_metas rs_rx]. rewrite Hrun. run. by rewrite Hf.
      * destruct (IH fuel st1) as (r & st2 & taken2 & used2 & rdy & -> & Ht2 & Hrun2 & Hrdy2);
          [lia|by apply Ht|by apply Ht| |lia|].
        { specialize (Hrun []). apply recv_batch_bufs in Hrun. cbn [with_rx rs_bufs] in Hrun. destruct (is_bufs st1), (is_bufs st); done. }
        eexists _, _, _, _, (Ready (Ok tt) :: rdy). split; [done|]. split; [by eapply poll_took_again|]. split.
        -- intros rest. cbn [recv_loop with_rx rs_counters rs_bufs rs_metas rs_rx]. rewrite <- app_assoc, Hrun. run.
           rewrite Hf. apply Hrun2.
        -- intros e [?|Hin]%elem_of_cons; [done|by eapply Hrdy2].
    + eexists _, _, _, _, [Ready (Ok tt)]. split; [done|]. split; [by eapply poll_took_batch|]. split; [|done].
      intros rest. cbn [recv_loop with_rx rs_counters rs_bufs rs_metas rs_rx]. rewrite Hrun. by run.
Qed.

Lemma accepted_same auth rx1 rx2 : datagrams rx1 = datagrams rx2 → accepted auth rx1 = accepted auth rx2.
Proof. unfold accepted. by intros ->. Qed.

Lemma counted_same auth c rx1 rx2 : datagrams rx1 = datagrams rx2 → counted auth c rx1 = counted auth c rx2.
Proof. intros E. unfold counted. by rewrite (accepted_same auth _ _ E), E. Qed.

(** What was read fits the buffers, because it was cut to them. *)
Lemma used_fits n s r st taken used bufs metas :
  poll_took n s r st taken used → slots n bufs metas → fits bufs used.
Proof.
  intros [_ _ _ Hd _ _] [Hs _]. apply Forall_forall. intros [data addr|e] Hin; [|done].
  assert ((data, addr, length data) ∈ datagrams used) as Hin' by (apply list_elem_of_omap; by eexists).
  rewrite Hd in Hin'. apply list_elem_of_omap in Hin' as (ev & Hev & E). apply list_elem_of_fmap in Hev as (ev' & -> & _).
  destruct ev' as [data' addr'|e']; [|done]. injection E as <- _.
  eapply Forall_impl; [exact Hs|]. cbn beta. intros buf <-. rewrite length_take. lia.
Qed.

(** A poll on a socket object: it returns, and what it does is given by what it
    took. *)
Lemma poll_recv_io_runs n (self : Inner A) bufs metas s fuel :
  io_wf s → slots n bufs metas → bufs ≠ [] → wf_counters (counters self) → io_left s < fuel →
  ∃ r st taken used,
    poll_recv_io dflt fuel self bufs metas s =
      Some (Done (r, mkInner (authenticator self) (is_counters st), st)) ∧
    poll_took n s r st taken used ∧ length (is_bufs st) = length bufs ∧
    is_counters st = counted (authenticator self) (counters self) (map (cut n) taken) ∧
    handed r (with_rx st []) = accepted (authenticator self) (map (cut n) taken) ∧
    match r with
    | Ready (Ok k) => 0 < k ∧ k = length (accepted (authenticator self) (map (cut n) taken))
    | Ready (Err e) => RxError e ∈ taken ∧ e ≠ WouldBlock ∧ is_transient e = false
    | Pending => True
    end.
Proof.
  intros Hw Hs Hne Hwf Hfuel.
  destruct (recv_loop_io_runs n (authenticator self) (io_left s) fuel (mkIoState (counters self) bufs metas s))
    as (r & st & taken & used & rdy & Eio & Ht & Hrun & Hrdy); [done..|].
  exists r, st, taken, used. unfold poll_recv_io. rewrite Eio. split; [done|]. split; [done|].
  specialize (Hrun []). rewrite app_nil_r in Hrun. unfold with_rx in Hrun at 1. cbn [is_counters is_bufs is_metas] in Hrun.
  destruct (recv_loop_spec dflt (authenticator self) rdy (mkRecvState (counters self) bufs metas used))
    as (r' & st' & used' & E & [Hrx _ Hb _ Hc Hh Hr]); [by eapply used_fits|by destruct Hs|done|].
  rewrite Hrun in E. injection E as <- <-. cbn [with_rx rs_rx rs_bufs rs_counters] in *. rewrite app_nil_r in Hrx. subst used'.
  pose proof (polled_datagrams _ _ _ _ _ _ Ht) as Hd.
  rewrite (accepted_same _ _ _ Hd) in Hh. rewrite (counted_same _ _ _ _ Hd) in Hc.
  split; [done|]. split; [done|]. split; [done|].
  destruct r as [[k|e]|]; [|destruct Hr as [Hr|(Hin & Hwb & Htr)]; [by apply Hrdy in Hr|]|done].
  - rewrite (accepted_same _ _ _ Hd) in Hr. tauto.
  - destruct (polled_errors _ _ _ _ _ _ Ht e Hin); [done|]. done.
Qed.

(** Errors the loop passes over. *)
Definition benign (ev : rx_event) : Prop :=
  match ev with RxDatagram _ _ => True | RxError e => is_transient e = true end.

Lemma drive_runs n polls : ∀ (self : Inner A) bufs metas s fuel,
  io_wf s → slots n bufs metas → bufs ≠ [] → wf_counters (counters self) →
  Forall benign (backlog s) → length (backlog s) < polls → io_left s < fuel →
  ∃ s', drive dflt polls fuel self bufs metas s =
      Some (accepted (authenticator self) (map (cut n) (backlog s)), None,
            mkInner (authenticator self) (counted (authenticator self) (counters self) (map (cut n) (backlog s))), s') ∧
    io_wf s' ∧ backlog s' = [] ∧ recv_ready s' = false ∧ recv_armed s' = true.
Proof.
  induction polls as [|polls IH]; intros self bufs metas s fuel Hw Hs Hne Hwf Hben Hpolls Hfuel; [lia|].
  destruct (poll_recv_io_runs n self bufs metas s fuel Hw Hs Hne Hwf Hfuel)
    as (r & st & taken & used & E & [Hb Hw' Hs' _ _ Hp] & Hlen & Hc & Hh & Hr).
  cbn [drive]. rewrite E. rewrite Hb in Hben. apply Forall_app in Hben as [Hben1 Hben2].
  destruct r as [[k|e]|].
  - destruct Hr as [Hk Hk']. destruct taken as [|ev taken]; [cbn in Hk'; lia|].
    rewrite Hb, length_app in Hpolls. cbn [length] in Hpolls.
    destruct (IH (mkInner (authenticator self) (is_counters st)) (is_bufs st) (is_metas st) (is_io st) fuel)
      as (s' & -> & Hfin); [done|done| | |done|lia| |].
    + destruct (is_bufs st), bufs; done.
    + cbn [counters]. rewrite Hc. by apply counted_wf.
    + unfold io_left in *. rewrite Hb, length_app in Hfuel. cbn [length] in Hfuel. destruct (recv_ready _), (recv_ready _); lia.
    + exists s'. split; [|done]. cbn [authenticator counters]. rewrite Hc, Hb, counted_app.
      change (map (cut n) ?l) with (cut n <$> l). rewrite fmap_app. change (cut n <$> ?l) with (map (cut n) l).
      rewrite accepted_app. rewrite <- Hh. done.
  - destruct Hr as (Hin & _ & Ht). rewrite Forall_forall in Hben1. specialize (Hben1 _ Hin). cbn in Hben1. congruence.
  - destruct (Hp eq_refl) as [Hr' Ha]. destruct Hw' as [Hdr Hwb]. specialize (Hdr Hr').
    exists (is_io st). rewrite Hdr, app_nil_r in Hb. rewrite Hb, <- Hh, <- Hc. cbn [handed].
    split; [done|]. split; [by split|done].
Qed.

(** ** Theorems *)

(** What the list model of the receive path proves holds of every socket: a
    poll on a socket object, whatever it answers, is a poll of the list model on
    the answers it gave, with the same result, counters, buffers and metadata. *)
Theorem polls_on_a_socket_are_polls_on_its_answers (self : Inner A) bufs metas s fuel r :
  poll_recv_io dflt fuel self bufs metas s = Some r →
  ∃ rdy used, ∀ rest, poll_recv dflt self bufs metas rdy (used ++ rest) =
    match r with Done (r, self', st) => Done (r, self', with_rx st rest) | Panic => Panic end.
Proof. apply poll_recv_io_refines. Qed.

(** C7: no wake-up is lost: on a socket that behaves as Tokio documents a poll
    returns, after at most two rounds for each thing that had arrived, and if it
    returns [Pending] then it has read all of that, none of it was for Quinn, and
    the task is registered to be woken by the next arrival. The other side of this:
    a poll does not return while rejected datagrams are there to be read. *)
Theorem pending_polls_leave_nothing_behind n (self : Inner A) bufs metas s :
  io_wf s → slots n bufs metas → bufs ≠ [] → wf_counters (counters self) →
  ∃ r self' st, poll_recv_io dflt (2 * length (backlog s) + 2) self bufs metas s = Some (Done (r, self', st)) ∧
    (r = Pending →
       backlog (is_io st) = [] ∧ recv_armed (is_io st) = true ∧
       accepted (authenticator self) (map (cut n) (backlog s)) = []) ∧
    (Forall benign (backlog s) → accepted (authenticator self) (map (cut n) (backlog s)) = [] → r = Pending).
Proof.
  intros Hw Hs Hne Hwf.
  destruct (poll_recv_io_runs n self bufs metas s (2 * length (backlog s) + 2) Hw Hs Hne Hwf)
    as (r & st & taken & used & E & [Hb Hw' Hs' _ _ Hp] & _ & _ & Hh & Hr).
  { unfold io_left. destruct (recv_ready s); lia. }
  eexists _, _, _. split; [exact E|]. split.
  - intros ->. destruct (Hp eq_refl) as [Hr' Ha]. pose proof (proj1 Hw' Hr') as Hdr.
    rewrite Hdr, app_nil_r in Hb. rewrite Hb. by split_and!.
  - intros Hben Hno. rewrite Hb in Hben, Hno. apply Forall_app in Hben as [Hben _].
    change (map (cut n) ?l) with (cut n <$> l) in Hno. rewrite fmap_app in Hno.
    change (cut n <$> ?l) with (map (cut n) l) in Hno. rewrite accepted_app in Hno.
    apply app_nil in Hno as [Hno _]. destruct r as [[k|e]|]; [|exfalso|done].
    + destruct Hr as [Hk Hk']. rewrite Hno in Hk'. cbn in Hk'. lia.
    + destruct Hr as (Hin & _ & Ht). rewrite Forall_forall in Hben. specialize (Hben _ Hin). cbn in Hben. congruence.
Qed.

(** A task that is woken and polls until it has to wait is handed everything
    that has arrived and is accepted, in the order of arrival, nothing else, and is
    registered again; all of it is counted. Errors about other peers do not stop
    it, and datagrams longer than the buffers are cut to them before the check. *)
Theorem woken_task_delivers_everything n (self : Inner A) bufs metas s :
  io_wf s → slots n bufs metas → bufs ≠ [] → wf_counters (counters self) → Forall benign (backlog s) →
  ∃ self' s', drive dflt (length (backlog s) + 1) (2 * length (backlog s) + 2) self bufs metas s =
      Some (accepted (authenticator self) (map (cut n) (backlog s)), None, self', s') ∧
    counters self' = counted (authenticator self) (counters self) (map (cut n) (backlog s)) ∧
    backlog s' = [] ∧ recv_armed s' = true.
Proof.
  intros Hw Hs Hne Hwf Hben.
  destruct (drive_runs n (length (backlog s) + 1) self bufs metas s (2 * length (backlog s) + 2))
    as (s' & E & _ & Hb & _ & Ha); [done..|lia|unfold io_left; destruct (recv_ready s); lia|].
  by eexists _, s'.
Qed.
End documented.

(** ** Instances at concrete input *)

(** A kernel queue behind a readiness flag, as the documentation describes it. *)
Record Kernel := mkKernel { k_queue : list rx_event; k_ready : bool; k_waker : bool }.

#[export] Instance kernel_socket : UdpSocket := {
  io := Kernel;
  poll_recv_ready := fun k =>
    if k_ready k then (Ready (Ok tt), k) else (Pending, mkKernel (k_queue k) false true);
  try_recv_from := fun n k =>
    if k_ready k then
      match k_queue k with
      | [] => (RxError WouldBlock, mkKernel [] false (k_waker k))
      | ev :: q => (cut n ev, mkKernel q true (k_waker k))
      end
    else (RxError WouldBlock, k)
}.

#[export] Instance kernel_state : UdpSocketState := {
  recv_ready := k_ready; recv_armed := k_waker; backlog := k_queue }.

#[export] Instance kernel_laws : UdpSocketLaws.
Proof.
  split; intros; cbn in *; repeat match goal with H : _ = _ |- _ => rewrite H end; by eexists.
Qed.

(** An arrival wakes whoever is registered. *)
Definition arrive (ev : rx_event) (k : Kernel) : Kernel := mkKernel (k_queue k ++ [ev]) true false.

(** An error about another peer, forged datagrams and a genuine one. *)
Definition ex_kernel : io (UdpSocket := kernel_socket) :=
  foldl (fun k ev => arrive ev k) (mkKernel [] false true) (RxError ConnectionRefused :: ex_forged ++ [RxDatagram ex_datagram ex_from]).

Lemma ex_kernel_wf : io_wf ex_kernel.
Proof.
  split; [done|]. intros Hin. repeat (apply elem_of_cons in Hin as [Hin|Hin]; [discriminate|]).
  by apply not_elem_of_nil in Hin.
Qed.

Lemma ex_slots : slots 64 ex_bufs ex_metas.
Proof. split; [repeat constructor|cbn; lia]. Qed.

Lemma polls_on_a_socket_are_polls_on_its_answers_witness :
  ∃ rdy used r self' st, poll_recv ex_meta ex_socket ex_bufs ex_metas rdy used = Done (r, self', st) ∧
    r = Ready (Ok 1).
Proof.
  destruct (poll_recv_io ex_meta 20 ex_socket ex_bufs ex_metas ex_kernel) as [[[[r self'] st]|]|] eqn:E;
    [|exfalso; revert E; vm_compute; discriminate..].
  destruct (polls_on_a_socket_are_polls_on_its_answers ex_meta ex_socket ex_bufs ex_metas ex_kernel 20 _ E)
    as (rdy & used & Hu).
  exists rdy, (used ++ []), r, self'. eexists. split; [exact (Hu [])|].
  vm_compute in E. injection E as <- _ _. reflexivity.
Defined.

(** Nothing but forged datagrams and an error about another peer. *)
Definition ex_flooded : io (UdpSocket := kernel_socket) :=
  foldl (fun k ev => arrive ev k) (mkKernel [] false true) (RxError ConnectionRefused :: ex_forged).

Lemma pending_polls_leave_nothing_behind_witness :
  ∃ self' st, poll_recv_io ex_meta 10 ex_socket ex_bufs ex_metas ex_flooded = Some (Done (Pending, self', st)) ∧
    backlog (is_io st) = [] ∧ recv_armed (is_io st) = true.
Proof.
  assert (io_wf ex_flooded) as Hwf.
  { split; [done|]. intros Hin. repeat (apply elem_of_cons in Hin as [Hin|Hin]; [discriminate|]).
    by apply not_elem_of_nil in Hin. }
  destruct (pending_polls_leave_nothing_behind ex_meta 64 ex_socket ex_bufs ex_metas ex_flooded
              Hwf ex_slots ltac:(discriminate) wf_Counters_default) as (r & self' & st & E & Hp & Hr).
  assert (r = Pending) as -> by (apply Hr; [repeat constructor|vm_compute; reflexivity]).
  exists self', st. split; [exact E|]. destruct (Hp eq_refl) as (Hb & Ha & _). exact (conj Hb Ha).
Defined.

Lemma woken_task_delivers_everything_witness :
  ∃ self' s', drive ex_meta 6 12 ex_socket ex_bufs ex_metas ex_kernel =
    Some ([(ex_datagram, ex_from, 58)], None, self', s') ∧ counts self' = mkPacketCounts 0 0 4 232 3.
Proof.
  destruct (woken_task_delivers_everything ex_meta 64 ex_socket ex_bufs ex_metas ex_kernel
              ex_kernel_wf ex_slots ltac:(discriminate) wf_Counters_default
              ltac:(repeat constructor)) as (self' & s' & E & Hc & _).
  exists self', s'. split; [refine (eq_trans E _); vm_compute; reflexivity|].
  unfold counts. rewrite Hc. vm_compute. reflexivity.
Defined.
