(* ===== verification/Writability.v ===== *)
(** * The send path on a real socket ([src/socket.rs], [PacketSender] over Tokio)

    [Sender.v] takes what the operating system answers as lists. Here [poll_send]
    runs against a socket object that several senders share, each waiting through a
    [writable()] future of its own. Every such run is one of the list model; a poll
    returns after at most two rounds; and because each sender has its own future, no
    sender's registration is lost to another's, whatever the order in which they
    are polled. *)

From stdpp Require Import gmap relations.
From S2P Require Import Prelude Interfaces Aes Instances Auth Datagram Socket Sender SocketTheorems.

(** ** The socket object ([tokio::net::UdpSocket])

    Senders are numbered; polling the [writable()] future of sender [i] registers
    it when it answers [Pending]. *)
Class UdpWriter := {
  wio : Type;
  poll_writable : nat → wio → poll (result unit ErrorKind) * wio;
  try_send_to : list byte → SocketAddr → wio → result nat ErrorKind * wio
}.

(** What can be observed: the readiness flag and the registered senders. *)
Class UdpWriterState `{UdpWriter} := {
  send_ready : wio → bool;
  waiters : wio → gset nat
}.

(** A future that has to wait joins the waiters, one that completes leaves them;
    only a write that would block takes readiness away. *)
Class UdpWriterLaws `{UdpWriterState} : Prop := {
  writable_now i s : send_ready s = true →
    ∃ s', poll_writable i s = (Ready (Ok tt), s') ∧ send_ready s' = true ∧ waiters s' = waiters s ∖ {[i]};
  writable_waits i s : send_ready s = false →
    ∃ s', poll_writable i s = (Pending, s') ∧ send_ready s' = false ∧ waiters s' = {[i]} ∪ waiters s;
  write_keeps data dst s r s' : try_send_to data dst s = (r, s') →
    waiters s' = waiters s ∧
    send_ready s' = (if bool_decide (r = Err WouldBlock) then false else send_ready s)
}.

(** ** [poll_send] on a socket object *)

Section send_io.
Context `{UdpWriter}.

Record WriteState := mkWriteState {
  ws_counters : Counters; ws_wire : list (SocketAddr * list byte); ws_io : wio }.

Definition send_datagram_io (st : WriteState) (dst : SocketAddr) (data : list byte)
    : result unit ErrorKind * WriteState :=
  let '(r, s) := try_send_to data dst (ws_io st) in
  match r with
  | Err e => (Err e, mkWriteState (ws_counters st) (ws_wire st) s)
  | Ok n => (Ok tt, mkWriteState (count_sent (ws_counters st) n) (ws_wire st ++ [(dst, data)]) s)
  end.

Fixpoint send_segments_io (st : WriteState) (dst : SocketAddr) (segs : list (list byte))
    : result unit ErrorKind * WriteState :=
  match segs with
  | [] => (Ok tt, st)
  | seg :: segs' =>
      match send_datagram_io st dst seg with
      | (Ok _, st') => send_segments_io st' dst segs'
      | (Err e, st') => (Err e, st')
      end
  end.

Definition try_send_io (st : WriteState) (t : Transmit) : exec (result unit ErrorKind * WriteState) :=
  match segment_size t with
  | None => mret (send_datagram_io st (destination t) (contents t))
  | Some n =>
      segs ← chunks n (contents t);
      mret (send_segments_io st (destination t) segs)
  end.

(** [poll_send] of sender [i]; the loop takes fuel, [None] means it ran out. *)
Fixpoint poll_send_io (fuel i : nat) (writable : option writable_future) (t : Transmit) (st : WriteState)
    : option (exec (poll (result unit ErrorKind) * option writable_future * WriteState)) :=
  match fuel with
  | O => None
  | S fuel =>
      let writable := match writable with None => Some Live | Some f => Some f end in
      match expect writable with
      | Panic | Done Completed => Some Panic
      | Done Live =>
          let '(ready, s) := poll_writable i (ws_io st) in
          let st := mkWriteState (ws_counters st) (ws_wire st) s in
          match ready with
          | Pending => Some (Done (Pending, Some Live, st))
          | Ready ready =>
              let writable := None in
              match ready with
              | Err e => Some (Done (Ready (Err e), writable, st))
              | Ok _ =>
                  match try_send_io st t with
                  | Panic => Some Panic
                  | Done (Ok _, st) => Some (Done (Ready (Ok tt), writable, st))
                  | Done (Err e, st) =>
                      if bool_decide (e = WouldBlock) then poll_send_io fuel i writable t st
                      else Some (Done (Ready (Ok tt), writable, st))
                  end
              end
          end
      end
  end.
End send_io.

(** ** Several senders on one socket *)

(** The senders' futures, the socket, and the senders whose tasks have been woken
    since they were last polled. *)
Record Senders `{UdpWriter} := mkSenders {
  sn_slots : gmap nat (option writable_future); sn_state : WriteState; sn_woken : gset nat }.

Arguments mkSenders {_} _ _ _.

(** A sender is created, a sender is polled, or the socket becomes writable and all
    waiting tasks are woken. *)
Inductive senders_step `{UdpWriterState} : Senders → Senders → Prop :=
| senders_create w i :
    sn_slots w !! i = None →
    senders_step w (mkSenders (<[i := create_sender]> (sn_slots w)) (sn_state w) (sn_woken w))
| senders_poll w fuel i slot t r slot' st :
    sn_slots w !! i = Some slot →
    poll_send_io fuel i slot t (sn_state w) = Some (Done (r, slot', st)) →
    senders_step w (mkSenders (<[i := slot']> (sn_slots w)) st (sn_woken w ∖ {[i]}))
| senders_wake w s' :
    send_ready s' = true → waiters s' = ∅ →
    senders_step w
      (mkSenders (sn_slots w) (mkWriteState (ws_counters (sn_state w)) (ws_wire (sn_state w)) s')
         (sn_woken w ∪ waiters (ws_io (sn_state w)))).

(** ** Every run is one of the list model *)

Definition with_tx `{UdpWriter} (st : WriteState) (tx : list (result nat ErrorKind)) : SendState :=
  mkSendState (ws_counters st) (ws_wire st) tx.

Section refinement.
Context `{UdpWriter}.

Lemma send_datagram_io_refines st dst data r st' :
  send_datagram_io st dst data = (r, st') →
  ∃ used, ∀ rest, send_datagram (with_tx st (used ++ rest)) dst data = (r, with_tx st' rest).
Proof.
  unfold send_datagram_io. destruct (try_send_to data dst (ws_io st)) as [[n|e] s]; intros [= <- <-].
  - by exists [Ok n].
  - by exists [Err e].
Qed.

Lemma send_segments_io_refines dst segs : ∀ st r st',
  send_segments_io st dst segs = (r, st') →
  ∃ used, ∀ rest, send_segments (with_tx st (used ++ rest)) dst segs = (r, with_tx st' rest).
Proof.
  induction segs as [|seg segs IH]; intros st r st'; cbn [send_segments_io send_segments].
  - intros [= <- <-]. by exists [].
  - destruct (send_datagram_io st dst seg) as [[[]|e] st1] eqn:E; apply send_datagram_io_refines in E as (used & Hu).
    + intros (used' & Hu')%IH. exists (used ++ used'). intros rest. by rewrite <- app_assoc, Hu.
    + intros [= <- <-]. exists used. intros rest. by rewrite Hu.
Qed.

Lemma try_send_io_refines st t :
  match try_send_io st t with
  | Panic => ∀ st, try_send st t = Panic
  | Done (r, st') => ∃ used, ∀ rest, try_send (with_tx st (used ++ rest)) t = Done (r, with_tx st' rest)
  end.
Proof.
  unfold try_send_io, try_send. destruct (segment_size t) as [n|].
  - destruct (chunks n (contents t)) as [segs|]; run; [|done].
    destruct (send_segments_io st (destination t) segs) as [r st'] eqn:E.
    apply send_segments_io_refines in E as (used & Hu). exists used. intros rest. by rewrite Hu.
  - run. destruct (send_datagram_io st (destination t) (contents t)) as [r st'] eqn:E.
    apply send_datagram_io_refines in E as (used & Hu). exists used. intros rest. by rewrite Hu.
Qed.

Lemma poll_send_io_refines fuel i t : ∀ writable st r,
  poll_send_io fuel i writable t st = Some r →
  ∃ wr used, ∀ rest, poll_send writable t wr (with_tx st (used ++ rest)) =
    match r with Done (r, w, st') => Done (r, w, with_tx st' rest) | Panic => Panic end.
Proof.
  induction fuel as [|fuel IH]; intros writable st r; cbn [poll_send_io]; [done|].
  destruct (expect (match writable with Some f => Some f | None => Some Live end)) as [[]|] eqn:Ef.
  2, 3: intros [= <-]; exists [], []; intros rest; cbn [poll_send]; by rewrite Ef.
  destruct (poll_writable i (ws_io st)) as [[[[]|e]|] s].
  - pose proof (try_send_io_refines (mkWriteState (ws_counters st) (ws_wire st) s) t) as Ht.
    destruct (try_send_io _ t) as [[[[]|e] st1]|].
    + destruct Ht as (used & Hu). intros [= <-]. exists [Ready (Ok tt)], used. intros rest.
      cbn [poll_send]. rewrite Ef. run. specialize (Hu rest). unfold with_tx in Hu at 1. cbn in Hu. unfold with_tx at 1.
      by rewrite Hu.
    + destruct Ht as (used & Hu). destruct (bool_decide (e = WouldBlock)) eqn:Hwb.
      * intros (wr & used' & Hu')%IH. exists (Ready (Ok tt) :: wr), (used ++ used'). intros rest.
        cbn [poll_send]. rewrite Ef. run. specialize (Hu (used' ++ rest)). unfold with_tx in Hu at 1. cbn in Hu.
        unfold with_tx at 1. rewrite <- app_assoc, Hu. run. rewrite Hwb. apply Hu'.
      * intros [= <-]. exists [Ready (Ok tt)], used. intros rest.
        cbn [poll_send]. rewrite Ef. run. specialize (Hu rest). unfold with_tx in Hu at 1. cbn in Hu. unfold with_tx at 1.
        rewrite Hu. run. by rewrite Hwb.
    + intros [= <-]. exists [Ready (Ok tt)], []. intros rest. cbn [poll_send]. rewrite Ef. run. by rewrite Ht.
  - intros [= <-]. exists [Ready (Err e)], []. intros rest. cbn [poll_send]. by rewrite Ef.
  - intros [= <-]. exists [Pending], []. intros rest. cbn [poll_send]. by rewrite Ef.
Qed.
End refinement.

(** ** Sockets that behave as documented *)

(** Who is registered, as sets. *)
Lemma set_joins (i : nat) (W : gset nat) : W ∖ {[i]} ⊆ {[i]} ∪ W ∧ i ∈ {[i]} ∪ W.
Proof. set_solver. Qed.

Lemma set_stays (i j : nat) (W W' K : gset nat) :
  j ≠ i → W ∖ {[i]} ⊆ W' → j ∈ W ∪ K → j ∈ W' ∪ (K ∖ {[i]}).
Proof. set_solver. Qed.

Lemma set_woken (j : nat) (W K : gset nat) : j ∈ W ∪ K → j ∈ ∅ ∪ (K ∪ W).
Proof. set_solver. Qed.

Section documented.
Context `{UdpWriterLaws}.

(** Writing keeps the waiters; readiness is lost exactly when it would block. *)
Lemma send_datagram_io_keeps st dst data r st' :
  send_datagram_io st dst data = (r, st') →
  waiters (ws_io st') = waiters (ws_io st) ∧
  send_ready (ws_io st') = (if bool_decide (r = Err WouldBlock) then false else send_ready (ws_io st)).
Proof.
  unfold send_datagram_io. destruct (try_send_to data dst (ws_io st)) as [o s] eqn:E.
  apply write_keeps in E as [Hw Hr]. destruct o as [n|e]; intros [= <- <-]; cbn [ws_io]; (split; [done|]); rewrite Hr.
  - done.
  - by destruct (decide (e = WouldBlock)) as [->|Hne]; [|rewrite !bool_decide_eq_false_2 by congruence].
Qed.

Lemma send_segments_io_keeps dst segs : ∀ st r st',
  send_segments_io st dst segs = (r, st') →
  waiters (ws_io st') = waiters (ws_io st) ∧
  send_ready (ws_io st') = (if bool_decide (r = Err WouldBlock) then false else send_ready (ws_io st)).
Proof.
  induction segs as [|seg segs IH]; intros st r st'; cbn [send_segments_io].
  - by intros [= <- <-].
  - destruct (send_datagram_io st dst seg) as [[[]|e] st1] eqn:E; apply send_datagram_io_keeps in E as [Hw Hr].
    + intros [Hw' Hr']%IH. rewrite Hw', Hr', Hw. split; [done|]. by case_bool_decide.
    + intros [= <- <-]. done.
Qed.

Lemma try_send_io_keeps st t r st' :
  try_send_io st t = Done (r, st') →
  waiters (ws_io st') = waiters (ws_io st) ∧
  send_ready (ws_io st') = (if bool_decide (r = Err WouldBlock) then false else send_ready (ws_io st)).
Proof.
  unfold try_send_io. destruct (segment_size t) as [n|].
  - destruct (chunks n (contents t)); run; [|done]. intros [= E]. by eapply send_segments_io_keeps.
  - run. intros [= E]. by eapply send_datagram_io_keeps.
Qed.

(** What a poll leaves behind: a sender that has to wait is registered and holds a
    future, one that need not holds none; the others stay registered. *)
Definition registered (i : nat) (st : WriteState) (r : poll (result unit ErrorKind))
    (slot : option writable_future) (st' : WriteState) : Prop :=
  waiters (ws_io st) ∖ {[i]} ⊆ waiters (ws_io st') ∧
  match r with
  | Pending => slot = Some Live ∧ i ∈ waiters (ws_io st') ∧ send_ready (ws_io st') = false
  | Ready _ => slot = None
  end.

Lemma poll_send_io_registers fuel i t : ∀ writable st r slot st',
  poll_send_io fuel i writable t st = Some (Done (r, slot, st')) → registered i st r slot st'.
Proof.
  induction fuel as [|fuel IH]; intros writable st r slot st'; cbn [poll_send_io]; [done|].
  destruct (expect _) as [[]|]; try done.
  destruct (send_ready (ws_io st)) eqn:Hr.
  - destruct (writable_now i _ Hr) as (s & -> & Hr' & Hw).
    destruct (try_send_io _ t) as [[[[]|e] st1]|] eqn:E; [..|done]; apply try_send_io_keeps in E as [Hw1 Hr1];
      cbn [ws_io] in Hw1.
    + intros [= <- <- <-]. split; [|done]. by rewrite Hw1, Hw.
    + clear Hr1. case_bool_decide.
      * intros [Hsub Hreg]%IH. split; [|done]. etrans; [|exact Hsub]. by rewrite Hw1, Hw, difference_twice_L.
      * intros [= <- <- <-]. split; [|done]. by rewrite Hw1, Hw.
  - destruct (writable_waits i _ Hr) as (s & -> & Hr' & Hw). intros [= <- <- <-].
    unfold registered. cbn [ws_io]. rewrite Hw, Hr'. by destruct (set_joins i (waiters (ws_io st))).
Qed.

(** Two rounds are enough: after a write that would block the socket is not ready. *)
Lemma poll_send_io_returns i t writable st :
  sendable t → writable ≠ Some Completed →
  ∃ r slot st', poll_send_io 2 i writable t st = Some (Done (r, slot, st')).
Proof.
  intros Ht Hw. cbn [poll_send_io].
  assert (expect (match writable with Some f => Some f | None => Some Live end) = Done Live) as ->
    by (destruct writable as [[]|]; [done|by destruct Hw|done]).
  destruct (send_ready (ws_io st)) eqn:Hr.
  - destruct (writable_now i _ Hr) as (s & -> & Hr' & _).
    assert (∀ st, ∃ r st', try_send_io st t = Done (r, st')) as Htot.
    { intros st0. unfold try_send_io. unfold sendable in Ht. destruct (segment_size t) as [n|].
      - unfold chunks. destruct n as [|n]; [done|]. cbn [Nat.eqb]. run.
        destruct (send_segments_io _ _ _) as [r' st'']. by eexists _, _.
      - destruct (send_datagram_io _ _ _) as [r' st'']. by eexists _, _. }
    destruct (Htot (mkWriteState (ws_counters st) (ws_wire st) s)) as (r & st1 & E). rewrite E.
    apply try_send_io_keeps in E as [_ Hr1]. destruct r as [[]|e]; [by eexists _, _, _|].
    destruct (decide (e = WouldBlock)) as [->|He]; [|rewrite bool_decide_eq_false_2 by done; by eexists _, _, _].
    destruct (writable_waits i _ Hr1) as (s2 & -> & _). run. by eexists _, _, _.
  - destruct (writable_waits i _ Hr) as (s & -> & _). by eexists _, _, _.
Qed.

(** Every sender that holds a future is registered or has been woken. *)
Definition senders_inv (w : Senders) : Prop :=
  map_Forall (fun i slot => slot ≠ Some Completed ∧
    (slot = Some Live → i ∈ waiters (ws_io (sn_state w)) ∪ sn_woken w)) (sn_slots w).

Lemma senders_step_inv w w' : senders_step w w' → senders_inv w → senders_inv w'.
Proof.
  unfold senders_inv. intros Hstep Hinv.
  destruct Hstep as [w i Hfresh|w fuel i slot t r slot' st Hi E|w s' Hr Hw]; cbn [sn_slots sn_state sn_woken].
  - apply map_Forall_insert_2; [done|exact Hinv].
  - apply poll_send_io_registers in E as [Hsub Hreg]. intros j slot2 Hj.
    destruct (decide (j = i)) as [->|Hne].
    + rewrite lookup_insert in Hj. rewrite decide_True in Hj by done. injection Hj as <-.
      destruct r; [by subst slot'|]. destruct Hreg as (-> & Hin & _). split; [done|]. intros _. by apply elem_of_union_l.
    + rewrite lookup_insert_ne in Hj by done. destruct (Hinv j slot2 Hj) as [Hc Hl]. split; [done|].
      intros Hlive. by eapply set_stays; [| |apply Hl].
  - intros j slot Hj. destruct (Hinv j slot Hj) as [Hc Hl]. split; [done|]. cbn [ws_io].
    intros Hlive. rewrite Hw. by apply set_woken, Hl.
Qed.

Lemma senders_run_inv w w' : rtc senders_step w w' → senders_inv w → senders_inv w'.
Proof. induction 1; eauto using senders_step_inv. Qed.

(** ** Theorems *)

(** C10: senders do not clobber each other's wakers: in every run of any number of
    senders on one socket, each sender that is waiting is registered with the socket
    or has been woken since, so that none waits for a wake-up that cannot come; no
    sender holds a completed future, so that polling any of them returns, after at
    most two rounds; and it is a poll of the list model on the answers it gave. *)
Theorem senders_do_not_clobber_each_other w0 w i slot t :
  sn_slots w0 = ∅ → rtc senders_step w0 w → sn_slots w !! i = Some slot → sendable t →
  (slot = Some Live → i ∈ waiters (ws_io (sn_state w)) ∪ sn_woken w) ∧
  ∃ r slot' st' wr used,
    poll_send_io 2 i slot t (sn_state w) = Some (Done (r, slot', st')) ∧
    poll_send slot t wr (with_tx (sn_state w) used) = Done (r, slot', with_tx st' []) ∧
    (r = Pending → i ∈ waiters (ws_io st')).
Proof.
  intros Hnil Hr Hi Ht. assert (senders_inv w) as Hinv.
  { assert (senders_inv w0) as Hinv0 by (unfold senders_inv; rewrite Hnil; apply map_Forall_empty).
    by eapply senders_run_inv. }
  destruct (Hinv i slot Hi) as [Hc Hl]. split; [done|].
  destruct (poll_send_io_returns i t slot (sn_state w) Ht Hc) as (r & slot' & st' & E).
  pose proof (poll_send_io_registers _ _ _ _ _ _ _ _ E) as [_ Hreg].
  destruct (poll_send_io_refines _ _ _ _ _ _ E) as (wr & used & Hu).
  exists r, slot', st', wr, (used ++ []). split; [done|]. split; [apply Hu|].
  intros ->. tauto.
Qed.
End documented.

(** ** Instances at concrete input *)

(** A socket with room for some number of datagrams. *)
Record Nic := mkNic { nic_room : nat; nic_ready : bool; nic_waiters : gset nat }.

#[export] Instance nic_writer : UdpWriter := {
  wio := Nic;
  poll_writable := fun i s =>
    if nic_ready s then (Ready (Ok tt), mkNic (nic_room s) true (nic_waiters s ∖ {[i]}))
    else (Pending, mkNic (nic_room s) false ({[i]} ∪ nic_waiters s));
  try_send_to := fun data _ s =>
    match nic_ready s, nic_room s with
    | true, S room => (Ok (length data), mkNic room true (nic_waiters s))
    | _, _ => (Err WouldBlock, mkNic (nic_room s) false (nic_waiters s))
    end
}.

#[export] Instance nic_state : UdpWriterState := { send_ready := nic_ready; waiters := nic_waiters }.

#[export] Instance nic_laws : UdpWriterLaws.
Proof.
  split; cbn.
  - intros i s ->. by eexists.
  - intros i s ->. by eexists.
  - intros data dst [room [] ws] r s'; [destruct room|]; by intros [= <- <-].
Qed.

(** Two senders share a socket that says it is writable and is not: both wait, and
    the second does not take the first one's place. *)
Definition ex_full : Senders := mkSenders ∅ (mkWriteState Counters_default [] (mkNic 0 true ∅)) ∅.

Definition ex_waiting : Senders :=
  mkSenders (<[2 := Some Live]> (<[1 := Some Live]> (<[2 := create_sender]> (<[1 := create_sender]> ∅))))
    (mkWriteState Counters_default [] (mkNic 0 false ({[2]} ∪ ({[1]} ∪ ∅ ∖ {[1]})))) (∅ ∖ {[1]} ∖ {[2]}).

Lemma ex_senders_run : rtc senders_step ex_full ex_waiting.
Proof.
  eapply rtc_l; [by apply (senders_create _ 1)|].
  eapply rtc_l; [by apply (senders_create _ 2)|].
  eapply rtc_l; [eapply (senders_poll _ 2 1 None ex_transmit); reflexivity|].
  eapply rtc_l; [eapply (senders_poll _ 2 2 None ex_transmit); reflexivity|].
  apply rtc_refl.
Qed.

Lemma senders_do_not_clobber_each_other_witness :
  1 ∈ waiters (ws_io (sn_state ex_waiting)) ∪ sn_woken ex_waiting ∧
  2 ∈ waiters (ws_io (sn_state ex_waiting)) ∪ sn_woken ex_waiting.
Proof.
  split.
  - apply (senders_do_not_clobber_each_other ex_full ex_waiting 1 (Some Live) ex_transmit
             eq_refl ex_senders_run eq_refl ltac:(discriminate)). reflexivity.
  - apply (senders_do_not_clobber_each_other ex_full ex_waiting 2 (Some Live) ex_transmit
             eq_refl ex_senders_run eq_refl ltac:(discriminate)). reflexivity.
Defined.
