(* ===== verification/Ping.v ===== *)
(** * The ping protocol ([src/lib.rs])

    Payloads, the echo responder, the client's ping, and the accept loops. Quinn's
    streams are an interface: a stream is written, finished and read to its end,
    and what one side wrote is what the other side reads. *)

From S2P Require Import Prelude Interfaces.

(** Upper bound on a ping payload. *)
Definition MAX_PING_BYTES : Z := 64 * 1024.

(** ** Payloads *)

Definition ping_payload (seq : Z) (size : nat) : exec (list byte) :=
  let payload := replicate size Byte.x00 in
  let seq_bytes := to_be_bytes 8 seq in
  let header := Nat.min (length seq_bytes) size in
  h ← index_range seq_bytes 0 header;
  payload ← copy_range payload 0 header h;
  tail ← index_range payload header (length payload);
  let tail := imap (fun i _ => Z_u8 (Z.of_nat i mod 251)) tail in
  mret (take header payload ++ tail).

(** ** Streams ([quinn]) *)

(** The errors of a connection that [serve_connection] tells apart; [OtherLoss]
    stands for every other one. *)
Inductive ConnectionError :=
| ApplicationClosed (reason : Z)
| ConnectionClosed (reason : Z)
| LocallyClosed
| OtherLoss (code : Z).

#[export] Instance ConnectionError_eq_dec : EqDecision ConnectionError.
Proof. solve_decision. Defined.

Inductive ReadToEndError := TooLong | ReadFailed (code : Z).

#[export] Instance ReadToEndError_eq_dec : EqDecision ReadToEndError.
Proof. solve_decision. Defined.

Class Streams := {
  SendStream : Type;
  RecvStream : Type;
  write_all : SendStream → list byte → result SendStream Z;
  finish : SendStream → result SendStream Z;
  read_to_end : RecvStream → Z → result (list byte) ReadToEndError;
  written : SendStream → list byte;
  (** The receiving side of a finished stream. *)
  transport : SendStream → RecvStream
}.

(** Streams are reliable and ordered, and [read_to_end] enforces its limit. *)
Class StreamsLaws `{Streams} : Prop := {
  written_write_all s b s' : write_all s b = Ok s' → written s' = written s ++ b;
  written_finish s s' : finish s = Ok s' → written s' = written s;
  read_to_end_transport s s' limit : finish s = Ok s' →
    read_to_end (transport s') limit =
    if (Z.of_nat (length (written s')) <=? limit)%Z then Ok (written s') else Err TooLong
}.

(** The crate's errors; the errors of the TLS libraries and of the operating
    system are opaque codes. *)
Inductive Error :=
| Rcgen (code : Z)
| Tls (code : Z)
| NoInitialCipherSuite
| Connect (code : Z)
| Connection (e : ConnectionError)
| Write (code : Z)
| Read (e : ReadToEndError)
| ClosedStream (code : Z)
| EchoMismatch (sent echoed : list byte)
| Io (kind : ErrorKind).

#[export] Instance Error_eq_dec : EqDecision Error.
Proof. solve_decision. Defined.

Section protocol.
Context `{Streams}.

(** The echo of one stream; the finished sending half is returned on success. *)
Definition echo_stream (send : SendStream) (recv : RecvStream) : result SendStream Error :=
  match read_to_end recv MAX_PING_BYTES with
  | Err e => Err (Read e)
  | Ok payload =>
      match write_all send payload with
      | Err e => Err (Write e)
      | Ok send =>
          match finish send with
          | Err e => Err (ClosedStream e)
          | Ok send => Ok send
          end
      end
  end.

(** One ping. Opening yields the sending half and, from what was sent on it, the
    receiving half that carries the peer's answer; the time is what the two clock
    readings differ by. *)
Definition ping (opened : result (SendStream * (SendStream → RecvStream)) ConnectionError)
    (payload : list byte) (rtt : Z) : result Z Error :=
  match opened with
  | Err e => Err (Connection e)
  | Ok (send, answer) =>
      match write_all send payload with
      | Err e => Err (Write e)
      | Ok send =>
          match finish send with
          | Err e => Err (ClosedStream e)
          | Ok send =>
              match read_to_end (answer send) MAX_PING_BYTES with
              | Err e => Err (Read e)
              | Ok echoed =>
                  if bool_decide (echoed ≠ payload) then Err (EchoMismatch payload echoed)
                  else Ok rtt
              end
          end
      end
  end.

(** What the server's half of the stream answers: the echo, or a stream that
    [failed] when the echo went wrong. *)
Definition echo_answer (reply : SendStream) (failed : RecvStream) (client_send : SendStream) : RecvStream :=
  match echo_stream reply (transport client_send) with
  | Ok reply => transport reply
  | Err _ => failed
  end.

(** [serve_connection] on the answers of [accept_bi], in order: the results of
    the echo tasks it spawns (a failed one is printed and dropped), and its own
    result unless it is still waiting for the next stream. *)
Fixpoint serve_connection (accepts : list (result (SendStream * RecvStream) ConnectionError))
    : list (result SendStream Error) * poll (result unit Error) :=
  match accepts with
  | [] => ([], Pending)
  | Ok (send, recv) :: accepts' =>
      let '(spawned, r) := serve_connection accepts' in (echo_stream send recv :: spawned, r)
  | Err e :: _ =>
      match e with
      | ApplicationClosed _ | ConnectionClosed _ | LocallyClosed => ([], Ready (Ok tt))
      | OtherLoss _ => ([], Ready (Err (Connection e)))
      end
  end.

(** [run_echo_server]: one task per incoming connection until the endpoint is
    closed; a task whose handshake fails does nothing. *)
Fixpoint run_echo_server
    (incoming : list (option (result (list (result (SendStream * RecvStream) ConnectionError)) ConnectionError)))
    : list (list (result SendStream Error) * poll (result unit Error)) * poll unit :=
  match incoming with
  | [] => ([], Pending)
  | None :: _ => ([], Ready tt)
  | Some handshake :: incoming' =>
      let '(tasks, r) := run_echo_server incoming' in
      match handshake with
      | Ok connection => (serve_connection connection :: tasks, r)
      | Err _ => (tasks, r)
      end
  end.
End protocol.

(** ** Lemmas *)

Lemma ping_payload_eq seq size :
  ping_payload seq size =
  Done (take size (to_be_bytes 8 seq) ++
        map (fun i => Z_u8 (Z.of_nat i mod 251)) (List.seq 0 (size - 8))).
Proof.
  unfold ping_payload. cbv zeta. rewrite length_to_be_bytes.
  set (h := take size (to_be_bytes 8 seq)).
  assert (length h = Nat.min 8 size) as Hl by (unfold h; rewrite length_take, length_to_be_bytes; lia).
  assert (index_range (to_be_bytes 8 seq) 0 (Nat.min 8 size) = Done h) as ->.
  { unfold index_range. rewrite (proj2 (get_range_Some _ _ _ h)); [done|].
    rewrite length_to_be_bytes, drop_0, Nat.sub_0_r. split_and!; [lia..|].
    unfold h. destruct (Nat.le_ge_cases size 8).
    - by rewrite Nat.min_r.
    - rewrite Nat.min_l by done. by rewrite !take_ge by (rewrite length_to_be_bytes; lia). }
  run. rewrite copy_range_Done by (rewrite ?length_replicate; lia). run.
  rewrite take_0, drop_replicate. cbn [app].
  rewrite length_app, length_replicate, Hl.
  assert (index_range (h ++ replicate (size - Nat.min 8 size) Byte.x00) (Nat.min 8 size)
            (Nat.min 8 size + (size - Nat.min 8 size))
          = Done (replicate (size - Nat.min 8 size) Byte.x00)) as ->.
  { unfold index_range. rewrite <- (app_nil_r (replicate _ _)) at 1.
    by rewrite get_range_app by (rewrite ?length_replicate; lia). }
  run. rewrite <- Hl, take_app_length. f_equal. f_equal.
  rewrite Hl. replace (size - Nat.min 8 size) with (size - 8) by lia.
  apply list_eq. intros i. rewrite list_lookup_imap, list_lookup_fmap.
  destruct (Nat.lt_ge_cases i (size - 8)).
  - rewrite lookup_replicate_2, lookup_seq_lt by done. done.
  - rewrite !(proj2 (lookup_ge_None _ _)); [done|by rewrite length_seq|by rewrite length_replicate].
Qed.

Lemma ping_payload_head seq size p :
  ping_payload seq size = Done p → 8 ≤ size → is_u64 seq →
  length p = size ∧ from_be_bytes (take 8 p) = seq.
Proof.
  rewrite ping_payload_eq. intros [= <-] Hs Hq. rewrite (take_ge (to_be_bytes 8 seq)) by solve_len.
  split; [rewrite length_app, length_to_be_bytes, length_map, length_seq; lia|].
  rewrite take_app_le, take_ge by solve_len. rewrite from_to_be_bytes.
  by apply Z.mod_small.
Qed.

Section lemmas.
Context `{StreamsLaws}.

(** What one side writes and finishes is what the other side reads. *)
Lemma read_back send s1 s2 payload :
  written send = [] → write_all send payload = Ok s1 → finish s1 = Ok s2 →
  read_to_end (transport s2) MAX_PING_BYTES =
  if (Z.of_nat (length payload) <=? MAX_PING_BYTES)%Z then Ok payload else Err TooLong.
Proof.
  intros Hw Hwr Hf. rewrite (read_to_end_transport _ _ _ Hf), (written_finish _ _ Hf),
    (written_write_all _ _ _ Hwr), Hw. done.
Qed.

(** Against the echo server a ping within the limit comes back. *)
Lemma ping_comes_back send reply failed s1 s2 r1 r2 payload rtt :
  written send = [] → written reply = [] →
  write_all send payload = Ok s1 → finish s1 = Ok s2 → write_all reply payload = Ok r1 → finish r1 = Ok r2 →
  (Z.of_nat (length payload) <= MAX_PING_BYTES)%Z →
  echo_stream reply (transport s2) = Ok r2 ∧ ping (Ok (send, fun _ => transport r2)) payload rtt = Ok rtt ∧
  ping (Ok (send, echo_answer reply failed)) payload rtt = Ok rtt.
Proof.
  intros Hs Hr Hw Hf Hw' Hf' Hle. apply Z.leb_le in Hle.
  pose proof (read_back _ _ _ _ Hs Hw Hf) as Hread. pose proof (read_back _ _ _ _ Hr Hw' Hf') as Hback.
  rewrite Hle in Hread, Hback. unfold ping, echo_answer, echo_stream. rewrite Hw, Hf, Hread, Hw', Hf', Hback.
  by rewrite bool_decide_eq_false_2 by congruence.
Qed.

Lemma serve_connection_ready streams e rest :
  serve_connection (map Ok streams ++ Err e :: rest) =
  (map (fun '(send, recv) => echo_stream send recv) streams,
   Ready (match e with OtherLoss _ => Err (Connection e) | _ => Ok tt end)).
Proof.
  induction streams as [|[send recv] streams IH]; cbn [map app serve_connection].
  - by destruct e.
  - by rewrite IH.
Qed.

Lemma serve_connection_pending streams :
  serve_connection (map Ok streams) =
  (map (fun '(send, recv) => echo_stream send recv) streams, Pending).
Proof.
  induction streams as [|[send recv] streams IH]; cbn [map serve_connection]; [done|by rewrite IH].
Qed.
End lemmas.

(** ** Theorems *)

(** Building a payload never panics and gives exactly [size] bytes: the
    big-endian sequence number cut to [size], then the pattern of period 251; from
    8 bytes on, the sequence number can be read back, so that the pings of a run
    have pairwise distinct payloads. *)
Theorem ping_payload_carries_the_sequence_number seq size :
  is_u64 seq →
  ∃ p, ping_payload seq size = Done p ∧ length p = size ∧
    take 8 p = take size (to_be_bytes 8 seq) ∧
    (∀ i, 8 ≤ i < size → p !! i = Some (Z_u8 (Z.of_nat (i - 8) mod 251))) ∧
    (8 ≤ size → from_be_bytes (take 8 p) = seq ∧
       ∀ seq', is_u64 seq' → ping_payload seq' size = Done p → seq' = seq).
Proof.
  intros Hq. eexists. split; [apply ping_payload_eq|].
  assert (length (take size (to_be_bytes 8 seq)) = Nat.min 8 size) as Hl
    by (rewrite length_take, length_to_be_bytes; lia).
  split_and!.
  - rewrite length_app, Hl, length_map, length_seq. lia.
  - destruct (Nat.le_ge_cases size 8).
    + replace (size - 8) with 0 by lia. rewrite app_nil_r, take_ge by lia. done.
    + rewrite take_app_le, take_ge by lia. done.
  - intros i Hi. rewrite lookup_app_r, Hl, list_lookup_fmap by lia.
    rewrite Nat.min_l, lookup_seq_lt by lia. done.
  - intros Hs. pose proof (ping_payload_head seq size _ (ping_payload_eq seq size) Hs Hq) as [_ Hh].
    split; [exact Hh|]. intros seq' Hq' E.
    destruct (ping_payload_head _ _ _ E Hs Hq') as [_ Hh']. congruence.
Qed.

Section theorems.
Context `{StreamsLaws}.

(** Whatever the peer answers, a ping reports its round-trip time exactly
    when the payload went out whole and came back byte for byte; an answer that
    was read but differs is reported as a mismatch that carries both. *)
Theorem ping_succeeds_iff_echoed send answer payload rtt :
  (∀ t, ping (Ok (send, answer)) payload rtt = Ok t ↔
     t = rtt ∧ ∃ s1 s2, write_all send payload = Ok s1 ∧ finish s1 = Ok s2 ∧
       read_to_end (answer s2) MAX_PING_BYTES = Ok payload) ∧
  (∀ sent echoed, ping (Ok (send, answer)) payload rtt = Err (EchoMismatch sent echoed) ↔
     sent = payload ∧ echoed ≠ payload ∧
     ∃ s1 s2, write_all send payload = Ok s1 ∧ finish s1 = Ok s2 ∧
       read_to_end (answer s2) MAX_PING_BYTES = Ok echoed).
Proof.
  unfold ping. split; intros.
  - split.
    + destruct (write_all send payload) as [s1|]; [|done].
      destruct (finish s1) as [s2|] eqn:Hf; [|done].
      destruct (read_to_end (answer s2) MAX_PING_BYTES) as [echoed|] eqn:Hr; [|done].
      case_bool_decide as Hd; [done|]. intros [= <-]. subst echoed.
      split; [done|]. by exists s1, s2.
    + intros (-> & s1 & s2 & -> & -> & ->). rewrite bool_decide_eq_false_2 by congruence. done.
  - split.
    + destruct (write_all send payload) as [s1|]; [|done].
      destruct (finish s1) as [s2|] eqn:Hf; [|done].
      destruct (read_to_end (answer s2) MAX_PING_BYTES) as [echoed'|] eqn:Hr; [|done].
      case_bool_decide as Hd; [|done]. intros [= <- <-].
      split; [done|]. split; [done|]. by exists s1, s2.
    + intros (-> & Hd & s1 & s2 & -> & -> & ->). by rewrite bool_decide_eq_true_2.
Qed.

(** C31: against the echo server, over streams that deliver what is written, a ping
    of at most [MAX_PING_BYTES] bytes succeeds, and a longer one is refused on the
    server's side with [TooLong], so that the answer is the failed stream. *)
Theorem echo_round_trip send reply failed s1 s2 payload rtt :
  written send = [] → written reply = [] →
  write_all send payload = Ok s1 → finish s1 = Ok s2 →
  (∃ r1 r2, write_all reply payload = Ok r1 ∧ finish r1 = Ok r2) →
  if (Z.of_nat (length payload) <=? MAX_PING_BYTES)%Z then
    ping (Ok (send, echo_answer reply failed)) payload rtt = Ok rtt
  else
    echo_stream reply (transport s2) = Err (Read TooLong) ∧
    ∀ e, read_to_end failed MAX_PING_BYTES = Err e →
      ping (Ok (send, echo_answer reply failed)) payload rtt = Err (Read e).
Proof.
  intros Hs Hr Hw Hf (r1 & r2 & Hw' & Hf').
  destruct (Z.leb_spec (Z.of_nat (length payload)) MAX_PING_BYTES) as [Hle|Hlt]; [by eapply ping_comes_back|].
  pose proof (read_back _ _ _ _ Hs Hw Hf) as Hread. rewrite (proj2 (Z.leb_gt _ _) Hlt) in Hread.
  unfold ping, echo_answer, echo_stream. rewrite Hw, Hf, Hread.
  split; [done|]. intros e He. by rewrite He.
Qed.

(** A connection is served until the peer or the endpoint goes away: each
    stream accepted before that is echoed by a task of its own whatever happened
    on the others, an orderly close ends the service normally, and any other loss
    is its error; without either the service is still running. *)
Theorem serve_connection_ends_with_the_connection streams :
  serve_connection (map Ok streams) =
    (map (fun '(send, recv) => echo_stream send recv) streams, Pending) ∧
  ∀ e rest,
    serve_connection (map Ok streams ++ Err e :: rest) =
      (map (fun '(send, recv) => echo_stream send recv) streams,
       Ready (match e with OtherLoss _ => Err (Connection e) | _ => Ok tt end)).
Proof. split; [apply serve_connection_pending|intros; apply serve_connection_ready]. Qed.

(** The server keeps accepting until the endpoint is closed: every connection
    whose handshake succeeded has its own service, and failed handshakes and
    failed connections leave the others and the loop alone. *)
Theorem run_echo_server_survives_failures incoming rest :
  run_echo_server (map Some incoming ++ None :: rest) =
    (omap (fun h => match h with Ok c => Some (serve_connection c) | Err _ => None end) incoming,
     Ready tt) ∧
  (run_echo_server (map Some incoming)).2 = Pending.
Proof.
  induction incoming as [|[c|e] incoming [IH1 IH2]]; cbn [map app run_echo_server omap list_omap].
  - done.
  - rewrite IH1. split; [done|]. by destruct (run_echo_server (map Some incoming)).
  - rewrite IH1. split; [done|]. by destruct (run_echo_server (map Some incoming)).
Qed.
End theorems.

(** ** Instances at concrete input *)

(** In-memory streams: a buffer that is open until it is finished. *)
#[export] Instance pipes : Streams := {
  SendStream := list byte * bool;
  RecvStream := result (list byte) ReadToEndError;
  write_all := fun '(buf, closed) b => if (closed : bool) then Err 1%Z else Ok (buf ++ b, false);
  finish := fun '(buf, closed) => if (closed : bool) then Err 2%Z else Ok (buf, true);
  read_to_end := fun r limit =>
    match r with
    | Ok buf => if (Z.of_nat (length buf) <=? limit)%Z then Ok buf else Err TooLong
    | Err e => Err e
    end;
  written := fst;
  transport := fun '(buf, _) => Ok buf
}.

#[export] Instance pipes_laws : StreamsLaws.
Proof.
  split.
  - intros [buf []] b s'; [done|]. by intros [= <-].
  - intros [buf []] s'; [done|]. by intros [= <-].
  - intros [buf []] s' limit; [done|]. by intros [= <-].
Qed.

(** The unit tests of [ping_payload]. *)
Example ex_payloads :
  ping_payload 7 12 = Done (bytes_of [0; 0; 0; 0; 0; 0; 0; 7; 0; 1; 2; 3]%Z) ∧
  ping_payload (2 ^ 64 - 1) 3 = Done (bytes_of [0xff; 0xff; 0xff]%Z) ∧
  ping_payload (2 ^ 64 - 1) 0 = Done [].
Proof. vm_compute. auto. Qed.

Lemma ping_payload_carries_the_sequence_number_witness :
  ∃ p, ping_payload 7 12 = Done p ∧ length p = 12.
Proof.
  destruct (ping_payload_carries_the_sequence_number 7 12) as (p & E & Hl & _);
    [unfold is_u64; lia|]. exists p. split; assumption.
Defined.

(** A stream nothing has been written to. *)
Definition ex_stream : SendStream (Streams := pipes) := ([], false).

Lemma echo_round_trip_witness :
  ping (Ok (ex_stream, echo_answer ex_stream (Err (ReadFailed 3)))) (bytes_of [1; 2; 3]%Z) 42 = Ok 42%Z.
Proof.
  apply (echo_round_trip ex_stream ex_stream (Err (ReadFailed 3)) (bytes_of [1; 2; 3]%Z, false)
           (bytes_of [1; 2; 3]%Z, true) (bytes_of [1; 2; 3]%Z) 42); try reflexivity.
  eexists _, _. split; reflexivity.
Defined.
