(* ===== verification/EchoTasks.v ===== *)
(** * The echo server as concurrent tasks ([src/lib.rs])

    [Ping.v] gives the echo server as a function of what its peers do. The code is
    a set of tasks: the accept loop, one task per connection and one per stream,
    each of which the runtime may run, or leave alone, between any two [await]s of
    the others. Here those tasks are a step machine, together with the lines they
    print; every schedule of it is bounded and, when nothing is left to do, has
    done exactly what the function says, and no task ever waits for another. *)

From stdpp Require Import relations.
From S2P Require Import Prelude Interfaces Ping.

(** ** Tasks *)

Section tasks.
Context `{Streams}.

(** What [accept_bi] will answer on a connection, in order, each stream with what
    [remote_address] says at that time. *)
Definition Accepts : Type := list (result (SendStream * RecvStream * SocketAddr) ConnectionError).

(** How an incoming connection turns out. *)
Definition Handshake : Type := result Accepts ConnectionError.

(** [echo_stream] between its [await]s. *)
Inductive EchoTask :=
| Reading (send : SendStream) (recv : RecvStream)
| Writing (send : SendStream) (payload : list byte)
| Returned (r : result SendStream Error).

(** The task of a connection: [incoming.await], then the loop of
    [serve_connection], whose result is dropped. *)
Inductive ConnectionPhase :=
| Handshaking (h : Handshake)
| Serving (accepts : Accepts)
| Served (r : result unit Error)
| Refused.

(** A connection's task and the tasks it has spawned, oldest first, each with the
    address it captured. *)
Record ConnectionTask := mkConnectionTask {
  ct_phase : ConnectionPhase; ct_echoes : list (SocketAddr * EchoTask) }.

(** The process: the accept loop with what [accept] will answer, the connections
    accepted so far, and the lines on standard error. *)
Record EchoServer := mkEchoServer {
  es_incoming : list (option Handshake); es_loop : poll unit;
  es_tasks : list ConnectionTask; es_log : list (SocketAddr * Error) }.

Definition start_echo_server (incoming : list (option Handshake)) : EchoServer :=
  mkEchoServer incoming Pending [] [].

(** ** Steps

    One step takes a task from one [await] to the next; [None] means that the task
    has ended or that there is nothing for it to accept. *)

Definition echo_step (t : EchoTask) : option EchoTask :=
  match t with
  | Reading send recv =>
      Some (match read_to_end recv MAX_PING_BYTES with
            | Err e => Returned (Err (Read e))
            | Ok payload => Writing send payload
            end)
  | Writing send payload =>
      Some (match write_all send payload with
            | Err e => Returned (Err (Write e))
            | Ok send =>
                match finish send with
                | Err e => Returned (Err (ClosedStream e))
                | Ok send => Returned (Ok send)
                end
            end)
  | Returned _ => None
  end.

(** The line a task prints when it ends. *)
Definition echo_log (remote : SocketAddr) (t : EchoTask) : list (SocketAddr * Error) :=
  match t with Returned (Err e) => [(remote, e)] | _ => [] end.

Definition connection_step (t : ConnectionTask) : option ConnectionTask :=
  match ct_phase t with
  | Handshaking (Ok accepts) => Some (mkConnectionTask (Serving accepts) (ct_echoes t))
  | Handshaking (Err _) => Some (mkConnectionTask Refused (ct_echoes t))
  | Serving (Ok (send, recv, remote) :: accepts) =>
      Some (mkConnectionTask (Serving accepts) (ct_echoes t ++ [(remote, Reading send recv)]))
  | Serving (Err e :: _) =>
      Some (mkConnectionTask
              (Served (match e with
                       | ApplicationClosed _ | ConnectionClosed _ | LocallyClosed => Ok tt
                       | OtherLoss _ => Err (Connection e)
                       end)) (ct_echoes t))
  | Serving [] | Served _ | Refused => None
  end.

(** Which task the runtime runs next. *)
Inductive Choice := AcceptLoop | TaskOf (i : nat) | StreamOf (i j : nat).

Definition run_task (c : Choice) (w : EchoServer) : option EchoServer :=
  match c with
  | AcceptLoop =>
      match es_incoming w with
      | [] => None
      | None :: _ => Some (mkEchoServer [] (Ready tt) (es_tasks w) (es_log w))
      | Some h :: incoming =>
          Some (mkEchoServer incoming (es_loop w) (es_tasks w ++ [mkConnectionTask (Handshaking h) []]) (es_log w))
      end
  | TaskOf i =>
      t ← es_tasks w !! i;
      t' ← connection_step t;
      Some (mkEchoServer (es_incoming w) (es_loop w) (<[i := t']> (es_tasks w)) (es_log w))
  | StreamOf i j =>
      t ← es_tasks w !! i;
      '(remote, e) ← ct_echoes t !! j;
      e' ← echo_step e;
      Some (mkEchoServer (es_incoming w) (es_loop w)
              (<[i := mkConnectionTask (ct_phase t) (<[j := (remote, e')]> (ct_echoes t))]> (es_tasks w))
              (es_log w ++ echo_log remote e'))
  end.

Definition server_step (w w' : EchoServer) : Prop := ∃ c, run_task c w = Some w'.

Fixpoint run_tasks (cs : list Choice) (w : EchoServer) : option EchoServer :=
  match cs with
  | [] => Some w
  | c :: cs => w' ← run_task c w; run_tasks cs w'
  end.

(** ** What a process has done and what it will have done *)

Definition echo_goal (t : EchoTask) : result SendStream Error :=
  match t with
  | Reading send recv => echo_stream send recv
  | Writing send payload =>
      match write_all send payload with
      | Err e => Err (Write e)
      | Ok send => match finish send with Err e => Err (ClosedStream e) | Ok send => Ok send end
      end
  | Returned r => r
  end.

(** The echoes of a connection, each with its peer's address, and the end of its
    service. *)
Fixpoint serve_goal (accepts : Accepts) : list (SocketAddr * result SendStream Error) * poll (result unit Error) :=
  match accepts with
  | [] => ([], Pending)
  | Ok (send, recv, remote) :: accepts =>
      let '(spawned, r) := serve_goal accepts in ((remote, echo_stream send recv) :: spawned, r)
  | Err e :: _ => ([], Ready (match e with OtherLoss _ => Err (Connection e) | _ => Ok tt end))
  end.

Definition Outcome : Type := option (list (SocketAddr * result SendStream Error) * poll (result unit Error)).

Definition handshake_goal (h : Handshake) : Outcome :=
  match h with Ok accepts => Some (serve_goal accepts) | Err _ => None end.

Definition echo_goals (t : ConnectionTask) : list (SocketAddr * result SendStream Error) :=
  map (prod_map id echo_goal) (ct_echoes t).

Definition task_goal (t : ConnectionTask) : Outcome :=
  match ct_phase t with
  | Handshaking h => handshake_goal h
  | Serving accepts => let '(spawned, r) := serve_goal accepts in Some (echo_goals t ++ spawned, r)
  | Served r => Some (echo_goals t, Ready r)
  | Refused => None
  end.

(** The connections the loop will accept, and whether it will end. *)
Fixpoint loop_goal (incoming : list (option Handshake)) : list Handshake * poll unit :=
  match incoming with
  | [] => ([], Pending)
  | None :: _ => ([], Ready tt)
  | Some h :: incoming => let '(hs, r) := loop_goal incoming in (h :: hs, r)
  end.

Definition outcomes (w : EchoServer) : list Outcome :=
  map task_goal (es_tasks w) ++ map handshake_goal (loop_goal (es_incoming w)).1.

Definition loop_outcome (w : EchoServer) : poll unit :=
  match es_loop w with Ready _ => Ready tt | Pending => (loop_goal (es_incoming w)).2 end.

(** The lines for the failed streams among the results of a connection. *)
Definition failures (rs : list (SocketAddr * result SendStream Error)) : list (SocketAddr * Error) :=
  omap (fun '(remote, r) => match r with Err e => Some (remote, e) | Ok _ => None end) rs.

Definition outcome_failures (o : Outcome) : list (SocketAddr * Error) :=
  match o with Some (rs, _) => failures rs | None => [] end.

(** The lines of the tasks that have ended. *)
Definition task_printed (t : ConnectionTask) : list (SocketAddr * Error) :=
  concat (map (fun '(remote, e) => echo_log remote e) (ct_echoes t)).

(** What a server that was given [incoming] prints. *)
Definition lines (incoming : list (option Handshake)) : list (SocketAddr * Error) :=
  concat (map outcome_failures (map handshake_goal (loop_goal incoming).1)).

(** What a task has done so far. *)
Definition echo_result (t : EchoTask) : option (result SendStream Error) :=
  match t with Returned r => Some r | _ => None end.

Definition served (t : ConnectionTask) : option (list (result SendStream Error) * poll (result unit Error)) :=
  match ct_phase t with
  | Handshaking _ | Refused => None
  | Serving _ => Some (omap (echo_result ∘ snd) (ct_echoes t), Pending)
  | Served r => Some (omap (echo_result ∘ snd) (ct_echoes t), Ready r)
  end.

(** Nothing is left to run. *)
Definition quiescent (w : EchoServer) : Prop := ∀ c, run_task c w = None.

(** The addresses forgotten, as [serve_connection] and [run_echo_server] have it. *)
Definition strip_accepts (accepts : Accepts) : list (result (SendStream * RecvStream) ConnectionError) :=
  map (fun a => match a with Ok (send, recv, _) => Ok (send, recv) | Err e => Err e end) accepts.

Definition strip_handshake (h : Handshake)
    : result (list (result (SendStream * RecvStream) ConnectionError)) ConnectionError :=
  match h with Ok accepts => Ok (strip_accepts accepts) | Err e => Err e end.

Definition strip_outcome (o : Outcome) : option (list (result SendStream Error) * poll (result unit Error)) :=
  match o with Some (rs, r) => Some (map snd rs, r) | None => None end.

(** What is left to do. *)
Definition echo_work (t : EchoTask) : nat :=
  match t with Reading _ _ => 2 | Writing _ _ => 1 | Returned _ => 0 end.

Definition phase_work (p : ConnectionPhase) : nat :=
  match p with
  | Handshaking (Ok accepts) => 1 + 3 * length accepts
  | Handshaking (Err _) => 1
  | Serving accepts => 3 * length accepts
  | Served _ | Refused => 0
  end.

Definition task_work (t : ConnectionTask) : nat := phase_work (ct_phase t) + sum_list_with (echo_work ∘ snd) (ct_echoes t).

Definition incoming_work (i : option Handshake) : nat :=
  match i with None => 1 | Some h => 1 + phase_work (Handshaking h) end.

Definition server_work (w : EchoServer) : nat :=
  sum_list_with incoming_work (es_incoming w) + sum_list_with task_work (es_tasks w).
End tasks.

(** ** Lists with one element replaced *)

Lemma map_insert_same {A B} (f : A → B) l i x y :
  l !! i = Some x → f y = f x → map f (<[i := y]> l) = map f l.
Proof.
  intros Hi E. change (f <$> <[i := y]> l = f <$> l). rewrite list_fmap_insert. apply list_insert_id.
  by rewrite list_lookup_fmap, Hi, E.
Qed.

Lemma map_lookup {A B} (f : A → B) l i x : l !! i = Some x → map f l !! i = Some (f x).
Proof. intros Hi. etrans; [apply list_lookup_fmap|]. by rewrite Hi. Qed.

Lemma sum_insert {A} (f : A → nat) l : ∀ i x y,
  l !! i = Some x → sum_list_with f (<[i := y]> l) + f x = sum_list_with f l + f y.
Proof.
  induction l as [|z l IH]; intros [|i] x y; intros E; [done..| |]; cbn [lookup list_lookup] in E.
  - injection E as ->. unfold insert, list_insert. cbn [sum_list_with]. lia.
  - specialize (IH i x y E). change (<[S i := y]> (z :: l)) with (z :: <[i := y]> l). cbn [sum_list_with]. lia.
Qed.

Lemma sum_insert_lt {A} (f : A → nat) l i x y :
  l !! i = Some x → f y < f x → sum_list_with f (<[i := y]> l) < sum_list_with f l.
Proof. intros Hi Hlt. pose proof (sum_insert f l i x y Hi). lia. Qed.

Lemma concat_insert {A B} (f : A → list B) l k : ∀ i x y,
  l !! i = Some x → f y ≡ₚ f x ++ k → concat (map f (<[i := y]> l)) ≡ₚ concat (map f l) ++ k.
Proof.
  induction l as [|z l IH]; intros [|i] x y; intros E Hp; [done..| |]; cbn [lookup list_lookup] in E.
  - injection E as ->. change (<[0 := y]> (x :: l)) with (y :: l). cbn [map concat].
    by rewrite Hp, <- !app_assoc, (Permutation_app_comm k).
  - change (<[S i := y]> (z :: l)) with (z :: <[i := y]> l). cbn [map concat].
    by rewrite (IH i x y E Hp), app_assoc.
Qed.

(** ** What a step keeps *)

Section lemmas.
Context `{Streams}.

Lemma echo_step_keeps e e' remote :
  echo_step e = Some e' → echo_goal e' = echo_goal e ∧ echo_work e' < echo_work e ∧ echo_log remote e = [].
Proof.
  destruct e as [send recv|send payload|]; cbn [echo_step]; [| |done]; intros [= <-]; cbn [echo_goal].
  - unfold echo_stream. destruct (read_to_end recv MAX_PING_BYTES); cbn; split_and!; (done || lia).
  - destruct (write_all send payload) as [s|]; [destruct (finish s)|]; cbn; split_and!; (done || lia).
Qed.

Lemma serve_goal_strip accepts :
  serve_connection (strip_accepts accepts) = (map snd (serve_goal accepts).1, (serve_goal accepts).2).
Proof.
  induction accepts as [|[[[send recv] remote]|e] accepts IH]; [done| |by destruct e].
  cbn [strip_accepts map serve_connection serve_goal]. fold (strip_accepts accepts). rewrite IH.
  by destruct (serve_goal accepts).
Qed.

(** Streams are only echoed on connections that have been established. *)
Definition task_ok (t : ConnectionTask) : Prop :=
  match ct_phase t with Handshaking _ | Refused => ct_echoes t = [] | _ => True end.

(** A task's step: the outcome stays, the work shrinks, the lines are printed. *)
Definition task_kept (printed : list (SocketAddr * Error)) (t t' : ConnectionTask) : Prop :=
  task_ok t' ∧ task_goal t' = task_goal t ∧ task_printed t' ≡ₚ task_printed t ++ printed ∧
  task_work t' < task_work t.

Lemma connection_step_keeps t t' : task_ok t → connection_step t = Some t' → task_kept [] t t'.
Proof.
  destruct t as [[[accepts|e]|[|[[[send recv] remote]|e] accepts]|r|] echoes]; unfold task_ok, task_kept;
    cbn; intros Hok [= <-]; subst; cbn.
  - unfold task_goal, task_work. cbn. destruct (serve_goal accepts) as [rs r]. split_and!; [done..|lia].
  - unfold task_work. cbn. split_and!; [done..|lia].
  - unfold task_goal, task_printed, task_work, echo_goals. cbn. destruct (serve_goal accepts) as [rs r].
    rewrite !map_app, concat_app, <- app_assoc, sum_list_with_app. cbn. split_and!; [done..|lia].
  - unfold task_goal, task_printed, task_work, echo_goals. cbn. rewrite !app_nil_r.
    destruct e; split_and!; (done || lia).
Qed.

Lemma stream_step_keeps t j remote e e' :
  task_ok t → ct_echoes t !! j = Some (remote, e) → echo_step e = Some e' →
  task_kept (echo_log remote e') t (mkConnectionTask (ct_phase t) (<[j := (remote, e')]> (ct_echoes t))).
Proof.
  destruct t as [phase echoes]. cbn [ct_phase ct_echoes]. intros Hok Hj E.
  destruct (echo_step_keeps e e' remote E) as (Hg & Hw & Hl).
  assert (echo_goals (mkConnectionTask phase (<[j := (remote, e')]> echoes)) = echo_goals (mkConnectionTask phase echoes)) as Hgs.
  { unfold echo_goals. cbn [ct_echoes]. eapply map_insert_same; [exact Hj|]. cbn. by rewrite Hg. }
  split_and!.
  - unfold task_ok in *. cbn [ct_phase ct_echoes] in *. destruct phase; (done || by rewrite Hok in Hj).
  - unfold task_goal. cbn [ct_phase]. by rewrite Hgs.
  - unfold task_printed. cbn [ct_echoes]. eapply concat_insert; [exact Hj|]. cbn. by rewrite Hl.
  - unfold task_work. cbn [ct_phase ct_echoes].
    pose proof (sum_insert_lt (echo_work ∘ snd) echoes j _ (remote, e') Hj Hw). lia.
Qed.

(** What holds of every state a server that was given [incoming] can reach. *)
Record server_inv (incoming : list (option Handshake)) (w : EchoServer) : Prop := {
  inv_tasks : Forall task_ok (es_tasks w);
  inv_outcomes : outcomes w = map handshake_goal (loop_goal incoming).1;
  inv_loop : loop_outcome w = (loop_goal incoming).2;
  inv_ended : es_loop w = Ready tt → es_incoming w = [];
  inv_log : es_log w ≡ₚ concat (map task_printed (es_tasks w))
}.

Lemma start_inv incoming : server_inv incoming (start_echo_server incoming).
Proof. by split. Qed.

(** Replacing a task by what it becomes. *)
Lemma task_step_inv incoming w i t t' printed :
  server_inv incoming w → es_tasks w !! i = Some t → (task_ok t → task_kept printed t t') →
  let w' := mkEchoServer (es_incoming w) (es_loop w) (<[i := t']> (es_tasks w)) (es_log w ++ printed) in
  server_inv incoming w' ∧ server_work w' < server_work w.
Proof.
  intros [Hok Ho Hl He Hp] Hi Hkept. rewrite Forall_lookup in Hok. destruct (Hkept (Hok i t Hi)) as (Hok' & Hg & Hp' & Hw).
  split.
  - split; cbn [es_tasks es_incoming es_loop es_log]; [| |done..|].
    + apply Forall_insert; [by apply Forall_lookup|done].
    + rewrite <- Ho. unfold outcomes. cbn [es_tasks es_incoming]. f_equal. by eapply map_insert_same.
    + rewrite Hp. symmetry. by eapply concat_insert.
  - unfold server_work. cbn [es_tasks es_incoming].
    pose proof (sum_insert_lt task_work (es_tasks w) i t t' Hi Hw). lia.
Qed.

Lemma server_step_inv incoming w w' :
  server_inv incoming w → server_step w w' → server_inv incoming w' ∧ server_work w' < server_work w.
Proof.
  intros Hinv [[|i|i j] E]; cbn [run_task] in E.
  - destruct Hinv as [Hok Ho Hl He Hp]. destruct w as [[|[h|] inc] lp ts lg]; [done|..]; injection E as <-;
      cbn [es_incoming es_loop es_tasks es_log] in *.
    + split; [|unfold server_work; cbn; rewrite sum_list_with_app; cbn; unfold task_work; cbn; lia].
      unfold outcomes, loop_outcome in *. cbn [es_incoming es_loop es_tasks loop_goal] in *.
      destruct (loop_goal inc) as [hs r] eqn:El. split; cbn [es_incoming es_loop es_tasks es_log].
      * apply Forall_app. split; [done|by repeat constructor].
      * unfold outcomes. cbn [es_incoming es_tasks]. by rewrite El, map_app, <- app_assoc.
      * unfold loop_outcome. cbn [es_incoming es_loop]. by rewrite El.
      * intros Hr. by specialize (He Hr).
      * by rewrite Hp, map_app, concat_app, !app_nil_r.
    + split; [|unfold server_work; cbn; lia]. unfold outcomes, loop_outcome in *.
      cbn [es_incoming es_loop es_tasks loop_goal] in *. split; [done..| |done|done].
      rewrite <- Hl. by destruct lp.
  - destruct (es_tasks w !! i) as [t|] eqn:Hi; [|done]. cbn in E.
    destruct (connection_step t) as [t'|] eqn:Ht; [|done]. cbn in E. injection E as <-.
    rewrite <- (app_nil_r (es_log w)). eapply task_step_inv; [done..|]. intros Hok. by apply connection_step_keeps.
  - destruct (es_tasks w !! i) as [t|] eqn:Hi; [|done]. cbn in E.
    destruct (ct_echoes t !! j) as [[remote e]|] eqn:Hj; [|done]. cbn in E.
    destruct (echo_step e) as [e'|] eqn:He; [|done]. cbn in E. injection E as <-.
    eapply task_step_inv; [done..|]. intros Hok. by apply stream_step_keeps with e.
Qed.

Lemma server_run_inv incoming w w' n :
  nsteps server_step n w w' → server_inv incoming w →
  server_inv incoming w' ∧ n + server_work w' ≤ server_work w.
Proof.
  induction 1 as [w|n w w1 w' Hstep _ IH]; intros Hinv; [split; [done|lia]|].
  destruct (server_step_inv _ _ _ Hinv Hstep) as [Hinv1 Hw]. destruct (IH Hinv1). split; [done|lia].
Qed.

(** Servers at rest. *)

Lemma echoes_at_rest echoes :
  Forall (fun '(_, e) => echo_step e = None) echoes →
  map snd (map (prod_map id echo_goal) echoes) = omap (echo_result ∘ snd) echoes ∧
  concat (map (fun '(remote, e) => echo_log remote e) echoes) = failures (map (prod_map id echo_goal) echoes).
Proof.
  induction 1 as [|[remote [| |r]] echoes He _ [IH1 IH2]]; [done..|]. cbn. split; [by f_equal|].
  rewrite IH2. by destruct r.
Qed.

Lemma task_at_rest t :
  task_ok t → connection_step t = None → Forall (fun '(_, e) => echo_step e = None) (ct_echoes t) →
  served t = strip_outcome (task_goal t) ∧ task_printed t = outcome_failures (task_goal t).
Proof.
  destruct t as [[[accepts|e]|[|[[[send recv] remote]|e] accepts]|r|] echoes]; unfold task_ok; cbn; try done.
  - intros _ _ [Hr Hl]%echoes_at_rest. unfold served, task_goal, task_printed, echo_goals. cbn. by rewrite app_nil_r, Hr.
  - intros _ _ [Hr Hl]%echoes_at_rest. unfold served, task_goal, task_printed, echo_goals. cbn. by rewrite Hr.
  - by intros -> _ _.
Qed.

Lemma quiescent_tasks w i t :
  quiescent w → es_tasks w !! i = Some t →
  connection_step t = None ∧ Forall (fun '(_, e) => echo_step e = None) (ct_echoes t).
Proof.
  intros Hq Hi. split.
  - specialize (Hq (TaskOf i)). cbn in Hq. rewrite Hi in Hq. cbn in Hq. by destruct (connection_step t).
  - apply Forall_lookup. intros j [remote e] Hj. specialize (Hq (StreamOf i j)). cbn in Hq. rewrite Hi in Hq.
    cbn in Hq. rewrite Hj in Hq. cbn in Hq. by destruct (echo_step e).
Qed.

Lemma quiescent_loop w : quiescent w → es_incoming w = [].
Proof. intros Hq. specialize (Hq AcceptLoop). cbn in Hq. by destruct (es_incoming w) as [|[]]. Qed.

Lemma run_echo_server_goal incoming :
  run_echo_server (map (option_map strip_handshake) incoming) =
  (omap strip_outcome (map handshake_goal (loop_goal incoming).1), (loop_goal incoming).2).
Proof.
  induction incoming as [|[[accepts|e]|] incoming IH]; [done|..|done]; cbn [map option_map run_echo_server loop_goal];
    rewrite IH; destruct (loop_goal incoming) as [hs r]; cbn; [|done].
  rewrite serve_goal_strip. by destruct (serve_goal accepts).
Qed.

Lemma tasks_at_rest w incoming :
  server_inv incoming w → quiescent w →
  omap served (es_tasks w) = omap strip_outcome (map handshake_goal (loop_goal incoming).1) ∧
  es_log w ≡ₚ lines incoming.
Proof.
  intros [Hok Ho _ _ Hlog] Hq. unfold outcomes in Ho. rewrite (quiescent_loop w Hq), app_nil_r in Ho.
  assert (Forall (fun t => served t = strip_outcome (task_goal t) ∧ task_printed t = outcome_failures (task_goal t))
            (es_tasks w)) as Hrest.
  { apply Forall_lookup. intros i t Hi. destruct (quiescent_tasks w i t Hq Hi).
    apply task_at_rest; [|done..]. rewrite Forall_lookup in Hok. by eapply Hok. }
  rewrite Hlog. unfold lines. rewrite <- Ho. clear -Hrest.
  induction Hrest as [|t ts [Hs Hp] _ [IH1 IH2]]; [done|]. cbn. rewrite Hs, IH1, Hp, IH2. done.
Qed.

(** At rest every stream that was accepted has been echoed. *)
Lemma quiescent_echo incoming w i j accepts remote r :
  server_inv incoming w → quiescent w → (loop_goal incoming).1 !! i = Some (Ok accepts) →
  (serve_goal accepts).1 !! j = Some (remote, r) →
  ∃ t, es_tasks w !! i = Some t ∧ ct_echoes t !! j = Some (remote, Returned r).
Proof.
  intros [Hok Ho _ _ _] Hq Hh Hs. unfold outcomes in Ho. rewrite (quiescent_loop w Hq), app_nil_r in Ho.
  apply (map_lookup handshake_goal) in Hh. rewrite <- Ho in Hh.
  apply list_lookup_fmap_Some in Hh as (t & Hg & Hi). exists t. split; [done|].
  destruct (quiescent_tasks w i t Hq Hi) as [Hc He]. rewrite Forall_lookup in Hok. specialize (Hok i t Hi).
  cbn [handshake_goal] in Hg. destruct (serve_goal accepts) as [rs p].
  assert (rs = echo_goals t) as ->.
  { unfold task_goal, task_ok in *. destruct t as [[[accs|e]|[|[[[send recv] rem]|e] accs]|r'|] echoes]; try done; cbn in *.
    - by injection Hg as -> _; rewrite app_nil_r.
    - by injection Hg as -> _. }
  apply list_lookup_fmap_Some in Hs as ([remote' e] & E & Hj). rewrite Forall_lookup in He. specialize (He j _ Hj).
  destruct e; [done..|]. injection E as -> ->. done.
Qed.



End lemmas.

(** ** Running one task alone *)

Section alone.
Context `{Streams}.




End alone.

(** ** Theorems *)

Section theorems.
Context `{Streams}.

(** C11: whatever order the runtime runs the tasks of the echo server in, it runs
    them boundedly often, and when none has anything left to do the process has done
    exactly what the sequential reading of the code says: every stream accepted on
    every established connection has the echo's result, every connection its own,
    and the accept loop has ended or waits. What has been printed by then is one
    line for each stream that failed, with the address of its peer, in some order,
    and nothing for failed handshakes and lost connections. *)
Theorem every_schedule_serves_alike incoming n w :
  nsteps server_step n (start_echo_server incoming) w →
  n ≤ sum_list_with incoming_work incoming ∧
  (quiescent w →
     (omap served (es_tasks w), es_loop w) = run_echo_server (map (option_map strip_handshake) incoming) ∧
     es_log w ≡ₚ lines incoming).
Proof.
  intros Hrun. destruct (server_run_inv incoming _ _ _ Hrun (start_inv incoming)) as [Hinv Hwork].
  split.
  - unfold server_work in Hwork. cbn in Hwork. lia.
  - intros Hq. destruct (tasks_at_rest w incoming Hinv Hq) as [Hs Hl]. split; [|done].
    rewrite run_echo_server_goal, Hs. f_equal. destruct Hinv as [_ _ <- _ _].
    unfold loop_outcome. rewrite (quiescent_loop w Hq). cbn. by destruct (es_loop w) as [[]|].
Qed.

End theorems.

(** ** Instances at concrete input *)

Definition is_none {A} (o : option A) : bool := match o with None => true | Some _ => false end.

(** Whether anything is left to run. *)
Definition quiescentb `{Streams} (w : EchoServer) : bool :=
  match es_incoming w with [] => true | _ => false end &&
  forallb (fun t => is_none (connection_step t) && forallb (fun e => is_none (echo_step e.2)) (ct_echoes t)) (es_tasks w).

Lemma quiescentb_true `{Streams} w : quiescentb w = true → quiescent w.
Proof.
  unfold quiescentb. rewrite andb_true_iff, forallb_forall. intros [Hinc Hts] [|i|i j]; cbn [run_task].
  - by destruct (es_incoming w).
  - destruct (es_tasks w !! i) as [t|] eqn:Hi; [|done]. cbn.
    apply list_elem_of_lookup_2, list_elem_of_In, Hts, andb_true_iff in Hi as [Hi _]. by destruct (connection_step t).
  - destruct (es_tasks w !! i) as [t|] eqn:Hi; [|done]. cbn.
    apply list_elem_of_lookup_2, list_elem_of_In, Hts, andb_true_iff in Hi as [_ Hi]. rewrite forallb_forall in Hi.
    destruct (ct_echoes t !! j) as [[remote e]|] eqn:Hj; [|done]. cbn.
    apply list_elem_of_lookup_2, list_elem_of_In, Hi in Hj. cbn in Hj. by destruct (echo_step e).
Qed.

Lemma run_tasks_nsteps `{Streams} cs : ∀ w w', run_tasks cs w = Some w' → nsteps server_step (length cs) w w'.
Proof.
  induction cs as [|c cs IH]; intros w w'; cbn [run_tasks]; [intros [= <-]; constructor|].
  destruct (run_task c w) as [w1|] eqn:E; [|done]. cbn. intros Hrun. by econstructor; [exists c|apply IH].
Qed.

Definition ex_remote : SocketAddr := mkSocketAddr (V4 (ipv4 192 0 2 1)) 50000.

(** Two connections: one with an echo that works, one that is reset and an orderly
    close, and one lost after its only stream; a failed handshake between them. *)
Definition ex_incoming : list (option (Handshake (H := pipes))) :=
  [Some (Ok [Ok (ex_stream, Ok (bytes_of [1; 2; 3]%Z), ex_remote);
             Ok (ex_stream, Err (ReadFailed 7), ex_remote); Err (ApplicationClosed 0)]);
   Some (Err (OtherLoss 1));
   Some (Ok [Ok (ex_stream, Ok (bytes_of [4]%Z), ex_remote); Err (OtherLoss 2)]);
   None].

(** A schedule that leaves the first stream for last. *)
Definition ex_schedule : list Choice :=
  [AcceptLoop; TaskOf 0; TaskOf 0; AcceptLoop; AcceptLoop; TaskOf 2; TaskOf 2; TaskOf 0; StreamOf 2 0; StreamOf 0 1;
   TaskOf 2; AcceptLoop; StreamOf 2 0; TaskOf 1; TaskOf 0; StreamOf 0 0; StreamOf 0 0].

Lemma every_schedule_serves_alike_witness :
  ∃ w, run_tasks ex_schedule (start_echo_server ex_incoming) = Some w ∧
    (omap served (es_tasks w), es_loop w) = run_echo_server (map (option_map strip_handshake) ex_incoming) ∧
    es_log w ≡ₚ [(ex_remote, Read (ReadFailed 7))].
Proof.
  destruct (run_tasks ex_schedule (start_echo_server ex_incoming)) as [w|] eqn:E; [|exfalso; by vm_compute in E].
  exists w. split; [reflexivity|].
  apply (every_schedule_serves_alike ex_incoming (length ex_schedule) w (run_tasks_nsteps _ _ _ E)).
  apply quiescentb_true. vm_compute in E. injection E as <-. vm_compute. reflexivity.
Defined.

