(* ===== verification/Endpoint.v ===== *)
(** * Configurations and endpoints ([src/lib.rs])

    The TLS and transport configuration of both sides, and how a socket and a
    connection-ID generator are mounted into a Quinn endpoint. The certificate
    and TLS libraries are an interface whose calls may fail; what Quinn is told is
    the value of the functions. *)

From S2P Require Import Prelude Interfaces Aes Auth Datagram CidGenerator Socket Ping.

(** [b"pktauth-ping/1"]. *)
Definition ALPN : list byte :=
  bytes_of [0x70; 0x6b; 0x74; 0x61; 0x75; 0x74; 0x68; 0x2d; 0x70; 0x69; 0x6e; 0x67; 0x2f; 0x31]%Z.

(** Durations are in nanoseconds. *)
Definition IDLE_TIMEOUT : Z := 30 * 10 ^ 9.
Definition KEEP_ALIVE_INTERVAL : Z := 5 * 10 ^ 9.

(** The two transport parameters the crate sets; the others keep Quinn's defaults.
    An idle timeout travels as a QUIC variable-length integer of milliseconds. *)
Record TransportConfig := mkTransportConfig {
  max_idle_timeout : option Z; keep_alive_interval : option Z }.

Definition VarInt_MAX : Z := 2 ^ 62 - 1.

(** [IdleTimeout::try_from]. *)
Definition IdleTimeout_try_from (d : Z) : option Z :=
  let ms := (d / 10 ^ 6)%Z in if (ms <=? VarInt_MAX)%Z then Some ms else None.

Definition transport_config (dflt : TransportConfig) : exec TransportConfig :=
  timeout ← expect (IdleTimeout_try_from IDLE_TIMEOUT);
  let transport := mkTransportConfig (Some timeout) (keep_alive_interval dflt) in
  mret (mkTransportConfig (max_idle_timeout transport) (Some KEEP_ALIVE_INTERVAL)).

(** The certificate generator, the TLS configuration builders and their QUIC
    adaptors ([rcgen], [rustls], [quinn::crypto::rustls]), and Quinn's default
    transport configuration. Errors are opaque codes. *)
Class TlsLib := {
  Certificate : Type;
  SigningKey : Type;
  RootStore : Type;
  CryptoProvider : Type;
  ring_default_provider : CryptoProvider;
  generate_simple_self_signed : list (list byte) → result (Certificate * SigningKey) Z;
  single_cert_ok : CryptoProvider → Certificate → SigningKey → result unit Z;
  quic_suite_ok : CryptoProvider → bool;
  empty_roots : RootStore;
  add_root : RootStore → Certificate → result RootStore Z;
  default_transport : TransportConfig
}.

Section config.
Context `{TlsLib}.

(** ** The process-wide crypto provider *)

(** What the process holds: whether the [Once] has run, and rustls's default
    provider. *)
Record Crypto := mkCrypto { once_called : bool; default_provider : option CryptoProvider }.

(** [CryptoProvider::install_default]: the first installation wins. *)
Definition install_default (p : CryptoProvider) (cs : Crypto) : result unit CryptoProvider * Crypto :=
  match default_provider cs with
  | Some _ => (Err p, cs)
  | None => (Ok tt, mkCrypto (once_called cs) (Some p))
  end.

Definition install_crypto_provider (cs : Crypto) : Crypto :=
  if once_called cs then cs
  else
    let '(_, cs) := install_default ring_default_provider cs in
    mkCrypto true (default_provider cs).

(** ** Configurations *)

Record ServerConfig := mkServerConfig {
  sc_cert : Certificate; sc_key : SigningKey; sc_alpn : list (list byte);
  sc_transport : TransportConfig; sc_migration : bool }.

Record ServerCredentials := mkServerCredentials { config : ServerConfig; cert_der : Certificate }.

Record ClientConfig := mkClientConfig {
  cc_roots : RootStore; cc_alpn : list (list byte); cc_transport : TransportConfig }.

(** The rustls builders take the process-wide provider, and panic without one. *)
Definition self_signed_server_config (subject_alt_names : list (list byte)) (cs : Crypto)
    : exec (result ServerCredentials Error * Crypto) :=
  let cs := install_crypto_provider cs in
  match generate_simple_self_signed subject_alt_names with
  | Err e => mret (Err (Rcgen e), cs)
  | Ok (cert, key) =>
      provider ← expect (default_provider cs);
      match single_cert_ok provider cert key with
      | Err e => mret (Err (Tls e), cs)
      | Ok _ =>
          if quic_suite_ok provider then
            transport ← transport_config default_transport;
            mret (Ok (mkServerCredentials (mkServerConfig cert key [ALPN] transport false) cert), cs)
          else mret (Err NoInitialCipherSuite, cs)
      end
  end.

(** The loop over [trusted_certs]. *)
Fixpoint add_roots (roots : RootStore) (certs : list Certificate) : result RootStore Error :=
  match certs with
  | [] => Ok roots
  | cert :: certs' =>
      match add_root roots cert with
      | Err e => Err (Tls e)
      | Ok roots => add_roots roots certs'
      end
  end.

Definition client_config (trusted_certs : list Certificate) (cs : Crypto)
    : exec (result ClientConfig Error * Crypto) :=
  let cs := install_crypto_provider cs in
  match add_roots empty_roots trusted_certs with
  | Err e => mret (Err e, cs)
  | Ok roots =>
      provider ← expect (default_provider cs);
      if quic_suite_ok provider then
        transport ← transport_config default_transport;
        mret (Ok (mkClientConfig roots [ALPN] transport), cs)
      else mret (Err NoInitialCipherSuite, cs)
  end.

(** ** Endpoints *)

(** A Quinn endpoint: the socket it reads and writes through, the generator it
    makes afresh whenever it needs one, the configuration under which it accepts
    connections, and the one, with its provider of the first destination
    connection ID, under which it opens them. *)
Record Endpoint := mkEndpoint {
  ep_socket : Inner Authenticator;
  ep_cid_generator : AuthCidGenerator;
  ep_server : option ServerConfig;
  ep_client : option (ClientConfig * Peers) }.

(** [created] is the outcome of [Endpoint::new_with_abstract_socket]. *)
Definition server_endpoint (socket : Inner Authenticator) (config : ServerConfig)
    (local_ip : Ipv4Addr) (created : result unit ErrorKind) : result Endpoint Error :=
  let cid_generator := AuthCidGenerator_new ClientToServer local_ip in
  match created with
  | Err e => Err (Io e)
  | Ok _ => Ok (mkEndpoint socket cid_generator (Some config) None)
  end.

(** The client's provider is [initial_dst_cid_provider peers]. *)
Definition client_endpoint (socket : Inner Authenticator) (config : ClientConfig)
    (peers : Peers) (created : result unit ErrorKind) : result Endpoint Error :=
  let cid_generator := AuthCidGenerator_new ServerToClient (client peers) in
  match created with
  | Err e => Err (Io e)
  | Ok _ => Ok (mkEndpoint socket cid_generator None (Some (config, peers)))
  end.
End config.

(** ** Lemmas *)

Lemma transport_config_eq dflt :
  transport_config dflt = Done (mkTransportConfig (Some 30000%Z) (Some (5 * 10 ^ 9)%Z)).
Proof. reflexivity. Qed.

Section lemmas.
Context `{TlsLib}.

(** A process in which the [Once] has run has a provider. *)
Definition crypto_wf (cs : Crypto) : Prop := once_called cs = true → is_Some (default_provider cs).

Lemma install_crypto_provider_eq cs :
  crypto_wf cs →
  install_crypto_provider cs =
  mkCrypto true (Some (default ring_default_provider (default_provider cs))).
Proof.
  destruct cs as [called provider]. unfold crypto_wf, install_crypto_provider, install_default.
  cbn. intros Hwf. destruct called, provider as [p|]; try done. by destruct Hwf.
Qed.

Lemma install_crypto_provider_wf cs : crypto_wf cs → crypto_wf (install_crypto_provider cs).
Proof. intros Hwf. rewrite install_crypto_provider_eq by done. by eexists. Qed.

(** The configuration both sides give their transport. *)
Definition pktauth_transport : TransportConfig :=
  mkTransportConfig (Some 30000%Z) (Some (5 * 10 ^ 9)%Z).

Lemma self_signed_server_config_spec names cs :
  crypto_wf cs →
  ∃ r, self_signed_server_config names cs = Done (r, install_crypto_provider cs) ∧
    ∀ creds, r = Ok creds →
      ∃ cert key, generate_simple_self_signed names = Ok (cert, key) ∧
        creds = mkServerCredentials (mkServerConfig cert key [ALPN] pktauth_transport false) cert.
Proof.
  intros Hwf. unfold self_signed_server_config. rewrite install_crypto_provider_eq by done.
  cbn [default_provider]. destruct (generate_simple_self_signed names) as [[cert key]|e]; [|by eexists].
  run. destruct (single_cert_ok _ cert key); [|by eexists]. destruct (quic_suite_ok _); [|by eexists].
  rewrite transport_config_eq. eexists. split; [done|]. intros creds [= <-]. by exists cert, key.
Qed.

Lemma client_config_spec certs cs :
  crypto_wf cs →
  ∃ r, client_config certs cs = Done (r, install_crypto_provider cs) ∧
    ∀ cfg, r = Ok cfg →
      ∃ roots, add_roots empty_roots certs = Ok roots ∧ cfg = mkClientConfig roots [ALPN] pktauth_transport.
Proof.
  intros Hwf. unfold client_config. rewrite install_crypto_provider_eq by done. cbn [default_provider].
  destruct (add_roots empty_roots certs) as [roots|e]; [|by eexists].
  run. destruct (quic_suite_ok _); [|by eexists].
  rewrite transport_config_eq. eexists. split; [done|]. intros cfg [= <-]. by exists roots.
Qed.
End lemmas.

(** ** Theorems *)

Section theorems.
Context `{TlsLib}.

(** The provider is installed once and for all: whichever configuration is
    built first, in whatever order and however often, building one never panics
    and leaves one and the same provider behind, the one that was there before or
    else ring's; and two sides that come up agree: the same protocol identifier
    and transport parameters, keep-alives several times more frequent than the
    idle timeout, no migration, and a server that presents the certificate it
    hands out to be pinned. *)
Theorem configurations_agree names certs cs :
  crypto_wf cs →
  ∃ cs' rs rc,
    self_signed_server_config names cs = Done (rs, cs') ∧ client_config certs cs = Done (rc, cs') ∧
    default_provider cs' = Some (default ring_default_provider (default_provider cs)) ∧
    self_signed_server_config names cs' = Done (rs, cs') ∧ client_config certs cs' = Done (rc, cs') ∧
    ∀ creds cfg, rs = Ok creds → rc = Ok cfg →
      sc_alpn (config creds) = cc_alpn cfg ∧ sc_transport (config creds) = cc_transport cfg ∧
      (∃ idle keep, max_idle_timeout (cc_transport cfg) = Some idle ∧
         keep_alive_interval (cc_transport cfg) = Some keep ∧ (2 * keep < idle * 10 ^ 6)%Z) ∧
      sc_migration (config creds) = false ∧ sc_cert (config creds) = cert_der creds.
Proof.
  intros Hwf. destruct (self_signed_server_config_spec names cs Hwf) as (rs & Es & Hs).
  destruct (client_config_spec certs cs Hwf) as (rc & Ec & Hc).
  exists (install_crypto_provider cs), rs, rc. do 2 (split; [done|]).
  assert (install_crypto_provider (install_crypto_provider cs) = install_crypto_provider cs) as Hi
    by by rewrite !install_crypto_provider_eq by eauto using install_crypto_provider_wf.
  split; [by rewrite install_crypto_provider_eq|].
  split; [by rewrite <- Es; unfold self_signed_server_config; rewrite Hi|].
  split; [by rewrite <- Ec; unfold client_config; rewrite Hi|].
  intros creds cfg (cert & key & _ & ->)%Hs (roots & _ & ->)%Hc. cbn.
  split_and!; try done. by eexists _, _.
Qed.
End theorems.

(** ** Instances at concrete input *)

(** A library that names certificates and providers by number and refuses
    certificate 13. *)
#[export] Instance toy_tls : TlsLib := {
  Certificate := nat;
  SigningKey := nat;
  RootStore := list nat;
  CryptoProvider := nat;
  ring_default_provider := 1;
  generate_simple_self_signed := fun names => match names with [] => Err 1%Z | n :: _ => Ok (length n, length n) end;
  single_cert_ok := fun _ cert key => if cert =? key then Ok tt else Err 2%Z;
  quic_suite_ok := fun p => negb (p =? 0);
  empty_roots := [];
  add_root := fun roots cert => if cert =? 13 then Err 3%Z else Ok (roots ++ [cert]);
  default_transport := mkTransportConfig (Some 30000%Z) None
}.

(** A process that has not touched TLS yet. *)
Definition ex_crypto : Crypto := mkCrypto (H := toy_tls) false None.

(** [localhost]. *)
Definition LOCALHOST_NAME : list byte := str "localhost".

Lemma configurations_agree_witness :
  ∃ cs' rs rc,
    self_signed_server_config [LOCALHOST_NAME] ex_crypto = Done (rs, cs') ∧
    client_config [7] ex_crypto = Done (rc, cs') ∧ default_provider cs' = Some 1.
Proof.
  destruct (configurations_agree (H := toy_tls) [LOCALHOST_NAME] [7] ex_crypto) as (cs' & rs & rc & H1 & H2 & H3 & _).
  - intros Hc. discriminate.
  - exists cs', rs, rc. split; [exact H1|]. split; [exact H2|exact H3].
Defined.
