(* ===== verification/Float64.v ===== *)
(** * Binary64 arithmetic

    The blaster paces itself with [Duration::from_secs_f64(sent as f64 / pps as
    f64)], and the client computes its loss as [lost as f64 * 100.0 / sent as f64].
    The operations involved, conversion of an unsigned integer, multiplication,
    division and conversion of seconds to a duration, are modelled on the values
    that occur: non-negative numbers far inside the normal range, written as a
    mantissa and a power of two, rounded to nearest with ties to even. *)

From S2P Require Import Prelude.

Local Open Scope Z_scope.

(** [n / d] rounded to the nearest integer, ties to even, for positive [d]. *)
Definition round_div (n d : Z) : Z :=
  let q := n / d in
  match (2 * (n mod d)) ?= d with
  | Lt => q
  | Gt => q + 1
  | Eq => if Z.even q then q else q + 1
  end.

(** A non-negative binary64 value [mant * 2^expo]. *)
Record f64 := mkF64 { mant : Z; expo : Z }.

(** The exponent that gives the quotient [n / d] a 53-bit mantissa. *)
Definition quotient_expo (n d : Z) : Z :=
  let e := Z.log2 n - Z.log2 d - 52 in
  if n * 2 ^ Z.max 0 (- e) <? d * 2 ^ Z.max 0 e * 2 ^ 52 then e - 1 else e.

(** The binary64 value nearest to [n / d]. *)
Definition f64_of_ratio (n d : Z) : f64 :=
  if n =? 0 then mkF64 0 0
  else
    let e := quotient_expo n d in
    mkF64 (round_div (n * 2 ^ Z.max 0 (- e)) (d * 2 ^ Z.max 0 e)) e.

(** [z as f64]. *)
Definition f64_of_u64 (z : Z) : f64 := f64_of_ratio z 1.

(** Division of two values, the second one not zero. *)
Definition f64_div (a b : f64) : f64 :=
  let e := expo a - expo b in
  f64_of_ratio (mant a * 2 ^ Z.max 0 e) (mant b * 2 ^ Z.max 0 (- e)).

(** Multiplication of two values. *)
Definition f64_mul (a b : f64) : f64 :=
  let e := expo a + expo b in
  f64_of_ratio (mant a * mant b * 2 ^ Z.max 0 e) (2 ^ Z.max 0 (- e)).

(** What a [Duration] can hold, in nanoseconds. *)
Definition DURATION_LIMIT : Z := 2 ^ 64 * 10 ^ 9.

(** Seconds in nanoseconds, rounded to nearest. *)
Definition nanos_of_secs (x : f64) : Z :=
  round_div (mant x * 2 ^ Z.max 0 (expo x) * 10 ^ 9) (2 ^ Z.max 0 (- expo x)).

(** [Duration::from_secs_f64], in nanoseconds, which panics on overflow. *)
Definition duration_from_secs_f64 (x : f64) : exec Z :=
  if nanos_of_secs x <? DURATION_LIMIT then mret (nanos_of_secs x) else Panic.

(** ** Lemmas *)

(** Rounding to nearest is off by at most one half. *)
Lemma round_div_error n d : 0 < d → Z.abs (2 * (round_div n d * d - n)) <= d.
Proof.
  intros Hd. unfold round_div. pose proof (Z.div_mod n d ltac:(lia)) as E.
  pose proof (Z.mod_pos_bound n d Hd) as Hm. set (q := n / d) in *. set (r := n mod d) in *.
  destruct (Z.compare_spec (2 * r) d); [destruct (Z.even q)|..]; nia.
Qed.

Lemma round_div_nonneg n d : 0 <= n → 0 < d → 0 <= round_div n d.
Proof.
  intros Hn Hd. pose proof (Z.div_pos n d Hn Hd). unfold round_div.
  destruct (_ ?= _); [destruct (Z.even _)|..]; lia.
Qed.

Lemma round_div_1 n : round_div n 1 = n.
Proof. unfold round_div. rewrite Z.mod_1_r, Z.div_1_r. reflexivity. Qed.

(** With the exponent read off the logarithms the quotient is above 2^51. *)
Lemma log_quotient n d :
  0 < n → 0 < d → let e := Z.log2 n - Z.log2 d - 52 in
  d * 2 ^ Z.max 0 e * 2 ^ 51 < n * 2 ^ Z.max 0 (- e).
Proof.
  intros Hn Hd e. pose proof (Z.log2_spec n Hn) as [Hn1 _]. pose proof (Z.log2_spec d Hd) as [_ Hd2].
  pose proof (Z.log2_nonneg n). pose proof (Z.log2_nonneg d).
  destruct (Z.le_ge_cases 0 e) as [He|He].
  - rewrite (Z.max_r 0 e), (Z.max_l 0 (- e)) by lia.
    assert (2 ^ Z.succ (Z.log2 d) * 2 ^ e * 2 ^ 51 = 2 ^ Z.log2 n) as E
      by (rewrite <- !Z.pow_add_r by lia; f_equal; lia).
    pose proof (Z.pow_pos_nonneg 2 e ltac:(lia) He). nia.
  - rewrite (Z.max_l 0 e), (Z.max_r 0 (- e)) by lia.
    assert (2 ^ Z.succ (Z.log2 d) * 2 ^ 51 = 2 ^ Z.log2 n * 2 ^ (- e)) as E
      by (rewrite <- !Z.pow_add_r by lia; f_equal; lia).
    pose proof (Z.pow_pos_nonneg 2 (- e) ltac:(lia) ltac:(lia)). nia.
Qed.

(** The chosen exponent makes the mantissa at least 2^52. *)
Lemma quotient_expo_normal n d :
  0 < n → 0 < d → let e := quotient_expo n d in
  d * 2 ^ Z.max 0 e * 2 ^ 52 <= n * 2 ^ Z.max 0 (- e).
Proof.
  intros Hn Hd. unfold quotient_expo. pose proof (log_quotient n d Hn Hd) as Hl. cbv zeta in *.
  set (e := Z.log2 n - Z.log2 d - 52) in *.
  destruct (Z.ltb_spec (n * 2 ^ Z.max 0 (- e)) (d * 2 ^ Z.max 0 e * 2 ^ 52)) as [_|]; [|done].
  destruct (Z.le_gt_cases 1 e) as [He|He].
  - rewrite (Z.max_r 0 (e - 1)), (Z.max_l 0 (- (e - 1))) by lia.
    rewrite (Z.max_r 0 e), (Z.max_l 0 (- e)) in Hl by lia.
    replace e with (e - 1 + 1) in Hl by lia. rewrite Z.pow_add_r in Hl by lia. lia.
  - rewrite (Z.max_l 0 (e - 1)), (Z.max_r 0 (- (e - 1))) by lia.
    rewrite (Z.max_l 0 e), (Z.max_r 0 (- e)) in Hl by lia.
    replace (- (e - 1)) with (- e + 1) by lia. rewrite Z.pow_add_r by lia. lia.
Qed.

(** Rounding to binary64 is off by at most one part in 2^53. *)
Lemma f64_of_ratio_error n d :
  0 < n → 0 < d → let v := f64_of_ratio n d in
  2 ^ 53 * Z.abs (mant v * (d * 2 ^ Z.max 0 (expo v)) - n * 2 ^ Z.max 0 (- expo v)) <=
  n * 2 ^ Z.max 0 (- expo v).
Proof.
  intros Hn Hd. unfold f64_of_ratio. rewrite (proj2 (Z.eqb_neq n 0)) by lia. cbn [mant expo].
  pose proof (quotient_expo_normal n d Hn Hd) as Hq. cbv zeta in *. set (e := quotient_expo n d) in *.
  assert (0 < d * 2 ^ Z.max 0 e) as HD by (apply Z.mul_pos_pos; [done|apply Z.pow_pos_nonneg; lia]).
  pose proof (round_div_error (n * 2 ^ Z.max 0 (- e)) (d * 2 ^ Z.max 0 e) HD). lia.
Qed.

(** Integers below 2^53 are represented exactly. *)
Lemma f64_of_u64_exact z :
  0 <= z < 2 ^ 53 → expo (f64_of_u64 z) <= 0 ∧ mant (f64_of_u64 z) = z * 2 ^ (- expo (f64_of_u64 z)).
Proof.
  intros Hz. unfold f64_of_u64, f64_of_ratio. destruct (Z.eqb_spec z 0) as [->|Hne]; [done|].
  cbn [mant expo].
  assert (quotient_expo z 1 <= 0) as He.
  { unfold quotient_expo. cbv zeta. change (Z.log2 1) with 0.
    assert (Z.log2 z < 53) by (apply Z.log2_lt_pow2; lia). destruct (_ <? _); lia. }
  split; [done|]. rewrite (Z.max_l 0 (quotient_expo z 1)), Z.max_r by lia.
  apply round_div_1.
Qed.

(** The two roundings, of the quotient and of the nanoseconds, put together. *)
Lemma nanoseconds_error n d m q r T sent pps :
  0 < n → 0 < d → 0 < q → 0 < sent → 0 < pps → n * pps = sent * d →
  2 ^ 53 * Z.abs (m * (d * r) - n * q) <= n * q →
  Z.abs (2 * (T * q - m * r * 10 ^ 9)) <= q →
  2 ^ 53 * Z.abs (T * pps - 10 ^ 9 * sent) <= 2 ^ 52 * pps + 10 ^ 9 * sent.
Proof.
  intros Hn Hd Hq Hs Hp Hnd Hv Ht.
  set (x := m * (d * r) - n * q) in *. set (y := T * q - m * r * 10 ^ 9) in *.
  assert (d * q * (T * pps - 10 ^ 9 * sent) = 10 ^ 9 * pps * x + y * (pps * d)) as E.
  { unfold x, y. replace (d * q * (T * pps - 10 ^ 9 * sent))
      with (d * q * T * pps - 10 ^ 9 * q * (sent * d)) by ring. rewrite <- Hnd. ring. }
  apply Z.mul_le_mono_pos_l with (p := d * q); [lia|].
  replace (d * q * (2 ^ 53 * Z.abs (T * pps - 10 ^ 9 * sent)))
    with (2 ^ 53 * Z.abs (d * q * (T * pps - 10 ^ 9 * sent)))
    by (rewrite Z.abs_mul, (Z.abs_eq (d * q)) by lia; ring).
  rewrite E.
  assert (Z.abs (10 ^ 9 * pps * x + y * (pps * d)) <= 10 ^ 9 * pps * Z.abs x + Z.abs y * (pps * d)) as Habs.
  { etransitivity; [apply Z.abs_triangle|]. rewrite !Z.abs_mul.
    rewrite (Z.abs_eq (10 ^ 9)), (Z.abs_eq pps), (Z.abs_eq d) by lia. lia. }
  assert (2 ^ 53 * (10 ^ 9 * pps * Z.abs x) <= 10 ^ 9 * sent * (d * q)) as H1.
  { replace (2 ^ 53 * (10 ^ 9 * pps * Z.abs x)) with (10 ^ 9 * pps * (2 ^ 53 * Z.abs x)) by ring.
    replace (10 ^ 9 * sent * (d * q)) with (10 ^ 9 * q * (sent * d)) by ring. rewrite <- Hnd. nia. }
  assert (2 ^ 53 * (Z.abs y * (pps * d)) <= 2 ^ 52 * pps * (d * q)) as H2.
  { assert (2 * Z.abs y <= q) by lia. assert (0 < pps * d) by lia. nia. }
  lia.
Qed.

(** Converting and dividing, [sent / pps] seconds become a number of nanoseconds
    that is off by at most half a nanosecond and one part in 2^53. *)
Lemma seconds_error sent pps :
  0 < sent < 2 ^ 53 → 0 < pps < 2 ^ 53 →
  2 ^ 53 * Z.abs (nanos_of_secs (f64_div (f64_of_u64 sent) (f64_of_u64 pps)) * pps - 10 ^ 9 * sent)
  <= 2 ^ 52 * pps + 10 ^ 9 * sent.
Proof.
  intros Hs Hp. destruct (f64_of_u64_exact sent) as [Hes Hms]; [lia|].
  destruct (f64_of_u64_exact pps) as [Hep Hmp]; [lia|]. unfold f64_div. rewrite Hms, Hmp.
  set (es := expo (f64_of_u64 sent)) in *. set (ep := expo (f64_of_u64 pps)) in *.
  set (n := sent * 2 ^ (- es) * 2 ^ Z.max 0 (es - ep)).
  set (d := pps * 2 ^ (- ep) * 2 ^ Z.max 0 (- (es - ep))).
  assert (0 < n ∧ 0 < d) as [Hn Hd]
    by (split; repeat (apply Z.mul_pos_pos; [|apply Z.pow_pos_nonneg; lia]); lia).
  assert (n * pps = sent * d) as Hnd.
  { assert (2 ^ (- es) * 2 ^ Z.max 0 (es - ep) = 2 ^ (- ep) * 2 ^ Z.max 0 (- (es - ep))) as E
      by (rewrite <- !Z.pow_add_r by lia; f_equal; lia).
    unfold n, d. rewrite <- !(Z.mul_assoc _ (2 ^ _) (2 ^ Z.max _ _)), E. ring. }
  clearbody n d. clear Hms Hmp. pose proof (f64_of_ratio_error n d Hn Hd) as Hv. cbv zeta in Hv.
  unfold nanos_of_secs. set (v := f64_of_ratio n d) in *.
  set (q := 2 ^ Z.max 0 (- expo v)) in *. set (r := 2 ^ Z.max 0 (expo v)) in *.
  assert (0 < q) as Hq by (apply Z.pow_pos_nonneg; lia).
  pose proof (round_div_error (mant v * r * 10 ^ 9) q Hq) as Ht.
  set (T := round_div _ q) in *. clearbody T q r.
  apply (nanoseconds_error n d (mant v) q r); (assumption || lia).
Qed.

(** Putting three such bounds together. *)
Lemma quarters m r q n d a a' b b' sent pps :
  0 < d → 0 < a' → 0 < b' → 0 < q → 0 <= b → 0 <= m * r → n * b * a' = d * a * b' →
  4 * a <= 5 * (sent * a') → 4 * (pps * b') <= 5 * b →
  4 * (m * (d * r)) <= 5 * (n * q) →
  64 * (m * r * pps) <= 125 * (sent * q).
Proof.
  intros Hd Ha' Hb' Hq Hb0 Hmr E Ha Hb Hv. set (x := m * r) in *.
  assert (4 * (x * d) <= 5 * (n * q)) as Hv' by (unfold x; lia). clearbody x. clear Hv m r.
  assert (0 < d * b' * a') as Hpos by (repeat apply Z.mul_pos_pos; done).
  apply Z.mul_le_mono_pos_l with (p := d * b' * a'); [done|].
  transitivity (80 * (x * d) * (a' * b)).
  { replace (d * b' * a' * (64 * (x * pps))) with (16 * (x * d * a') * (4 * (pps * b'))) by ring.
    replace (80 * (x * d) * (a' * b)) with (16 * (x * d * a') * (5 * b)) by ring.
    apply Z.mul_le_mono_nonneg_l; [|done]. repeat apply Z.mul_nonneg_nonneg; lia. }
  transitivity (100 * q * (n * b * a')).
  { replace (80 * (x * d) * (a' * b)) with (20 * (a' * b) * (4 * (x * d))) by ring.
    replace (100 * q * (n * b * a')) with (20 * (a' * b) * (5 * (n * q))) by ring.
    apply Z.mul_le_mono_nonneg_l; [|done]. repeat apply Z.mul_nonneg_nonneg; lia. }
  rewrite E. replace (100 * q * (d * a * b')) with (25 * (q * d * b') * (4 * a)) by ring.
  replace (d * b' * a' * (125 * (sent * q))) with (25 * (q * d * b') * (5 * (sent * a'))) by ring.
  apply Z.mul_le_mono_nonneg_l; [|done]. repeat apply Z.mul_nonneg_nonneg; lia.
Qed.

Lemma fits_from_bounds x q T sent pps :
  0 < q → 0 <= x → 0 < pps → 0 <= sent < 2 ^ 63 →
  64 * (x * pps) <= 125 * (sent * q) → Z.abs (2 * (T * q - x * 10 ^ 9)) <= q →
  T < 2 ^ 64 * 10 ^ 9.
Proof.
  intros Hq Hx Hp Hs Hb Ht.
  assert (x <= x * pps) by nia. assert (64 * x <= 125 * (sent * q)) as Hx' by lia.
  assert (128 * (T * q) <= (250 * 10 ^ 9 * sent + 64) * q) as HT by lia.
  assert (128 * T <= 250 * 10 ^ 9 * sent + 64) by nia. lia.
Qed.

(** Without assuming the numbers to be representable, each rounding still changes a
    value by less than a quarter, *)
Lemma f64_of_ratio_quarter n d :
  0 <= n → 0 < d → let v := f64_of_ratio n d in
  4 * (mant v * (d * 2 ^ Z.max 0 (expo v))) <= 5 * (n * 2 ^ Z.max 0 (- expo v)) ∧
  4 * (n * 2 ^ Z.max 0 (- expo v)) <= 5 * (mant v * (d * 2 ^ Z.max 0 (expo v))).
Proof.
  intros Hn Hd. destruct (Z.eq_dec n 0) as [->|Hne]; [cbn; lia|].
  pose proof (f64_of_ratio_error n d ltac:(lia) Hd) as He. cbv zeta in *. lia.
Qed.

Lemma pow_max_pos x : 0 < 2 ^ Z.max 0 x.
Proof. apply Z.pow_pos_nonneg; lia. Qed.

Lemma f64_of_ratio_nonneg n d : 0 <= n → 0 < d → 0 <= mant (f64_of_ratio n d).
Proof.
  intros Hn Hd. unfold f64_of_ratio. destruct (n =? 0); [done|]. cbn [mant].
  apply round_div_nonneg; [apply Z.mul_nonneg_nonneg|apply Z.mul_pos_pos]; try done; [|apply pow_max_pos].
  apply Z.lt_le_incl, pow_max_pos.
Qed.

Lemma f64_of_ratio_pos n d : 0 < n → 0 < d → 0 < mant (f64_of_ratio n d).
Proof.
  intros Hn Hd. destruct (f64_of_ratio_quarter n d ltac:(lia) Hd) as [_ Hq]. cbv zeta in Hq.
  pose proof (f64_of_ratio_nonneg n d ltac:(lia) Hd) as H0. destruct (Z.eq_dec (mant (f64_of_ratio n d)) 0) as [E|]; [|lia].
  rewrite E in Hq. pose proof (Z.mul_pos_pos _ _ Hn (pow_max_pos (- expo (f64_of_ratio n d)))). lia.
Qed.

(** so that the quotient of two conversions is less than twice the quotient. *)
Lemma f64_div_bound sent pps :
  0 <= sent → 0 < pps → let v := f64_div (f64_of_u64 sent) (f64_of_u64 pps) in
  0 <= mant v ∧ 64 * (mant v * 2 ^ Z.max 0 (expo v) * pps) <= 125 * (sent * 2 ^ Z.max 0 (- expo v)).
Proof.
  intros Hs Hp. unfold f64_div.
  destruct (f64_of_ratio_quarter sent 1 Hs ltac:(lia)) as [Ha _].
  destruct (f64_of_ratio_quarter pps 1 ltac:(lia) ltac:(lia)) as [_ Hb].
  pose proof (f64_of_ratio_nonneg sent 1 Hs ltac:(lia)) as Hma.
  pose proof (f64_of_ratio_pos pps 1 Hp ltac:(lia)) as Hmb.
  fold (f64_of_u64 sent) in Ha, Hma. fold (f64_of_u64 pps) in Hb, Hmb. cbv zeta in Ha, Hb. rewrite Z.mul_1_l in Ha, Hb.
  set (a := f64_of_u64 sent) in *. set (b := f64_of_u64 pps) in *. clearbody a b.
  set (n := mant a * 2 ^ Z.max 0 (expo a - expo b)). set (d := mant b * 2 ^ Z.max 0 (- (expo a - expo b))).
  assert (n * (mant b * 2 ^ Z.max 0 (expo b)) * 2 ^ Z.max 0 (- expo a) =
          d * (mant a * 2 ^ Z.max 0 (expo a)) * 2 ^ Z.max 0 (- expo b)) as Hnd.
  { assert (2 ^ Z.max 0 (expo a - expo b) * 2 ^ Z.max 0 (expo b) * 2 ^ Z.max 0 (- expo a) =
            2 ^ Z.max 0 (- (expo a - expo b)) * 2 ^ Z.max 0 (expo a) * 2 ^ Z.max 0 (- expo b)) as E
      by (rewrite <- !Z.pow_add_r by lia; f_equal; lia).
    unfold n, d. transitivity (mant a * mant b * (2 ^ Z.max 0 (expo a - expo b) * 2 ^ Z.max 0 (expo b) *
      2 ^ Z.max 0 (- expo a))); [ring|]. rewrite E. ring. }
  assert (0 < d) as Hd by (apply Z.mul_pos_pos; [done|apply pow_max_pos]).
  assert (0 <= n) as Hn by (apply Z.mul_nonneg_nonneg; [done|apply Z.lt_le_incl, pow_max_pos]).
  destruct (f64_of_ratio_quarter n d Hn Hd) as [Hv _]. cbv zeta in *.
  pose proof (f64_of_ratio_nonneg n d Hn Hd) as Hmv. split; [done|].
  set (v := f64_of_ratio n d) in *. clearbody n d v.
  apply (quarters (mant v) (2 ^ Z.max 0 (expo v)) (2 ^ Z.max 0 (- expo v)) n d
           (mant a * 2 ^ Z.max 0 (expo a)) (2 ^ Z.max 0 (- expo a))
           (mant b * 2 ^ Z.max 0 (expo b)) (2 ^ Z.max 0 (- expo b)) sent pps);
    first [assumption | apply pow_max_pos | apply Z.mul_nonneg_nonneg; [lia|apply Z.lt_le_incl, pow_max_pos]].
Qed.

(** Hence a schedule of fewer than 2^63 packets fits a [Duration] at every rate. *)
Lemma schedule_fits sent pps :
  0 <= sent < 2 ^ 63 → 0 < pps →
  nanos_of_secs (f64_div (f64_of_u64 sent) (f64_of_u64 pps)) < DURATION_LIMIT.
Proof.
  intros Hs Hp. destruct (f64_div_bound sent pps ltac:(lia) Hp) as [H0 Hb]. cbv zeta in *.
  unfold nanos_of_secs, DURATION_LIMIT. set (v := f64_div _ _) in *.
  pose proof (pow_max_pos (- expo v)) as Hq.
  pose proof (round_div_error (mant v * 2 ^ Z.max 0 (expo v) * 10 ^ 9) _ Hq) as Ht.
  refine (fits_from_bounds (mant v * 2 ^ Z.max 0 (expo v)) _ _ sent pps Hq _ Hp Hs Hb Ht).
  apply Z.mul_nonneg_nonneg; [done|]. apply Z.lt_le_incl, pow_max_pos.
Qed.

Example from_secs_examples :
  duration_from_secs_f64 (f64_div (f64_of_u64 64) (f64_of_u64 250000)) = Done 256000 ∧
  duration_from_secs_f64 (f64_div (f64_of_u64 64) (f64_of_u64 3)) = Done 21333333333 ∧
  duration_from_secs_f64 (f64_div (f64_of_u64 128) (f64_of_u64 1)) = Done 128000000000 ∧
  duration_from_secs_f64 (f64_div (f64_of_u64 (2 ^ 64 - 1)) (f64_of_u64 1)) = Panic.
Proof. vm_compute. auto. Qed.

(** ** Exact values and nearest ones *)

(** [x] is the integer [z], which needs no positive exponent. *)
Definition f64_is (x : f64) (z : Z) : Prop := expo x <= 0 ∧ mant x = z * 2 ^ (- expo x).

(** [x] is [n / d] up to one part in 2^53; it is zero if [n] is. *)
Definition f64_near (x : f64) (n d : Z) : Prop :=
  2 ^ 53 * Z.abs (mant x * (d * 2 ^ Z.max 0 (expo x)) - n * 2 ^ Z.max 0 (- expo x)) <=
  n * 2 ^ Z.max 0 (- expo x).

Lemma f64_near_ratio n d : 0 <= n → 0 < d → f64_near (f64_of_ratio n d) n d.
Proof.
  intros Hn Hd. destruct (Z.eq_dec n 0) as [->|]; [done|]. apply (f64_of_ratio_error n d); lia.
Qed.

(** Scaling a fraction does not change what is near it. *)
Lemma f64_near_scale x n d c : 0 < c → f64_near x (n * c) (d * c) → f64_near x n d.
Proof.
  intros Hc. unfold f64_near. set (r := 2 ^ Z.max 0 (expo x)). set (q := 2 ^ Z.max 0 (- expo x)).
  replace (mant x * (d * c * r) - n * c * q) with (c * (mant x * (d * r) - n * q)) by ring.
  rewrite Z.abs_mul, (Z.abs_eq c) by lia. intros H.
  apply Z.mul_le_mono_pos_l with (p := c); [done|]. lia.
Qed.

Lemma round_div_exact n d : 0 < d → round_div (n * d) d = n.
Proof. intros Hd. unfold round_div. rewrite Z.mod_mul, Z.div_mul by lia. by destruct d. Qed.

Lemma f64_of_ratio_is z k : 0 <= z < 2 ^ 53 → 0 <= k → f64_is (f64_of_ratio (z * 2 ^ k) (2 ^ k)) z.
Proof.
  intros Hz Hk. unfold f64_of_ratio, f64_is. pose proof (Z.pow_pos_nonneg 2 k ltac:(lia) Hk) as Hp.
  destruct (Z.eqb_spec (z * 2 ^ k) 0) as [E|Hne]; [cbn; lia|]. cbn [expo mant].
  assert (0 < z) as Hz0 by nia.
  assert (quotient_expo (z * 2 ^ k) (2 ^ k) <= 0) as He.
  { unfold quotient_expo. rewrite Z.log2_mul_pow2, Z.log2_pow2 by lia.
    assert (Z.log2 z < 53) by (apply Z.log2_lt_pow2; lia). destruct (_ <? _); lia. }
  split; [done|]. set (e := quotient_expo _ _) in *. rewrite (Z.max_l 0 e), Z.max_r, Z.mul_1_r by lia.
  replace (z * 2 ^ k * 2 ^ (- e)) with (z * 2 ^ (- e) * 2 ^ k) by ring. by apply round_div_exact.
Qed.

Lemma f64_of_u64_is z : 0 <= z < 2 ^ 53 → f64_is (f64_of_u64 z) z.
Proof. apply f64_of_u64_exact. Qed.

Lemma f64_mul_is a b x y : f64_is a x → f64_is b y → 0 <= x * y < 2 ^ 53 → f64_is (f64_mul a b) (x * y).
Proof.
  intros [Ha Ea] [Hb Eb] Hxy. unfold f64_mul. rewrite Ea, Eb.
  rewrite (Z.max_l 0 (expo a + expo b)), (Z.max_r 0 (- (expo a + expo b))) by lia.
  replace (x * 2 ^ (- expo a) * (y * 2 ^ (- expo b)) * 2 ^ 0) with (x * y * 2 ^ (- (expo a + expo b))).
  - apply f64_of_ratio_is; lia.
  - replace (- (expo a + expo b)) with (- expo a + - expo b) by lia. rewrite Z.pow_add_r by lia. ring.
Qed.

Lemma f64_div_near a b x y : f64_is a x → f64_is b y → 0 <= x → 0 < y → f64_near (f64_div a b) x y.
Proof.
  intros [Ha Ea] [Hb Eb] Hx Hy. unfold f64_div. rewrite Ea, Eb.
  pose proof (pow_max_pos (Z.max (- expo a) (- expo b))) as Hc.
  assert (∀ u v, 0 <= u → 2 ^ u * 2 ^ Z.max 0 v = 2 ^ (u + Z.max 0 v)) as Hpow by (intros; rewrite Z.pow_add_r; lia).
  rewrite <- !Z.mul_assoc, !Hpow by lia.
  replace (- expo a + Z.max 0 (expo a - expo b)) with (Z.max 0 (Z.max (- expo a) (- expo b))) by lia.
  replace (- expo b + Z.max 0 (- (expo a - expo b))) with (Z.max 0 (Z.max (- expo a) (- expo b))) by lia.
  eapply f64_near_scale; [exact Hc|]. apply f64_near_ratio; [|lia]. apply Z.mul_nonneg_nonneg; lia.
Qed.

(** A percentage of integers that are exact. *)
Lemma percentage_near part whole :
  0 <= part → 100 * part < 2 ^ 53 → 0 < whole < 2 ^ 53 →
  f64_near (f64_div (f64_mul (f64_of_u64 part) (f64_of_u64 100)) (f64_of_u64 whole)) (100 * part) whole.
Proof.
  intros Hp Hb Hw. apply f64_div_near; [|by apply f64_of_u64_is; lia|lia|lia].
  rewrite Z.mul_comm. apply f64_mul_is; [apply f64_of_u64_is; lia|by apply f64_of_u64_is|lia].
Qed.
