(* ===== verification/Client.v ===== *)
(** * The ping client ([src/bin/client.rs])

    Starting up, the ping loop, and the summary. The outcomes of binding the
    socket, of building the endpoint and of connecting are inputs, and so are the
    results of the successive pings; the loop stops where it waits for a ping
    whose result is not there yet. *)

From S2P Require Import Prelude Interfaces Auth Datagram CidGenerator Socket Float64 Ping Endpoint.

(** The arguments. *)
Record Args := mkArgs {
  arg_server : SocketAddr; arg_cert : list byte; arg_client_server_name : list byte;
  arg_count : Z; arg_interval_ms : Z; arg_size : nat; arg_local_ip : Ipv4Addr }.

Inductive ClientError :=
| SizeExceedsMaximum (size : nat)
| ServerNotIpv4 (ip : IpAddr)
| CertUnreadable (e : ErrorKind)
| ClientIo (e : ErrorKind)
| ClientLib (e : Error)
| ClientConnect (code : Z)
| ClientConnection (e : ConnectionError).

Section start.
Context `{TlsLib}.

(** [main] up to the connection, on the process-wide TLS state. The file system, the
    operating system's [bind] and Quinn's [connect] answer for what they are given:
    a path, an address, an address and a name. *)
Definition client_start (args : Args) (fs_read : list byte → result Certificate ErrorKind)
    (os_bind : SocketAddr → result unit ErrorKind) (nonblocking registered created : result unit ErrorKind)
    (connect : SocketAddr → list byte → result (result unit ConnectionError) Z) (cs : Crypto)
    : exec (result Endpoint ClientError * Crypto) :=
  if (MAX_PING_BYTES <? Z.of_nat (arg_size args))%Z then
    mret (Err (SizeExceedsMaximum (arg_size args)), cs)
  else
    match sock_ip (arg_server args) with
    | V6 bits => mret (Err (ServerNotIpv4 (V6 bits)), cs)
    | V4 server_ip =>
        let peers := mkPeers (arg_local_ip args) server_ip in
        match fs_read (arg_cert args) with
        | Err e => mret (Err (CertUnreadable e), cs)
        | Ok cert =>
            let authenticator := Authenticator_new ServerToClient (arg_local_ip args) in
            match bind (os_bind (mkSocketAddr (V4 (arg_local_ip args)) 0)) nonblocking registered
                    (Some authenticator) with
            | Err e => mret (Err (ClientIo e), cs)
            | Ok socket =>
                '(cfg, cs) ← client_config [cert] cs;
                match cfg with
                | Err e => mret (Err (ClientLib e), cs)
                | Ok cfg =>
                    match client_endpoint socket cfg peers created with
                    | Err e => mret (Err (ClientLib e), cs)
                    | Ok endpoint =>
                        match connect (arg_server args) (arg_client_server_name args) with
                        | Err e => mret (Err (ClientConnect e), cs)
                        | Ok (Err e) => mret (Err (ClientConnection e), cs)
                        | Ok (Ok _) => mret (Ok endpoint, cs)
                        end
                    end
                end
            end
        end
    end.
End start.

(** ** The ping loop *)

Record PingStats := mkPingStats { rtts : list Z; lost : Z; seq : Z }.

(** What a pass does: it may pause, it pings, and it prints a line on the answer. *)
Inductive client_event :=
| Slept (interval : Z)
| Pinged (payload : list byte)
| PrintedEcho (seq : Z) (bytes : nat) (rtt : Z)
| PrintedFailure (seq : Z) (e : Error).

#[export] Instance client_event_eq_dec : EqDecision client_event.
Proof. solve_decision. Defined.

(** One answered ping. *)
Definition record_answer (a : result Z Error) (st : PingStats) : PingStats :=
  match a with
  | Ok rtt => mkPingStats (rtts st ++ [rtt]) (lost st) (u64_wrapping_add (seq st) 1)
  | Err _ => mkPingStats (rtts st) (u64_wrapping_add (lost st) 1) (u64_wrapping_add (seq st) 1)
  end.

Definition print_answer (seq : Z) (payload : list byte) (a : result Z Error) : client_event :=
  match a with
  | Ok rtt => PrintedEcho seq (length payload) rtt
  | Err e => PrintedFailure seq e
  end.

(** The [while] loop, with the trace of what it did. *)
Fixpoint ping_loop (count interval : Z) (size : nat) (answers : list (result Z Error))
    (st : PingStats) (trace : list client_event) {struct answers}
    : exec (poll unit * PingStats * list client_event) :=
  if (count =? 0)%Z || (seq st <? count)%Z then
    let trace :=
      if (0 <? seq st)%Z && negb (interval =? 0)%Z then trace ++ [Slept interval] else trace in
    payload ← ping_payload (seq st) size;
    let trace := trace ++ [Pinged payload] in
    match answers with
    | [] => mret (Pending, st, trace)
    | a :: answers' =>
        ping_loop count interval size answers' (record_answer a st) (trace ++ [print_answer (seq st) payload a])
    end
  else mret (Ready tt, st, trace).

(** [Duration::from_millis]. *)
Definition from_millis (ms : Z) : Z := ms * 10 ^ 6.

(** The loop as [main] starts it. *)
Definition run_pings (args : Args) (answers : list (result Z Error))
    : exec (poll unit * PingStats * list client_event) :=
  ping_loop (arg_count args) (from_millis (arg_interval_ms args)) (arg_size args) answers
    (mkPingStats [] 0 0) [].

(** ** The summary *)

(** [iter().sum::<Duration>()], which panics on overflow. *)
Definition duration_sum (l : list Z) : exec Z :=
  foldl (fun acc d => s ← acc; if (s + d <? DURATION_LIMIT)%Z then mret (s + d)%Z else Panic)
    (mret 0%Z) l.

(** [Duration / u32], which panics on a zero divisor. *)
Definition duration_div (d n : Z) : exec Z := if (n =? 0)%Z then Panic else mret (d / n)%Z.

(** [iter().min()] and [iter().max()]. *)
Definition list_min (l : list Z) : option Z :=
  match l with [] => None | x :: l => Some (foldl Z.min x l) end.
Definition list_max (l : list Z) : option Z :=
  match l with [] => None | x :: l => Some (foldl Z.max x l) end.

Record Summary := mkSummary {
  sm_sent : Z; sm_echoed : Z; sm_loss_pct : f64; sm_counts : PacketCounts;
  sm_rtt : option (Z * Z * Z) }.

Definition print_summary (sent : Z) (rtts : list Z) (lost : Z) (counts : PacketCounts)
    : exec Summary :=
  let loss_pct :=
    if (sent =? 0)%Z then mkF64 0 0
    else f64_div (f64_mul (f64_of_u64 lost) (f64_of_u64 100)) (f64_of_u64 sent) in
  let summary := mkSummary sent (Z.of_nat (length rtts)) loss_pct counts in
  match rtts with
  | [] => mret (summary None)
  | _ =>
      min ← expect (list_min rtts);
      max ← expect (list_max rtts);
      total ← duration_sum rtts;
      avg ← duration_div total (wrap 32 (Z.of_nat (length rtts)));
      mret (summary (Some (min, avg, max)))
  end.

(** ** Specification of the loop *)

(** The payload of the ping with sequence number [k]. *)
Definition payload_of (size k : nat) : list byte :=
  take size (to_be_bytes 8 (Z.of_nat k)) ++
  map (fun i => Z_u8 (Z.of_nat i mod 251)) (List.seq 0 (size - 8)).

(** What the loop does for the ping with sequence number [k], which is answered by
    [a]. *)
Definition pass_events (interval : Z) (size k : nat) (a : result Z Error) : list client_event :=
  (if (0 <? k)%nat && negb (interval =? 0)%Z then [Slept interval] else []) ++
  [Pinged (payload_of size k);
   match a with Ok rtt => PrintedEcho (Z.of_nat k) size rtt | Err e => PrintedFailure (Z.of_nat k) e end].

(** What it does for the pings from number [k] on. *)
Definition run_events (interval : Z) (size k : nat) (answers : list (result Z Error)) : list client_event :=
  concat (imap (fun i a => pass_events interval size (k + i) a) answers).

Definition echoed (answers : list (result Z Error)) : list Z :=
  omap (fun a => match a with Ok rtt => Some rtt | Err _ => None end) answers.

Definition failures (answers : list (result Z Error)) : nat := length (List.filter is_err answers).

(** The statistics after [answers]. *)
Definition stats_of (answers : list (result Z Error)) : PingStats :=
  mkPingStats (echoed answers) (Z.of_nat (failures answers)) (Z.of_nat (length answers)).

(** ** Lemmas *)

Lemma echoed_or_failed answers : length (echoed answers) + failures answers = length answers.
Proof.
  unfold echoed, failures. induction answers as [|[rtt|e] answers IH]; cbn in *; [done|lia..].
Qed.

Lemma stats_of_snoc answers a :
  (Z.of_nat (length answers) + 1 < 2 ^ 64)%Z →
  record_answer a (stats_of answers) = stats_of (answers ++ [a]).
Proof.
  intros Hl. pose proof (echoed_or_failed answers) as Hs. unfold stats_of, record_answer.
  assert (echoed (answers ++ [a]) = echoed answers ++ echoed [a]) as -> by apply omap_app.
  assert (failures (answers ++ [a]) = failures answers + failures [a]) as ->
    by (unfold failures; by rewrite List.filter_app, length_app).
  rewrite length_app. unfold u64_wrapping_add. cbn [rtts lost seq].
  rewrite !wrap_small by (unfold is_u64; lia).
  destruct a; cbn; rewrite ?app_nil_r, ?Nat.add_0_r; f_equal; lia.
Qed.

Lemma length_payload_of size k : length (payload_of size k) = size.
Proof.
  unfold payload_of. rewrite length_app, length_take, length_to_be_bytes, length_map, length_seq. lia.
Qed.

Lemma run_events_cons interval size k a answers :
  run_events interval size k (a :: answers) =
  pass_events interval size k a ++ run_events interval size (S k) answers.
Proof.
  unfold run_events. rewrite imap_cons. cbn [concat]. rewrite Nat.add_0_r. f_equal. f_equal.
  apply imap_ext. intros i x _. cbn. by rewrite Nat.add_succ_r.
Qed.

(** One pass of the loop whose ping is answered. *)
Lemma ping_loop_pass count interval size before a answers trace :
  (count = 0 ∨ Z.of_nat (length before) < count)%Z → (Z.of_nat (length before) + 1 < 2 ^ 64)%Z →
  ping_loop count interval size (a :: answers) (stats_of before) trace =
  ping_loop count interval size answers (stats_of (before ++ [a]))
    (trace ++ pass_events interval size (length before) a).
Proof.
  intros Hc Hl. cbn [ping_loop]. rewrite ping_payload_eq. run.
  rewrite stats_of_snoc by done. cbn [stats_of seq].
  replace ((count =? 0) || (Z.of_nat (length before) <? count))%Z with true
    by (destruct (Z.eqb_spec count 0), (Z.ltb_spec (Z.of_nat (length before)) count); cbn; lia || done).
  fold (payload_of size (length before)). unfold print_answer. rewrite length_payload_of. unfold pass_events.
  replace (0 <? Z.of_nat (length before))%Z with (0 <? length before)
    by (destruct (Nat.ltb_spec 0 (length before)), (Z.ltb_spec 0 (Z.of_nat (length before))); lia || done).
  destruct (_ && _); by rewrite <- ?app_assoc.
Qed.

Lemma ping_loop_app count interval size answers : ∀ before rest trace,
  (count = 0 ∨ Z.of_nat (length before + length answers) <= count)%Z →
  (Z.of_nat (length before + length answers) < 2 ^ 64)%Z →
  ping_loop count interval size (answers ++ rest) (stats_of before) trace =
  ping_loop count interval size rest (stats_of (before ++ answers))
    (trace ++ run_events interval size (length before) answers).
Proof.
  induction answers as [|a answers IH]; intros before rest trace Hc Hl.
  - cbn. by rewrite !app_nil_r.
  - cbn [length] in *. cbn [app]. rewrite ping_loop_pass by lia.
    rewrite IH by (rewrite length_app; cbn [length]; lia).
    rewrite run_events_cons, length_app, <- !app_assoc. cbn [length app]. by rewrite Nat.add_1_r.
Qed.

(** The loop from its start, up to the answers it is given. *)
Lemma run_pings_app args answers rest :
  (arg_count args = 0 ∨ Z.of_nat (length answers) <= arg_count args)%Z →
  (Z.of_nat (length answers) < 2 ^ 64)%Z →
  run_pings args (answers ++ rest) =
  ping_loop (arg_count args) (from_millis (arg_interval_ms args)) (arg_size args) rest (stats_of answers)
    (run_events (from_millis (arg_interval_ms args)) (arg_size args) 0 answers).
Proof.
  intros Hc Hl. unfold run_pings. change (mkPingStats [] 0 0) with (stats_of []).
  by rewrite ping_loop_app.
Qed.

Lemma duration_sum_acc l : ∀ acc,
  (0 <= acc < DURATION_LIMIT)%Z → Forall (Z.le 0) l →
  foldl (fun acc d => s ← acc; if (s + d <? DURATION_LIMIT)%Z then mret (s + d)%Z else Panic) (Done acc) l =
  if (acc + foldr Z.add 0 l <? DURATION_LIMIT)%Z then Done (acc + foldr Z.add 0 l)%Z else Panic.
Proof.
  assert (∀ l, foldl (fun acc d => s ← acc; if (s + d <? DURATION_LIMIT)%Z then mret (s + d)%Z else Panic)
                 Panic l = Panic (A := Z)) as Hp by (intros l'; induction l'; done).
  assert (∀ l, Forall (Z.le 0) l → (0 <= foldr Z.add 0 l)%Z) as Hn
    by (induction 1; cbn; lia).
  induction l as [|d l IH]; intros acc Ha Hl; cbn [foldl foldr].
  - rewrite Z.add_0_r. by destruct (Z.ltb_spec acc DURATION_LIMIT); [|lia].
  - apply Forall_cons in Hl as [Hd Hl]. run. pose proof (Hn l Hl).
    destruct (Z.ltb_spec (acc + d) DURATION_LIMIT).
    + cbn [mret exec_ret]. rewrite IH by (done || lia). by rewrite Z.add_assoc.
    + rewrite Hp. by destruct (Z.ltb_spec (acc + (d + foldr Z.add 0 l)) DURATION_LIMIT)%Z; [lia|].
Qed.

Lemma duration_sum_eq l :
  Forall (Z.le 0) l →
  duration_sum l =
  if (foldr Z.add 0 l <? DURATION_LIMIT)%Z then Done (foldr Z.add 0%Z l) else Panic.
Proof. intros Hl. exact (duration_sum_acc l 0 ltac:(unfold DURATION_LIMIT; lia) Hl). Qed.

Lemma foldl_min_spec l : ∀ x, foldl Z.min x l ∈ x :: l ∧ Forall (Z.le (foldl Z.min x l)) (x :: l).
Proof.
  induction l as [|y l IH]; intros x; cbn [foldl].
  - split; [by left|by repeat constructor].
  - destruct (IH (Z.min x y)) as [Hin Hle]. apply Forall_cons in Hle as [Hm Hle]. split.
    + apply elem_of_cons in Hin as [->|Hin]; [|by do 2 right].
      destruct (Z.min_spec x y) as [[_ ->]|[_ ->]]; [by left|by right; left].
    + repeat constructor; [lia..|done].
Qed.

Lemma foldl_max_spec l : ∀ x,
  foldl Z.max x l ∈ x :: l ∧ Forall (fun y => (y <= foldl Z.max x l)%Z) (x :: l).
Proof.
  induction l as [|y l IH]; intros x; cbn [foldl].
  - split; [by left|by repeat constructor].
  - destruct (IH (Z.max x y)) as [Hin Hle]. apply Forall_cons in Hle as [Hm Hle]. split.
    + apply elem_of_cons in Hin as [->|Hin]; [|by do 2 right].
      destruct (Z.max_spec x y) as [[_ ->]|[_ ->]]; [by right; left|by left].
    + repeat constructor; [lia..|done].
Qed.

(** The mean of a list lies between a lower and an upper bound of it. *)
Lemma mean_between (l : list Z) lo hi :
  l ≠ [] → Forall (Z.le lo) l → Forall (fun y => y <= hi)%Z l →
  (lo <= foldr Z.add 0 l / Z.of_nat (length l) <= hi)%Z.
Proof.
  intros Hne Hlo Hhi.
  assert (lo * Z.of_nat (length l) <= foldr Z.add 0 l <= hi * Z.of_nat (length l))%Z.
  { clear Hne. induction Hlo; apply Forall_cons in Hhi || idtac; cbn [foldr length]; [lia|].
    destruct Hhi as [? ?%IHHlo]. lia. }
  assert (0 < Z.of_nat (length l))%Z by (destruct l; [done|cbn; lia]).
  split; [apply Z.div_le_lower_bound|apply Z.div_le_upper_bound]; lia.
Qed.

(** Every way [main] can go up to there. *)
Lemma client_start_spec `{TlsLib} args fs_read os_bind nonblocking registered created connect cs :
  crypto_wf cs →
  match client_start args fs_read os_bind nonblocking registered created connect cs with
  | Panic => False
  | Done (Ok ep, _) =>
      (Z.of_nat (arg_size args) <= MAX_PING_BYTES)%Z ∧
      os_bind (mkSocketAddr (V4 (arg_local_ip args)) 0) = Ok tt ∧
      ep_socket ep = mkInner (Some (Authenticator_new ServerToClient (arg_local_ip args))) Counters_default ∧
      ep_cid_generator ep = AuthCidGenerator_new ServerToClient (arg_local_ip args) ∧
      ep_server ep = None ∧
      ∃ cfg server_ip, ep_client ep = Some (cfg, mkPeers (arg_local_ip args) server_ip) ∧
        sock_ip (arg_server args) = V4 server_ip
  | Done (Err e, _) =>
      ((MAX_PING_BYTES < Z.of_nat (arg_size args))%Z → e = SizeExceedsMaximum (arg_size args)) ∧
      (∀ bits, (Z.of_nat (arg_size args) <= MAX_PING_BYTES)%Z → sock_ip (arg_server args) = V6 bits →
         e = ServerNotIpv4 (V6 bits))
  end.
Proof.
  intros Hwf. unfold client_start, bind, client_endpoint.
  destruct (Z.ltb_spec MAX_PING_BYTES (Z.of_nat (arg_size args))); [split; [done|lia]|].
  destruct (sock_ip (arg_server args)) as [server_ip|bits'] eqn:Hip;
    [|cbn; split; [lia|by intros bits _ [= ->]]].
  destruct (fs_read _) as [cert|e]; [|cbn; split; [lia|done]].
  destruct (os_bind _) as [[]|e] eqn:Hb; [|cbn; split; [lia|done]].
  destruct nonblocking as [?|e]; [|cbn; split; [lia|done]].
  destruct registered as [?|e]; [|cbn; split; [lia|done]].
  destruct (client_config_spec [cert] cs Hwf) as (r & -> & _). run.
  destruct r as [cfg|e]; [|cbn; split; [lia|done]].
  destruct created as [?|e]; [|cbn; split; [lia|done]].
  destruct (connect _ _) as [[?|e]|e]; [|cbn; split; [lia|done]..].
  cbn. split_and!; try done. by eexists _, _.
Qed.

(** ** Theorems *)

(** A client that starts sends from one concrete setting: the payload fits the
    protocol, the server is an IPv4 address, the socket was bound to exactly
    [--local-ip], and its filter, its generator and the pair of addresses it opens
    connections with all name that address, the filter and the generator in the
    server-to-client direction. An oversized payload or an IPv6 server is refused
    before the certificate is read or the socket bound. *)
Theorem client_start_binds_one_address `{TlsLib} args fs_read os_bind nonblocking registered created connect cs :
  crypto_wf cs →
  match client_start args fs_read os_bind nonblocking registered created connect cs with
  | Panic => False
  | Done (Ok ep, _) =>
      (Z.of_nat (arg_size args) <= MAX_PING_BYTES)%Z ∧
      os_bind (mkSocketAddr (V4 (arg_local_ip args)) 0) = Ok tt ∧
      ep_socket ep = mkInner (Some (Authenticator_new ServerToClient (arg_local_ip args))) Counters_default ∧
      ep_cid_generator ep = AuthCidGenerator_new ServerToClient (arg_local_ip args) ∧
      ep_server ep = None ∧
      ∃ cfg server_ip, ep_client ep = Some (cfg, mkPeers (arg_local_ip args) server_ip) ∧
        sock_ip (arg_server args) = V4 server_ip
  | Done (Err e, _) =>
      ((MAX_PING_BYTES < Z.of_nat (arg_size args))%Z → e = SizeExceedsMaximum (arg_size args)) ∧
      (∀ bits, (Z.of_nat (arg_size args) <= MAX_PING_BYTES)%Z → sock_ip (arg_server args) = V6 bits →
         e = ServerNotIpv4 (V6 bits))
  end.
Proof. apply client_start_spec. Qed.

(** A run with a count sends exactly that many pings and then ends: the pings
    carry the sequence numbers from zero up, in order, with one pause before each
    but the first when the interval is not zero and one line printed after each
    answer; the round trips kept are those of the answered pings in order, and answered and failed pings add up to the
    count, so that no failure ends the run early or goes uncounted. *)
Theorem client_run_terminates args answers rest :
  (0 < arg_count args < 2 ^ 64)%Z → Z.of_nat (length answers) = arg_count args →
  ∃ st trace,
    run_pings args (answers ++ rest) = Done (Ready tt, st, trace) ∧
    seq st = arg_count args ∧ rtts st = echoed answers ∧
    (Z.of_nat (length (rtts st)) + lost st = arg_count args)%Z ∧
    trace = run_events (from_millis (arg_interval_ms args)) (arg_size args) 0 answers.
Proof.
  intros Hc Hl. rewrite run_pings_app by lia. pose proof (echoed_or_failed answers).
  eexists (stats_of answers), _. split; [|cbn [stats_of seq rtts lost]; split_and!; [done..|lia|done]].
  destruct rest; cbn [ping_loop]; rewrite (proj2 (Z.eqb_neq _ _)) by lia;
    cbn [stats_of seq]; rewrite (proj2 (Z.ltb_ge _ _)) by lia; done.
Qed.

(** A run with count zero never ends by itself: after any number of answers,
    failures included, the next ping is already under way. *)
Theorem client_run_keeps_pinging args answers :
  arg_count args = 0%Z → (Z.of_nat (length answers) < 2 ^ 64)%Z →
  ∃ trace,
    run_pings args answers = Done (Pending, stats_of answers, trace ++ [Pinged (payload_of (arg_size args) (length answers))]).
Proof.
  intros Hc Hl. pose proof (run_pings_app args answers [] (or_introl Hc) Hl) as E.
  rewrite app_nil_r in E. rewrite E.
  cbn [ping_loop stats_of seq]. rewrite Hc, ping_payload_eq. cbn [Z.eqb orb]. run. by eexists.
Qed.

(** C34: the summary of a run with answers panics only where the durations overflow
    or the number of answers is a multiple of 2^32, the case in which its
    conversion to a 32-bit divisor gives zero; for fewer than 2^32 answers it
    reports a minimum and a maximum of the round trips and, between them, their
    exact mean rounded down to a nanosecond. *)
Theorem print_summary_rtts sent rtts lost counts :
  rtts ≠ [] → Forall (Z.le 0) rtts →
  (print_summary sent rtts lost counts = Panic ↔
   (DURATION_LIMIT <= foldr Z.add 0 rtts)%Z ∨ (Z.of_nat (length rtts) mod 2 ^ 32 = 0)%Z) ∧
  ((foldr Z.add 0 rtts < DURATION_LIMIT)%Z → (Z.of_nat (length rtts) < 2 ^ 32)%Z →
   ∃ sm min max, print_summary sent rtts lost counts = Done sm ∧
     sm_sent sm = sent ∧ sm_echoed sm = Z.of_nat (length rtts) ∧
     sm_rtt sm = Some (min, foldr Z.add 0 rtts / Z.of_nat (length rtts), max)%Z ∧
     min ∈ rtts ∧ max ∈ rtts ∧ Forall (fun d => min <= d <= max)%Z rtts ∧
     (min <= foldr Z.add 0 rtts / Z.of_nat (length rtts) <= max)%Z).
Proof.
  intros Hne Hpos. destruct rtts as [|x l]; [done|]. unfold print_summary. cbn [list_min list_max]. run.
  rewrite duration_sum_eq by done. unfold duration_div, wrap.
  destruct (foldl_min_spec l x) as [Hmin Hlo], (foldl_max_spec l x) as [Hmax Hhi]. split.
  - destruct (Z.ltb_spec (foldr Z.add 0 (x :: l))%Z DURATION_LIMIT); run.
    + destruct (Z.eqb_spec (Z.of_nat (length (x :: l)) mod 2 ^ 32) 0); run; split; try done; auto.
      intros [?|?]; [lia|done].
    + split; auto.
  - intros Hs Hl. rewrite (proj2 (Z.ltb_lt _ _) Hs). run.
    rewrite Z.mod_small by lia. rewrite (proj2 (Z.eqb_neq (Z.of_nat (length (x :: l))) 0)) by (cbn [length]; lia). run.
    eexists _, _, _. split; [done|]. cbn [sm_sent sm_echoed sm_rtt]. do 3 (split; [done|]).
    split; [exact Hmin|]. split; [exact Hmax|]. split.
    + rewrite Forall_forall in Hlo, Hhi |- *. auto.
    + by apply mean_between.
Qed.

Section echo.
Context `{StreamsLaws}.

(** The results of the pings of a run against the echo server, the round-trip
    times being whatever the clock says. *)
Definition echo_answers (size : nat) (send reply : SendStream) (failed : RecvStream) (times : list Z)
    : list (result Z Error) :=
  imap (fun k rtt => ping (Ok (send, echo_answer reply failed)) (payload_of size k) rtt) times.

Lemma echo_answers_Ok size send reply failed times :
  (Z.of_nat size <= MAX_PING_BYTES)%Z → written send = [] → written reply = [] →
  (∀ b, ∃ s1 s2, write_all send b = Ok s1 ∧ finish s1 = Ok s2) →
  (∀ b, ∃ s1 s2, write_all reply b = Ok s1 ∧ finish s1 = Ok s2) →
  echo_answers size send reply failed times = map Ok times.
Proof.
  intros Hsz Hs Hr Hsend Hreply. apply list_eq. intros k. unfold echo_answers.
  rewrite list_lookup_imap, list_lookup_fmap. destruct (times !! k) as [rtt|]; [|done]. cbn [fmap option_fmap option_map].
  destruct (Hsend (payload_of size k)) as (s1 & s2 & Hw & Hf).
  destruct (Hreply (payload_of size k)) as (r1 & r2 & Hw' & Hf').
  pose proof (read_back _ _ _ _ Hs Hw Hf) as E1. pose proof (read_back _ _ _ _ Hr Hw' Hf') as E2.
  rewrite length_payload_of, (proj2 (Z.leb_le _ _) Hsz) in E1, E2.
  unfold ping, echo_answer, echo_stream. rewrite Hw, Hf, E1, Hw', Hf', E2.
  rewrite bool_decide_eq_false_2 by congruence. done.
Qed.

Lemma echoed_map_Ok times : echoed (map Ok times) = times.
Proof. unfold echoed. induction times as [|t times IH]; cbn in *; [done|by rewrite IH]. Qed.

Lemma failures_map_Ok times : failures (map Ok times) = 0.
Proof. unfold failures. induction times; cbn in *; done. Qed.

(** Against the echo server, over streams that deliver what is written, a run
    whose payload size passed the client's check is answered in full: every ping
    succeeds, none is lost, and the summary is of all the round trips. *)
Theorem echo_client_loses_nothing args send reply failed times :
  (Z.of_nat (arg_size args) <= MAX_PING_BYTES)%Z →
  (0 < arg_count args < 2 ^ 64)%Z → Z.of_nat (length times) = arg_count args →
  written send = [] → written reply = [] →
  (∀ b, ∃ s1 s2, write_all send b = Ok s1 ∧ finish s1 = Ok s2) →
  (∀ b, ∃ s1 s2, write_all reply b = Ok s1 ∧ finish s1 = Ok s2) →
  ∃ trace,
    run_pings args (echo_answers (arg_size args) send reply failed times) =
    Done (Ready tt, mkPingStats times 0 (arg_count args), trace).
Proof.
  intros Hsz Hc Hl Hs Hr Hsend Hreply. rewrite (echo_answers_Ok _ _ _ _ _ Hsz Hs Hr Hsend Hreply).
  pose proof (run_pings_app args (map Ok times) []) as E.
  rewrite app_nil_r, length_map in E. rewrite E by lia.
  eexists. cbn [ping_loop stats_of seq]. rewrite length_map, Hl.
  rewrite (proj2 (Z.eqb_neq _ _)), Z.ltb_irrefl by lia. cbn [orb].
  unfold stats_of. by rewrite echoed_map_Ok, failures_map_Ok, length_map, Hl.
Qed.
End echo.

(** ** Instances at concrete input *)

Definition ex_client_args (count : Z) : Args :=
  mkArgs (mkSocketAddr (V4 (ipv4 127 0 0 1)) 4433) (str "server_cert.der") (str "localhost") count 500 12
    (ipv4 127 0 0 1).

Definition ex_args : Args := ex_client_args 3.

Example ex_client_starts :
  match client_start (H := toy_tls) ex_args (fun _ => Ok 7) (fun _ => Ok tt) (Ok tt) (Ok tt) (Ok tt) (fun _ _ => Ok (Ok tt)) ex_crypto with
  | Done (Ok ep, _) => ep_cid_generator ep = AuthCidGenerator_new ServerToClient (ipv4 127 0 0 1)
  | _ => False
  end.
Proof. vm_compute. reflexivity. Qed.

(** Two of three pings lost: 66.7 percent, as the nearest binary64 value. *)
Example ex_loss :
  match print_summary 3 [] 2 (mkPacketCounts 0 0 0 0 0) with
  | Done sm => round_div (mant (sm_loss_pct sm) * 10) (2 ^ (- expo (sm_loss_pct sm))) = 667%Z
  | Panic => False
  end.
Proof. vm_compute. reflexivity. Qed.

Lemma client_start_binds_one_address_witness :
  match client_start (H := toy_tls) ex_args (fun _ => Ok 7) (fun _ => Ok tt) (Ok tt) (Ok tt) (Ok tt) (fun _ _ => Ok (Ok tt)) ex_crypto with
  | Done (Ok ep, _) => ep_server ep = None
  | _ => False
  end.
Proof.
  assert (crypto_wf ex_crypto) as Hwf by (intros Hc; discriminate).
  exact (proj1 (proj2 (proj2 (proj2 (proj2 (client_start_binds_one_address (H := toy_tls) ex_args (fun _ => Ok 7)
    (fun _ => Ok tt) (Ok tt) (Ok tt) (Ok tt) (fun _ _ => Ok (Ok tt)) ex_crypto Hwf)))))).
Defined.

Lemma client_run_terminates_witness :
  ∃ st trace,
    run_pings ex_args ([Ok 5; Err (Write 1); Ok 7]%Z ++ []) = Done (Ready tt, st, trace) ∧
    seq st = 3%Z ∧ rtts st = [5; 7]%Z.
Proof.
  destruct (client_run_terminates ex_args [Ok 5; Err (Write 1); Ok 7]%Z []) as (st & trace & E & Hs & Hr & _);
    [split; reflexivity|reflexivity|].
  exists st, trace. split; [exact E|]. split; [exact Hs|exact Hr].
Defined.

Lemma client_run_keeps_pinging_witness :
  ∃ trace,
    run_pings (ex_client_args 0) [Err (Write 1)] =
    Done (Pending, stats_of [Err (Write 1)], trace ++ [Pinged (payload_of 12 1)]).
Proof.
  apply (client_run_keeps_pinging (ex_client_args 0));
    reflexivity.
Defined.

Lemma print_summary_rtts_witness :
  ∃ sm, print_summary 3 [5; 7]%Z 1 (mkPacketCounts 0 0 0 0 0) = Done sm.
Proof.
  destruct (print_summary_rtts 3 [5; 7]%Z 1 (mkPacketCounts 0 0 0 0 0)) as [_ Hsm];
    [discriminate|repeat constructor; discriminate|].
  destruct Hsm as (sm & min & max & E & _); [reflexivity..|]. exists sm. exact E.
Defined.

Lemma echo_client_loses_nothing_witness :
  ∃ trace,
    run_pings ex_args (echo_answers 12 ex_stream ex_stream (Err TooLong) [3; 4; 5]%Z) =
    Done (Ready tt, mkPingStats [3; 4; 5]%Z 0 3, trace).
Proof.
  apply (echo_client_loses_nothing ex_args ex_stream ex_stream (Err TooLong) [3; 4; 5]%Z);
    [discriminate|split; reflexivity|reflexivity|reflexivity|reflexivity|..];
    intros b; eexists _, _; split; reflexivity.
Defined.
