(* ===== verification/Server.v ===== *)
(** * The echo server ([src/bin/server.rs])

    Starting up with its address checks, the choice of validating inbound packets
    or not, and the end of [main]. The outcomes of the operating system and of the
    libraries are inputs. *)

From S2P Require Import Prelude Interfaces Auth AuthTheorems Datagram CidGenerator Socket Ping Endpoint.

Inductive ServerError :=
| ListenNotIpv4 (ip : IpAddr)
| ListenWildcard
| ServerIo (e : ErrorKind)
| ServerLib (e : Error).

Section server.
Context `{TlsLib}.

Record ServerArgs := mkServerArgs {
  arg_listen : SocketAddr; arg_cert_out : list byte; arg_server_name : list byte;
  no_dcid_validation : bool }.

(** What [main] does that can be seen: the lines it prints, and what it does to the
    endpoint. *)
Inductive server_action :=
| PrintWrote (server_name cert_out : list byte)
| PrintListening (addr : SocketAddr)
| Announce (validating : bool)
| PrintShuttingDown
| CloseEndpoint (code : Z) (reason : list byte)
| ServerWaitIdle
| ReportCounts (counts : PacketCounts).

(** [main] up to the accept loop, with what it prints on the way. The file system
    and the operating system's [bind] answer for what they are given. *)
Definition server_start (args : ServerArgs) (fs_write : list byte → Certificate → result unit ErrorKind)
    (os_bind : SocketAddr → result unit ErrorKind) (nonblocking registered : result unit ErrorKind)
    (local_addr : result SocketAddr ErrorKind) (created : result unit ErrorKind) (cs : Crypto)
    : exec (result Endpoint ServerError * list server_action * Crypto) :=
  match sock_ip (arg_listen args) with
  | V6 bits => mret (Err (ListenNotIpv4 (V6 bits)), [], cs)
  | V4 server_ip =>
      if is_unspecified server_ip then mret (Err ListenWildcard, [], cs)
      else
        '(credentials, cs) ← self_signed_server_config [arg_server_name args] cs;
        match credentials with
        | Err e => mret (Err (ServerLib e), [], cs)
        | Ok credentials =>
            match fs_write (arg_cert_out args) (cert_der credentials) with
            | Err e => mret (Err (ServerIo e), [], cs)
            | Ok _ =>
                let out := [PrintWrote (arg_server_name args) (arg_cert_out args)] in
                let authenticator :=
                  match no_dcid_validation args with
                  | false => Some (Authenticator_new ClientToServer server_ip)
                  | true => None
                  end in
                match bind (os_bind (arg_listen args)) nonblocking registered authenticator with
                | Err e => mret (Err (ServerIo e), out, cs)
                | Ok socket =>
                    match local_addr with
                    | Err e => mret (Err (ServerIo e), out, cs)
                    | Ok addr =>
                        let out := out ++ [PrintListening addr; Announce (negb (no_dcid_validation args))] in
                        match server_endpoint socket (config credentials) server_ip created with
                        | Err e => mret (Err (ServerLib e), out, cs)
                        | Ok endpoint => mret (Ok endpoint, out, cs)
                        end
                    end
                end
            end
        end
  end.

(** The [select!]: the accept loop ended, or the interrupt arrived. *)
Inductive select_outcome := EchoServerEnded | CtrlC (r : result unit ErrorKind).

Definition SHUTTING_DOWN : list byte := str "server shutting down".

(** The end of [main], from the [select!] on; [socket] is the socket when its counts
    are read. *)
Definition server_finish (first : select_outcome) (socket : Inner Authenticator)
    : result unit ServerError * list server_action :=
  let shutdown := [CloseEndpoint 0 SHUTTING_DOWN; ServerWaitIdle; ReportCounts (counts socket)] in
  match first with
  | EchoServerEnded => (Ok tt, shutdown)
  | CtrlC (Ok _) => (Ok tt, PrintShuttingDown :: shutdown)
  | CtrlC (Err e) => (Err (ServerIo e), [])
  end.
End server.

(** ** Lemmas *)

(** Every way [main] can go up to there. *)
Lemma server_start_spec `{TlsLib} args fs_write os_bind nonblocking registered local_addr created cs :
  crypto_wf cs →
  match server_start args fs_write os_bind nonblocking registered local_addr created cs with
  | Panic => False
  | Done (Ok ep, _, _) =>
      ∃ ip, sock_ip (arg_listen args) = V4 ip ∧ ip ≠ UNSPECIFIED ∧
        os_bind (arg_listen args) = Ok tt ∧
        ep_socket ep =
          mkInner (if no_dcid_validation args then None else Some (Authenticator_new ClientToServer ip))
            Counters_default ∧
        ep_cid_generator ep = AuthCidGenerator_new ClientToServer ip ∧
        ep_client ep = None ∧ ∃ cfg, ep_server ep = Some cfg ∧ sc_migration cfg = false
  | Done (Err e, _, _) =>
      (∀ bits, sock_ip (arg_listen args) = V6 bits → e = ListenNotIpv4 (V6 bits)) ∧
      (sock_ip (arg_listen args) = V4 UNSPECIFIED → e = ListenWildcard)
  end.
Proof.
  intros Hwf. unfold server_start, bind, server_endpoint, is_unspecified.
  destruct (sock_ip (arg_listen args)) as [ip|bits'] eqn:Hip; [|cbn; split; [by intros bits [= ->]|done]].
  case_bool_decide as Hu; [done|].
  assert (V4 ip = V4 UNSPECIFIED → ∀ e, e = ListenWildcard) as Hw by (intros [=]; congruence).
  destruct (self_signed_server_config_spec [arg_server_name args] cs Hwf) as (r & -> & Hr). run.
  destruct r as [creds|e]; [|cbn; split; [done|auto]].
  destruct (Hr _ eq_refl) as (cert & key & _ & ->).
  destruct (fs_write _ _) as [?|e]; [|cbn; split; [done|auto]].
  destruct (os_bind _) as [[]|e]; [|cbn; split; [done|auto]].
  destruct nonblocking as [?|e]; [|cbn; split; [done|auto]].
  destruct registered as [?|e]; [|cbn; split; [done|auto]].
  destruct local_addr as [?|e]; [|cbn; split; [done|auto]].
  destruct created as [?|e]; [|cbn; split; [done|auto]].
  cbn. exists ip. split_and!; try done; by eexists.
Qed.

(** The lines of a start-up, up to the choice of validating. *)
Definition startup_lines (args : ServerArgs) (addr : SocketAddr) : list server_action :=
  [PrintWrote (arg_server_name args) (arg_cert_out args); PrintListening addr;
   Announce (negb (no_dcid_validation args))].

(** A start-up that fails has printed the first of them, or none. *)
Lemma server_start_output `{TlsLib} args fs_write os_bind nonblocking registered local_addr created cs :
  match server_start args fs_write os_bind nonblocking registered local_addr created cs with
  | Panic => True
  | Done (Ok _, out, _) => ∃ addr, local_addr = Ok addr ∧ out = startup_lines args addr
  | Done (Err e, out, _) =>
      (∃ addr, out `prefix_of` startup_lines args addr) ∧
      (∀ ip, e = ListenNotIpv4 ip ∨ e = ListenWildcard → out = [])
  end.
Proof.
  assert (∀ addr out rest, out ++ rest = startup_lines args addr → ∃ addr, out `prefix_of` startup_lines args addr) as Hp
    by (intros addr out rest E; exists addr, rest; by rewrite E).
  pose proof (mkSocketAddr (V4 UNSPECIFIED) 0) as any.
  unfold server_start, bind, server_endpoint.
  destruct (sock_ip (arg_listen args)) as [ip|bits]; [|run; split; [by apply (Hp any [] _ eq_refl)|done]].
  destruct (is_unspecified ip); [run; split; [by apply (Hp any [] _ eq_refl)|done]|].
  destruct (self_signed_server_config _ cs) as [[[creds|e] cs1]|]; run;
    [|split; [by apply (Hp any [] _ eq_refl)|done]|done].
  destruct (fs_write _ _); [|split; [by apply (Hp any [] _ eq_refl)|done]].
  destruct (os_bind _), nonblocking, registered;
    try (split; [by eapply (Hp any [_] [_; _])|intros ? [[=]|[=]]]).
  destruct local_addr as [addr|]; [|split; [by eapply (Hp any [_] [_; _])|intros ? [[=]|[=]]]].
  destruct created; [by exists addr|split; [by apply (Hp addr _ [])|intros ? [[=]|[=]]]].
Qed.

(** ** Theorems *)

(** A server that starts listens on one concrete IPv4 address, and its filter
    and its generator both name exactly that address in the client-to-server
    direction; validation is off only when the flag says so, and then the server
    still issues authenticated connection IDs. An IPv6 address or the wildcard is
    refused before anything else is done. *)
Theorem server_start_binds_one_address `{TlsLib} args fs_write os_bind nonblocking registered local_addr created cs :
  crypto_wf cs →
  match server_start args fs_write os_bind nonblocking registered local_addr created cs with
  | Panic => False
  | Done (Ok ep, _, _) =>
      ∃ ip, sock_ip (arg_listen args) = V4 ip ∧ ip ≠ UNSPECIFIED ∧
        os_bind (arg_listen args) = Ok tt ∧
        ep_socket ep =
          mkInner (if no_dcid_validation args then None else Some (Authenticator_new ClientToServer ip))
            Counters_default ∧
        ep_cid_generator ep = AuthCidGenerator_new ClientToServer ip ∧
        ep_client ep = None ∧ ∃ cfg, ep_server ep = Some cfg ∧ sc_migration cfg = false
  | Done (Err e, _, _) =>
      (∀ bits, sock_ip (arg_listen args) = V6 bits → e = ListenNotIpv4 (V6 bits)) ∧
      (sock_ip (arg_listen args) = V4 UNSPECIFIED → e = ListenWildcard)
  end.
Proof. apply server_start_spec. Qed.

(** ** Instances at concrete input *)

Definition ex_listen (ip : IpAddr) (no_validation : bool) : ServerArgs :=
  mkServerArgs (mkSocketAddr ip 4433) (str "server_cert.der") LOCALHOST_NAME no_validation.

Definition ex_bound : SocketAddr := mkSocketAddr (V4 ex_server) 4433.

Example ex_server_starts :
  match server_start (ex_listen (V4 ex_server) false) (fun _ _ => Ok tt) (fun _ => Ok tt) (Ok tt) (Ok tt) (Ok ex_bound) (Ok tt) ex_crypto with
  | Done (Ok ep, _, _) => authenticator (ep_socket ep) = Some (Authenticator_new ClientToServer ex_server)
  | _ => False
  end.
Proof. vm_compute. reflexivity. Qed.

Example ex_server_refuses_wildcard :
  server_start (ex_listen (V4 UNSPECIFIED) false) (fun _ _ => Ok tt) (fun _ => Ok tt) (Ok tt) (Ok tt) (Ok ex_bound) (Ok tt)
    ex_crypto = Done (Err ListenWildcard, [], ex_crypto).
Proof. vm_compute. reflexivity. Qed.

Lemma server_start_binds_one_address_witness :
  match server_start (ex_listen (V4 UNSPECIFIED) false) (fun _ _ => Ok tt) (fun _ => Ok tt) (Ok tt) (Ok tt) (Ok ex_bound) (Ok tt)
          ex_crypto with
  | Done (Err e, _, _) => e = ListenWildcard
  | _ => False
  end.
Proof.
  assert (crypto_wf ex_crypto) as Hwf by (intros Hc; discriminate).
  exact (proj2 (server_start_binds_one_address (H := toy_tls) (ex_listen (V4 UNSPECIFIED) false) (fun _ _ => Ok tt)
    (fun _ => Ok tt) (Ok tt) (Ok tt) (Ok ex_bound) (Ok tt) ex_crypto Hwf) eq_refl).
Defined.
