(* ===== verification/System.v ===== *)
(** * The system: two endpoints and the network

    A client and a server as their [main]s set them up, run by any interleaving of
    what Quinn asks of the crate: connection IDs for peers, the first destination
    connection ID of a connection, new senders, polls that receive and polls that
    send. The network is unconstrained: a receiving poll may be given any
    datagrams from any sources. Ghost logs record what was issued, read, handed to
    Quinn and written. *)

From stdpp Require Import gmap relations.
From S2P Require Import Prelude Interfaces Aes Instances Auth AuthTheorems Datagram CidGenerator.
From S2P Require Import Socket Sender SocketTheorems Ping Endpoint Client Server.

(** One endpoint at run time. *)
Record Host := mkHost {
  h_inner : Inner Authenticator;
  h_gen : AuthCidGenerator;
  h_senders : gmap nat (option writable_future);
  h_issued : list (Ipv4Addr * list byte);
  h_read : list rx_event;
  h_quinn : list (list byte * SocketAddr * nat);
  h_outcomes : list (result nat ErrorKind);
  h_wire : list (SocketAddr * list byte) }.

(** An endpoint as it starts. *)
Definition host_of `{TlsLib} (ep : Endpoint) : Host :=
  mkHost (ep_socket ep) (ep_cid_generator ep) ∅ [] [] [] [] [].

Section system.
Context {X : Type} `{BlockCipher, Rng, QuinnCid} (dflt : RecvMeta X) (peers : Peers).

Inductive host_step : rng → Host → rng → Host → Prop :=
| host_issue g h remote local cid gen' g' :
    generate_cid_for (h_gen h) remote local g = Done (cid, gen', g') →
    host_step g h g'
      (mkHost (h_inner h) gen' (h_senders h)
         (h_issued h ++ [(bound_source remote, ConnectionId_bytes cid)])
         (h_read h) (h_quinn h) (h_outcomes h) (h_wire h))
| host_create g h i :
    h_senders h !! i = None →
    host_step g h g
      (mkHost (h_inner h) (h_gen h) (<[i := create_sender]> (h_senders h))
         (h_issued h) (h_read h) (h_quinn h) (h_outcomes h) (h_wire h))
| host_recv g h bufs metas rdy rx r inner' st used :
    fits bufs rx → length bufs ≤ length metas →
    poll_recv dflt (h_inner h) bufs metas rdy rx = Done (r, inner', st) →
    rx = used ++ rs_rx st →
    host_step g h g
      (mkHost inner' (h_gen h) (h_senders h) (h_issued h)
         (h_read h ++ used) (h_quinn h ++ handed r st) (h_outcomes h) (h_wire h))
| host_send g h i w t wr tx r w' st used :
    h_senders h !! i = Some w → sendable t →
    poll_send w t wr (mkSendState (counters (h_inner h)) (h_wire h) tx) = Done (r, w', st) →
    tx = used ++ ss_tx st →
    host_step g h g
      (mkHost (mkInner (authenticator (h_inner h)) (ss_counters st)) (h_gen h)
         (<[i := w']> (h_senders h)) (h_issued h) (h_read h) (h_quinn h)
         (h_outcomes h ++ used) (ss_wire st)).

(** The two endpoints, the random generator they draw from, and the destination
    connection IDs of the connections the client has opened. *)
Record World := mkWorld {
  w_rng : rng; w_client : Host; w_server : Host; w_initial : list (list byte) }.

Inductive world_step : World → World → Prop :=
| client_moves w g' h' :
    host_step (w_rng w) (w_client w) g' h' →
    world_step w (mkWorld g' h' (w_server w) (w_initial w))
| server_moves w g' h' :
    host_step (w_rng w) (w_server w) g' h' →
    world_step w (mkWorld g' (w_client w) h' (w_initial w))
| client_dials w cid g' :
    initial_dst_cid_provider peers (w_rng w) = Done (cid, g') →
    world_step w (mkWorld g' (w_client w) (w_server w) (w_initial w ++ [ConnectionId_bytes cid])).
End system.

(** ** Invariants *)

(** Both kinds of traffic in the counters of one socket. *)
Definition tallied (auth : option Authenticator) `{BlockCipher} (read : list rx_event)
    (outcomes : list (result nat ErrorKind)) : Counters :=
  sent_counted (counted auth Counters_default read) outcomes.

(** A host whose filter and generator are as they were at the start. *)
Record host_inv `{BlockCipher} (auth : option Authenticator) (gen : AuthCidGenerator) (h : Host) : Prop := {
  inv_auth : authenticator (h_inner h) = auth;
  inv_gen : h_gen h = gen;
  inv_senders : map_Forall (fun _ w => w ≠ Some Completed) (h_senders h);
  inv_counters : counters (h_inner h) = tallied auth (h_read h) (h_outcomes h);
  inv_quinn : h_quinn h = accepted auth (h_read h);
  inv_wire : length (h_wire h) = length (List.filter is_ok (h_outcomes h));
  inv_issued : Forall (fun '(src, cid) => ∃ nonce, length nonce = 8 ∧
                 cid = token_of (gen_direction gen) nonce src (gen_local_ip gen)) (h_issued h)
}.

(** Reading the fields of a host that was just built. *)
Ltac fields := cbn [authenticator counters h_inner h_gen h_senders h_issued h_read h_quinn h_outcomes h_wire].

Section lemmas.
Context {X : Type} `{BlockCipherLaws, RngLaws, QuinnCidLaws} (dflt : RecvMeta X) (peers : Peers).

Lemma tallied_wf auth read outcomes : wf_counters (tallied auth read outcomes).
Proof. apply sent_counted_wf, counted_wf, wf_Counters_default. Qed.

(** Receiving and sending touch different counters. *)
Lemma tallied_read auth read outcomes used :
  counted auth (tallied auth read outcomes) used = tallied auth (read ++ used) outcomes.
Proof. unfold tallied. rewrite <- counted_app. reflexivity. Qed.

Lemma tallied_wrote auth read outcomes used :
  sent_counted (tallied auth read outcomes) used = tallied auth read (outcomes ++ used).
Proof. apply sent_counted_app. Qed.

Lemma host_of_inv `{TlsLib} ep :
  counters (ep_socket ep) = Counters_default →
  host_inv (authenticator (ep_socket ep)) (ep_cid_generator ep) (host_of ep).
Proof. intros Hc. by split. Qed.

Lemma host_step_inv auth gen g h g' h' :
  host_step dflt g h g' h' → host_inv auth gen h → host_inv auth gen h'.
Proof.
  intros Hstep [Ha Hg Hs Hc Hq Hw Hi]. destruct Hstep as
    [g h remote local cid gen' g' E|g h i Hfresh|g h bufs metas rdy rx r inner' st used Hf Hm E Hrx
    |g h i w t wr tx r w' st used Hi' Ht E Htx].
  - destruct (generate_cid_for_eq (h_gen h) remote local g) as (nonce & cid' & Hn & E' & Hb).
    rewrite E in E'. injection E' as -> -> ->. split; fields; try done.
    apply Forall_app. split; [done|]. repeat constructor. exists nonce. by rewrite Hb, Hg.
  - split; fields; try done. by apply map_Forall_insert_2.
  - destruct (poll_recv_spec dflt (h_inner h) bufs metas rdy rx Hf Hm) as (r' & st' & used' & E' & Hp).
    { rewrite Hc. apply tallied_wf. }
    rewrite E in E'. injection E' as <- -> <-. destruct Hp as [Hrx' _ _ _ Hc' Hh _]. cbn in Hrx', Hc'.
    rewrite Hrx in Hrx'. apply app_inv_tail in Hrx' as <-.
    split; fields; try done; rewrite ?Hc', ?Hc, ?Hh, ?Ha; [apply tallied_read|by rewrite accepted_app, Hq].
  - destruct (poll_send_spec t Ht wr w (mkSendState (counters (h_inner h)) (h_wire h) tx))
      as (r' & w'' & st' & used' & retried & final & E' & Hp).
    { exact (Hs _ _ Hi'). }
    { cbn. rewrite Hc. apply tallied_wf. }
    rewrite E in E'. injection E' as <- <- <-. destruct Hp as [Htx' Hwire Hn Hc' _ Hw' _].
    cbn [ss_tx ss_wire ss_counters] in Htx', Hwire, Hc'.
    rewrite Htx in Htx'. apply app_inv_tail in Htx' as <-.
    split; fields; try done.
    + apply map_Forall_insert_2; [|done]. subst w'. by destruct r.
    + by rewrite Hc', Hc, tallied_wrote.
    + rewrite Hwire, length_app, length_map, Hn, List.filter_app, length_app. rewrite Hw. done.
Qed.

(** Invariant of the whole system. *)
Record world_inv (cauth sauth : option Authenticator) (cgen sgen : AuthCidGenerator) (w : World) : Prop := {
  inv_client : host_inv cauth cgen (w_client w);
  inv_server : host_inv sauth sgen (w_server w);
  inv_initial : Forall (fun cid => ∃ nonce, length nonce = 8 ∧
                  cid = token_of ClientToServer nonce (client peers) (server peers)) (w_initial w)
}.

Lemma world_step_inv cauth sauth cgen sgen w w' :
  world_step dflt peers w w' → world_inv cauth sauth cgen sgen w → world_inv cauth sauth cgen sgen w'.
Proof.
  intros Hstep [Hc Hs Hi]. destruct Hstep as [w g' h' Hstep|w g' h' Hstep|w cid g' E].
  - split; [by eapply host_step_inv|done..].
  - split; [done|by eapply host_step_inv|done].
  - split; [done..|]. cbn. apply Forall_app. split; [done|]. repeat constructor.
    unfold initial_dst_cid_provider, mint in E. cbn [direction_path] in E.
    destruct (mint_between_eq ClientToServer (client peers) (server peers) (w_rng w)) as (nonce & Hn & _ & Em).
    rewrite Em in E. injection E as <- _. exists nonce. split; [done|].
    rewrite ConnectionId_bytes_new by by rewrite length_token_of. done.
Qed.

Lemma reachable_inv cauth sauth cgen sgen w w' :
  rtc (world_step dflt peers) w w' → world_inv cauth sauth cgen sgen w →
  world_inv cauth sauth cgen sgen w'.
Proof. induction 1; [done|]. intros Hi. eauto using world_step_inv. Qed.

(** A datagram that carries a token of the path is handed to Quinn if it is read. *)
Lemma token_is_delivered a gen h nonce src data port n :
  host_inv (Some a) gen h → length nonce = 8 →
  quic_dcid data (token_of (inbound a) nonce src (auth_local_ip a)) →
  (data, mkSocketAddr (V4 src) port, n) ∈ datagrams (h_read h) →
  (data, mkSocketAddr (V4 src) port, n) ∈ h_quinn h.
Proof.
  intros Hinv Hn Hq Hin. rewrite (inv_quinn _ _ _ Hinv). unfold accepted.
  apply list_elem_of_In, filter_In. split; [by apply list_elem_of_In|].
  apply bool_decide_eq_true. cbn [filter_check Authenticator_filter sock_ip]. apply check_Ok. by exists src, nonce.
Qed.
End lemmas.

(** Without a filter everything is accepted. *)
Lemma accepted_unfiltered `{BlockCipher} read : accepted (None : option Authenticator) read = datagrams read.
Proof. unfold accepted. induction (datagrams read) as [|[[data addr] n] l IH]; cbn; [done|]. by f_equal. Qed.

(** ** Started systems *)

(** Both binaries came up, the client with the server's address, and nothing has
    happened yet. *)
Record started `{TlsLib, Rng} (cargs : Args) (sargs : ServerArgs) (peers : Peers) (w : World) : Prop := {
  started_client : ∃ fs_read os_bind nonblocking registered created connect cs cs' cep,
    crypto_wf cs ∧
    client_start cargs fs_read os_bind nonblocking registered created connect cs = Done (Ok cep, cs') ∧
    w_client w = host_of cep ∧ (∃ cfg, ep_client cep = Some (cfg, peers));
  started_server : ∃ fs_write os_bind nonblocking registered local_addr created out cs cs' sep,
    crypto_wf cs ∧
    server_start sargs fs_write os_bind nonblocking registered local_addr created cs = Done (Ok sep, out, cs') ∧
    w_server w = host_of sep;
  started_dials : sock_ip (arg_server cargs) = sock_ip (arg_listen sargs);
  started_initial : w_initial w = []
}.

Section started_lemmas.
Context {X : Type} `{TlsLib, BlockCipherLaws, RngLaws, QuinnCidLaws} (dflt : RecvMeta X).

(** The filter of a server started with [sargs]. *)
Definition server_filter (sargs : ServerArgs) (ip : Ipv4Addr) : option Authenticator :=
  if no_dcid_validation sargs then None else Some (Authenticator_new ClientToServer ip).

Lemma started_inv cargs sargs peers w :
  started cargs sargs peers w →
  sock_ip (arg_listen sargs) = V4 (server peers) ∧ arg_local_ip cargs = client peers ∧
  world_inv peers
    (Some (Authenticator_new ServerToClient (client peers))) (server_filter sargs (server peers))
    (AuthCidGenerator_new ServerToClient (client peers))
    (AuthCidGenerator_new ClientToServer (server peers)) w.
Proof.
  intros [(cert & ob & nb & rg & cr & cn & cs & cs' & cep & Hwf & Ec & Hwc & cfg & Hcl)
          (cw & ob' & nb' & rg' & la & cr' & out & cs1 & cs1' & sep & Hwf' & Es & Hws) Hd Hi].
  pose proof (client_start_spec cargs cert ob nb rg cr cn cs Hwf) as Hc. rewrite Ec in Hc.
  destruct Hc as (_ & _ & Hcs & Hcg & _ & cfg' & sip & Hcl' & Hsip).
  pose proof (server_start_spec sargs cw ob' nb' rg' la cr' cs1 Hwf') as Hs. rewrite Es in Hs.
  destruct Hs as (ip & Hip & _ & _ & Hss & Hsg & _).
  rewrite Hcl in Hcl'. injection Hcl' as _ ->. rewrite Hsip, Hip in Hd. injection Hd as ->.
  cbn [client server]. split; [done|]. split; [done|]. split.
  - rewrite Hwc. pose proof (host_of_inv cep) as HI. rewrite Hcs, Hcg in HI. by apply HI.
  - rewrite Hws. pose proof (host_of_inv sep) as HI. rewrite Hss, Hsg in HI. by apply HI.
  - by rewrite Hi.
Qed.

Lemma reachable_started cargs sargs peers w0 w :
  started cargs sargs peers w0 → rtc (world_step dflt peers) w0 w →
  world_inv peers
    (Some (Authenticator_new ServerToClient (client peers))) (server_filter sargs (server peers))
    (AuthCidGenerator_new ServerToClient (client peers))
    (AuthCidGenerator_new ClientToServer (server peers)) w.
Proof. intros (_ & _ & Hi)%started_inv Hr. by eapply reachable_inv. Qed.
End started_lemmas.

(** ** Theorems *)

Section theorems.
Context {X : Type} `{TlsLib, BlockCipherLaws, RngLaws, QuinnCidLaws} (dflt : RecvMeta X).

(** C3: in every run of the two programs against an arbitrary network, the
    server, unless validation is off, and the client never reject genuine
    traffic: whatever is read that carries the first connection ID of one of the
    client's connections, or a connection ID issued to the peer it comes from, has
    been handed to Quinn. *)
Theorem genuine_traffic_is_never_rejected cargs sargs peers w0 w :
  started cargs sargs peers w0 → rtc (world_step dflt peers) w0 w →
  no_dcid_validation sargs = false →
  (∀ cid data port n, cid ∈ w_initial w → quic_dcid data cid →
     (data, mkSocketAddr (V4 (client peers)) port, n) ∈ datagrams (h_read (w_server w)) →
     (data, mkSocketAddr (V4 (client peers)) port, n) ∈ h_quinn (w_server w)) ∧
  (∀ peer cid data port n, (peer, cid) ∈ h_issued (w_server w) → quic_dcid data cid →
     (data, mkSocketAddr (V4 peer) port, n) ∈ datagrams (h_read (w_server w)) →
     (data, mkSocketAddr (V4 peer) port, n) ∈ h_quinn (w_server w)) ∧
  (∀ peer cid data port n, (peer, cid) ∈ h_issued (w_client w) → quic_dcid data cid →
     (data, mkSocketAddr (V4 peer) port, n) ∈ datagrams (h_read (w_client w)) →
     (data, mkSocketAddr (V4 peer) port, n) ∈ h_quinn (w_client w)).
Proof.
  intros Hs Hr Hv. destruct (reachable_started dflt _ _ _ _ _ Hs Hr) as [Hc Hsv Hi].
  unfold server_filter in Hsv. rewrite Hv in Hsv.
  rewrite Forall_forall in Hi. split_and!.
  - intros cid data port n (nonce & Hn & ->)%Hi Hq Hin. by eapply token_is_delivered.
  - intros peer cid data port n Hin Hq Hd.
    pose proof (inv_issued _ _ _ Hsv) as HF. rewrite Forall_forall in HF.
    destruct (HF _ Hin) as (nonce & Hn & ->). by eapply token_is_delivered.
  - intros peer cid data port n Hin Hq Hd.
    pose proof (inv_issued _ _ _ Hc) as HF. rewrite Forall_forall in HF.
    destruct (HF _ Hin) as (nonce & Hn & ->). by eapply token_is_delivered.
Qed.

(** C4: in every run, all that Quinn has been handed on the client's side, and on the
    server's unless validation is off, arrived with a token minted for that side's
    inbound direction, on the path from the very IPv4 address the datagram came from
    to that side's own address; in particular the tokens of one direction are of no
    use in the other. A server with validation off hands Quinn all that it reads. *)
Theorem only_authenticated_traffic_reaches_quinn cargs sargs peers w0 w data addr n :
  started cargs sargs peers w0 → rtc (world_step dflt peers) w0 w →
  ((data, addr, n) ∈ h_quinn (w_server w) → no_dcid_validation sargs = false →
   ∃ ip nonce token, sock_ip addr = V4 ip ∧ length nonce = NONCE_LEN ∧
     assemble ClientToServer nonce ip (server peers) = Done token ∧ quic_dcid data token) ∧
  (no_dcid_validation sargs = true → h_quinn (w_server w) = datagrams (h_read (w_server w))) ∧
  ((data, addr, n) ∈ h_quinn (w_client w) →
   ∃ ip nonce token, sock_ip addr = V4 ip ∧ length nonce = NONCE_LEN ∧
     assemble ServerToClient nonce ip (client peers) = Done token ∧ quic_dcid data token).
Proof.
  intros Hs Hr. destruct (reachable_started dflt _ _ _ _ _ Hs Hr) as [Hc Hsv _].
  split; [|split].
  - intros Hin Hv. unfold server_filter in Hsv. rewrite Hv in Hsv. rewrite (inv_quinn _ _ _ Hsv) in Hin.
    apply accepted_elem, bool_decide_eq_true, check_Ok in Hin as (ip & nonce & Hip & Hn & Hq).
    exists ip, nonce. eexists. by rewrite (assemble_eq _ _ _ _ Hn).
  - intros Hv. unfold server_filter in Hsv. rewrite Hv in Hsv. rewrite (inv_quinn _ _ _ Hsv). apply accepted_unfiltered.
  - intros Hin. rewrite (inv_quinn _ _ _ Hc) in Hin.
    apply accepted_elem, bool_decide_eq_true, check_Ok in Hin as (ip & nonce & Hip & Hn & Hq).
    exists ip, nonce. eexists. by rewrite (assemble_eq _ _ _ _ Hn).
Qed.

(** C14: in every run, whatever the interleaving of polls, the published counts of
    either socket are exact modulo 2^64: datagrams and bytes written, datagrams and
    bytes read, and the datagrams read that Quinn never saw; and what Quinn was
    handed is the accepted part of what was read, in order. *)
Theorem counts_are_exact cargs sargs peers w0 w h auth :
  started cargs sargs peers w0 → rtc (world_step dflt peers) w0 w →
  (h = w_client w ∧ auth = Some (Authenticator_new ServerToClient (client peers)) ∨
   h = w_server w ∧ auth = server_filter sargs (server peers)) →
  h_quinn h = accepted auth (h_read h) ∧
  counts (h_inner h) =
    mkPacketCounts (Z.of_nat (length (h_wire h)) mod 2 ^ 64)
      (sum_ok (h_outcomes h) mod 2 ^ 64)
      (Z.of_nat (length (datagrams (h_read h))) mod 2 ^ 64)
      (total_bytes (datagrams (h_read h)) mod 2 ^ 64)
      (Z.of_nat (length (datagrams (h_read h)) - length (h_quinn h)) mod 2 ^ 64).
Proof.
  intros Hs Hr Hh. destruct (reachable_started dflt _ _ _ _ _ Hs Hr) as [Hc Hsv _].
  assert (∃ gen, host_inv auth gen h) as (gen & [_ _ _ Hcnt Hq Hw _])
    by (destruct Hh as [[-> ->]|[-> ->]]; by eexists).
  split; [done|]. unfold counts. rewrite Hcnt, Hw, Hq.
  pose proof (accepted_length_le auth (h_read h)). rewrite Nat2Z.inj_sub by done.
  unfold tallied, sent_counted, counted, wrap. cbn [sent sent_bytes received received_bytes rejected Counters_default].
  by rewrite !Z.add_0_l.
Qed.

(** C16: nothing the crate does for Quinn panics in any run: a receiving poll with
    any outcomes, a sending poll of any created sender, the issuing of a connection
    ID and the opening of a connection all return. *)
Theorem no_run_panics cargs sargs peers w0 w h :
  started cargs sargs peers w0 → rtc (world_step dflt peers) w0 w →
  h = w_client w ∨ h = w_server w →
  (∀ bufs metas rdy rx, fits bufs rx → length bufs ≤ length metas →
     poll_recv dflt (h_inner h) bufs metas rdy rx ≠ Panic) ∧
  (∀ i s t wr tx, h_senders h !! i = Some s → sendable t →
     poll_send s t wr (mkSendState (counters (h_inner h)) (h_wire h) tx) ≠ Panic) ∧
  (∀ remote local, generate_cid_for (h_gen h) remote local (w_rng w) ≠ Panic) ∧
  initial_dst_cid_provider peers (w_rng w) ≠ Panic.
Proof.
  intros Hs Hr Hh. destruct (reachable_started dflt _ _ _ _ _ Hs Hr) as [Hc Hsv _].
  assert (∃ auth gen, host_inv auth gen h) as (auth & gen & [_ _ Hsend Hcnt _ _ _])
    by (destruct Hh as [->| ->]; by eexists _, _).
  assert (wf_counters (counters (h_inner h))) as Hwf by (rewrite Hcnt; apply tallied_wf).
  split_and!.
  - intros bufs metas rdy rx Hf Hm.
    destruct (poll_recv_spec dflt (h_inner h) bufs metas rdy rx Hf Hm Hwf) as (? & ? & ? & -> & _). done.
  - intros i s t wr tx Hi Ht.
    destruct (poll_send_spec t Ht wr s (mkSendState (counters (h_inner h)) (h_wire h) tx) (Hsend _ _ Hi) Hwf)
      as (? & ? & ? & ? & ? & ? & -> & _). done.
  - intros remote local. destruct (generate_cid_for_eq (h_gen h) remote local (w_rng w)) as (? & ? & _ & -> & _).
    done.
  - unfold initial_dst_cid_provider, mint. cbn [direction_path].
    destruct (mint_between_eq ClientToServer (client peers) (server peers) (w_rng w)) as (? & _ & _ & ->). done.
Qed.
End theorems.

(** ** Instances at concrete input

    A run: both sides start, the client opens a connection, and the server reads
    three forged datagrams followed by the client's first one. *)

Definition ex_cargs : Args := 
  mkArgs (mkSocketAddr (V4 ex_server) 4433) (str "server_cert.der") (str "localhost") 3 500 12 ex_client.
Definition ex_sargs : ServerArgs := ex_listen (V4 ex_server) false.

Definition ex_client_host : Host :=
  mkHost (mkInner (Some (Authenticator_new ServerToClient ex_client)) Counters_default)
    (AuthCidGenerator_new ServerToClient ex_client) ∅ [] [] [] [] [].
Definition ex_server_host : Host :=
  mkHost ex_socket (AuthCidGenerator_new ClientToServer ex_server) ∅ [] [] [] [] [].

Definition ex_w0 : World := mkWorld ex_tape ex_client_host ex_server_host [].
Definition ex_w1 : World := mkWorld (H0 := tape_rng) [] ex_client_host ex_server_host [ex_token].
Definition ex_w2 : World :=
  mkWorld (H0 := tape_rng) [] ex_client_host
    (mkHost (mkInner (Some ex_authenticator) (mkCounters 0 0 4 232 3))
       (AuthCidGenerator_new ClientToServer ex_server) ∅ [] ([] ++ ex_rx)
       ([] ++ [(ex_datagram, ex_from, 58)]) [] []) [ex_token].

Lemma ex_started : started ex_cargs ex_sargs ex_peers ex_w0.
Proof.
  split.
  - exists (fun _ => Ok 7), (fun _ => Ok tt), (Ok tt), (Ok tt), (Ok tt), (fun _ _ => Ok (Ok tt)), ex_crypto. eexists _, _.
    split; [intros Hc; discriminate|]. split; [vm_compute; reflexivity|]. split; [reflexivity|]. eexists. reflexivity.
  - exists (fun _ _ => Ok tt), (fun _ => Ok tt), (Ok tt), (Ok tt), (Ok ex_bound), (Ok tt). eexists _, ex_crypto, _, _.
    split; [intros Hc; discriminate|]. split; [vm_compute; reflexivity|]. reflexivity.
  - reflexivity.
  - reflexivity.
Qed.

Lemma ex_run : rtc (world_step ex_meta ex_peers) ex_w0 ex_w2.
Proof.
  apply (rtc_l _ ex_w0 ex_w1).
  - apply (client_dials (H := aes128) (H0 := tape_rng) (H1 := bytes_cid) ex_meta ex_peers ex_w0 ex_token []). vm_compute. reflexivity.
  - apply rtc_once. apply (server_moves ex_meta ex_peers ex_w1 []).
    destruct (poll_recv ex_meta ex_socket ex_bufs ex_metas ex_rdy ex_rx) as [[[r inner] st]|] eqn:E;
      [|exfalso; revert E; vm_compute; discriminate].
    pose proof E as E'. vm_compute in E'. injection E' as <- <- <-.
    eapply (host_recv (H := aes128) (H0 := tape_rng) (H1 := bytes_cid) ex_meta [] ex_server_host ex_bufs ex_metas ex_rdy ex_rx _ _ _ ex_rx
             ex_fits ex_metas_enough E).
    vm_compute. reflexivity.
Qed.

Lemma genuine_traffic_is_never_rejected_witness :
  (ex_datagram, ex_from, 58) ∈ h_quinn (w_server ex_w2).
Proof.
  apply (proj1 (genuine_traffic_is_never_rejected ex_meta ex_cargs ex_sargs ex_peers ex_w0 ex_w2
                  ex_started ex_run eq_refl) ex_token ex_datagram 50000%Z 58).
  - apply list_elem_of_here.
  - apply destination_cid_iff. vm_compute. reflexivity.
  - vm_compute. repeat constructor.
Defined.

Lemma only_authenticated_traffic_reaches_quinn_witness :
  ∃ ip nonce token, V4 ex_client = V4 ip ∧ length nonce = NONCE_LEN ∧
    assemble ClientToServer nonce ip ex_server = Done token ∧ quic_dcid ex_datagram token.
Proof.
  apply (proj1 (only_authenticated_traffic_reaches_quinn ex_meta ex_cargs ex_sargs ex_peers ex_w0 ex_w2
                  ex_datagram ex_from 58 ex_started ex_run)).
  - apply list_elem_of_here.
  - reflexivity.
Defined.

Lemma counts_are_exact_witness :
  counts (h_inner (w_server ex_w2)) = mkPacketCounts 0 0 4 232 3.
Proof.
  refine (eq_trans (proj2 (counts_are_exact ex_meta ex_cargs ex_sargs ex_peers ex_w0 ex_w2
            (w_server ex_w2) (Some ex_authenticator) ex_started ex_run
            (or_intror (conj eq_refl eq_refl)))) _).
  vm_compute. reflexivity.
Defined.

Lemma no_run_panics_witness :
  poll_recv ex_meta (h_inner (w_server ex_w2)) ex_bufs ex_metas ex_rdy ex_rx ≠ Panic.
Proof.
  exact (proj1 (no_run_panics ex_meta ex_cargs ex_sargs ex_peers ex_w0 ex_w2 (w_server ex_w2)
                  ex_started ex_run (or_intror eq_refl)) ex_bufs ex_metas ex_rdy ex_rx
           ex_fits ex_metas_enough).
Defined.
