(* ===== verification/Runtime.v ===== *)
(** * The two programs on their sockets

    [System.v] gives the polls of the crate whatever answers the network and the
    operating system can give. Here both programs run on socket objects: datagrams
    arrive in the backlog of a socket, receiving polls take them from it, sending
    polls write through the other half. Every such run is one of [System.v], so that
    its theorems hold of it; and when the receiving task of the server is driven until
    it has to wait, Quinn has been handed exactly the authentic part of everything
    that ever arrived. *)

From stdpp Require Import gmap relations.
From S2P Require Import Prelude Interfaces Aes Instances Auth AuthTheorems Datagram CidGenerator.
From S2P Require Import Socket Sender SocketTheorems Readiness Writability Ping Endpoint Client Server System.

(** An endpoint on its socket: what the crate keeps, the two halves of the socket,
    and logs of what was issued, what arrived, what Quinn was handed and what was
    written. *)
Record Machine `{UdpSocket, UdpWriter} := mkMachine {
  m_inner : Inner Authenticator;
  m_gen : AuthCidGenerator;
  m_senders : gmap nat (option writable_future);
  m_in : io;
  m_out : wio;
  m_issued : list (Ipv4Addr * list byte);
  m_arrived : list rx_event;
  m_quinn : list (list byte * SocketAddr * nat);
  m_wire : list (SocketAddr * list byte) }.

(** An endpoint as it starts, on a socket. *)
Definition machine_of `{UdpSocket, UdpWriter} (h : Host) (s : io) (o : wio) : Machine :=
  mkMachine _ _ (h_inner h) (h_gen h) (h_senders h) s o (h_issued h) [] (h_quinn h) (h_wire h).

(** Fuel that is enough for a poll. *)
Definition enough `{UdpSocketState} (s : io) : nat := 2 * length (backlog s) + 2.

Section runtime.
Context {X : Type} `{BlockCipher, Rng, QuinnCid, UdpSocketState, UdpWriter}.
Context (dflt : RecvMeta X) (peers : Peers) (n : nat).

(** Quinn asks for a connection ID, for a sender, polls to receive with buffers of [n]
    bytes, or polls a sender; datagrams and errors arrive; the socket's readiness to
    write changes. *)
Inductive machine_step : rng → Machine → rng → Machine → Prop :=
| machine_issue g m remote local cid gen' g' :
    generate_cid_for (m_gen m) remote local g = Done (cid, gen', g') →
    machine_step g m g'
      (mkMachine _ _ (m_inner m) gen' (m_senders m) (m_in m) (m_out m)
         (m_issued m ++ [(bound_source remote, ConnectionId_bytes cid)]) (m_arrived m) (m_quinn m) (m_wire m))
| machine_create g m i :
    m_senders m !! i = None →
    machine_step g m g
      (mkMachine _ _ (m_inner m) (m_gen m) (<[i := create_sender]> (m_senders m)) (m_in m) (m_out m)
         (m_issued m) (m_arrived m) (m_quinn m) (m_wire m))
| machine_arrive g m evs s' :
    io_wf s' → backlog s' = backlog (m_in m) ++ evs →
    machine_step g m g
      (mkMachine _ _ (m_inner m) (m_gen m) (m_senders m) s' (m_out m)
         (m_issued m) (m_arrived m ++ evs) (m_quinn m) (m_wire m))
| machine_recv g m bufs metas r inner' st :
    slots n bufs metas → bufs ≠ [] →
    poll_recv_io dflt (enough (m_in m)) (m_inner m) bufs metas (m_in m) = Some (Done (r, inner', st)) →
    machine_step g m g
      (mkMachine _ _ inner' (m_gen m) (m_senders m) (is_io st) (m_out m)
         (m_issued m) (m_arrived m) (m_quinn m ++ handed r (with_rx st [])) (m_wire m))
| machine_writable g m o' :
    machine_step g m g
      (mkMachine _ _ (m_inner m) (m_gen m) (m_senders m) (m_in m) o'
         (m_issued m) (m_arrived m) (m_quinn m) (m_wire m))
| machine_send g m fuel i w t r w' st :
    m_senders m !! i = Some w → sendable t →
    poll_send_io fuel i w t (mkWriteState (counters (m_inner m)) (m_wire m) (m_out m)) = Some (Done (r, w', st)) →
    machine_step g m g
      (mkMachine _ _ (mkInner (authenticator (m_inner m)) (ws_counters st)) (m_gen m)
         (<[i := w']> (m_senders m)) (m_in m) (ws_io st) (m_issued m) (m_arrived m) (m_quinn m) (ws_wire st)).

Record Runtime := mkRuntime {
  r_rng : rng; r_client : Machine; r_server : Machine; r_initial : list (list byte) }.

Inductive runtime_step : Runtime → Runtime → Prop :=
| runtime_client R g' m' :
    machine_step (r_rng R) (r_client R) g' m' →
    runtime_step R (mkRuntime g' m' (r_server R) (r_initial R))
| runtime_server R g' m' :
    machine_step (r_rng R) (r_server R) g' m' →
    runtime_step R (mkRuntime g' (r_client R) m' (r_initial R))
| runtime_dials R cid g' :
    initial_dst_cid_provider peers (r_rng R) = Done (cid, g') →
    runtime_step R (mkRuntime g' (r_client R) (r_server R) (r_initial R ++ [ConnectionId_bytes cid])).

(** ** Simulation *)

(** A host of [System.v] that has done what a machine did: what it read and what is
    still in the backlog is what arrived, cut to the buffers. *)
Record machine_sim (m : Machine) (h : Host) : Prop := {
  sim_inner : h_inner h = m_inner m;
  sim_gen : h_gen h = m_gen m;
  sim_senders : h_senders h = m_senders m;
  sim_issued : h_issued h = m_issued m;
  sim_quinn : h_quinn h = m_quinn m;
  sim_wire : h_wire h = m_wire m;
  sim_wf : io_wf (m_in m);
  sim_read : datagrams (h_read h) ++ datagrams (map (cut n) (backlog (m_in m))) =
             datagrams (map (cut n) (m_arrived m)) }.

Record runtime_sim (R : Runtime) (w : World) : Prop := {
  sim_rng : w_rng w = r_rng R;
  sim_client : machine_sim (r_client R) (w_client w);
  sim_server : machine_sim (r_server R) (w_server w);
  sim_initial : w_initial w = r_initial R }.

(** Both programs have come up, on sockets on which nothing has arrived. *)
Definition booted `{TlsLib} (cargs : Args) (sargs : ServerArgs) (R : Runtime) (w : World) : Prop :=
  started cargs sargs peers w ∧
  ∃ ci co si so, io_wf ci ∧ backlog ci = [] ∧ io_wf si ∧ backlog si = [] ∧
    R = mkRuntime (w_rng w) (machine_of (w_client w) ci co) (machine_of (w_server w) si so) (w_initial w).
End runtime.

Ltac sims := split; cbn [h_inner h_gen h_senders h_issued h_read h_quinn h_wire m_inner m_gen m_senders m_in m_out
  m_issued m_arrived m_quinn m_wire]; try done.

Section simulation.
Context {X : Type} `{BlockCipherLaws, RngLaws, QuinnCidLaws, UdpSocketLaws, UdpWriter}.
Context (dflt : RecvMeta X) (peers : Peers) (n : nat).

Lemma datagrams_cut_app evs evs' :
  datagrams (map (cut n) (evs ++ evs')) = datagrams (map (cut n) evs) ++ datagrams (map (cut n) evs').
Proof. by rewrite map_app, datagrams_app. Qed.

Lemma length_datagrams_cut evs : length (datagrams (map (cut n) evs)) = length (datagrams evs).
Proof. induction evs as [|[data addr|e] evs IH]; cbn; [done|by f_equal|done]. Qed.

(** A datagram that arrived and fits the buffers is read as it is. *)
Lemma datagrams_cut_in evs data addr :
  RxDatagram data addr ∈ evs → length data ≤ n → (data, addr, length data) ∈ datagrams (map (cut n) evs).
Proof.
  intros Hin Hl. apply list_elem_of_omap. exists (RxDatagram data addr). split; [|done].
  apply list_elem_of_fmap. exists (RxDatagram data addr). split; [|done]. cbn. by rewrite take_ge.
Qed.

(** What Quinn was handed, what it will be handed from the backlog, and the counter. *)
Lemma machine_sim_accepted auth gen m h :
  machine_sim n m h → host_inv auth gen h →
  m_quinn m ++ accepted auth (map (cut n) (backlog (m_in m))) = accepted auth (map (cut n) (m_arrived m)) ∧
  received (counted auth (counters (m_inner m)) (map (cut n) (backlog (m_in m)))) =
    wrap 64 (Z.of_nat (length (datagrams (m_arrived m)))).
Proof.
  intros [Hin _ _ _ Hq _ _ Hrd] [_ _ _ Hc Hquinn _ _]. split.
  - rewrite <- Hq, Hquinn. unfold accepted. by rewrite <- List.filter_app, Hrd.
  - rewrite <- Hin, Hc, <- (length_datagrams_cut (m_arrived m)), <- Hrd.
    unfold tallied, sent_counted, counted. cbn [received]. rewrite wrap_add_l, length_app, Nat2Z.inj_add. by f_equal.
Qed.

(** A poll on the socket object with enough fuel is a poll of the list model, on what
    it took from the backlog. *)
Lemma poll_recv_io_sim (self : Inner Authenticator) bufs metas s r self' st :
  io_wf s → slots n bufs metas → bufs ≠ [] →
  poll_recv_io dflt (enough s) self bufs metas s = Some (Done (r, self', st)) →
  ∃ rdy used taken, poll_recv dflt self bufs metas rdy used = Done (r, self', with_rx st []) ∧
    fits bufs used ∧ poll_took n s r st taken used.
Proof.
  intros Hw Hs Hne E.
  destruct (recv_loop_io_runs dflt n (authenticator self) (io_left s) (enough s) (mkIoState (counters self) bufs metas s))
    as (r' & st' & taken & used & rdy & Eio & Ht & Hrun & _); [done..|cbn [is_io]; unfold io_left, enough; destruct (recv_ready s); lia|].
  unfold poll_recv_io in E. rewrite Eio in E. injection E as <- <- <-.
  exists rdy, used, taken. split; [|split; [by eapply used_fits|done]].
  specialize (Hrun []). rewrite app_nil_r in Hrun. unfold poll_recv. unfold with_rx in Hrun at 1. cbn in Hrun.
  by rewrite Hrun.
Qed.

Lemma machine_step_sim g m g' m' h :
  machine_step dflt n g m g' m' → machine_sim n m h →
  ∃ h', ((g', h') = (g, h) ∨ host_step dflt g h g' h') ∧ machine_sim n m' h'.
Proof.
  intros Hstep Hsim. pose proof Hsim as [Hin Hg Hsd His Hq Hw Hwf Hrd]. destruct Hstep as
    [g m remote local cid gen' g' E|g m i Hfresh|g m evs s' Hwf' Eb|g m bufs metas r inner' st Hsl Hne E
    |g m o'|g m fuel i w t r w' st Hi Ht E].
  - eexists. split; [right; eapply host_issue; by rewrite Hg|]. sims. by rewrite His.
  - eexists. split; [right; apply (host_create dflt g h i); by rewrite Hsd|]. sims. by rewrite Hsd.
  - exists h. split; [by left|]. sims. by rewrite Eb, !datagrams_cut_app, app_assoc, Hrd.
  - destruct (poll_recv_io_sim _ _ _ _ _ _ _ Hwf Hsl Hne E) as (rdy & used & taken & Ep & Hf & [Hb Hwf' _ Hd _ _]).
    eexists. split.
    + right. eapply (host_recv dflt g h bufs metas rdy used); [done|by destruct Hsl|rewrite Hin; exact Ep|].
      cbn. by rewrite app_nil_r.
    + sims; [by rewrite Hq|]. rewrite datagrams_app, Hd, <- app_assoc, <- datagrams_cut_app, <- Hb. done.
  - exists h. split; [by left|]. sims.
  - destruct (poll_send_io_refines _ _ _ _ _ _ E) as (wr & used & Hu). specialize (Hu []). rewrite app_nil_r in Hu.
    eexists. split.
    + right. eapply (host_send dflt g h i w t wr used); [by rewrite Hsd|done|rewrite Hin, Hw; exact Hu|].
      cbn. by rewrite app_nil_r.
    + sims; by rewrite ?Hin, ?Hsd.
Qed.

Lemma runtime_step_sim R R' w :
  runtime_step dflt peers n R R' → runtime_sim n R w →
  ∃ w', rtc (world_step dflt peers) w w' ∧ runtime_sim n R' w'.
Proof.
  intros Hstep [Hg Hc Hs Hi]. destruct Hstep as [R g' m' Hm|R g' m' Hm|R cid g' E].
  - destruct (machine_step_sim _ _ _ _ _ Hm Hc) as (h' & [[= -> ->]|Hh] & Hsim).
    + exists w. split; [apply rtc_refl|by split].
    + eexists. split; [apply rtc_once, client_moves; rewrite Hg; exact Hh|by split].
  - destruct (machine_step_sim _ _ _ _ _ Hm Hs) as (h' & [[= -> ->]|Hh] & Hsim).
    + exists w. split; [apply rtc_refl|by split].
    + eexists. split; [apply rtc_once, server_moves; rewrite Hg; exact Hh|by split].
  - eexists. split; [apply rtc_once, client_dials; rewrite Hg; exact E|]. split; [done..|]. cbn. by rewrite Hi.
Qed.

Lemma runtime_run_sim R R' w :
  rtc (runtime_step dflt peers n) R R' → runtime_sim n R w →
  ∃ w', rtc (world_step dflt peers) w w' ∧ runtime_sim n R' w'.
Proof.
  intros Hr. revert w. induction Hr as [R|R R1 R2 Hstep _ IH]; intros w Hsim; [by exists w; split; [apply rtc_refl|]|].
  destruct (runtime_step_sim _ _ _ Hstep Hsim) as (w1 & Hw1 & Hsim1). destruct (IH w1 Hsim1) as (w2 & Hw2 & Hsim2).
  exists w2. split; [by etrans|done].
Qed.

Lemma machine_of_sim h s o : io_wf s → backlog s = [] → h_read h = [] → machine_sim n (machine_of h s o) h.
Proof. intros Hw Hb Hr. unfold machine_of. sims. by rewrite Hr, Hb. Qed.

Lemma booted_sim `{TlsLib} cargs sargs R w :
  booted peers cargs sargs R w → started cargs sargs peers w ∧ runtime_sim n R w.
Proof.
  intros [Hst (ci & co & si & so & Hci & Hbc & Hsi & Hbs & ->)]. split; [done|].
  pose proof Hst as [(? & ? & ? & ? & ? & ? & ? & ? & cep & _ & _ & Ec & _) (? & ? & ? & ? & ? & ? & ? & ? & ? & sep & _ & _ & Es) _ _].
  split; [done|apply machine_of_sim; [done..|by rewrite Ec]|apply machine_of_sim; [done..|by rewrite Es]|done].
Qed.
End simulation.

(** ** Theorems *)

Section theorems.
Context {X : Type} `{TlsLib, BlockCipherLaws, RngLaws, QuinnCidLaws, UdpSocketLaws, UdpWriter}.
Context (dflt : RecvMeta X) (peers : Peers) (n : nat).

(** C8: the programs on their sockets refine the system: every run of the two programs
    on socket objects that behave as Tokio documents, with whatever arrives, is a run
    of the system with the network's and the operating system's answers as inputs, in
    which the same connection IDs are issued, Quinn is handed the same datagrams, the
    same are written and the counters agree; and nothing is lost between the socket
    and the filter: what was read and what is in the backlog is what arrived. *)
Theorem programs_on_sockets_refine_the_system cargs sargs R0 w0 R :
  booted peers cargs sargs R0 w0 → rtc (runtime_step dflt peers n) R0 R →
  ∃ w, started cargs sargs peers w0 ∧ rtc (world_step dflt peers) w0 w ∧ runtime_sim n R w.
Proof.
  intros [Hst Hsim]%(booted_sim peers n) Hr. destruct (runtime_run_sim dflt peers n _ _ _ Hr Hsim) as (w & Hw & Hs).
  by exists w.
Qed.

(** C9: everything that ever arrived is dealt with: at any moment of any run of the
    programs on their sockets, if the server's receiving task is driven until it has to
    wait, then Quinn has been handed exactly the authentic part of everything that has
    arrived since the start, or all of it if validation is off, in the order of arrival
    and nothing twice; this is provided that no error is waiting in the backlog that the
    receive loop reports instead of passing over it. The count of datagrams read is
    exact, modulo 2^64; the task is registered; and every datagram from the client that has the
    connection ID of one of its connections, or from a peer with a connection ID issued
    to it, is among what was handed over, if it fits the buffers. *)
Theorem driven_server_has_served_everything cargs sargs R0 w0 R bufs metas :
  booted peers cargs sargs R0 w0 → rtc (runtime_step dflt peers n) R0 R →
  slots n bufs metas → bufs ≠ [] → Forall benign (backlog (m_in (r_server R))) →
  let srv := r_server R in
  ∃ l inner' s',
    drive dflt (length (backlog (m_in srv)) + 1) (enough (m_in srv)) (m_inner srv) bufs metas (m_in srv) =
      Some (l, None, inner', s') ∧
    m_quinn srv ++ l = accepted (server_filter sargs (server peers)) (map (cut n) (m_arrived srv)) ∧
    received (counters inner') = wrap 64 (Z.of_nat (length (datagrams (m_arrived srv)))) ∧
    backlog s' = [] ∧ recv_armed s' = true ∧
    ∀ data ip port cid,
      RxDatagram data (mkSocketAddr (V4 ip) port) ∈ m_arrived srv → length data ≤ n → quic_dcid data cid →
      (ip = client peers ∧ cid ∈ r_initial R) ∨ (ip, cid) ∈ m_issued srv →
      (data, mkSocketAddr (V4 ip) port, length data) ∈ m_quinn srv ++ l.
Proof.
  intros Hboot Hr Hsl Hne Hben srv. set (auth := server_filter sargs (server peers)).
  destruct (booted_sim peers n _ _ _ _ Hboot) as [Hst Hsim0].
  destruct (runtime_run_sim dflt peers n _ _ _ Hr Hsim0) as (w & Hw & [_ _ Hsim Hini]). fold srv in Hsim.
  destruct (reachable_started dflt _ _ _ _ _ Hst Hw) as [_ Hinv Htok].
  fold auth in Hinv.
  assert (authenticator (m_inner srv) = auth) as Ha by (rewrite <- (sim_inner _ _ _ Hsim); apply (inv_auth _ _ _ Hinv)).
  assert (wf_counters (counters (m_inner srv))) as Hwf
    by (rewrite <- (sim_inner _ _ _ Hsim), (inv_counters _ _ _ Hinv); apply tallied_wf).
  destruct (drive_runs dflt n (length (backlog (m_in srv)) + 1) (m_inner srv) bufs metas (m_in srv) (enough (m_in srv)))
    as (s' & E & _ & Hb & _ & Harm); [apply (sim_wf _ _ _ Hsim)|done..|lia|unfold io_left, enough; destruct (recv_ready _); lia|].
  rewrite Ha in E. destruct (machine_sim_accepted n _ _ _ _ Hsim Hinv) as [Hq Hc].
  eexists _, _, s'. split; [exact E|]. split; [exact Hq|]. split; [exact Hc|]. do 2 (split; [done|]).
  intros data ip port cid Harr Hlen Hcid Hwho. rewrite Hq. unfold accepted.
  apply list_elem_of_In, filter_In. split; [by apply list_elem_of_In, datagrams_cut_in|].
  unfold auth, server_filter. destruct (no_dcid_validation sargs); [done|].
  apply bool_decide_eq_true. cbn [filter_check Authenticator_filter sock_ip]. apply check_Ok.
  assert (∃ nonce, length nonce = 8 ∧ cid = token_of ClientToServer nonce ip (server peers)) as (nonce & Hn & ->).
  { destruct Hwho as [[-> Hin]|Hin].
    - rewrite <- Hini in Hin. rewrite Forall_forall in Htok. by apply Htok.
    - rewrite <- (sim_issued _ _ _ Hsim) in Hin. pose proof (inv_issued _ _ _ Hinv) as HF.
      rewrite Forall_forall in HF. exact (HF _ Hin). }
  by exists ip, nonce.
Qed.
End theorems.

(** ** Instances at concrete input

    Both programs come up; the client opens a connection; an error about another peer,
    three forged datagrams and the client's first one arrive at the server. *)

Definition ex_quiet : io (UdpSocket := kernel_socket) := mkKernel [] false true.
Definition ex_nic : wio (UdpWriter := nic_writer) := mkNic 4 true ∅.

Definition ex_r0 : Runtime (H0 := tape_rng) :=
  mkRuntime (H0 := tape_rng) ex_tape (machine_of ex_client_host ex_quiet ex_nic) (machine_of ex_server_host ex_quiet ex_nic) [].

Definition ex_r2 : Runtime (H0 := tape_rng) :=
  mkRuntime (H0 := tape_rng) [] (machine_of ex_client_host ex_quiet ex_nic)
    (mkMachine _ _ ex_socket (AuthCidGenerator_new ClientToServer ex_server) ∅ ex_kernel ex_nic []
       ([] ++ k_queue ex_kernel) [] []) [ex_token].

Lemma ex_booted : booted ex_peers ex_cargs ex_sargs ex_r0 ex_w0.
Proof.
  assert (io_wf ex_quiet) as Hq by (split; [done|by intros ?%not_elem_of_nil]).
  split; [exact ex_started|]. by exists ex_quiet, ex_nic, ex_quiet, ex_nic.
Qed.

Lemma ex_runtime_run : rtc (runtime_step ex_meta ex_peers 64) ex_r0 ex_r2.
Proof.
  eapply rtc_l.
  - apply (runtime_dials (H := aes128) (H0 := tape_rng) (H1 := bytes_cid) ex_meta ex_peers 64 ex_r0 ex_token []).
    vm_compute. reflexivity.
  - apply rtc_once. apply runtime_server.
    apply (machine_arrive (H := aes128) (H0 := tape_rng) (H1 := bytes_cid) ex_meta 64 ([] : rng (Rng := tape_rng)) (machine_of ex_server_host ex_quiet ex_nic) (k_queue ex_kernel) ex_kernel ex_kernel_wf).
    reflexivity.
Qed.

Lemma programs_on_sockets_refine_the_system_witness :
  ∃ w, rtc (world_step ex_meta ex_peers) ex_w0 w ∧ w_initial w = [ex_token].
Proof.
  destruct (programs_on_sockets_refine_the_system ex_meta ex_peers 64 ex_cargs ex_sargs ex_r0 ex_w0 ex_r2
              ex_booted ex_runtime_run) as (w & _ & Hw & Hs).
  exists w. split; [exact Hw|exact (sim_initial _ _ _ Hs)].
Defined.

Lemma driven_server_has_served_everything_witness :
  ∃ l inner' s', drive ex_meta 6 12 ex_socket ex_bufs ex_metas ex_kernel = Some (l, None, inner', s') ∧
    (ex_datagram, ex_from, 58) ∈ l.
Proof.
  destruct (driven_server_has_served_everything ex_meta ex_peers 64 ex_cargs ex_sargs ex_r0 ex_w0 ex_r2 ex_bufs ex_metas
              ex_booted ex_runtime_run ex_slots ltac:(discriminate) ltac:(repeat constructor))
    as (l & inner' & s' & E & _ & _ & _ & _ & Hin).
  exists l, inner', s'. split; [exact E|]. apply (Hin ex_datagram ex_client 50000%Z ex_token).
  - vm_compute. repeat constructor.
  - vm_compute. repeat constructor.
  - apply destination_cid_iff. vm_compute. reflexivity.
  - left. split; [reflexivity|apply list_elem_of_here].
Defined.
