(* ===== verification/FilterService.v ===== *)
(** * What the crate promises: an authenticated datagram service

    The contract of the whole crate as a small abstract machine, and the proof that
    the two programs implement it. The machine knows nothing of polls, buffers,
    slots, readiness, retries or wrapping counters: a service of one side sees one
    datagram after the other and passes on those whose destination connection ID is
    a token of their path, sends datagrams, and issues tokens. A step of the
    programs is some number of steps of the machine, as one poll handles many
    datagrams or none. *)

From stdpp Require Import gmap relations.
From S2P Require Import Prelude Interfaces Aes Instances Auth AuthTheorems Datagram CidGenerator.
From S2P Require Import Socket Sender SocketTheorems Ping Endpoint Client Server System.

(** ** The abstract machine *)

(** The history of one side, with numbers that do not overflow. *)
Record Service := mkService {
  sv_seen : Z; sv_seen_bytes : Z;
  sv_passed : list (list byte * SocketAddr * nat);
  sv_dropped : Z;
  sv_sent : list (SocketAddr * list byte); sv_sent_bytes : Z;
  sv_issued : list (Ipv4Addr * list byte) }.

Definition idle_service : Service := mkService 0 0 [] 0 [] 0 [].

Section machine.
Context `{BlockCipher}.

(** [data] from [addr] carries a token made for direction [d] and the path from
    that address to [me]. *)
Definition genuine (d : Direction) (me : Ipv4Addr) (data : list byte) (addr : SocketAddr) : Prop :=
  ∃ ip nonce, sock_ip addr = V4 ip ∧ length nonce = NONCE_LEN ∧
    quic_dcid data (token_of d nonce ip me).

(** A side of the service at address [me] for the inbound direction [d]; the
    filter may be off. *)
Inductive service_step (filtering : bool) (d : Direction) (me : Ipv4Addr) : Service → Service → Prop :=
| service_passes s data addr :
    (filtering = true → genuine d me data addr) →
    service_step filtering d me s
      (mkService (sv_seen s + 1) (sv_seen_bytes s + Z.of_nat (length data))
         (sv_passed s ++ [(data, addr, length data)]) (sv_dropped s)
         (sv_sent s) (sv_sent_bytes s) (sv_issued s))
| service_drops s data addr :
    filtering = true → ¬ genuine d me data addr →
    service_step filtering d me s
      (mkService (sv_seen s + 1) (sv_seen_bytes s + Z.of_nat (length data))
         (sv_passed s) (sv_dropped s + 1)
         (sv_sent s) (sv_sent_bytes s) (sv_issued s))
| service_sends s to data written :
    service_step filtering d me s
      (mkService (sv_seen s) (sv_seen_bytes s) (sv_passed s) (sv_dropped s)
         (sv_sent s ++ [(to, data)]) (sv_sent_bytes s + Z.of_nat written) (sv_issued s))
| service_issues s peer nonce :
    length nonce = NONCE_LEN →
    service_step filtering d me s
      (mkService (sv_seen s) (sv_seen_bytes s) (sv_passed s) (sv_dropped s)
         (sv_sent s) (sv_sent_bytes s) (sv_issued s ++ [(peer, token_of d nonce peer me)])).

(** The client's side, the server's side and the first connection IDs of the
    client's connections. *)
Definition System_spec : Type := Service * Service * list (list byte).

Inductive system_spec_step (peers : Peers) (server_filters : bool) : System_spec → System_spec → Prop :=
| spec_client c c' s initial :
    service_step true ServerToClient (client peers) c c' →
    system_spec_step peers server_filters (c, s, initial) (c', s, initial)
| spec_server c s s' initial :
    service_step server_filters ClientToServer (server peers) s s' →
    system_spec_step peers server_filters (c, s, initial) (c, s', initial)
| spec_dials c s initial nonce :
    length nonce = NONCE_LEN →
    system_spec_step peers server_filters (c, s, initial)
      (c, s, initial ++ [token_of ClientToServer nonce (client peers) (server peers)]).

(** What a service would publish through 64-bit counters. *)
Definition published (s : Service) : PacketCounts :=
  mkPacketCounts (Z.of_nat (length (sv_sent s)) mod 2 ^ 64) (sv_sent_bytes s mod 2 ^ 64)
    (sv_seen s mod 2 ^ 64) (sv_seen_bytes s mod 2 ^ 64) (sv_dropped s mod 2 ^ 64).
End machine.

(** ** The abstraction *)

Definition service_of (h : Host) : Service :=
  mkService (Z.of_nat (length (datagrams (h_read h)))) (total_bytes (datagrams (h_read h)))
    (h_quinn h) (Z.of_nat (length (datagrams (h_read h))) - Z.of_nat (length (h_quinn h)))
    (h_wire h) (sum_ok (h_outcomes h)) (h_issued h).

Definition spec_of `{Rng} (w : World) : System_spec :=
  (service_of (w_client w), service_of (w_server w), w_initial w).

(** ** Simulation *)

Section simulation.
Context {X : Type} `{TlsLib, BlockCipherLaws, RngLaws, QuinnCidLaws} (dflt : RecvMeta X).

Definition filter_of (filtering : bool) (d : Direction) (me : Ipv4Addr) : option Authenticator :=
  if filtering then Some (Authenticator_new d me) else None.

(** The filter passes what the machine may pass. *)
Lemma accepts_genuine filtering d me data addr :
  accepts (filter_of filtering d me) data addr = true ↔ (filtering = true → genuine d me data addr).
Proof.
  destruct filtering; cbn [accepts filter_of]; [|by split].
  rewrite bool_decide_eq_true. cbn [filter_check Authenticator_filter]. rewrite check_Ok.
  split; [intros (ip & nonce & ? & ? & ?) _; by exists ip, nonce|].
  intros (ip & nonce & ? & ? & ?); [done|]. by exists ip, nonce.
Qed.

(** Reading the outcomes [used], whatever the batches they came in. *)
Lemma reads_simulated filtering d me used : ∀ s,
  rtc (service_step filtering d me) s
    (mkService (sv_seen s + Z.of_nat (length (datagrams used))) (sv_seen_bytes s + total_bytes (datagrams used))
       (sv_passed s ++ accepted (filter_of filtering d me) used)
       (sv_dropped s + (Z.of_nat (length (datagrams used)) -
                        Z.of_nat (length (accepted (filter_of filtering d me) used))))
       (sv_sent s) (sv_sent_bytes s) (sv_issued s)).
Proof.
  induction used as [|[data addr|e] used IH]; intros s.
  - cbn. rewrite !Z.add_0_r, app_nil_r. destruct s. reflexivity.
  - assert (Z.of_nat (length (datagrams (RxDatagram data addr :: used))) =
            Z.of_nat (length (datagrams used)) + 1)%Z as Hd
      by exact (Nat2Z.inj_succ (length (datagrams used))).
    assert (total_bytes (datagrams (RxDatagram data addr :: used)) =
            Z.of_nat (length data) + total_bytes (datagrams used))%Z as Ht by done.
    rewrite accepted_cons_datagram. destruct (accepts (filter_of filtering d me) data addr) eqn:Ha.
    + rewrite accepts_genuine in Ha. eapply rtc_l; [by apply (service_passes _ _ _ s data addr)|].
      etrans; [apply IH|]. cbn [sv_seen sv_seen_bytes sv_passed sv_dropped sv_sent sv_sent_bytes sv_issued].
      rewrite <- app_assoc. apply reflexive_eq. rewrite Hd, Ht. f_equal; cbn [length app]; lia.
    + assert (¬ (filtering = true → genuine d me data addr)) as Hn by (rewrite <- accepts_genuine; by rewrite Ha).
      assert (filtering = true) as Hf by (destruct filtering; [done|by destruct Hn]).
      eapply rtc_l; [apply (service_drops _ _ _ s data addr Hf); by intros ?; apply Hn|].
      etrans; [apply IH|]. cbn [sv_seen sv_seen_bytes sv_passed sv_dropped sv_sent sv_sent_bytes sv_issued].
      apply reflexive_eq. rewrite Hd, Ht. f_equal; cbn [length app]; lia.
  - exact (IH s).
Qed.

(** Writing [segs] with the outcomes [used], of which the successful ones are
    those of [segs]. *)
Lemma writes_simulated filtering d me to used : ∀ segs s,
  length segs = length (List.filter is_ok used) →
  rtc (service_step filtering d me) s
    (mkService (sv_seen s) (sv_seen_bytes s) (sv_passed s) (sv_dropped s)
       (sv_sent s ++ map (pair to) segs) (sv_sent_bytes s + sum_ok used) (sv_issued s)).
Proof.
  induction used as [|[n|e] used IH]; intros segs s Hl.
  - destruct segs; [|done]. cbn. rewrite Z.add_0_r, app_nil_r. destruct s. reflexivity.
  - destruct segs as [|seg segs]; [done|]. injection Hl as Hl.
    eapply rtc_l; [apply (service_sends _ _ _ s to seg n)|]. etrans; [by apply IH|].
    cbn [sv_seen sv_seen_bytes sv_passed sv_dropped sv_sent sv_sent_bytes sv_issued].
    rewrite <- app_assoc. apply reflexive_eq. f_equal. unfold sum_ok. cbn [foldr]. lia.
  - exact (IH segs s Hl).
Qed.

(** Each step of an endpoint is some steps of the machine. *)
Lemma host_step_simulated filtering d me g h g' h' :
  host_inv (filter_of filtering d me) (AuthCidGenerator_new d me) h →
  host_step dflt g h g' h' → rtc (service_step filtering d me) (service_of h) (service_of h').
Proof.
  intros [Ha Hg Hs Hc Hq Hw Hi] Hstep. destruct Hstep as
    [g h remote local cid gen' g' E|g h i Hfresh|g h bufs metas rdy rx r inner' st used Hf Hm E Hrx
    |g h i w t wr tx r w' st used Hi' Ht E Htx].
  - destruct (generate_cid_for_eq (h_gen h) remote local g) as (nonce & cid' & Hn & E' & Hb).
    rewrite E in E'. injection E' as -> -> ->. rewrite Hg in Hb. cbn in Hb.
    apply rtc_once. unfold service_of at 2. fields. rewrite Hb.
    by apply (service_issues _ _ _ (service_of h)).
  - reflexivity.
  - destruct (poll_recv_spec dflt (h_inner h) bufs metas rdy rx Hf Hm) as (r' & st' & used' & E' & Hp).
    { rewrite Hc. apply tallied_wf. }
    rewrite E in E'. injection E' as <- -> <-. destruct Hp as [Hrx' _ _ _ _ Hh _]. cbn in Hrx'.
    rewrite Hrx in Hrx'. apply app_inv_tail in Hrx' as <-. rewrite Ha in Hh.
    etrans; [apply (reads_simulated filtering d me used)|]. apply reflexive_eq.
    unfold service_of. fields. cbn [sv_seen sv_seen_bytes sv_passed sv_dropped sv_sent sv_sent_bytes sv_issued].
    rewrite Hh, datagrams_app, total_bytes_app, !length_app, !Nat2Z.inj_add. f_equal; lia.
  - destruct (poll_send_spec t Ht wr w (mkSendState (counters (h_inner h)) (h_wire h) tx))
      as (r' & w'' & st' & used' & retried & final & E' & Hp).
    { exact (Hs _ _ Hi'). }
    { cbn. rewrite Hc. apply tallied_wf. }
    rewrite E in E'. injection E' as <- <- <-. destruct Hp as [Htx' Hwire Hn _ _ _ _].
    cbn [ss_tx ss_wire] in Htx', Hwire. rewrite Htx in Htx'. apply app_inv_tail in Htx' as <-.
    etrans; [apply (writes_simulated filtering d me (destination t) used _ (service_of h) Hn)|].
    apply reflexive_eq. unfold service_of. fields. by rewrite Hwire, sum_ok_app.
Qed.

(** The counters of an endpoint are the machine's numbers modulo 2^64. *)
Lemma counts_published auth gen h :
  host_inv auth gen h → counts (h_inner h) = published (service_of h).
Proof.
  intros [_ _ _ Hcnt Hq Hw _]. unfold counts, published, service_of.
  cbn [sv_seen sv_seen_bytes sv_passed sv_dropped sv_sent sv_sent_bytes]. rewrite Hcnt, Hw, Hq.
  unfold tallied, sent_counted, counted, wrap. cbn [sent sent_bytes received received_bytes rejected Counters_default].
  by rewrite !Z.add_0_l.
Qed.

Lemma rtc_client peers sf c c' s i :
  rtc (service_step true ServerToClient (client peers)) c c' →
  rtc (system_spec_step peers sf) (c, s, i) (c', s, i).
Proof. induction 1; [done|]. by eapply rtc_l; [apply spec_client|]. Qed.

Lemma rtc_server peers sf c s s' i :
  rtc (service_step sf ClientToServer (server peers)) s s' →
  rtc (system_spec_step peers sf) (c, s, i) (c, s', i).
Proof. induction 1; [done|]. by eapply rtc_l; [apply spec_server|]. Qed.

(** The simulation diagram of the whole system. *)
Lemma world_step_simulated peers sf w w' :
  world_inv peers (filter_of true ServerToClient (client peers)) (filter_of sf ClientToServer (server peers))
    (AuthCidGenerator_new ServerToClient (client peers))
    (AuthCidGenerator_new ClientToServer (server peers)) w →
  world_step dflt peers w w' → rtc (system_spec_step peers sf) (spec_of w) (spec_of w').
Proof.
  intros [Hc Hs _] Hstep. destruct Hstep as [w g' h' Hh|w g' h' Hh|w cid g' E].
  - apply rtc_client. by eapply host_step_simulated.
  - apply rtc_server. by eapply host_step_simulated.
  - apply rtc_once. unfold initial_dst_cid_provider, mint in E. cbn [direction_path] in E.
    destruct (mint_between_eq ClientToServer (client peers) (server peers) (w_rng w)) as (nonce & Hn & _ & Em).
    rewrite Em in E. injection E as <- _. unfold spec_of. cbn [w_client w_server w_initial].
    rewrite ConnectionId_bytes_new by by rewrite length_token_of. by apply spec_dials.
Qed.

Lemma run_simulated peers sf w w' :
  rtc (world_step dflt peers) w w' →
  world_inv peers (filter_of true ServerToClient (client peers)) (filter_of sf ClientToServer (server peers))
    (AuthCidGenerator_new ServerToClient (client peers))
    (AuthCidGenerator_new ClientToServer (server peers)) w →
  rtc (system_spec_step peers sf) (spec_of w) (spec_of w').
Proof.
  induction 1 as [|w w1 w' Hstep Hr IH]; intros Hinv; [done|].
  etrans; [by apply world_step_simulated|]. apply IH. by eapply world_step_inv.
Qed.

(** C5: the two programs implement the service: every run of client and server,
    against any network and under any interleaving of Quinn's calls, is a run of the
    abstract machine from its idle state, in which each datagram is passed on or
    dropped on its own by the genuineness of its token, nothing is reordered, and
    every issued connection ID is a token for its peer; and what the sockets publish
    is what the machine counts, modulo 2^64. *)
Theorem programs_implement_the_service cargs sargs peers w0 w :
  started cargs sargs peers w0 → rtc (world_step dflt peers) w0 w →
  rtc (system_spec_step peers (negb (no_dcid_validation sargs)))
    (idle_service, idle_service, []) (spec_of w) ∧
  counts (h_inner (w_client w)) = published (service_of (w_client w)) ∧
  counts (h_inner (w_server w)) = published (service_of (w_server w)).
Proof.
  intros Hs Hr. pose proof (started_inv _ _ _ _ Hs) as (_ & _ & Hi).
  pose proof (reachable_started dflt _ _ _ _ _ Hs Hr) as [Hc Hsv _].
  split_and!; [|by eapply counts_published..].
  assert ((idle_service, idle_service, []) = spec_of w0) as ->.
  { destruct Hs as [(? & ? & ? & ? & ? & ? & ? & ? & ? & _ & _ & Ec & _)
                    (? & ? & ? & ? & ? & ? & ? & ? & ? & ? & _ & _ & Es) _ E0].
    unfold spec_of. by rewrite Ec, Es, E0. }
  apply run_simulated; [done|]. unfold server_filter in Hi. unfold filter_of.
  by destruct (no_dcid_validation sargs).
Qed.

(** C17: in every reachable state the data is well-formed: the counters are 64-bit
    words, no sender keeps a completed future, every connection ID handed out has
    exactly the length the generator announces to Quinn, and the stride of every
    datagram Quinn was handed is its length. *)
Theorem reachable_states_are_well_formed cargs sargs peers w0 w h :
  started cargs sargs peers w0 → rtc (world_step dflt peers) w0 w →
  h = w_client w ∨ h = w_server w →
  wf_counters (counters (h_inner h)) ∧
  map_Forall (fun _ s => s ≠ Some Completed) (h_senders h) ∧
  Forall (fun cid => length cid = gen_cid_len (h_gen h)) (map snd (h_issued h) ++ w_initial w) ∧
  Forall (fun '(data, _, stride) => stride = length data) (h_quinn h).
Proof.
  intros Hs Hr Hh. destruct (reachable_started dflt _ _ _ _ _ Hs Hr) as [Hc Hsv Hi].
  assert (∃ auth gen, host_inv auth gen h) as (auth & gen & [_ _ Hsend Hcnt Hq _ Hiss])
    by (destruct Hh as [->| ->]; by eexists _, _).
  split_and!; [rewrite Hcnt; apply tallied_wf|done|apply Forall_app; split|].
  - apply Forall_fmap. eapply Forall_impl; [exact Hiss|]. intros [src cid] (nonce & Hn & ->).
    by apply length_token_of.
  - eapply Forall_impl; [exact Hi|]. intros cid (nonce & Hn & ->). by apply length_token_of.
  - rewrite Hq. apply Forall_forall. intros [[data addr] n] Hin.
    apply list_elem_of_In, filter_In in Hin as [Hin _]. apply list_elem_of_In, list_elem_of_omap in Hin.
    destruct Hin as ([d a|e] & _ & [= <- <- <-]). done.
Qed.
End simulation.

(** ** Instances at concrete input *)

Lemma programs_implement_the_service_witness :
  rtc (system_spec_step ex_peers true) (idle_service, idle_service, []) (spec_of ex_w2) ∧
  counts (h_inner (w_server ex_w2)) = published (service_of (w_server ex_w2)).
Proof.
  destruct (programs_implement_the_service ex_meta ex_cargs ex_sargs ex_peers ex_w0 ex_w2 ex_started ex_run)
    as (Hr & _ & Hs).
  exact (conj Hr Hs).
Defined.

Lemma reachable_states_are_well_formed_witness :
  wf_counters (counters (h_inner (w_server ex_w2))).
Proof.
  exact (proj1 (reachable_states_are_well_formed ex_meta ex_cargs ex_sargs ex_peers ex_w0 ex_w2
                  (w_server ex_w2) ex_started ex_run (or_intror eq_refl))).
Defined.
