(* ===== verification/Conversation.v ===== *)
(** * A conversation between the two programs

    The runs of [System.v] in which Quinn does what the two sides are configured
    for: the client addresses its datagrams with the first connection ID of a
    connection or with one the server issued to it, the server with those the
    client issued to it. The network stays unconstrained: it may lose, repeat,
    reorder and redirect what was written, and add anything of its own. Quinn then
    sees exactly what its peer wrote, and every other datagram is counted as
    rejected; and a client whose address is not the one it mints its tokens for is
    cut off. *)

From stdpp Require Import gmap relations.
From S2P Require Import Prelude Interfaces Aes Instances Auth AuthTheorems Datagram CidGenerator.
From S2P Require Import Socket Sender SocketTheorems Ping Endpoint Client Server System FilterService.

(** ** What the two sides say *)

(** All that the client has written carries a connection ID it was given for the
    server, all that the server has written to the client one the client issued. *)
Record speaks (peers : Peers) `{Rng} (w : World) : Prop := {
  client_speaks to data : (to, data) ∈ h_wire (w_client w) →
    ∃ cid, quic_dcid data cid ∧ (cid ∈ w_initial w ∨ (client peers, cid) ∈ h_issued (w_server w));
  server_speaks to data : (to, data) ∈ h_wire (w_server w) → sock_ip to = V4 (client peers) →
    ∃ cid, quic_dcid data cid ∧ (server peers, cid) ∈ h_issued (w_client w)
}.

(** Of what one side has read, the part its peer wrote, as received from the
    peer's address. *)
Definition from_peer (peer : Ipv4Addr) (wire : list (SocketAddr * list byte))
    (d : list byte * SocketAddr * nat) : bool :=
  let '(data, addr, _) := d in
  bool_decide (sock_ip addr = V4 peer) && bool_decide (data ∈ map snd wire).

(** What was written to one address. *)
Definition written_to (ip : Ipv4Addr) (wire : list (SocketAddr * list byte)) : list (SocketAddr * list byte) :=
  List.filter (fun '(to, _) => bool_decide (sock_ip to = V4 ip)) wire.

(** What a host has heard from its peer, and the rest of what it has read. *)
Definition heard (peer : Ipv4Addr) (wire : list (SocketAddr * list byte)) (h : Host)
    : list (list byte * SocketAddr * nat) := List.filter (from_peer peer wire) (datagrams (h_read h)).

Definition foreign (peer : Ipv4Addr) (wire : list (SocketAddr * list byte)) (h : Host)
    : list (list byte * SocketAddr * nat) :=
  List.filter (fun d => negb (from_peer peer wire d)) (datagrams (h_read h)).

(** The network has not come up with a valid token of its own. *)
Definition unforged `{BlockCipher} (d : Direction) (me peer : Ipv4Addr) (wire : list (SocketAddr * list byte))
    (h : Host) : Prop :=
  ∀ data addr n, (data, addr, n) ∈ foreign peer wire h → ¬ genuine d me data addr.

Lemma filter_partition {A} (p : A → bool) l :
  length l = length (List.filter p l) + length (List.filter (fun x => negb (p x)) l).
Proof. induction l as [|x l IH]; cbn; [done|]. destruct (p x); cbn; lia. Qed.

Section lemmas.
Context `{BlockCipherLaws}.

(** What a filter accepts, when it accepts just what satisfies [p]. *)
Lemma accepted_exactly auth read (p : list byte * SocketAddr * nat → bool) :
  (∀ data addr n, (data, addr, n) ∈ datagrams read → p (data, addr, n) = accepts auth data addr) →
  accepted auth read = List.filter p (datagrams read).
Proof.
  intros Hp. unfold accepted. apply List.filter_ext_in. intros [[data addr] n] Hin.
  rewrite (Hp data addr n); [done|by apply list_elem_of_In].
Qed.

(** One side: its peer writes datagrams with tokens of the path, and nobody else
    does. *)
Lemma host_hears d me peer wire gen h :
  host_inv (Some (Authenticator_new d me)) gen h →
  (∀ data, data ∈ map snd wire → ∃ nonce, length nonce = 8 ∧ quic_dcid data (token_of d nonce peer me)) →
  unforged d me peer wire h →
  h_quinn h = heard peer wire h ∧
  pc_rejected (counts (h_inner h)) = (Z.of_nat (length (foreign peer wire h)) mod 2 ^ 64)%Z.
Proof.
  intros Hinv Hwire Hun.
  assert (h_quinn h = heard peer wire h) as Hq.
  { rewrite (inv_quinn _ _ _ Hinv). apply accepted_exactly. intros data addr n Hin.
    destruct (from_peer peer wire (data, addr, n)) eqn:Hf; symmetry.
    - unfold from_peer in Hf. apply andb_true_iff in Hf as [Hip%bool_decide_eq_true Hd%bool_decide_eq_true].
      destruct (Hwire data Hd) as (nonce & Hn & Hq). apply (accepts_genuine true). intros _. by exists peer, nonce.
    - apply not_true_iff_false. intros Hacc. apply (accepts_genuine true) in Hacc; [|done].
      eapply Hun; [|exact Hacc]. apply list_elem_of_In, filter_In. rewrite Hf. by split; [apply list_elem_of_In|]. }
  split; [done|]. rewrite (counts_published _ _ _ Hinv). cbn [published pc_rejected service_of sv_dropped].
  f_equal. rewrite Hq. unfold heard, foreign.
  pose proof (filter_partition (from_peer peer wire) (datagrams (h_read h))). lia.
Qed.

(** A host without a filter hands everything on. *)
Lemma unfiltered_host gen h :
  host_inv None gen h → h_quinn h = datagrams (h_read h) ∧ pc_rejected (counts (h_inner h)) = 0%Z.
Proof.
  intros Hinv. assert (h_quinn h = datagrams (h_read h)) as Hq
    by (rewrite (inv_quinn _ _ _ Hinv); apply accepted_unfiltered).
  split; [done|]. rewrite (counts_published _ _ _ Hinv). cbn [published pc_rejected service_of sv_dropped].
  by rewrite Hq, Z.sub_diag.
Qed.

(** Whatever the client says carries a token of the path. *)
Lemma client_says `{Rng} peers cauth sauth cgen w data :
  world_inv peers cauth sauth cgen (AuthCidGenerator_new ClientToServer (server peers)) w → speaks peers w →
  data ∈ map snd (h_wire (w_client w)) →
  ∃ nonce, length nonce = 8 ∧ quic_dcid data (token_of ClientToServer nonce (client peers) (server peers)).
Proof.
  intros [_ Hs Hi] [Hcs _] ([to data'] & -> & Hin)%list_elem_of_fmap.
  destruct (Hcs to data' Hin) as (cid & Hq & [Hc|Hc]).
  - rewrite Forall_forall in Hi. destruct (Hi cid Hc) as (nonce & Hn & ->). by exists nonce.
  - pose proof (inv_issued _ _ _ Hs) as HF. rewrite Forall_forall in HF.
    destruct (HF _ Hc) as (nonce & Hn & ->). by exists nonce.
Qed.

Lemma server_says `{Rng} peers cauth sauth sgen w data :
  world_inv peers cauth sauth (AuthCidGenerator_new ServerToClient (client peers)) sgen w → speaks peers w →
  data ∈ map snd (written_to (client peers) (h_wire (w_server w))) →
  ∃ nonce, length nonce = 8 ∧ quic_dcid data (token_of ServerToClient nonce (server peers) (client peers)).
Proof.
  intros [Hc _ _] [_ Hss] ([to data'] & -> & Hin)%list_elem_of_fmap.
  apply list_elem_of_In, filter_In in Hin as [Hin Hto%bool_decide_eq_true].
  destruct (Hss to data' (proj2 (list_elem_of_In _ _) Hin) Hto) as (cid & Hq & Hi).
  pose proof (inv_issued _ _ _ Hc) as HF. rewrite Forall_forall in HF.
  destruct (HF _ Hi) as (nonce & Hn & ->). by exists nonce.
Qed.
End lemmas.

(** ** Theorems *)

Section theorems.
Context {X : Type} `{TlsLib, BlockCipherLaws, RngLaws, QuinnCidLaws} (dflt : RecvMeta X).

(** C6: in every run in which Quinn uses the connection IDs it was given: the client's
    Quinn, if the network finds no valid token of its own for the client, is handed
    exactly what the server wrote to it, in the order of arrival, repetitions included,
    and the client's socket counts exactly the rest as rejected, modulo 2^64; the same
    holds of the server with respect to the client, unless its validation is off: then
    its Quinn is handed all that is read and nothing is counted as rejected. *)
Theorem quinn_sees_exactly_the_conversation cargs sargs peers w0 w :
  started cargs sargs peers w0 → rtc (world_step dflt peers) w0 w → speaks peers w →
  let srv := w_server w in
  let cli := w_client w in
  (no_dcid_validation sargs = false →
   unforged ClientToServer (server peers) (client peers) (h_wire cli) srv →
   h_quinn srv = heard (client peers) (h_wire cli) srv ∧
   pc_rejected (counts (h_inner srv)) = (Z.of_nat (length (foreign (client peers) (h_wire cli) srv)) mod 2 ^ 64)%Z) ∧
  (no_dcid_validation sargs = true →
   h_quinn srv = datagrams (h_read srv) ∧ pc_rejected (counts (h_inner srv)) = 0%Z) ∧
  (unforged ServerToClient (client peers) (server peers) (written_to (client peers) (h_wire srv)) cli →
   h_quinn cli = heard (server peers) (written_to (client peers) (h_wire srv)) cli ∧
   pc_rejected (counts (h_inner cli)) =
     (Z.of_nat (length (foreign (server peers) (written_to (client peers) (h_wire srv)) cli)) mod 2 ^ 64)%Z).
Proof.
  intros Hs Hr Hsp srv cli. pose proof (reachable_started dflt _ _ _ _ _ Hs Hr) as Hinv. split; [|split].
  - intros Hv Hun. unfold server_filter in Hinv. rewrite Hv in Hinv.
    exact (host_hears _ _ _ _ _ _ (inv_server _ _ _ _ _ _ Hinv) (fun data => client_says _ _ _ _ _ data Hinv Hsp) Hun).
  - intros Hv. unfold server_filter in Hinv. rewrite Hv in Hinv. exact (unfiltered_host _ _ (inv_server _ _ _ _ _ _ Hinv)).
  - intros Hun.
    exact (host_hears _ _ _ _ _ _ (inv_client _ _ _ _ _ _ Hinv) (fun data => server_says _ _ _ _ _ data Hinv Hsp) Hun).
Qed.

(** C21: a client whose datagrams arrive from an address other than the one it mints
    its tokens for is cut off by a server that validates: in every run in which Quinn
    uses the connection IDs it was given, whatever the client has written and the server
    has read from such an address is handed to the server's Quinn exactly if the tags of two different cipher blocks agree, that of the path it
    claims and that of the path it uses. *)
Theorem translated_client_is_cut_off cargs sargs peers w0 w to data ip port n :
  started cargs sargs peers w0 → rtc (world_step dflt peers) w0 w →
  no_dcid_validation sargs = false → speaks peers w → ip ≠ client peers →
  (to, data) ∈ h_wire (w_client w) →
  (data, mkSocketAddr (V4 ip) port, n) ∈ datagrams (h_read (w_server w)) →
  ∃ nonce block block',
    block = encrypt_block (direction_key ClientToServer) (nonce ++ octets (client peers) ++ octets (server peers)) ∧
    block' = encrypt_block (direction_key ClientToServer) (nonce ++ octets ip ++ octets (server peers)) ∧
    block ≠ block' ∧
    ((data, mkSocketAddr (V4 ip) port, n) ∈ h_quinn (w_server w) ↔ take TAG_LEN block = take TAG_LEN block').
Proof.
  intros Hs Hr Hv Hsp Hne Hw Hread. pose proof (reachable_started dflt _ _ _ _ _ Hs Hr) as Hinv.
  unfold server_filter in Hinv. rewrite Hv in Hinv.
  destruct (client_says _ _ _ _ _ data Hinv Hsp) as (nonce & Hn & Hq).
  { apply list_elem_of_fmap. by exists (to, data). }
  eexists nonce, _, _. split; [done|]. split; [done|]. split; [by apply blocks_differ; [|congruence]|].
  rewrite (inv_quinn _ _ _ (inv_server _ _ _ _ _ _ Hinv)). unfold accepted.
  rewrite list_elem_of_In, filter_In, <- list_elem_of_In.
  change (Some (Authenticator_new ?d ?me)) with (filter_of true d me). rewrite accepts_genuine. fold TAG_LEN.
  change (take TAG_LEN _ = take TAG_LEN _) with
    (token_tag ClientToServer nonce (client peers) (server peers) = token_tag ClientToServer nonce ip (server peers)).
  split.
  - intros [_ Hg]. destruct (Hg eq_refl) as (ip' & nonce' & [= <-] & Hn' & Hq').
    pose proof (quic_dcid_unique _ _ _ Hq Hq') as E.
    pose proof (token_of_other_path ClientToServer nonce (client peers) (server peers) ip (server peers) Hn) as Ho.
    rewrite E, (proj2 (verify_spec_token_of _ _ _ _)) in Ho by (by exists nonce'). by case_decide.
  - intros E. split; [done|]. intros _. exists ip, nonce. split; [done|]. split; [done|].
    unfold token_of in *. by rewrite <- E.
Qed.
End theorems.

(** ** Instances at concrete input

    The client opens a connection and writes its first datagram; the server reads it
    after three copies that were sent from elsewhere. *)

Definition ex_to : SocketAddr := mkSocketAddr (V4 ex_server) 4433.

Definition ex_first : Transmit := mkTransmit ex_to ex_datagram None.

Definition ex_client_sender : Host :=
  mkHost (mkInner (Some (Authenticator_new ServerToClient ex_client)) Counters_default)
    (AuthCidGenerator_new ServerToClient ex_client) (<[0 := create_sender]> ∅) [] [] [] [] [].

Definition ex_client_sent : Host :=
  mkHost (mkInner (Some (Authenticator_new ServerToClient ex_client)) (mkCounters 1 58 0 0 0))
    (AuthCidGenerator_new ServerToClient ex_client) (<[0 := None]> (<[0 := create_sender]> ∅)) [] [] []
    ([] ++ [Ok 58]) [(ex_to, ex_datagram)].

Definition ex_c1 : World := mkWorld (H0 := tape_rng) [] ex_client_sender ex_server_host [ex_token].
Definition ex_c2 : World := mkWorld (H0 := tape_rng) [] ex_client_sent ex_server_host [ex_token].
Definition ex_c3 : World := mkWorld (H0 := tape_rng) [] ex_client_sent (w_server ex_w2) [ex_token].

Lemma ex_server_reads : host_step (H := aes128) (H0 := tape_rng) (H1 := bytes_cid) ex_meta [] ex_server_host [] (w_server ex_w2).
Proof.
  destruct (poll_recv ex_meta ex_socket ex_bufs ex_metas ex_rdy ex_rx) as [[[r inner] st]|] eqn:E;
    [|exfalso; revert E; vm_compute; discriminate].
  pose proof E as E'. vm_compute in E'. injection E' as <- <- <-.
  eapply (host_recv (H := aes128) (H0 := tape_rng) (H1 := bytes_cid) ex_meta [] ex_server_host ex_bufs ex_metas ex_rdy ex_rx _ _ _ ex_rx
           ex_fits ex_metas_enough E).
  vm_compute. reflexivity.
Qed.

Lemma ex_client_sends : host_step (H := aes128) (H0 := tape_rng) (H1 := bytes_cid) ex_meta [] ex_client_sender [] ex_client_sent.
Proof.
  destruct (poll_send None ex_first [Ready (Ok tt)] (mkSendState Counters_default [] [Ok 58])) as [[[r f] st]|] eqn:E;
    [|exfalso; revert E; vm_compute; discriminate].
  pose proof E as E'. vm_compute in E'. injection E' as <- <- <-.
  eapply (host_send (H := aes128) (H0 := tape_rng) (H1 := bytes_cid) ex_meta [] ex_client_sender 0 None ex_first _ _ _ _ _ [Ok 58]
           eq_refl ltac:(discriminate) E).
  reflexivity.
Qed.

Lemma ex_conversation : rtc (world_step ex_meta ex_peers) ex_w0 ex_c3.
Proof.
  eapply rtc_l; [apply (client_dials (H := aes128) (H0 := tape_rng) (H1 := bytes_cid) ex_meta ex_peers ex_w0 ex_token []);
                 vm_compute; reflexivity|].
  eapply rtc_l; [apply (client_moves ex_meta ex_peers ex_w1 [] ex_client_sender);
                 by apply (host_create (H := aes128) (H0 := tape_rng) (H1 := bytes_cid) ex_meta [] ex_client_host 0)|].
  eapply rtc_l; [exact (client_moves ex_meta ex_peers ex_c1 [] ex_client_sent ex_client_sends)|].
  apply rtc_once. exact (server_moves ex_meta ex_peers ex_c2 [] (w_server ex_w2) ex_server_reads).
Qed.

Lemma ex_speaks : speaks ex_peers ex_c3.
Proof.
  split.
  - intros to data Hin. apply list_elem_of_singleton in Hin. injection Hin as -> ->. exists ex_token.
    split; [apply destination_cid_iff; vm_compute; reflexivity|left; apply list_elem_of_here].
  - intros to data Hin. by apply not_elem_of_nil in Hin.
Qed.

Lemma ex_unforged : unforged ClientToServer ex_server ex_client (h_wire (w_client ex_c3)) (w_server ex_c3).
Proof.
  intros data addr n Hin Hg.
  assert (accepts (filter_of true ClientToServer ex_server) data addr = true) as Ha by (by apply accepts_genuine).
  assert (foreign ex_client (h_wire (w_client ex_c3)) (w_server ex_c3) = replicate 3 (ex_datagram, ex_attacker, 58)) as E
    by (vm_compute; reflexivity).
  rewrite E in Hin. apply elem_of_replicate_inv in Hin. injection Hin as -> -> _. by vm_compute in Ha.
Qed.

Lemma quinn_sees_exactly_the_conversation_witness :
  h_quinn (w_server ex_c3) = heard ex_client [(ex_to, ex_datagram)] (w_server ex_c3) ∧
  pc_rejected (counts (h_inner (w_server ex_c3))) = 3%Z.
Proof.
  destruct (proj1 (quinn_sees_exactly_the_conversation ex_meta ex_cargs ex_sargs ex_peers ex_w0 ex_c3 ex_started
              ex_conversation ex_speaks) eq_refl ex_unforged) as (Hq & Hr).
  split; [exact Hq|]. refine (eq_trans Hr _). vm_compute. reflexivity.
Defined.

Lemma translated_client_is_cut_off_witness :
  ∃ nonce block block',
    block = encrypt_block F_AB (nonce ++ octets ex_client ++ octets ex_server) ∧
    block' = encrypt_block F_AB (nonce ++ octets ex_elsewhere ++ octets ex_server) ∧ block ≠ block' ∧
    ((ex_datagram, ex_attacker, 58) ∈ h_quinn (w_server ex_c3) ↔ take TAG_LEN block = take TAG_LEN block').
Proof.
  apply (translated_client_is_cut_off ex_meta ex_cargs ex_sargs ex_peers ex_w0 ex_c3 ex_to ex_datagram ex_elsewhere 666 58
           ex_started ex_conversation eq_refl ex_speaks).
  - intros E. vm_compute in E. discriminate E.
  - apply list_elem_of_here.
  - vm_compute. apply list_elem_of_here.
Defined.
