(* ===== verification/Atomics.v ===== *)
(** * The counters under concurrency ([src/socket.rs])

    The socket's counters are five atomic cells that polls on different threads
    update with [fetch_add] and that [counts] reads one after the other. Here a
    poll is the sequence of its atomic additions, polls run interleaved, and
    [counts] may be overtaken between any two of its loads. *)

From S2P Require Import Prelude Interfaces Aes Auth AuthTheorems Datagram Socket Sender SocketTheorems.

Inductive cell := CSent | CSentBytes | CReceived | CReceivedBytes | CRejected.

#[export] Instance cell_eq_dec : EqDecision cell.
Proof. solve_decision. Defined.

(** [fetch_add(n, Relaxed)] on a cell. *)
Record atomic_add := FetchAdd { at_cell : cell; at_value : Z }.

(** [load(Relaxed)]. *)
Definition load (x : cell) (c : Counters) : Z :=
  match x with
  | CSent => sent c
  | CSentBytes => sent_bytes c
  | CReceived => received c
  | CReceivedBytes => received_bytes c
  | CRejected => rejected c
  end.

Definition fetch_add (c : Counters) (op : atomic_add) : Counters :=
  let '(FetchAdd x n) := op in
  match x with
  | CSent => mkCounters (u64_wrapping_add (sent c) n) (sent_bytes c) (received c) (received_bytes c) (rejected c)
  | CSentBytes => mkCounters (sent c) (u64_wrapping_add (sent_bytes c) n) (received c) (received_bytes c) (rejected c)
  | CReceived => mkCounters (sent c) (sent_bytes c) (u64_wrapping_add (received c) n) (received_bytes c) (rejected c)
  | CReceivedBytes => mkCounters (sent c) (sent_bytes c) (received c) (u64_wrapping_add (received_bytes c) n) (rejected c)
  | CRejected => mkCounters (sent c) (sent_bytes c) (received c) (received_bytes c) (u64_wrapping_add (rejected c) n)
  end.

Definition run_adds (c : Counters) (ops : list atomic_add) : Counters := foldl fetch_add c ops.

(** The additions of a receiving poll, in program order, from what it read. *)
Definition recv_adds `{InboundFilter A} (auth : option A) (used : list rx_event) : list atomic_add :=
  flat_map (fun ev =>
    match ev with
    | RxDatagram data addr =>
        [FetchAdd CReceived 1; FetchAdd CReceivedBytes (Z.of_nat (length data))] ++
        (if accepts auth data addr then [] else [FetchAdd CRejected 1])
    | RxError _ => []
    end) used.

(** The additions of a sending poll, from the outcomes of its writes. *)
Definition send_adds (used : list (result nat ErrorKind)) : list atomic_add :=
  flat_map (fun r =>
    match r with
    | Ok n => [FetchAdd CSent 1; FetchAdd CSentBytes (Z.of_nat n)]
    | Err _ => []
    end) used.

(** Threads that each have a list of additions left to do, run in some order. *)
Inductive interleaving : list (list atomic_add) → list atomic_add → Prop :=
| interleaving_done threads : Forall (eq []) threads → interleaving threads []
| interleaving_step threads i op rest ops :
    threads !! i = Some (op :: rest) → interleaving (<[i := rest]> threads) ops →
    interleaving threads (op :: ops).

(** [counts] with [p1] to [p5] done by others before each of its five loads. *)
Definition snapshot (c : Counters) (p1 p2 p3 p4 p5 : list atomic_add) : PacketCounts :=
  let c := run_adds c p1 in let s := load CSent c in
  let c := run_adds c p2 in let sb := load CSentBytes c in
  let c := run_adds c p3 in let r := load CReceived c in
  let c := run_adds c p4 in let rb := load CReceivedBytes c in
  let c := run_adds c p5 in let rj := load CRejected c in
  mkPacketCounts s sb r rb rj.

(** ** Lemmas *)

(** What a list of additions puts into one cell. *)
Definition total (x : cell) (ops : list atomic_add) : Z :=
  foldr (fun op n => (if decide (at_cell op = x) then at_value op else 0) + n)%Z 0%Z ops.

Lemma total_app x ops1 ops2 : total x (ops1 ++ ops2) = (total x ops1 + total x ops2)%Z.
Proof. unfold total. induction ops1 as [|op ops1 IH]; cbn in *; [done|]. rewrite IH. lia. Qed.

Lemma total_perm x ops1 ops2 : ops1 ≡ₚ ops2 → total x ops1 = total x ops2.
Proof. unfold total. induction 1; cbn in *; lia. Qed.

Lemma load_fetch_add x c op :
  is_u64 (load x c) →
  load x (fetch_add c op) = wrap 64 (load x c + (if decide (at_cell op = x) then at_value op else 0)).
Proof.
  intros Hu. destruct op as [y n]. cbn [at_cell at_value]. destruct (decide (y = x)) as [->|Hne].
  - by destruct x.
  - rewrite Z.add_0_r, wrap_small by done. by destruct x, y.
Qed.

Lemma wf_counters_load c : wf_counters c ↔ ∀ x, is_u64 (load x c).
Proof.
  unfold wf_counters. split; [intros (?&?&?&?&?) []; done|].
  intros Hl. exact (conj (Hl CSent) (conj (Hl CSentBytes) (conj (Hl CReceived)
    (conj (Hl CReceivedBytes) (Hl CRejected))))).
Qed.

Lemma Counters_ext c1 c2 : (∀ x, load x c1 = load x c2) → c1 = c2.
Proof.
  intros Hl. pose proof (Hl CSent). pose proof (Hl CSentBytes). pose proof (Hl CReceived).
  pose proof (Hl CReceivedBytes). pose proof (Hl CRejected). destruct c1, c2. cbn in *. congruence.
Qed.

(** After any additions, each cell holds its own total. *)
Lemma load_run_adds x ops : ∀ c,
  wf_counters c → load x (run_adds c ops) = wrap 64 (load x c + total x ops) ∧ wf_counters (run_adds c ops).
Proof.
  induction ops as [|op ops IH]; intros c Hwf; cbn [run_adds foldl].
  - split; [|done]. unfold total. cbn. rewrite Z.add_0_r, wrap_small; [done|]. by apply wf_counters_load.
  - assert (wf_counters (fetch_add c op)) as Hwf'.
    { apply wf_counters_load. intros y. rewrite load_fetch_add by (by apply wf_counters_load). apply wrap_u64. }
    destruct (IH _ Hwf') as [E Hr]. split; [|done]. unfold run_adds in E. rewrite E.
    rewrite load_fetch_add by (by apply wf_counters_load). rewrite wrap_add_l.
    unfold total. cbn [foldr]. f_equal. lia.
Qed.

Lemma run_adds_app c ops1 ops2 : run_adds c (ops1 ++ ops2) = run_adds (run_adds c ops1) ops2.
Proof. apply foldl_app. Qed.

(** The order of the additions does not matter. *)
Lemma run_adds_perm c ops1 ops2 : wf_counters c → ops1 ≡ₚ ops2 → run_adds c ops1 = run_adds c ops2.
Proof.
  intros Hwf Hp. apply Counters_ext. intros x.
  rewrite (proj1 (load_run_adds x ops1 c Hwf)), (proj1 (load_run_adds x ops2 c Hwf)).
  by rewrite (total_perm x _ _ Hp).
Qed.

Lemma interleaving_perm threads ops : interleaving threads ops → ops ≡ₚ concat threads.
Proof.
  induction 1 as [threads Hd|threads i op rest ops Hi Hint IH].
  - induction Hd as [|t threads <- _ IH]; [done|]. cbn. exact IH.
  - rewrite IH. clear IH Hint. revert i Hi. induction threads as [|t threads IH]; intros [|i] Hi; [done|done|..].
    + injection Hi as ->. done.
    + cbn [lookup list_lookup] in Hi. cbn [insert list_insert concat]. rewrite <- (IH i Hi).
      by rewrite Permutation_middle.
Qed.

Lemma recv_adds_app `{InboundFilter A} (auth : option A) u1 u2 :
  recv_adds auth (u1 ++ u2) = recv_adds auth u1 ++ recv_adds auth u2.
Proof. apply flat_map_app. Qed.

Lemma send_adds_app u1 u2 : send_adds (u1 ++ u2) = send_adds u1 ++ send_adds u2.
Proof. apply flat_map_app. Qed.

(** A receiving poll alone: its additions in program order are what it counts. *)
Lemma run_recv_adds `{InboundFilterLaws A} (auth : option A) used : ∀ c,
  wf_counters c → run_adds c (recv_adds auth used) = counted auth c used.
Proof.
  induction used as [|[data addr|e] used IH]; intros c Hwf.
  - symmetry. by apply counted_nil.
  - change (RxDatagram data addr :: used) with ([RxDatagram data addr] ++ used).
    rewrite recv_adds_app, run_adds_app, <- counted_app.
    assert (run_adds c (recv_adds auth [RxDatagram data addr]) = counted auth c [RxDatagram data addr]) as ->.
    { unfold recv_adds. cbn [flat_map]. destruct (accepts auth data addr) eqn:Ha.
      - rewrite <- (counted_accepted auth c data addr) by done. reflexivity.
      - rewrite <- (counted_rejected auth c data addr) by done. reflexivity. }
    apply IH. by apply counted_wf.
  - change (RxError e :: used) with ([RxError e] ++ used). rewrite <- counted_app, counted_error by done.
    by apply IH.
Qed.

Lemma run_send_adds used : ∀ c, wf_counters c → run_adds c (send_adds used) = sent_counted c used.
Proof.
  induction used as [|[n|e] used IH]; intros c Hwf.
  - symmetry. by apply sent_counted_nil.
  - change (Ok n :: used) with ([Ok n : result nat ErrorKind] ++ used).
    rewrite send_adds_app, run_adds_app, <- sent_counted_app.
    assert (run_adds c (send_adds [Ok n]) = sent_counted c [Ok n]) as ->.
    { rewrite (sent_counted_ok c n). reflexivity. }
    apply IH. by apply sent_counted_wf.
  - change (Err e :: used) with ([Err e : result nat ErrorKind] ++ used). rewrite <- sent_counted_app.
    assert (sent_counted c [Err e] = c) as ->; [|by apply IH].
    exact (sent_counted_nil c Hwf).
Qed.

Lemma concat_recv_adds `{InboundFilter A} (auth : option A) reads :
  concat (map (recv_adds auth) reads) = recv_adds auth (concat reads).
Proof. induction reads as [|u reads IH]; cbn [map concat]; [done|]. by rewrite recv_adds_app, IH. Qed.

Lemma concat_send_adds writes : concat (map send_adds writes) = send_adds (concat writes).
Proof. induction writes as [|u writes IH]; cbn [map concat]; [done|]. by rewrite send_adds_app, IH. Qed.

(** Additions of non-negative values that stay below 2^64 only ever raise a cell. *)
Lemma load_run_adds_between x c ops1 ops2 :
  wf_counters c → Forall (fun op => 0 <= at_value op)%Z (ops1 ++ ops2) →
  (load x c + total x (ops1 ++ ops2) < 2 ^ 64)%Z →
  (load x c <= load x (run_adds c ops1) <= load x (run_adds c (ops1 ++ ops2)))%Z.
Proof.
  intros Hwf Hpos Hb. rewrite total_app in Hb.
  assert (∀ ops, Forall (fun op => 0 <= at_value op)%Z ops → (0 <= total x ops)%Z) as Ht.
  { induction 1 as [|op ops Hop _ IH]; unfold total in *; cbn; [done|]. destruct (decide _); lia. }
  apply Forall_app in Hpos as [H1%Ht H2%Ht].
  pose proof (proj1 (wf_counters_load c) Hwf x) as [Hlo _].
  rewrite (proj1 (load_run_adds x ops1 c Hwf)), (proj1 (load_run_adds x (ops1 ++ ops2) c Hwf)), total_app.
  rewrite !wrap_small by (unfold is_u64; lia). lia.
Qed.

(** ** Theorems *)

Section theorems.
Context {A X : Type} `{InboundFilterLaws A} (dflt : RecvMeta X).

(** C15: treating a poll as one step loses nothing: what a receiving and a sending
    poll do to the counters is what their atomic additions do one by one, and
    however the additions of any number of concurrent polls interleave, the
    counters end up as if the polls had run one after the other. *)
Theorem interleaved_polls_count_exactly (self : Inner A) :
  wf_counters (counters self) →
  (∀ bufs metas rdy rx, fits bufs rx → length bufs ≤ length metas →
     ∃ r self' st used, poll_recv dflt self bufs metas rdy rx = Done (r, self', st) ∧
       rx = used ++ rs_rx st ∧
       counters self' = run_adds (counters self) (recv_adds (authenticator self) used)) ∧
  (∀ w t wr wire tx, w ≠ Some Completed → sendable t →
     ∃ r w' st used, poll_send w t wr (mkSendState (counters self) wire tx) = Done (r, w', st) ∧
       tx = used ++ ss_tx st ∧
       ss_counters st = run_adds (counters self) (send_adds used)) ∧
  (∀ reads writes ops,
     interleaving (map (recv_adds (authenticator self)) reads ++ map send_adds writes) ops →
     run_adds (counters self) ops =
       sent_counted (counted (authenticator self) (counters self) (concat reads)) (concat writes)).
Proof.
  intros Hwf. split; [|split].
  - intros bufs metas rdy rx Hf Hm.
    destruct (poll_recv_spec dflt self bufs metas rdy rx Hf Hm Hwf) as (r & st & used & E & [Hrx _ _ _ Hc _ _]).
    eexists r, _, st, used. split; [exact E|]. split; [exact Hrx|].
    cbn [counters]. rewrite run_recv_adds by done. exact Hc.
  - intros w t wr wire tx Hw Ht.
    destruct (poll_send_spec t Ht wr w (mkSendState (counters self) wire tx) Hw Hwf)
      as (r & w' & st & used & retried & final & E & [Htx _ _ Hc _ _ _]).
    exists r, w', st, used. split; [exact E|]. split; [exact Htx|].
    rewrite run_send_adds by done. exact Hc.
  - intros reads writes ops Hi. apply interleaving_perm in Hi.
    rewrite (run_adds_perm _ _ _ Hwf Hi), concat_app, concat_recv_adds, concat_send_adds, run_adds_app.
    rewrite run_recv_adds by done. apply run_send_adds. by apply counted_wf.
Qed.

(** C25: what [counts] returns while polls are running: without overflow each count
    lies between its values before and after the call, and a call that nothing
    overtakes returns the counters exactly. The five counts need not fit each
    other, though: a datagram read and rejected between the loads of [received]
    and [rejected] shows up in the latter only, so that more datagrams can be
    reported rejected than received. *)
Theorem counts_snapshot_is_bounded c p1 p2 p3 p4 p5 :
  wf_counters c →
  let all := p1 ++ p2 ++ p3 ++ p4 ++ p5 in
  let s := snapshot c p1 p2 p3 p4 p5 in
  (Forall (fun op => 0 <= at_value op)%Z all → (∀ x, load x c + total x all < 2 ^ 64)%Z →
   let c' := run_adds c all in
   (sent c <= pc_sent s <= sent c')%Z ∧ (sent_bytes c <= pc_sent_bytes s <= sent_bytes c')%Z ∧
   (received c <= pc_received s <= received c')%Z ∧
   (received_bytes c <= pc_received_bytes s <= received_bytes c')%Z ∧
   (rejected c <= pc_rejected s <= rejected c')%Z) ∧
  (∀ auth : option A, snapshot c [] [] [] [] [] = counts (mkInner auth c)) ∧
  (∀ (auth : option A) data addr, accepts auth data addr = false → received c = rejected c →
     (received c + 1 < 2 ^ 64)%Z →
     let torn := snapshot c [] [] [] [] (recv_adds auth [RxDatagram data addr]) in
     (pc_received torn < pc_rejected torn)%Z).
Proof.
  intros Hwf all s. split; [|split].
  - intros Hpos Hb c'. unfold s, snapshot. cbn [pc_sent pc_sent_bytes pc_received pc_received_bytes pc_rejected].
    rewrite <- !run_adds_app.
    assert (∀ x ops1 ops2, all = ops1 ++ ops2 →
              (load x c <= load x (run_adds c ops1) <= load x c')%Z) as Hx.
    { intros x ops1 ops2 E. unfold c'. rewrite E in *. by apply load_run_adds_between. }
    split; [exact (Hx CSent p1 _ eq_refl)|].
    split; [apply (Hx CSentBytes (p1 ++ p2) (p3 ++ p4 ++ p5)); unfold all; by rewrite <- !app_assoc|].
    split; [apply (Hx CReceived ((p1 ++ p2) ++ p3) (p4 ++ p5)); unfold all; by rewrite <- !app_assoc|].
    split; [apply (Hx CReceivedBytes (((p1 ++ p2) ++ p3) ++ p4) p5); unfold all; by rewrite <- !app_assoc|].
    apply (Hx CRejected ((((p1 ++ p2) ++ p3) ++ p4) ++ p5) []). unfold all. by rewrite app_nil_r, <- !app_assoc.
  - done.
  - intros auth data addr Ha Heq Hb. unfold snapshot, recv_adds. cbn [flat_map]. rewrite Ha.
    cbn -[u64_wrapping_add]. unfold u64_wrapping_add. destruct Hwf as (_ & _ & [Hr _] & _ & _).
    rewrite <- Heq, wrap_small by (unfold is_u64; lia). lia.
Qed.
End theorems.

(** ** Instances at concrete input *)

(** Two receiving polls and a sending one, interleaved. *)
Definition ex_forged_read : list rx_event := [RxDatagram ex_datagram ex_attacker].
Definition ex_genuine_read : list rx_event := [RxDatagram ex_datagram ex_from].

Lemma ex_interleaving :
  interleaving (map (recv_adds (authenticator ex_socket)) [ex_forged_read; ex_genuine_read] ++ map send_adds [[Ok 5]])
    [FetchAdd CReceived 1; FetchAdd CReceived 1; FetchAdd CSent 1; FetchAdd CReceivedBytes 58;
     FetchAdd CSentBytes 5; FetchAdd CReceivedBytes 58; FetchAdd CRejected 1].
Proof.
  apply (interleaving_step _ 0 _ [FetchAdd CReceivedBytes 58; FetchAdd CRejected 1]); [vm_compute; reflexivity|].
  apply (interleaving_step _ 1 _ [FetchAdd CReceivedBytes 58]); [vm_compute; reflexivity|].
  apply (interleaving_step _ 2 _ [FetchAdd CSentBytes 5]); [vm_compute; reflexivity|].
  apply (interleaving_step _ 1 _ []); [vm_compute; reflexivity|].
  apply (interleaving_step _ 2 _ []); [vm_compute; reflexivity|].
  apply (interleaving_step _ 0 _ [FetchAdd CRejected 1]); [vm_compute; reflexivity|].
  apply (interleaving_step _ 0 _ []); [vm_compute; reflexivity|].
  apply interleaving_done. vm_compute. repeat constructor.
Qed.

Lemma interleaved_polls_count_exactly_witness :
  run_adds Counters_default
    [FetchAdd CReceived 1; FetchAdd CReceived 1; FetchAdd CSent 1; FetchAdd CReceivedBytes 58;
     FetchAdd CSentBytes 5; FetchAdd CReceivedBytes 58; FetchAdd CRejected 1] =
  sent_counted (counted (Some ex_authenticator) Counters_default (concat [ex_forged_read; ex_genuine_read]))
    (concat [[Ok 5]]).
Proof.
  exact (proj2 (proj2 (interleaved_polls_count_exactly ex_meta ex_socket wf_Counters_default))
           [ex_forged_read; ex_genuine_read] [[Ok 5]] _ ex_interleaving).
Defined.

Lemma counts_snapshot_is_bounded_witness :
  (pc_received (snapshot Counters_default [] [] [] [] (recv_adds (Some ex_authenticator) ex_forged_read)) <
   pc_rejected (snapshot Counters_default [] [] [] [] (recv_adds (Some ex_authenticator) ex_forged_read)))%Z.
Proof.
  apply (proj2 (proj2 (counts_snapshot_is_bounded (A := Authenticator) Counters_default [] [] [] [] []
           wf_Counters_default)) (Some ex_authenticator) ex_datagram ex_attacker);
    vm_compute; reflexivity.
Defined.
