(* ===== verification/Binaries.v ===== *)
(** * The binaries from end to end ([src/bin/client.rs], [src/bin/server.rs])

    The two [main]s as wholes: start-up, the work, the orderly shutdown and the
    report, with what they do to the endpoint in order; and the default arguments,
    under which the two programs find each other. *)

From S2P Require Import Prelude Interfaces Auth AuthTheorems Datagram CidGenerator Socket SocketTheorems.
From S2P Require Import Ping Endpoint Float64 Client Server System.

(** ** The client *)

(** What [main] does after it is connected. *)
Inductive client_action :=
| PrintConnected (size : nat)
| Did (e : client_event)
| CloseConnection (code : Z) (reason : list byte)
| WaitIdle.

Definition DONE : list byte := str "done".

Section binaries.
Context `{TlsLib}.

(** [main] of the client; [final] is the socket when its counts are read. *)
Definition client_main (args : Args) (fs_read : list byte → result Certificate ErrorKind)
    (os_bind : SocketAddr → result unit ErrorKind) (nonblocking registered created : result unit ErrorKind)
    (connect : SocketAddr → list byte → result (result unit ConnectionError) Z) (answers : list (result Z Error))
    (final : Inner Authenticator) (cs : Crypto)
    : exec (poll (result Summary ClientError) * list client_action * Crypto) :=
  '(started, cs) ← client_start args fs_read os_bind nonblocking registered created connect cs;
  match started with
  | Err e => mret (Ready (Err e), [], cs)
  | Ok _ =>
      '(progress, st, trace) ← run_pings args answers;
      match progress with
      | Pending => mret (Pending, PrintConnected (arg_size args) :: map Did trace, cs)
      | Ready _ =>
          let actions := PrintConnected (arg_size args) :: map Did trace ++ [CloseConnection 0 DONE; WaitIdle] in
          summary ← print_summary (seq st) (rtts st) (lost st) (counts final);
          mret (Ready (Ok summary), actions, cs)
      end
  end.

(** ** The server *)

(** [main] of the server; [first] is what ends the [select!] and [final] the socket
    when its counts are read. *)
Definition server_main (args : ServerArgs) (fs_write : list byte → Certificate → result unit ErrorKind)
    (os_bind : SocketAddr → result unit ErrorKind) (nonblocking registered : result unit ErrorKind)
    (local_addr : result SocketAddr ErrorKind) (created : result unit ErrorKind)
    (first : select_outcome) (final : Inner Authenticator) (cs : Crypto)
    : exec (result unit ServerError * list server_action * Crypto) :=
  '(started, out, cs) ← server_start args fs_write os_bind nonblocking registered local_addr created cs;
  match started with
  | Err e => mret (Err e, out, cs)
  | Ok _ => let '(r, actions) := server_finish first final in mret (r, out ++ actions, cs)
  end.
End binaries.

(** ** Default arguments *)

Definition LOCALHOST : Ipv4Addr := ipv4 127 0 0 1.

(** The [default_value]s of the client's arguments, *)
Definition client_default_args : Args :=
  mkArgs (mkSocketAddr (V4 LOCALHOST) 4433) (str "server_cert.der") (str "localhost") 5 500 64 LOCALHOST.

(** and of the server's. *)
Definition server_default_args : ServerArgs :=
  mkServerArgs (mkSocketAddr (V4 LOCALHOST) 4433) (str "server_cert.der") (str "localhost") false.

(** ** Lemmas *)

(** The loss of a run with fewer than 2^32 pings is the percentage lost, to within the
    precision of a binary64. *)
Lemma print_summary_loss sent rtts lost counts sm :
  (0 < sent < 2 ^ 32)%Z → (0 <= lost <= sent)%Z → print_summary sent rtts lost counts = Done sm →
  f64_near (sm_loss_pct sm) (100 * lost) sent.
Proof.
  intros Hs Hl E. assert (sm_loss_pct sm = f64_div (f64_mul (f64_of_u64 lost) (f64_of_u64 100)) (f64_of_u64 sent)) as ->;
    [|apply percentage_near; lia].
  unfold print_summary in E. rewrite (proj2 (Z.eqb_neq sent 0)) in E by lia. destruct rtts; [by injection E as <-|].
  cbn [list_min list_max expect] in E. cbn [mbind exec_bind] in E. destruct (duration_sum _); [|done]. cbn [mbind exec_bind] in E.
  destruct (duration_div _ _); [|done]. by injection E as <-.
Qed.

(** The summary of a run with fewer than 2^32 answers never panics. *)
Lemma print_summary_total sent rtts lost counts :
  Forall (Z.le 0) rtts → (foldr Z.add 0 rtts < DURATION_LIMIT)%Z → (Z.of_nat (length rtts) < 2 ^ 32)%Z →
  ∃ sm, print_summary sent rtts lost counts = Done sm ∧
    sm_sent sm = sent ∧ sm_echoed sm = Z.of_nat (length rtts) ∧ sm_counts sm = counts ∧
    (sm_rtt sm = None ↔ rtts = []).
Proof.
  intros Hpos Hs Hl. destruct rtts as [|x l]; [by eexists|].
  unfold print_summary. cbn [list_min list_max]. run. rewrite duration_sum_eq by done.
  rewrite (proj2 (Z.ltb_lt _ _) Hs). run. unfold duration_div, wrap. rewrite Z.mod_small by lia.
  rewrite (proj2 (Z.eqb_neq (Z.of_nat (length (x :: l))) 0)) by (cbn [length]; lia). run.
  by eexists.
Qed.

(** ** Theorems *)

Section theorems.
Context `{TlsLib}.

(** C32: a client run from end to end: if it starts and is to send fewer than 2^32
    pings, then after the last answer it closes the connection, waits for the
    endpoint to go idle and reports: as many pings sent as asked for, those of them
    echoed, as loss the percentage of those that failed, which is zero if none did and
    otherwise right to one part in 2^53, the round-trip times if there are any, and the
    packet counts of that moment; before that it has printed one line for each answer,
    in order. A run that has not been answered in full reports nothing and closes
    nothing. *)
Theorem client_main_accounts_for_every_ping args fs_read os_bind nonblocking registered created connect
    ep cs cs' answers final :
  client_start args fs_read os_bind nonblocking registered created connect cs = Done (Ok ep, cs') →
  (0 < arg_count args < 2 ^ 32)%Z →
  Forall (Z.le 0) (echoed answers) → (foldr Z.add 0 (echoed answers) < DURATION_LIMIT)%Z →
  (Z.of_nat (length answers) = arg_count args →
   ∃ sm acts, client_main args fs_read os_bind nonblocking registered created connect answers final cs =
       Done (Ready (Ok sm), PrintConnected (arg_size args) :: map Did acts ++ [CloseConnection 0 DONE; WaitIdle], cs') ∧
     acts = run_events (from_millis (arg_interval_ms args)) (arg_size args) 0 answers ∧
     sm_sent sm = arg_count args ∧ sm_echoed sm = Z.of_nat (length (echoed answers)) ∧
     (sm_echoed sm + Z.of_nat (failures answers) = arg_count args)%Z ∧
     f64_near (sm_loss_pct sm) (100 * Z.of_nat (failures answers)) (arg_count args) ∧
     (sm_rtt sm = None ↔ echoed answers = []) ∧ sm_counts sm = counts final) ∧
  ((Z.of_nat (length answers) < arg_count args)%Z →
   ∃ acts, client_main args fs_read os_bind nonblocking registered created connect answers final cs =
     Done (Pending, PrintConnected (arg_size args) :: map Did acts, cs')).
Proof.
  intros Es Hc Hpos Hsum. unfold client_main. rewrite Es. run.
  pose proof (run_pings_app args answers []) as Er. rewrite app_nil_r in Er.
  pose proof (echoed_or_failed answers) as Hf. split; intros Hl; rewrite Er by lia; cbn [ping_loop].
  - rewrite (proj2 (Z.eqb_neq _ _)) by lia. cbn [stats_of seq]. rewrite (proj2 (Z.ltb_ge _ _)) by lia.
    cbn [orb]. run. cbn [stats_of seq rtts lost].
    destruct (print_summary_total (Z.of_nat (length answers)) (echoed answers) (Z.of_nat (failures answers))
                (counts final) Hpos Hsum) as (sm & Esm & H1 & H2 & H3 & H4); [lia|]. rewrite Esm. run.
    eexists sm, _. split; [done|]. split; [done|]. split; [lia|]. split; [done|]. split; [lia|].
    split; [rewrite <- Hl; eapply print_summary_loss; [lia|lia|exact Esm]|done].
  - rewrite (proj2 (Z.eqb_neq _ _)) by lia. cbn [stats_of seq]. rewrite (proj2 (Z.ltb_lt _ _)) by lia.
    rewrite ping_payload_eq. cbn [orb]. run. by eexists.
Qed.

(** C33: a server from end to end never panics, and what it shows is in order: it
    says where the certificate went, where it listens and whether it validates, and
    gets no further than that if something fails, not even that far if the address
    is refused; only then, when its accept loop ends or the interrupt arrives, it
    closes the endpoint, waits for it to go idle and, last, reports the counts of
    that moment. *)
Theorem server_main_shuts_down_in_order args fs_write os_bind nonblocking registered local_addr created
    first final cs :
  crypto_wf cs →
  ∃ r acts cs',
    server_main args fs_write os_bind nonblocking registered local_addr created first final cs =
      Done (r, acts, cs') ∧
    match r with
    | Err e =>
        (∃ addr, acts `prefix_of` startup_lines args addr) ∧
        (∀ ip, e = ListenNotIpv4 ip ∨ e = ListenWildcard → acts = [])
    | Ok _ =>
        ∃ addr, local_addr = Ok addr ∧
        acts = startup_lines args addr ++
          match first with CtrlC _ => [PrintShuttingDown] | EchoServerEnded => [] end ++
          [CloseEndpoint 0 SHUTTING_DOWN; ServerWaitIdle; ReportCounts (counts final)]
    end.
Proof.
  intros Hwf. unfold server_main.
  pose proof (server_start_spec args fs_write os_bind nonblocking registered local_addr created cs Hwf) as Hs.
  pose proof (server_start_output args fs_write os_bind nonblocking registered local_addr created cs) as Ho.
  destruct (server_start _ _ _ _ _ _ _ _) as [[[[ep|e] out] cs']|]; [|by eexists _, _, _|done].
  destruct Ho as (addr & Ha & ->). run.
  destruct first as [|[?|e]]; cbn [server_finish]; eexists _, _, _; (split; [done|]); [by exists addr..|].
  rewrite app_nil_r. split; [by exists addr|by intros ? [[=]|[=]]].
Qed.

(** The defaults fit together: with their default arguments and an operating
    system and TLS library that do not refuse, the server and then the client
    start, and the system they form is a started one, with the client and the
    server at 127.0.0.1; the port the client connects to is the one the server
    listens on, the client reads the certificate the server writes and asks for the
    name it was issued for, and the default payload is within the protocol's limit. *)
Theorem defaults_fit_together `{Rng} (g : rng) cert key fs_write os_bind connect addr cs :
  crypto_wf cs →
  let provider := default ring_default_provider (default_provider cs) in
  generate_simple_self_signed [str "localhost"] = Ok (cert, key) →
  single_cert_ok provider cert key = Ok tt → quic_suite_ok provider = true →
  (∃ roots, add_root empty_roots cert = Ok roots) →
  (∀ path cert, fs_write path cert = Ok tt) → (∀ addr, os_bind addr = Ok tt) →
  (∀ addr name, connect addr name = Ok (Ok tt)) →
  arg_server client_default_args = arg_listen server_default_args ∧
  arg_cert client_default_args = arg_cert_out server_default_args ∧
  arg_client_server_name client_default_args = arg_server_name server_default_args ∧
  ∃ sep cep cs',
    server_start server_default_args fs_write os_bind (Ok tt) (Ok tt) (Ok addr) (Ok tt) cs =
      Done (Ok sep, startup_lines server_default_args addr, cs') ∧
    client_start client_default_args (fun _ => Ok cert) os_bind (Ok tt) (Ok tt) (Ok tt) connect cs' =
      Done (Ok cep, cs') ∧
    started client_default_args server_default_args (mkPeers LOCALHOST LOCALHOST)
      (mkWorld g (host_of cep) (host_of sep) []).
Proof.
  intros Hwf provider Hgen Hcert Hquic [roots Hroots] Hwrite Hbind Hconn. do 3 (split; [done|]).
  pose proof (install_crypto_provider_eq cs Hwf) as Hi. fold provider in Hi.
  assert (install_crypto_provider (mkCrypto true (Some provider)) = mkCrypto true (Some provider)) as Hi2 by done.
  assert (is_unspecified LOCALHOST = false) as Hu by done.
  eexists _, _, (mkCrypto true (Some provider)).
  assert (∀ (P Q R : Prop), P → Q → (P → Q → R) → P ∧ Q ∧ R) as Hand by auto.
  apply Hand.
  - unfold server_start, server_default_args, self_signed_server_config, bind, server_endpoint.
    cbn [arg_listen sock_ip arg_server_name no_dcid_validation]. rewrite Hu, Hi, Hgen.
    cbn [default_provider expect mbind exec_bind]. rewrite Hcert, Hquic, transport_config_eq. run.
    cbn [cert_der]. by rewrite Hwrite, Hbind.
  - unfold client_start, client_default_args, client_config, bind, client_endpoint.
    cbn [arg_size arg_server arg_local_ip sock_ip]. rewrite Hi2, Hbind. cbn [add_roots]. rewrite Hroots.
    cbn [default_provider]. run. rewrite Hquic, transport_config_eq. run. by rewrite Hconn.
  - intros Es Ec. split; [| |done|done].
    + eexists _, _, _, _, _, _, _, _, _. split; [|split; [exact Ec|split; [done|by eexists]]]. by eexists.
    + eexists _, _, _, _, _, _, _, _, _, _. split; [exact Hwf|split; [exact Es|done]].
Qed.
End theorems.

(** ** Instances at concrete input *)

Definition ex_answers : list (result Z Error) := [Ok 5%Z; Err (Write 1); Ok 7%Z].

Lemma client_main_accounts_for_every_ping_witness :
  ∃ sm acts,
    client_main (H := toy_tls) ex_args (fun _ => Ok 7) (fun _ => Ok tt) (Ok tt) (Ok tt) (Ok tt) (fun _ _ => Ok (Ok tt)) ex_answers
      (mkInner None (mkCounters 9 900 8 800 0)) ex_crypto =
      Done (Ready (Ok sm), PrintConnected 12 :: map Did acts ++ [CloseConnection 0 DONE; WaitIdle],
            mkCrypto (H := toy_tls) true (Some 1)) ∧
    sm_sent sm = 3%Z ∧ f64_near (sm_loss_pct sm) 100 3 ∧ sm_counts sm = mkPacketCounts 9 900 8 800 0.
Proof.
  destruct (proj1 (client_main_accounts_for_every_ping (H := toy_tls) ex_args (fun _ => Ok 7) (fun _ => Ok tt) (Ok tt)
    (Ok tt) (Ok tt) (fun _ _ => Ok (Ok tt)) _ ex_crypto _ ex_answers (mkInner None (mkCounters 9 900 8 800 0))
    eq_refl ltac:(split; reflexivity) ltac:(repeat constructor; discriminate) eq_refl) eq_refl)
    as (sm & acts & E & _ & Hs & _ & _ & Hloss & _ & Hc).
  exists sm, acts. split; [exact E|]. split; [exact Hs|]. split; [exact Hloss|exact Hc].
Defined.

Lemma server_main_shuts_down_in_order_witness :
  ∃ r acts cs',
    server_main (H := toy_tls) (ex_listen (V4 ex_server) false) (fun _ _ => Ok tt) (fun _ => Ok tt) (Ok tt) (Ok tt) (Ok ex_bound) (Ok tt)
      (CtrlC (Ok tt)) ex_socket ex_crypto = Done (r, acts, cs') ∧
    match r with
    | Err _ => False
    | Ok _ => acts = startup_lines (ex_listen (V4 ex_server) false) ex_bound ++
                [PrintShuttingDown; CloseEndpoint 0 SHUTTING_DOWN; ServerWaitIdle; ReportCounts (counts ex_socket)]
    end.
Proof.
  assert (crypto_wf ex_crypto) as Hwf by (intros Hc; discriminate).
  destruct (server_main_shuts_down_in_order (H := toy_tls) (ex_listen (V4 ex_server) false) (fun _ _ => Ok tt)
           (fun _ => Ok tt) (Ok tt) (Ok tt) (Ok ex_bound) (Ok tt) (CtrlC (Ok tt)) ex_socket ex_crypto Hwf)
    as (r & acts & cs' & E & Hr).
  exists r, acts, cs'. split; [exact E|]. destruct r as [u|e].
  - destruct Hr as (addr & [= <-] & Hacts). exact Hacts.
  - vm_compute in E. discriminate E.
Defined.

Lemma defaults_fit_together_witness :
  arg_server client_default_args = arg_listen server_default_args.
Proof.
  assert (crypto_wf ex_crypto) as Hwf by (intros Hc; discriminate).
  refine (proj1 (defaults_fit_together (H := toy_tls) (H0 := Instances.tape_rng) ex_tape 9 9 (fun _ _ => Ok tt)
            (fun _ => Ok tt) (fun _ _ => Ok (Ok tt)) ex_bound ex_crypto Hwf eq_refl eq_refl eq_refl _ _ _ _)).
  - eexists. reflexivity.
  - reflexivity.
  - reflexivity.
  - reflexivity.
Defined.
