(* ===== verification/SplitMix.v ===== *)
(** * The blaster's generator ([src/bin/blaster.rs], [SplitMix64])

    The 64-bit generator, and the proof that it visits all of its 2^64 states and
    outputs before repeating: the increment is odd and the output function is a
    bijection of the 64-bit words. *)

From S2P Require Import Prelude.

Local Open Scope Z_scope.

(** [SplitMix64::next] on the state, returning the output and the next state. *)
Definition next (s : Z) : Z * Z :=
  let s := u64_wrapping_add s 0x9e3779b97f4a7c15 in
  let z := s in
  let z := u64_wrapping_mul (Z.lxor z (Z.shiftr z 30)) 0xbf58476d1ce4e5b9 in
  let z := u64_wrapping_mul (Z.lxor z (Z.shiftr z 27)) 0x94d049bb133111eb in
  (Z.lxor z (Z.shiftr z 31), s).

(** The state after [n] calls, and the output of call [n], counting from zero. *)
Fixpoint state_after (n : nat) (s : Z) : Z :=
  match n with
  | O => s
  | S n' => state_after n' (next s).2
  end.
Definition output (n : nat) (s : Z) : Z := (next (state_after n s)).1.

(** ** Lemmas *)

Lemma lxor_shiftr_bound z k : is_u64 z → 0 <= k → is_u64 (Z.lxor z (Z.shiftr z k)).
Proof.
  intros [Hlo Hhi] Hk. apply lxor_bound; [lia..|]. rewrite Z.shiftr_div_pow2 by lia.
  split; [apply Z.div_pos; lia|]. apply Z.div_lt_upper_bound; nia.
Qed.

(** A word that equals its own right shift is zero. *)
Lemma shiftr_fixpoint d k : 0 <= d → 0 < k → d = Z.shiftr d k → d = 0.
Proof.
  intros Hd Hk E. rewrite Z.shiftr_div_pow2 in E by lia.
  pose proof (Z.pow_gt_1 2 k) as Hp.
  destruct (Z.eq_dec d 0) as [|Hne]; [done|].
  pose proof (Z.div_lt d (2 ^ k)). lia.
Qed.

(** The xor-shift step is injective. *)
Lemma xorshift_inj a b k :
  is_u64 a → is_u64 b → 0 < k → Z.lxor a (Z.shiftr a k) = Z.lxor b (Z.shiftr b k) → a = b.
Proof.
  intros Ha Hb Hk E. apply Z.lxor_eq, (shiftr_fixpoint _ k); [|done|].
  - apply (lxor_bound 64 a b); [lia|done..].
  - rewrite Z.shiftr_lxor. apply Z.lxor_eq.
    rewrite <- (Z.lxor_assoc (Z.lxor a b)), (Z.lxor_comm a b), (Z.lxor_assoc b a), E.
    by rewrite <- Z.lxor_assoc, Z.lxor_nilpotent, Z.lxor_0_l, Z.lxor_nilpotent.
Qed.

(** Multiplication by a word with an inverse is injective. *)
Lemma wrapping_mul_inj c d a b :
  (c * d) mod 2 ^ 64 = 1 → is_u64 a → is_u64 b →
  u64_wrapping_mul a c = u64_wrapping_mul b c → a = b.
Proof.
  unfold u64_wrapping_mul, wrap. intros Hinv Ha Hb E.
  assert (∀ x, is_u64 x → (x * c) mod 2 ^ 64 * d mod 2 ^ 64 = x) as Hx.
  { intros x Hx. rewrite Zmult_mod_idemp_l, <- Z.mul_assoc, <- Zmult_mod_idemp_r, Hinv, Z.mul_1_r.
    by apply Z.mod_small. }
  rewrite <- (Hx a Ha), <- (Hx b Hb). by rewrite E.
Qed.

Lemma next_state s : (next s).2 = wrap 64 (s + 0x9e3779b97f4a7c15).
Proof. done. Qed.

Lemma next_output_u64 s : is_u64 (next s).1.
Proof. apply lxor_shiftr_bound; [apply wrap_u64|lia]. Qed.

(** The output determines the state it was computed from. *)
Lemma next_output_inj s t : (next s).1 = (next t).1 → (next s).2 = (next t).2.
Proof.
  cbn [next fst snd]. intros E. apply xorshift_inj in E; [|apply wrap_u64..|lia].
  apply (wrapping_mul_inj _ 0x319642b2d24d8ec3) in E;
    [|done|apply lxor_shiftr_bound; [apply wrap_u64|lia]..].
  apply xorshift_inj in E; [|apply wrap_u64..|lia].
  apply (wrapping_mul_inj _ 0x96de1b173f119089) in E;
    [|done|apply lxor_shiftr_bound; [apply wrap_u64|lia]..].
  apply xorshift_inj in E; [done|apply wrap_u64..|lia].
Qed.

Lemma state_after_S n s : state_after (S n) s = (next (state_after n s)).2.
Proof. revert s. induction n as [|n IH]; intros s; [done|]. exact (IH (next s).2). Qed.

Lemma state_after_eq n s :
  wrap 64 (state_after n s) = wrap 64 (s + Z.of_nat n * 0x9e3779b97f4a7c15).
Proof.
  induction n as [|n IH]; [f_equal; cbn; lia|].
  rewrite state_after_S, next_state, <- wrap_add_l, IH, wrap_add_l.
  rewrite (wrap_small (wrap 64 _)) by apply wrap_u64. f_equal. lia.
Qed.

Lemma state_after_add m n s : state_after (m + n) s = state_after m (state_after n s).
Proof.
  revert s. induction n as [|n IH]; intros s; [by rewrite Nat.add_0_r|].
  rewrite Nat.add_succ_r. exact (IH (next s).2).
Qed.

(** An invertible factor can be cancelled in a divisibility by 2^64. *)
Lemma divide_cancel c d x : (c * d) mod 2 ^ 64 = 1 → (2 ^ 64 | x * c) → (2 ^ 64 | x).
Proof.
  intros Hinv Hdiv. replace x with (x * c * d - x * (c * d - 1)) by lia.
  apply Z.divide_sub_r; [by apply Z.divide_mul_l|]. apply Z.divide_mul_r.
  apply Z.mod_divide; [lia|]. by rewrite Zminus_mod, Hinv.
Qed.

(** Outputs coincide exactly at multiples of 2^64 calls. *)
Lemma output_eq i j s :
  output i s = output j s ↔ (2 ^ 64 | Z.of_nat i - Z.of_nat j).
Proof.
  assert (∀ n, (next (state_after n s)).2 = wrap 64 (s + (Z.of_nat n + 1) * 0x9e3779b97f4a7c15)) as Hst.
  { intros n. rewrite next_state, <- wrap_add_l, state_after_eq, wrap_add_l. f_equal. lia. }
  unfold output. split.
  - intros E%next_output_inj. rewrite !Hst in E. apply wrap_eq in E.
    apply (divide_cancel 0x9e3779b97f4a7c15 0xf1de83e19937733d); [done|].
    replace ((_ - _) * _) with
      (s + (Z.of_nat i + 1) * 0x9e3779b97f4a7c15 - (s + (Z.of_nat j + 1) * 0x9e3779b97f4a7c15)) by lia.
    done.
  - intros Hdiv. assert ((next (state_after i s)).2 = (next (state_after j s)).2) as E.
    { rewrite !Hst. apply wrap_eq.
      replace (s + _ - _) with ((Z.of_nat i - Z.of_nat j) * 0x9e3779b97f4a7c15) by lia.
      by apply Z.divide_mul_l. }
    rewrite !next_state in E. unfold next, u64_wrapping_add. cbn [fst]. by rewrite E.
Qed.

(** ** Theorems *)

(** The generator has the full period: two calls return the same word exactly
    when they are a multiple of 2^64 calls apart, from every seed; and every
    output is a 64-bit word. *)
Theorem splitmix64_has_full_period i j s :
  (output i s = output j s ↔ (2 ^ 64 | Z.of_nat i - Z.of_nat j)) ∧ 0 <= output i s < 2 ^ 64.
Proof. split; [apply output_eq|apply next_output_u64]. Qed.

(** The first outputs from seed zero are those of the reference generator. *)
Example splitmix64_seed_zero :
  output 0 0 = 0xe220a8397b1dcdaf ∧ output 1 0 = 0x6e789e6aa1b965f4 ∧ output 2 0 = 0x06c45d188009454f.
Proof. vm_compute. auto. Qed.
