(* ===== verification/Blaster.v ===== *)
(** * The load generator ([src/bin/blaster.rs])

    The Initial packet template, the per-packet rewriting of its connection ID,
    the sending loop with its pacing, and how the work is divided over threads.
    The kernel, the clock and the stop flag are inputs of the sending loop. *)

From S2P Require Import Prelude Interfaces Aes Auth AuthTheorems Datagram SplitMix Float64.

Local Open Scope Z_scope.

Definition MIN_INITIAL_DATAGRAM : Z := 1200.
Definition BATCH : nat := 64%nat.

(** ** The template *)

Record InitialTemplate := mkInitialTemplate { tpl_bytes : list byte; dcid_offset : nat }.

(** The four messages of [InitialTemplate::new]. *)
Inductive TemplateError :=
| SizeBelowMinimum (size : Z)
| SizeAboveUdp (size : Z)
| SizeBelowHeader (size : Z)
| SizeAboveVarint (size : Z).

(** [u16::try_from] and [usize::checked_sub]. *)
Definition u16_try_from (z : Z) : option Z := if z <=? 65535 then Some z else None.
Definition checked_sub (a b : Z) : option Z := if b <=? a then Some (a - b) else None.

Definition InitialTemplate_new (size : Z) : exec (result InitialTemplate TemplateError) :=
  if size <? MIN_INITIAL_DATAGRAM then mret (Err (SizeBelowMinimum size))
  else if 65535 <? size then mret (Err (SizeAboveUdp size))
  else
    let bytes := [Z_u8 0xc3] in
    let bytes := bytes ++ to_be_bytes 4 1 in
    let bytes := bytes ++ [Z_u8 (Z.of_nat TOKEN_LEN)] in
    let dcid_offset := length bytes in
    let bytes := bytes ++ replicate TOKEN_LEN Byte.x00 in
    let bytes := bytes ++ [Z_u8 (Z.of_nat TOKEN_LEN)] in
    let bytes := bytes ++ replicate TOKEN_LEN (Z_u8 0x5a) in
    let bytes := bytes ++ [Z_u8 0x00] in
    let PACKET_NUMBER_LEN := 4%nat in
    match checked_sub size (Z.of_nat (length bytes) + 2) with
    | None => mret (Err (SizeBelowHeader size))
    | Some remaining =>
        match u16_try_from remaining with
        | None => mret (Err (SizeAboveVarint size))
        | Some len =>
            _ ← rust_assert (len <? 0x4000);
            let bytes := bytes ++ to_be_bytes 2 (Z.lor 0x4000 len) in
            let bytes := bytes ++ replicate PACKET_NUMBER_LEN Byte.x00 in
            let bytes := resize bytes (Z.to_nat size) (Z_u8 0x42) in
            _ ← rust_assert (Z.of_nat (length bytes) =? size);
            mret (Ok (mkInitialTemplate bytes dcid_offset))
        end
    end.

(** ** Rewriting the connection ID *)

Section rewriting.
(** The byte order of the machine. *)
Context (big_endian : bool).

Definition to_ne_bytes (n : nat) (z : Z) : list byte :=
  if big_endian then to_be_bytes n z else to_le_bytes n z.

(** The loop over [chunks_mut(8)]: each chunk is overwritten by the next word. *)
Fixpoint fill_chunks (cs : list (list byte)) (rng : Z) : exec (list (list byte) * Z) :=
  match cs with
  | [] => mret ([], rng)
  | chunk :: cs' =>
      let '(out, rng) := next rng in
      let word := to_ne_bytes 8 out in
      let len := length chunk in
      w ← expect (get_range word 0 len);
      chunk ← copy_range chunk 0 len w;
      '(rest, rng) ← fill_chunks cs' rng;
      mret (chunk :: rest, rng)
  end.

Definition randomize_dcid (self : InitialTemplate) (rng : Z) : exec (InitialTemplate * Z) :=
  let off := dcid_offset self in
  dcid ← expect (get_range (tpl_bytes self) off (off + TOKEN_LEN)%nat);
  cs ← chunks 8 dcid;
  '(cs, rng) ← fill_chunks cs rng;
  bytes ← copy_range (tpl_bytes self) off (off + TOKEN_LEN)%nat (concat cs);
  mret (mkInitialTemplate bytes off, rng).

(** ** The sending loop *)

Record Stats := mkStats { st_sent : Z; st_bytes : Z; st_errors : Z }.

Definition Stats_default : Stats := mkStats 0 0 0.

(** The state of one worker: its template and generator, the shared statistics,
    the datagrams given to the kernel so far and the time since the start. *)
Record Worker := mkWorker {
  wk_template : InitialTemplate; wk_rng : Z; wk_stats : Stats;
  wk_out : list (list byte); wk_clock : Z }.

(** One datagram; [r] is the outcome of [send]. *)
Definition blast_one (r : result nat ErrorKind) (s : Worker) : exec Worker :=
  '(template, rng) ← randomize_dcid (wk_template s) (wk_rng s);
  let out := wk_out s ++ [tpl_bytes template] in
  let st := wk_stats s in
  let st :=
    match r with
    | Ok n => mkStats (u64_wrapping_add (st_sent st) 1)
                (u64_wrapping_add (st_bytes st) (Z.of_nat n)) (st_errors st)
    | Err _ => mkStats (st_sent st) (st_bytes st) (u64_wrapping_add (st_errors st) 1)
    end in
  mret (mkWorker template rng st out (wk_clock s)).

(** The [for] loop over one batch, given the outcomes of its sends. *)
Fixpoint blast_batch (rs : list (result nat ErrorKind)) (s : Worker) : exec Worker :=
  match rs with
  | [] => mret s
  | r :: rs' => s ← blast_one r s; blast_batch rs' s
  end.

(** The target of the absolute schedule, in nanoseconds; it panics when it is more
    than a [Duration] holds. *)
Definition target_elapsed (sent pps : Z) : exec Z :=
  duration_from_secs_f64 (f64_div (f64_of_u64 sent) (f64_of_u64 pps)).

(** The time after pacing: a sleep lasts as long as asked, plus [late]. *)
Definition pace (pps sent clock late : Z) : exec Z :=
  if 0 <? pps then
    target ← target_elapsed sent pps;
    match checked_sub target clock with
    | Some sleep => mret (clock + sleep + late)
    | None => mret clock
    end
  else mret clock.

(** One pass of the [while] loop: the outcomes of its sends, the time the batch
    takes and by how much a sleep overruns. *)
Record pass := mkPass { ps_sends : nat → result nat ErrorKind; ps_time : Z; ps_late : Z }.

(** The [while] loop, one pass for each time the flag was seen set. *)
Fixpoint blast_loop (pps : Z) (ps : list pass) (sent : Z) (s : Worker) : exec Worker :=
  match ps with
  | [] => mret s
  | p :: ps' =>
      s ← blast_batch (map (ps_sends p) (seq 0 BATCH)) s;
      let sent := u64_wrapping_add sent (Z.of_nat BATCH) in
      clock ← pace pps sent (wk_clock s + ps_time p) (ps_late p);
      blast_loop pps ps' sent
        (mkWorker (wk_template s) (wk_rng s) (wk_stats s) (wk_out s) clock)
  end.

Inductive BlastError := BlastIo (e : ErrorKind) | BlastTemplate (e : TemplateError).

(** The address a worker binds: any, in the family of its target. *)
Definition blast_local (target : SocketAddr) : SocketAddr :=
  match sock_ip target with
  | V4 _ => mkSocketAddr (V4 UNSPECIFIED) 0
  | V6 _ => mkSocketAddr (V6 0) 0
  end.

Definition blast (os_bind os_connect : SocketAddr → result unit ErrorKind) (target : SocketAddr)
    (size pps seed : Z) (stats : Stats) (ps : list pass) : exec (result Worker BlastError) :=
  match os_bind (blast_local target) with
  | Err e => mret (Err (BlastIo e))
  | Ok _ =>
      match os_connect target with
      | Err e => mret (Err (BlastIo e))
      | Ok _ =>
          template ← InitialTemplate_new size;
          match template with
          | Err e => mret (Err (BlastTemplate e))
          | Ok template =>
              s ← blast_loop pps ps 0 (mkWorker template seed stats [] 0);
              mret (Ok s)
          end
      end
  end.
End rewriting.

(** ** Dividing the work ([main]) *)

Definition thread_count (threads : option Z) (available : option Z) : Z :=
  match threads with
  | Some 0 | None => match available with Some n => n | None => 1 end
  | Some n => n
  end.

Definition per_thread_pps (pps threads : Z) : Z :=
  match pps with
  | 0 => 0
  | _ => Z.max (pps / threads) 1
  end.

(** The seeds of the workers, drawn in order from the master generator. *)
Fixpoint worker_seeds (n : nat) (seed : Z) : list Z :=
  match n with
  | O => []
  | S n' => let '(out, seed) := next seed in out :: worker_seeds n' seed
  end.

Definition MASTER_SEED : Z := 0x243f6a8885a308d3.

Record Plan := mkPlan { pl_threads : Z; pl_pps : Z; pl_seeds : list Z }.

(** [main] up to the spawning of the workers. *)
Definition plan (size pps : Z) (threads available : option Z) : exec (result Plan TemplateError) :=
  template ← InitialTemplate_new size;
  match template with
  | Err e => mret (Err e)
  | Ok _ =>
      let threads := thread_count threads available in
      mret (Ok (mkPlan threads (per_thread_pps pps threads)
                  (worker_seeds (Z.to_nat threads) MASTER_SEED)))
  end.

(** ** The throughput report *)

(** One line per sample of the counters: the packets and bytes since the last line
    and the total so far. *)
Fixpoint report (samples : list (Z * Z)) (last_sent last_bytes : Z) : list (Z * Z * Z) :=
  match samples with
  | [] => []
  | (sent, bytes) :: samples' =>
      (wrap 64 (sent - last_sent), wrap 64 (bytes - last_bytes), sent) :: report samples' sent bytes
  end.

(** ** The template: lemmas *)

(** The first 6 bytes: flags, version, length of the connection ID. *)
Definition tpl_prefix : list byte :=
  [Z_u8 0xc3] ++ to_be_bytes 4 1 ++ [Z_u8 (Z.of_nat TOKEN_LEN)].

(** What follows the connection ID in a datagram of [size] bytes. *)
Definition tpl_suffix (size : Z) : list byte :=
  [Z_u8 (Z.of_nat TOKEN_LEN)] ++ replicate TOKEN_LEN (Z_u8 0x5a) ++ [Z_u8 0x00] ++
  to_be_bytes 2 (Z.lor 0x4000 (size - 50)) ++ replicate 4 Byte.x00 ++
  replicate (Z.to_nat (size - 54)) (Z_u8 0x42).

Lemma length_tpl_prefix : length tpl_prefix = 6%nat.
Proof. done. Qed.

Lemma length_tpl_suffix size : 54 <= size → Z.of_nat (length (tpl_suffix size)) = size - 26.
Proof.
  intros Hs. unfold tpl_suffix. autorewrite with len. unfold TOKEN_LEN. cbn [length]. lia.
Qed.

(** The header written before the length field is 48 bytes long. *)
Definition tpl_header : list byte :=
  tpl_prefix ++ replicate TOKEN_LEN Byte.x00 ++
  [Z_u8 (Z.of_nat TOKEN_LEN)] ++ replicate TOKEN_LEN (Z_u8 0x5a) ++ [Z_u8 0x00].

Lemma InitialTemplate_new_eq size :
  InitialTemplate_new size =
  if size <? 1200 then Done (Err (SizeBelowMinimum size))
  else if 65535 <? size then Done (Err (SizeAboveUdp size))
  else if size <? 16434 then
    Done (Ok (mkInitialTemplate (tpl_prefix ++ replicate TOKEN_LEN Byte.x00 ++ tpl_suffix size) 6))
  else Panic.
Proof.
  unfold InitialTemplate_new, MIN_INITIAL_DATAGRAM.
  destruct (Z.ltb_spec size 1200) as [|Hmin]; [done|].
  destruct (Z.ltb_spec 65535 size) as [|Hmax]; [done|]. cbv zeta. rewrite <- !app_assoc.
  change (_ ++ _ ++ _ ++ _ ++ _ ++ _ ++ [Z_u8 0]) with tpl_header.
  change (length (_ ++ _ ++ [_])) with 6%nat.
  change (Z.of_nat (length tpl_header) + 2) with 50.
  unfold checked_sub, u16_try_from. rewrite (proj2 (Z.leb_le 50 size)) by lia.
  rewrite (proj2 (Z.leb_le (size - 50) 65535)) by lia.
  destruct (Z.ltb_spec size 16434).
  - rewrite (proj2 (Z.ltb_lt (size - 50) 0x4000)) by lia. run.
    rewrite resize_ge by (autorewrite with len; change (length tpl_header) with 48%nat; lia).
    autorewrite with len. change (length tpl_header) with 48%nat.
    replace (Z.to_nat size - (48 + 2 + 4))%nat with (Z.to_nat (size - 54)) by lia.
    rewrite (proj2 (Z.eqb_eq _ size)) by lia. run.
    unfold tpl_suffix, tpl_header. by rewrite <- !app_assoc.
  - by rewrite (proj2 (Z.ltb_ge (size - 50) 0x4000)) by lia.
Qed.

(** ** Rewriting the connection ID: lemmas *)

Section rewriting_lemmas.
Context (big_endian : bool).

Lemma length_to_ne_bytes n z : length (to_ne_bytes big_endian n z) = n.
Proof. unfold to_ne_bytes. destruct big_endian; solve_len. Qed.

Lemma to_ne_bytes_inj n a b :
  0 <= a < 256 ^ Z.of_nat n → 0 <= b < 256 ^ Z.of_nat n →
  to_ne_bytes big_endian n a = to_ne_bytes big_endian n b → a = b.
Proof. unfold to_ne_bytes. destruct big_endian; [apply to_be_bytes_inj|apply to_le_bytes_inj]. Qed.

(** The connection ID drawn from generator state [s]: two words and half of a
    third one. *)
Definition dcid_from (s : Z) : list byte :=
  to_ne_bytes big_endian 8 (output 0 s) ++ to_ne_bytes big_endian 8 (output 1 s) ++
  take 4 (to_ne_bytes big_endian 8 (output 2 s)).

Lemma length_dcid_from s : length (dcid_from s) = TOKEN_LEN.
Proof. unfold dcid_from. autorewrite with len. by rewrite !length_to_ne_bytes. Qed.

Lemma fill_chunks_cons chunk cs s :
  (length chunk <= 8)%nat →
  fill_chunks big_endian (chunk :: cs) s =
  ('(rest, s') ← fill_chunks big_endian cs (next s).2;
   mret (take (length chunk) (to_ne_bytes big_endian 8 (next s).1) :: rest, s')).
Proof.
  intros Hl. cbn [fill_chunks]. destruct (next s) as [out s']. cbn [fst snd].
  set (word := to_ne_bytes big_endian 8 out).
  assert (length word = 8%nat) as Hw by apply length_to_ne_bytes.
  rewrite <- (take_drop (length chunk) word) at 1.
  rewrite get_range_prefix by solve_len. run.
  rewrite copy_range_full by solve_len. done.
Qed.

Lemma chunks_of_dcid (dcid : list byte) :
  length dcid = TOKEN_LEN →
  chunks 8 dcid = Done [take 8 dcid; take 8 (drop 8 dcid); drop 16 dcid].
Proof.
  intros Hl. unfold TOKEN_LEN in Hl. do 20 (destruct dcid as [|? dcid]; [done|]).
  by destruct dcid.
Qed.

(** One rewriting puts [dcid_from] in place and advances the generator thrice. *)
Lemma randomize_dcid_eq p dcid q s :
  length dcid = TOKEN_LEN →
  randomize_dcid big_endian (mkInitialTemplate (p ++ dcid ++ q) (length p)) s =
  Done (mkInitialTemplate (p ++ dcid_from s ++ q) (length p), state_after 3 s).
Proof.
  intros Hl. unfold randomize_dcid. cbn [tpl_bytes dcid_offset].
  rewrite (get_range_app p dcid q) by (done || lia). run. rewrite chunks_of_dcid by done. run.
  unfold TOKEN_LEN in Hl. rewrite !fill_chunks_cons by solve_len. run.
  cbn [fill_chunks]. run. autorewrite with len. rewrite Hl. cbn [Nat.sub Nat.min concat].
  rewrite (copy_range_app p dcid q).
  - rewrite !app_nil_r, !take_ge by (rewrite length_to_ne_bytes; lia). done.
  - done.
  - unfold TOKEN_LEN. lia.
  - autorewrite with len. rewrite !length_to_ne_bytes. cbn. lia.
Qed.

(** The first eight bytes identify the call of the generator. *)
Lemma dcid_from_inj i j seed :
  dcid_from (state_after (3 * i) seed) = dcid_from (state_after (3 * j) seed) →
  (2 ^ 64 | Z.of_nat i - Z.of_nat j).
Proof.
  unfold dcid_from. intros E. apply app_eq_length in E as [E _]; [|by rewrite !length_to_ne_bytes].
  apply to_ne_bytes_inj in E; [|apply next_output_u64..].
  change (output 0 (state_after ?n seed)) with (output n seed) in E.
  apply output_eq in E. rewrite !Nat2Z.inj_mul in E.
  apply (divide_cancel 3 0xaaaaaaaaaaaaaaab); [done|].
  by replace ((_ - _) * 3) with (Z.of_nat 3 * Z.of_nat i - Z.of_nat 3 * Z.of_nat j) by lia.
Qed.
End rewriting_lemmas.

(** ** The sending loop: lemmas *)

Definition stats_after (st : Stats) (rs : list (result nat ErrorKind)) : Stats :=
  mkStats (wrap 64 (st_sent st + Z.of_nat (length (List.filter is_ok rs))))
    (wrap 64 (st_bytes st + sum_ok rs))
    (wrap 64 (st_errors st + Z.of_nat (length (List.filter is_err rs)))).

Definition wf_stats (st : Stats) : Prop :=
  is_u64 (st_sent st) ∧ is_u64 (st_bytes st) ∧ is_u64 (st_errors st).

Lemma stats_after_wf st rs : wf_stats (stats_after st rs).
Proof. unfold wf_stats, stats_after. cbn. split_and!; apply wrap_u64. Qed.

Lemma stats_after_nil st : wf_stats st → stats_after st [] = st.
Proof.
  intros (? & ? & ?). unfold stats_after. cbn. rewrite !Z.add_0_r, !wrap_small by done. by destruct st.
Qed.

Lemma stats_after_app st r1 r2 : stats_after (stats_after st r1) r2 = stats_after st (r1 ++ r2).
Proof.
  unfold stats_after. cbn. rewrite !wrap_add_l, sum_ok_app, !List.filter_app, !length_app, !Nat2Z.inj_add.
  f_equal; f_equal; lia.
Qed.

Section loop_lemmas.
Context (big_endian : bool) (p q : list byte) (seed : Z).

(** The datagram number [i] of a run. *)
Definition datagram_at (i : nat) : list byte :=
  p ++ dcid_from big_endian (state_after (3 * i) seed) ++ q.

(** A worker that has sent [k] datagrams with outcomes [rs]. *)
Record worker_at (st0 : Stats) (k : nat) (rs : list (result nat ErrorKind)) (w : Worker) : Prop := {
  at_template : ∃ dcid, length dcid = TOKEN_LEN ∧
    wk_template w = mkInitialTemplate (p ++ dcid ++ q) (length p);
  at_rng : wk_rng w = state_after (3 * k) seed;
  at_stats : wk_stats w = stats_after st0 rs;
  at_out : wk_out w = map datagram_at (seq 0 k)
}.

Lemma blast_one_spec st0 k rs r w :
  wf_stats st0 → worker_at st0 k rs w →
  ∃ w', blast_one big_endian r w = Done w' ∧ worker_at st0 (S k) (rs ++ [r]) w' ∧ wk_clock w' = wk_clock w.
Proof.
  intros Hwf [(dcid & Hl & Ht) Hr Hs Ho]. unfold blast_one.
  rewrite Ht, randomize_dcid_eq by done. run. eexists. split; [done|]. split; [|done].
  split; cbn [wk_template wk_rng wk_stats wk_out tpl_bytes].
  - eexists. split; [|done]. apply length_dcid_from.
  - rewrite Hr, <- state_after_add. f_equal. lia.
  - rewrite <- stats_after_app, <- Hs. pose proof (stats_after_wf st0 rs) as (? & ? & ?).
    rewrite <- Hs in *. unfold stats_after. destruct r as [n|e]; cbn; rewrite !Z.add_0_r.
    + by rewrite (wrap_small (st_errors _)).
    + by rewrite (wrap_small (st_sent _)), (wrap_small (st_bytes _)).
  - rewrite seq_S, map_app, Ho. cbn. unfold datagram_at. by rewrite Hr.
Qed.

Lemma blast_batch_spec st0 rs' : ∀ k rs w,
  wf_stats st0 → worker_at st0 k rs w →
  ∃ w', blast_batch big_endian rs' w = Done w' ∧ worker_at st0 (k + length rs') (rs ++ rs') w' ∧
    wk_clock w' = wk_clock w.
Proof.
  induction rs' as [|r rs' IH]; intros k rs w Hwf Hat; cbn [blast_batch].
  - exists w. by rewrite Nat.add_0_r, app_nil_r.
  - destruct (blast_one_spec st0 k rs r w Hwf Hat) as (w1 & -> & Hat1 & Hc). run.
    destruct (IH (S k) (rs ++ [r]) w1 Hwf Hat1) as (w' & -> & Hat' & Hc').
    exists w'. rewrite <- app_assoc in Hat'. cbn [app length] in *.
    rewrite Nat.add_succ_r. split_and!; [done..|congruence].
Qed.

(** The outcomes of all the sends of a run. *)
Definition outcomes (ps : list pass) : list (result nat ErrorKind) :=
  concat (map (fun ps => map (ps_sends ps) (seq 0 BATCH)) ps).

Lemma length_outcomes ps : length (outcomes ps) = (BATCH * length ps)%nat.
Proof.
  unfold outcomes. induction ps as [|ps0 ps IH]; [done|]. cbn [map concat length].
  rewrite length_app, IH, length_map, length_seq. unfold BATCH. lia.
Qed.

(** Whatever the loop has done when it returns, *)
Lemma blast_loop_spec st0 pps ps : ∀ sent k rs w w',
  wf_stats st0 → worker_at st0 k rs w → blast_loop big_endian pps ps sent w = Done w' →
  worker_at st0 (k + BATCH * length ps) (rs ++ outcomes ps) w'.
Proof.
  induction ps as [|ps0 ps IH]; intros sent k rs w w' Hwf Hat; cbn [blast_loop].
  - intros [= <-]. unfold outcomes. cbn [length map concat].
    by rewrite Nat.mul_0_r, Nat.add_0_r, app_nil_r.
  - destruct (blast_batch_spec st0 (map (ps_sends ps0) (seq 0 BATCH)) k rs w Hwf Hat)
      as (w1 & -> & Hat1 & Hc). run.
    destruct (pace _ _ _ _) as [clock|]; run; [|done]. intros E.
    eapply (IH _ _ _ _ _ Hwf) in E; [|by destruct Hat1; split; [..|exact at_out0]].
    unfold outcomes. cbn [map concat length].
    rewrite app_assoc. replace (k + BATCH * S (length ps))%nat
      with (k + length (map (ps_sends ps0) (seq 0 BATCH)) + BATCH * length ps)%nat; [exact E|].
    rewrite length_map, length_seq. lia.
Qed.

Lemma pace_Done pps sent clock late : 0 <= sent < 2 ^ 63 → ∃ t, pace pps sent clock late = Done t.
Proof.
  intros Hs. unfold pace, target_elapsed, duration_from_secs_f64.
  destruct (Z.ltb_spec 0 pps); [|by eexists]. rewrite (proj2 (Z.ltb_lt _ _)) by by apply schedule_fits.
  run. by destruct (checked_sub _ _); eexists.
Qed.

(** it does return as long as it has sent fewer than 2^63 packets. *)
Lemma blast_loop_total st0 pps ps : ∀ sent k rs w,
  wf_stats st0 → worker_at st0 k rs w → 0 <= sent → sent + Z.of_nat (BATCH * length ps) < 2 ^ 63 →
  ∃ w', blast_loop big_endian pps ps sent w = Done w'.
Proof.
  induction ps as [|ps0 ps IH]; intros sent k rs w Hwf Hat H0 Hb; cbn [blast_loop]; [by exists w|].
  destruct (blast_batch_spec st0 (map (ps_sends ps0) (seq 0 BATCH)) k rs w Hwf Hat)
    as (w1 & -> & Hat1 & Hc). run.
  assert (u64_wrapping_add sent (Z.of_nat BATCH) = sent + Z.of_nat BATCH) as ->.
  { apply wrap_small. unfold is_u64, BATCH in *. cbn [length] in Hb. lia. }
  edestruct (pace_Done pps (sent + Z.of_nat BATCH)) as [clock ->]; [unfold BATCH in *; cbn [length] in Hb; lia|].
  run. eapply IH; [done|by destruct Hat1; split; [..|exact at_out0]|..]; unfold BATCH in *; cbn [length] in Hb; lia.
Qed.

(** Datagrams less than 2^64 packets apart are different. *)
Lemma datagram_at_inj i j : datagram_at i = datagram_at j → (2 ^ 64 | Z.of_nat i - Z.of_nat j).
Proof.
  unfold datagram_at. intros E. apply app_inv_head in E.
  apply app_eq_length in E as [E _]; [|by rewrite !length_dcid_from].
  by apply dcid_from_inj in E.
Qed.

Lemma NoDup_datagrams n : Z.of_nat n <= 2 ^ 64 → NoDup (map datagram_at (seq 0 n)).
Proof.
  intros Hn. apply NoDup_fmap_2_strong; [|apply NoDup_ListNoDup, seq_NoDup].
  intros i j Hi%elem_of_seq Hj%elem_of_seq [c Hc]%datagram_at_inj. nia.
Qed.
End loop_lemmas.
