(* ===== verification/BlasterTheorems.v ===== *)
(** * What the load generator does

    The theorems on [Blaster.v]: which sizes it accepts and what it builds, that
    its connection IDs land where the filter looks and do not repeat, what its
    counters mean, how it paces itself and how it divides the rate. *)

From S2P Require Import Prelude Interfaces Aes Auth AuthTheorems Datagram SplitMix Float64 Blaster.

Local Open Scope Z_scope.

(** ** Lemmas *)

Lemma varint_field len : 0 <= len < 0x4000 → Z.lor 0x4000 len = 0x4000 + len.
Proof.
  intros Hl. assert (Z.land 0x4000 len = 0) as Hand.
  { apply Z.bits_inj'. intros i Hi. rewrite Z.land_spec, Z.bits_0. change 0x4000 with (2 ^ 14).
    rewrite Z.pow2_bits_eqb by lia. destruct (Z.eqb_spec 14 i) as [<-|]; [|done].
    destruct (Z.eq_dec len 0) as [->|]; [done|].
    apply Z.bits_above_log2; [lia|]. apply Z.log2_lt_pow2; lia. }
  by rewrite <- Z.lxor_lor, <- Z.add_nocarry_lxor.
Qed.

Lemma length_tpl (dcid : list byte) size :
  length dcid = TOKEN_LEN → 1200 <= size →
  Z.of_nat (length (tpl_prefix ++ dcid ++ tpl_suffix size)) = size.
Proof.
  intros Hl Hs. rewrite !length_app, !Nat2Z.inj_add, length_tpl_suffix, length_tpl_prefix, Hl by lia.
  unfold TOKEN_LEN. lia.
Qed.

(** The connection ID sits where the parser looks for it. *)
Lemma tpl_dcid (dcid : list byte) size :
  length dcid = TOKEN_LEN → quic_dcid (tpl_prefix ++ dcid ++ tpl_suffix size) dcid.
Proof.
  intros Hl. unfold tpl_prefix. cbn [app]. rewrite <- app_assoc, <- Hl.
  apply (long_header (Z_u8 0xc3) (to_be_bytes 4 1) dcid (tpl_suffix size)); [done..|lia].
Qed.

Lemma InitialTemplate_new_Ok size t :
  InitialTemplate_new size = Done (Ok t) →
  1200 <= size < 16434 ∧
  t = mkInitialTemplate (tpl_prefix ++ replicate TOKEN_LEN Byte.x00 ++ tpl_suffix size) 6.
Proof.
  rewrite InitialTemplate_new_eq.
  destruct (Z.ltb_spec size 1200); [done|]. destruct (Z.ltb_spec 65535 size); [done|].
  destruct (Z.ltb_spec size 16434); [|done]. intros [= <-]. split; [lia|done].
Qed.

Lemma InitialTemplate_new_in_range size :
  1200 <= size < 16434 →
  InitialTemplate_new size =
  Done (Ok (mkInitialTemplate (tpl_prefix ++ replicate TOKEN_LEN Byte.x00 ++ tpl_suffix size) 6)).
Proof.
  intros Hs. rewrite InitialTemplate_new_eq.
  rewrite (proj2 (Z.ltb_ge size 1200)), (proj2 (Z.ltb_ge 65535 size)), (proj2 (Z.ltb_lt size 16434)) by lia.
  done.
Qed.

(** A run of the worker on a size that the template accepts. *)
Lemma fresh_worker be size seed stats :
  wf_stats stats →
  worker_at be tpl_prefix (tpl_suffix size) seed stats 0 []
    (mkWorker (mkInitialTemplate (tpl_prefix ++ replicate TOKEN_LEN Byte.x00 ++ tpl_suffix size) 6)
       seed stats [] 0).
Proof.
  intros Hwf. split; cbn [wk_template wk_rng wk_stats wk_out]; [|done|by rewrite stats_after_nil|done].
  by exists (replicate TOKEN_LEN Byte.x00).
Qed.

Lemma blast_run be target size pps seed stats ps :
  1200 <= size < 16434 → wf_stats stats → Z.of_nat (BATCH * length ps) < 2 ^ 63 →
  ∃ w, blast be (fun _ => Ok tt) (fun _ => Ok tt) target size pps seed stats ps = Done (Ok w) ∧
    worker_at be tpl_prefix (tpl_suffix size) seed stats (BATCH * length ps) (outcomes ps) w.
Proof.
  intros Hs Hwf Hb. unfold blast. rewrite InitialTemplate_new_in_range by done. run.
  pose proof (fresh_worker be size seed stats Hwf) as Hat.
  destruct (blast_loop_total be tpl_prefix (tpl_suffix size) seed stats pps ps 0 0 [] _ Hwf Hat) as [w E];
    [done..|]. rewrite E. run. exists w. split; [done|]. exact (blast_loop_spec _ _ _ _ _ _ _ _ _ _ _ _ Hwf Hat E).
Qed.

Lemma blast_returned be target size pps seed stats ps w :
  wf_stats stats → blast be (fun _ => Ok tt) (fun _ => Ok tt) target size pps seed stats ps = Done (Ok w) →
  1200 <= size < 16434 ∧
  worker_at be tpl_prefix (tpl_suffix size) seed stats (BATCH * length ps) (outcomes ps) w.
Proof.
  intros Hwf E. unfold blast in E. destruct (InitialTemplate_new size) as [[t|e]|] eqn:Et; run; try done.
  destruct (InitialTemplate_new_Ok _ _ Et) as [Hs _]. split; [done|].
  rewrite InitialTemplate_new_in_range in Et by done. injection Et as <-. cbn [mbind exec_bind] in E.
  destruct (blast_loop _ _ _ _ _) as [w'|] eqn:El; [|done]. injection E as ->.
  by eapply blast_loop_spec in El; [|done|by apply fresh_worker].
Qed.

Lemma count_ok_err (rs : list (result nat ErrorKind)) :
  (length (List.filter is_ok rs) + length (List.filter is_err rs))%nat = length rs.
Proof. induction rs as [|[n|e] rs IH]; cbn in *; lia. Qed.

(** The clock after pacing has reached the target. *)
Lemma pace_reaches pps sent clock late clock' :
  0 < pps → 0 <= late → pace pps sent clock late = Done clock' →
  ∃ target, target_elapsed sent pps = Done target ∧ target <= clock'.
Proof.
  intros Hp Hl. unfold pace, checked_sub. rewrite (proj2 (Z.ltb_lt 0 pps)) by lia.
  destruct (target_elapsed sent pps) as [target|]; run; [|done]. intros E. exists target. split; [done|].
  destruct (Z.leb_spec clock target); injection E as <-; lia.
Qed.

Lemma blast_loop_clock be pps ps : ∀ sent w w',
  0 < pps → Forall (fun p => 0 <= ps_late p) ps → ps ≠ [] →
  0 <= sent → sent + Z.of_nat (BATCH * length ps) < 2 ^ 64 →
  blast_loop be pps ps sent w = Done w' →
  ∃ target, target_elapsed (sent + Z.of_nat (BATCH * length ps)) pps = Done target ∧ target <= wk_clock w'.
Proof.
  induction ps as [|p ps IH]; intros sent w w' Hp Hlate Hne Hs Hb; [done|]. clear Hne.
  apply Forall_cons in Hlate as [Hl Hlate]. cbn [blast_loop length] in *.
  destruct (blast_batch be _ w) as [w1|]; run; [|done].
  assert (u64_wrapping_add sent (Z.of_nat BATCH) = sent + Z.of_nat BATCH) as ->.
  { apply wrap_small. unfold is_u64, BATCH in *. lia. }
  destruct (pace _ _ _ _) as [clock|] eqn:Ec; run; [|done].
  destruct ps as [|p' ps]; [intros [= <-]; cbn [wk_clock]; by apply pace_reaches in Ec|].
  intros E. apply IH in E; [|done|done|done|unfold BATCH; lia|cbn [length] in *; unfold BATCH in *; lia].
  replace (sent + Z.of_nat (BATCH * S (length (p' :: ps)))) with
    (sent + Z.of_nat BATCH + Z.of_nat (BATCH * length (p' :: ps))) by (unfold BATCH; lia).
  done.
Qed.

(** The target is right up to rounding. *)
Lemma target_elapsed_rate sent pps clock :
  0 < sent → 0 < pps → (∃ target, target_elapsed sent pps = Done target ∧ target <= clock) →
  pps < 2 ^ 53 → sent < 2 ^ 53 →
  2 ^ 53 * (10 ^ 9 * sent - clock * pps) <= 2 ^ 52 * pps + 10 ^ 9 * sent.
Proof.
  intros Hs Hp (target & E & Hc) Hp53 Hs53. pose proof (seconds_error sent pps ltac:(lia) ltac:(lia)) as He.
  unfold target_elapsed, duration_from_secs_f64 in E. destruct (_ <? DURATION_LIMIT); [|done].
  injection E as <-. set (T := nanos_of_secs _) in *. nia.
Qed.

Lemma worker_seeds_eq n seed : worker_seeds n seed = map (fun i => output i seed) (seq 0 n).
Proof.
  revert seed. induction n as [|n IH]; intros seed; [done|]. cbn [worker_seeds seq map].
  destruct (next seed) as [out seed'] eqn:E. rewrite IH, <- seq_shift, map_map.
  f_equal; [unfold output; cbn [state_after]; by rewrite E|].
  apply map_ext. intros i. unfold output. cbn [state_after]. by rewrite E.
Qed.

(** One datagram of a run, and what a filter makes of it. *)
Lemma datagram_reaches_the_check `{BlockCipherLaws} be size seed i a src :
  1200 <= size < 16434 →
  let datagram := datagram_at be tpl_prefix (tpl_suffix size) seed i in
  Z.of_nat (length datagram) = size ∧
  ∃ dcid, destination_cid datagram = Some dcid ∧ get_range datagram 6 (6 + TOKEN_LEN) = Some dcid ∧
    check a datagram (V4 src) = verify dcid (inbound a) src (auth_local_ip a) ∧
    (∃ r, check a datagram (V4 src) = Done r ∧
       r ∈ [Ok tt; Err (UnknownSelector (from_be_bytes (take SELECTOR_LEN dcid))); Err WrongDirection; Err BadTag]) ∧
    (check a datagram (V4 src) = Done (Ok tt) ↔
     ∃ nonce, length nonce = NONCE_LEN ∧ dcid = token_of (inbound a) nonce src (auth_local_ip a)).
Proof.
  intros Hs datagram. set (dcid := dcid_from be (state_after (3 * i) seed)).
  assert (length dcid = TOKEN_LEN) as Hl by apply length_dcid_from.
  assert (quic_dcid datagram dcid) as Hq by (by apply tpl_dcid).
  split; [apply length_tpl; [done|lia]|]. exists dcid. split; [by apply destination_cid_iff|].
  split; [apply (get_range_app tpl_prefix dcid (tpl_suffix size)); [done|by rewrite Hl]|].
  rewrite (check_carried _ _ _ _ Hq), verify_eq. split; [done|]. split.
  - eexists. split; [done|]. unfold verify_spec. rewrite decide_True by done.
    destruct (from_selector _) as [f|]; [|by right; left]. repeat case_decide; [by left|by do 3 right; left|by do 2 right; left].
  - split; [intros [= E]|intros E; f_equal]; by apply verify_spec_token_of.
Qed.

(** ** Theorems *)

(** The template builder by size: below 1200 bytes and above 65535 it answers
    an error; from 1200 to 16433 it builds a datagram of exactly that size; and
    from 16434 to 65535, sizes that pass both guards, it panics, because the
    length field does not fit the two-byte varint. *)
Theorem InitialTemplate_new_by_size size :
  (size < MIN_INITIAL_DATAGRAM → InitialTemplate_new size = Done (Err (SizeBelowMinimum size))) ∧
  (MIN_INITIAL_DATAGRAM <= size < 16434 →
     ∃ t, InitialTemplate_new size = Done (Ok t) ∧ Z.of_nat (length (tpl_bytes t)) = size) ∧
  (16434 <= size <= 65535 → InitialTemplate_new size = Panic) ∧
  (65535 < size → InitialTemplate_new size = Done (Err (SizeAboveUdp size))).
Proof.
  unfold MIN_INITIAL_DATAGRAM. split; [|split; [|split]]; intros Hs.
  - by rewrite InitialTemplate_new_eq, (proj2 (Z.ltb_lt size 1200)).
  - rewrite InitialTemplate_new_in_range by done. eexists. split; [done|].
    apply length_tpl; [done|lia].
  - rewrite InitialTemplate_new_eq, (proj2 (Z.ltb_ge size 1200)), (proj2 (Z.ltb_ge 65535 size)) by lia.
    by rewrite (proj2 (Z.ltb_ge size 16434)) by lia.
  - by rewrite InitialTemplate_new_eq, (proj2 (Z.ltb_ge size 1200)), (proj2 (Z.ltb_lt 65535 size)) by lia.
Qed.

(** The template is a version-1 QUIC Initial: its fields are laid out as in
    RFC 9000, both connection IDs have 20 bytes, the token is empty, and the
    length field counts the packet number and the payload that follow it. *)
Theorem template_is_a_quic_initial size t :
  InitialTemplate_new size = Done (Ok t) →
  ∃ len payload,
    tpl_bytes t =
      [Z_u8 0xc3] ++ to_be_bytes 4 1 ++
      [Z_u8 20] ++ replicate 20 Byte.x00 ++ [Z_u8 20] ++ replicate 20 (Z_u8 0x5a) ++ [Z_u8 0] ++
      len ++ replicate 4 Byte.x00 ++ payload ∧
    length len = 2%nat ∧
    from_be_bytes len = 0x4000 + (4 + Z.of_nat (length payload)) ∧
    destination_cid (tpl_bytes t) = Some (replicate TOKEN_LEN Byte.x00) ∧
    dcid_offset t = 6%nat.
Proof.
  intros [Hs ->]%InitialTemplate_new_Ok.
  exists (to_be_bytes 2 (Z.lor 0x4000 (size - 50))), (replicate (Z.to_nat (size - 54)) (Z_u8 0x42)).
  cbn [tpl_bytes dcid_offset]. split; [|split; [done|split; [|split; [|done]]]].
  - unfold tpl_prefix, tpl_suffix. by rewrite <- !app_assoc.
  - rewrite from_to_be_bytes, varint_field, length_replicate, Z.mod_small by lia. lia.
  - by apply destination_cid_iff, tpl_dcid.
Qed.

(** Rewriting a template, any number of times over, never panics, changes
    nothing but the 20 bytes of the connection ID, and puts the new ID exactly
    where the filter's parser finds it; each rewriting takes three words from the
    generator. *)
Theorem randomizing_rewrites_only_the_connection_id be size dcid s :
  length dcid = TOKEN_LEN →
  ∃ t, randomize_dcid be (mkInitialTemplate (tpl_prefix ++ dcid ++ tpl_suffix size) 6) s =
         Done (t, state_after 3 s) ∧
    tpl_bytes t = tpl_prefix ++ dcid_from be s ++ tpl_suffix size ∧
    dcid_offset t = 6%nat ∧ destination_cid (tpl_bytes t) = Some (dcid_from be s).
Proof.
  intros Hl. change 6%nat with (length tpl_prefix). rewrite randomize_dcid_eq by done.
  eexists. split; [done|]. split; [done|]. split; [done|].
  apply destination_cid_iff, tpl_dcid, length_dcid_from.
Qed.

(** A run of the sender on an accepted size sends 64 datagrams per pass of its
    loop, whatever the kernel answers; every send is counted once, as sent or as
    an error; and no two datagrams are equal, because their connection IDs do not
    repeat within 2^64 packets. The bound of 2^63 packets keeps the schedule of a
    paced run inside what a [Duration] holds. *)
Theorem blast_sends_distinct_datagrams be target size pps seed stats ps :
  MIN_INITIAL_DATAGRAM <= size < 16434 → wf_stats stats → Z.of_nat (BATCH * length ps) < 2 ^ 63 →
  ∃ w, blast be (fun _ => Ok tt) (fun _ => Ok tt) target size pps seed stats ps = Done (Ok w) ∧
    length (wk_out w) = (BATCH * length ps)%nat ∧
    NoDup (wk_out w) ∧
    wk_stats w = stats_after stats (outcomes ps) ∧
    (length (List.filter is_ok (outcomes ps)) + length (List.filter is_err (outcomes ps)))%nat =
      length (wk_out w).
Proof.
  intros Hs Hwf Hn. destruct (blast_run be target size pps seed stats ps Hs Hwf Hn) as (w & E & [_ _ Hst Ho]).
  exists w. split; [done|]. rewrite Ho, length_map, length_seq, count_ok_err, length_outcomes.
  split; [done|]. split; [apply NoDup_datagrams; lia|done].
Qed.

(** C35: every datagram a sender gives the kernel reaches the token check of a filter:
    for every size it accepts, every target, rate, seed and outcomes of its sends, as
    long as it sends fewer than 2^63, it sends 64 of them for each pass of its loop, all
    of the size asked for; the filter's parser finds in each one a connection ID of the
    length of a token, the 20 bytes at the offset the template rewrites; so that the
    verdict on the datagram is the one on that ID as a token: the datagram is never
    turned away as non-QUIC, for its source or for its length, and it is accepted
    exactly if the ID happens to be a token of the path. *)
Theorem blaster_datagrams_reach_the_tag_check `{BlockCipherLaws} be target size pps seed stats ps a src :
  MIN_INITIAL_DATAGRAM <= size < 16434 → wf_stats stats → Z.of_nat (BATCH * length ps) < 2 ^ 63 →
  ∃ t w, InitialTemplate_new size = Done (Ok t) ∧
    blast be (fun _ => Ok tt) (fun _ => Ok tt) target size pps seed stats ps = Done (Ok w) ∧
    length (wk_out w) = (BATCH * length ps)%nat ∧
    Forall (fun datagram =>
      Z.of_nat (length datagram) = size ∧
      ∃ dcid, destination_cid datagram = Some dcid ∧
        get_range datagram (dcid_offset t) (dcid_offset t + TOKEN_LEN) = Some dcid ∧
        check a datagram (V4 src) = verify dcid (inbound a) src (auth_local_ip a) ∧
        (∃ r, check a datagram (V4 src) = Done r ∧
           r ∈ [Ok tt; Err (UnknownSelector (from_be_bytes (take SELECTOR_LEN dcid))); Err WrongDirection; Err BadTag]) ∧
        (check a datagram (V4 src) = Done (Ok tt) ↔
         ∃ nonce, length nonce = NONCE_LEN ∧ dcid = token_of (inbound a) nonce src (auth_local_ip a)))
      (wk_out w).
Proof.
  intros Hs Hwf Hn. destruct (blast_run be target size pps seed stats ps Hs Hwf Hn) as (w & E & [_ _ _ Ho]).
  rewrite InitialTemplate_new_in_range by done. eexists _, w. split; [done|]. split; [done|].
  rewrite Ho, length_map, length_seq. split; [done|]. apply Forall_fmap, Forall_forall. intros i _. cbn [dcid_offset].
  exact (datagram_reaches_the_check be size seed i a src Hs).
Qed.

(** C36: a paced sender is never ahead of its schedule: after any number of passes
    the time since the start is at least the target computed for the packets sent
    so far; and in spite of the floating-point arithmetic that target is right, so
    that a sender of fewer than 2^53 packets has taken the time that so many
    packets need at the given rate, up to half a nanosecond and one part in 2^53. *)
Theorem pacing_never_runs_ahead be target size pps seed stats ps w :
  0 < pps → Forall (fun p => 0 <= ps_late p) ps → ps ≠ [] → wf_stats stats →
  Z.of_nat (BATCH * length ps) < 2 ^ 64 →
  blast be (fun _ => Ok tt) (fun _ => Ok tt) target size pps seed stats ps = Done (Ok w) →
  let sent := Z.of_nat (length (wk_out w)) in
  (∃ target, target_elapsed sent pps = Done target ∧ target <= wk_clock w) ∧
  (pps < 2 ^ 53 → sent < 2 ^ 53 →
   2 ^ 53 * (10 ^ 9 * sent - wk_clock w * pps) <= 2 ^ 52 * pps + 10 ^ 9 * sent).
Proof.
  intros Hp Hl Hne Hwf Hb Hrun. destruct (blast_returned _ _ _ _ _ _ _ _ Hwf Hrun) as [Hs [_ _ _ Ho]].
  unfold blast in Hrun. rewrite InitialTemplate_new_in_range in Hrun by done. cbn [mbind exec_bind] in Hrun.
  destruct (blast_loop be pps ps 0 _) as [w'|] eqn:El; [|done]. injection Hrun as ->.
  rewrite Ho, length_map, length_seq. cbv zeta.
  assert (∃ target, target_elapsed (Z.of_nat (BATCH * length ps)) pps = Done target ∧ target <= wk_clock w)
    as Hclock by (by apply (blast_loop_clock be pps ps 0) in El).
  split; [done|]. intros Hp53 Hs53. apply target_elapsed_rate; [|done..].
  destruct ps; [done|]. unfold BATCH. cbn [length]. lia.
Qed.

(** The rate per thread: it is zero exactly for an unpaced run; when the rate
    is at least the number of threads, the threads together stay within it and
    miss it by less than one packet per thread; when it is smaller, each thread
    still sends one packet per second, so together they exceed it. *)
Theorem per_thread_pps_divides_the_rate pps threads :
  0 <= pps → 0 < threads →
  (per_thread_pps pps threads = 0 ↔ pps = 0) ∧
  (threads <= pps →
     pps - threads < threads * per_thread_pps pps threads <= pps) ∧
  (0 < pps < threads → threads * per_thread_pps pps threads = threads).
Proof.
  intros Hp Ht.
  assert (pps ≠ 0 → per_thread_pps pps threads = Z.max (pps / threads) 1) as Hpos by (by destruct pps).
  pose proof (Z.div_mod pps threads ltac:(lia)) as Hd.
  pose proof (Z.mod_pos_bound pps threads Ht) as Hm. split; [|split].
  - destruct (Z.eq_dec pps 0) as [->|Hne]; [done|]. rewrite Hpos by done. lia.
  - intros Hge. assert (1 <= pps / threads) by (apply Z.div_le_lower_bound; lia).
    rewrite Hpos, Z.max_l by lia. lia.
  - intros Hlt. rewrite Hpos, Z.div_small, Z.max_r by lia. lia.
Qed.

(** The plan of a run: at least one worker, one seed per worker, and no two
    workers with the same seed. *)
Theorem plan_gives_each_worker_its_own_seed size pps threads available p :
  (∀ n, threads = Some n → 0 <= n) → (∀ n, available = Some n → 0 < n) →
  plan size pps threads available = Done (Ok p) → pl_threads p <= 2 ^ 64 →
  0 < pl_threads p ∧ Z.of_nat (length (pl_seeds p)) = pl_threads p ∧ NoDup (pl_seeds p) ∧
  pl_pps p = per_thread_pps pps (pl_threads p).
Proof.
  intros Ht Ha. unfold plan. destruct (InitialTemplate_new size) as [[t|e]|]; run; try done.
  intros [= <-]. cbn [pl_threads pl_seeds pl_pps]. intros Hb.
  assert (0 < thread_count threads available) as Hpos.
  { unfold thread_count. destruct threads as [[|n|n]|]; [|lia|specialize (Ht _ eq_refl); lia|];
      (destruct available as [m|]; [by apply Ha|lia]). }
  rewrite worker_seeds_eq. split; [done|]. split; [rewrite length_map, length_seq; lia|].
  split; [|done]. apply NoDup_fmap_2_strong; [|apply NoDup_ListNoDup, seq_NoDup].
  intros i j Hi%elem_of_seq Hj%elem_of_seq [c Hc]%output_eq. nia.
Qed.

(** The lines of the report add up: modulo 2^64, the packets and bytes printed sum
    to what the last sample has more than the first values. *)
Lemma report_lines_add_up samples s b :
  wrap 64 (foldr (fun '(ds, _, _) acc => ds + acc) 0 (report samples s b)) =
    wrap 64 (fst (List.last samples (s, b)) - s) ∧
  wrap 64 (foldr (fun '(_, db, _) acc => db + acc) 0 (report samples s b)) =
    wrap 64 (snd (List.last samples (s, b)) - b).
Proof.
  revert s b. induction samples as [|[s' b'] samples IH]; intros s b; cbn [report foldr].
  { cbn [List.last fst snd]. by rewrite !Z.sub_diag. }
  destruct (IH s' b') as [E1 E2].
  assert (List.last ((s', b') :: samples) (s, b) = List.last samples (s', b')) as ->.
  { destruct samples as [|x samples]; [done|]. clear IH E1 E2. cbn [List.last].
    revert x. induction samples as [|y samples IH]; intros x; [done|]. apply IH. }
  rewrite !wrap_add_l. apply wrap_eq in E1 as [c1 E1], E2 as [c2 E2].
  split; apply wrap_eq; [exists c1|exists c2]; lia.
Qed.

(** ** Instances at concrete input *)

Definition ex_template : InitialTemplate :=
  mkInitialTemplate (tpl_prefix ++ replicate TOKEN_LEN Byte.x00 ++ tpl_suffix 1200) 6.

Lemma template_is_a_quic_initial_witness :
  ∃ len payload,
    tpl_bytes ex_template =
      [Z_u8 0xc3] ++ to_be_bytes 4 1 ++
      [Z_u8 20] ++ replicate 20 Byte.x00 ++ [Z_u8 20] ++ replicate 20 (Z_u8 0x5a) ++ [Z_u8 0] ++
      len ++ replicate 4 Byte.x00 ++ payload ∧
    length len = 2%nat ∧
    from_be_bytes len = 0x4000 + (4 + Z.of_nat (length payload)) ∧
    destination_cid (tpl_bytes ex_template) = Some (replicate TOKEN_LEN Byte.x00) ∧
    dcid_offset ex_template = 6%nat.
Proof. apply (template_is_a_quic_initial 1200). vm_compute. reflexivity. Defined.

Lemma randomizing_rewrites_only_the_connection_id_witness :
  ∃ t, randomize_dcid false ex_template 1 = Done (t, state_after 3 1) ∧
    tpl_bytes t = tpl_prefix ++ dcid_from false 1 ++ tpl_suffix 1200 ∧
    dcid_offset t = 6%nat ∧ destination_cid (tpl_bytes t) = Some (dcid_from false 1).
Proof.
  apply (randomizing_rewrites_only_the_connection_id false 1200 (replicate TOKEN_LEN Byte.x00) 1).
  reflexivity.
Defined.

Definition ex_pass : pass :=
  mkPass (fun i => if Nat.even i then Ok 1200%nat else Err ConnectionRefused) 1000 0.

Lemma ex_stats_wf : wf_stats Stats_default.
Proof. unfold wf_stats, is_u64. cbn. lia. Qed.

Definition ex_target : SocketAddr := mkSocketAddr (V4 (ipv4 10 0 0 2)) 4433.

Lemma blast_sends_distinct_datagrams_witness :
  ∃ w, blast false (fun _ => Ok tt) (fun _ => Ok tt) ex_target 1200 250000 42 Stats_default [ex_pass; ex_pass] = Done (Ok w) ∧
    length (wk_out w) = (BATCH * 2)%nat ∧ NoDup (wk_out w) ∧
    wk_stats w = stats_after Stats_default (outcomes [ex_pass; ex_pass]) ∧
    (length (List.filter is_ok (outcomes [ex_pass; ex_pass])) +
     length (List.filter is_err (outcomes [ex_pass; ex_pass])))%nat = length (wk_out w).
Proof.
  apply (blast_sends_distinct_datagrams false ex_target 1200 250000 42 Stats_default [ex_pass; ex_pass]).
  - vm_compute. split; congruence.
  - exact ex_stats_wf.
  - vm_compute. congruence.
Defined.

Lemma blaster_datagrams_reach_the_tag_check_witness :
  ∃ w, blast false (fun _ => Ok tt) (fun _ => Ok tt) ex_target 1200 250000 42 Stats_default [ex_pass; ex_pass] = Done (Ok w) ∧
    length (wk_out w) = 128%nat ∧
    Forall (fun d => check (Authenticator_new ClientToServer ex_server) d (V4 ex_elsewhere) ≠ Done (Err NotQuic)) (wk_out w).
Proof.
  destruct (blaster_datagrams_reach_the_tag_check false ex_target 1200 250000 42 Stats_default [ex_pass; ex_pass]
              (Authenticator_new ClientToServer ex_server) ex_elsewhere) as (t & w & _ & E & Hl & Hf).
  - split; vm_compute; congruence.
  - done.
  - done.
  - exists w. split; [exact E|]. split; [exact Hl|]. eapply Forall_impl; [exact Hf|].
    intros d (_ & dcid & _ & _ & _ & (r & -> & Hr) & _) [= ->].
    repeat (apply elem_of_cons in Hr as [Hr|Hr]; [discriminate Hr|]). by apply not_elem_of_nil in Hr.
Defined.

Lemma pacing_never_runs_ahead_witness :
  ∃ w, blast false (fun _ => Ok tt) (fun _ => Ok tt) ex_target 1200 250000 42 Stats_default [ex_pass; ex_pass] = Done (Ok w) ∧
    512000 <= wk_clock w.
Proof.
  destruct (blast_run false ex_target 1200 250000 42 Stats_default [ex_pass; ex_pass])
    as (w & E & Hat); [lia|exact ex_stats_wf|vm_compute; reflexivity|].
  exists w. split; [exact E|].
  pose proof (pacing_never_runs_ahead false ex_target 1200 250000 42 Stats_default [ex_pass; ex_pass] w
    eq_refl ltac:(repeat constructor; vm_compute; congruence) ltac:(discriminate) ex_stats_wf
    ltac:(vm_compute; reflexivity) E) as Hc.
  rewrite (at_out _ _ _ _ _ _ _ _ Hat), length_map, length_seq in Hc.
  destruct (proj1 Hc) as (target & Et & Hle). vm_compute in Et. injection Et as <-. exact Hle.
Defined.

Lemma per_thread_pps_divides_the_rate_witness :
  (per_thread_pps 5 20 = 0 ↔ 5 = 0) ∧
  (20 <= 5 → 5 - 20 < 20 * per_thread_pps 5 20 <= 5) ∧
  (0 < 5 < 20 → 20 * per_thread_pps 5 20 = 20).
Proof. apply (per_thread_pps_divides_the_rate 5 20); lia. Defined.

Lemma plan_gives_each_worker_its_own_seed_witness :
  0 < 3 ∧ Z.of_nat (length (worker_seeds 3 MASTER_SEED)) = 3 ∧ NoDup (worker_seeds 3 MASTER_SEED) ∧
  33 = per_thread_pps 100 3.
Proof.
  apply (plan_gives_each_worker_its_own_seed 1200 100 (Some 3) None
           (mkPlan 3 33 (worker_seeds 3 MASTER_SEED))).
  - intros n [= <-]. lia.
  - discriminate.
  - vm_compute. reflexivity.
  - cbn. lia.
Defined.
