(* ===== verification/BlasterThreads.v ===== *)
(** * The blaster's threads ([src/bin/blaster.rs])

    The workers of one run, the reporter and [main] as one machine: every load of
    the stop flag, every [send] and every atomic addition to the shared statistics
    is a step of its own, and the threads take steps in any order. The sequential
    model of one worker is [Blaster.v]; here its state is split at each point where
    another thread may come in between. *)

From stdpp Require Import relations sorting.
From S2P Require Import Prelude Interfaces Auth Datagram SplitMix Float64 Blaster BlasterTheorems.

Local Open Scope Z_scope.

(** ** One worker *)

(** What the threads share: the stop flag and the statistics. *)
Record Shared := mkShared { sh_running : bool; sh_stats : Stats }.

(** Where a worker is in [blast]: before its socket is set up; at the load of the
    flag; with so many datagrams of the batch left to send; between a send and the
    additions that count it; at the end, with its result; or unwound by a panic. *)
Inductive phase :=
| Starting
| AtLoop
| Sending (k : nat)
| CountSent (n k : nat)
| CountBytes (n k : nat)
| CountError (k : nat)
| Exited (r : result unit BlastError)
| Unwound.

(** A worker: its seed, its local variables, the time since its start, and logs of
    what it gave the kernel, of the outcomes, and of the time each batch took and
    its pause overran. *)
Record Thread := mkThread {
  th_seed : Z; th_phase : phase; th_template : InitialTemplate; th_rng : Z; th_sent : Z; th_clock : Z;
  th_out : list (list byte); th_outcomes : list (result nat ErrorKind); th_pauses : list (Z * Z) }.

Definition at_phase (ph : phase) (th : Thread) : Thread :=
  mkThread (th_seed th) ph (th_template th) (th_rng th) (th_sent th) (th_clock th) (th_out th)
    (th_outcomes th) (th_pauses th).

(** A worker that has been spawned. *)
Definition spawned_thread (seed : Z) : Thread :=
  mkThread seed Starting (mkInitialTemplate [] 0) seed 0 0 [] [] [].

(** What the kernel answers, where the worker asks: to binding, connecting and
    sending, and, at the end of a batch, how long it took and by how much the
    pause overran. *)
Record answers := mkAnswers {
  an_bound : result unit ErrorKind; an_connected : result unit ErrorKind;
  an_send : result nat ErrorKind; an_time : Z; an_late : Z }.

Section machine.
Context (big_endian : bool) (size pps : Z).

(** One step of [blast]; a panic unwinds the worker's own thread only. *)
Definition thread_step (an : answers) (sh : Shared) (th : Thread) : Shared * Thread :=
  match th_phase th with
  | Starting =>
      match an_bound an with
      | Err e => (sh, at_phase (Exited (Err (BlastIo e))) th)
      | Ok _ =>
          match an_connected an with
          | Err e => (sh, at_phase (Exited (Err (BlastIo e))) th)
          | Ok _ =>
              match InitialTemplate_new size with
              | Panic => (sh, at_phase Unwound th)
              | Done (Err e) => (sh, at_phase (Exited (Err (BlastTemplate e))) th)
              | Done (Ok template) =>
                  (sh, mkThread (th_seed th) AtLoop template (th_seed th) 0 0 (th_out th) (th_outcomes th)
                         (th_pauses th))
              end
          end
      end
  | AtLoop =>
      if sh_running sh then (sh, at_phase (Sending BATCH) th) else (sh, at_phase (Exited (Ok tt)) th)
  | Sending (S k) =>
      match randomize_dcid big_endian (th_template th) (th_rng th) with
      | Panic => (sh, at_phase Unwound th)
      | Done (template, rng) =>
          let ph := match an_send an with Ok n => CountSent n k | Err _ => CountError k end in
          (sh, mkThread (th_seed th) ph template rng (th_sent th) (th_clock th)
                 (th_out th ++ [tpl_bytes template]) (th_outcomes th ++ [an_send an]) (th_pauses th))
      end
  | CountSent n k =>
      let st := sh_stats sh in
      (mkShared (sh_running sh) (mkStats (u64_wrapping_add (st_sent st) 1) (st_bytes st) (st_errors st)),
       at_phase (CountBytes n k) th)
  | CountBytes n k =>
      let st := sh_stats sh in
      (mkShared (sh_running sh)
         (mkStats (st_sent st) (u64_wrapping_add (st_bytes st) (Z.of_nat n)) (st_errors st)),
       at_phase (Sending k) th)
  | CountError k =>
      let st := sh_stats sh in
      (mkShared (sh_running sh) (mkStats (st_sent st) (st_bytes st) (u64_wrapping_add (st_errors st) 1)),
       at_phase (Sending k) th)
  | Sending 0 =>
      let sent := u64_wrapping_add (th_sent th) (Z.of_nat BATCH) in
      match pace pps sent (th_clock th + an_time an) (an_late an) with
      | Panic => (sh, at_phase Unwound th)
      | Done clock =>
          (sh, mkThread (th_seed th) AtLoop (th_template th) (th_rng th) sent clock (th_out th)
                 (th_outcomes th) (th_pauses th ++ [(an_time an, an_late an)]))
      end
  | Exited _ | Unwound => (sh, th)
  end.

Definition exited (th : Thread) : bool :=
  match th_phase th with Exited _ | Unwound => true | _ => false end.

(** ** The run *)

(** Where [main] is: waiting for the deadline or the interrupt, past the store to
    the flag, past aborting the reporter and joining the workers, or at its end,
    with the statistics it prints. *)
Inductive main_phase :=
| Waiting
| Stopped
| Joining
| Finished (r : result Stats ErrorKind).

(** The reporter: asleep, between its two loads, the same but aborted, which only
    takes effect when it next sleeps, or gone. *)
Inductive reporter := RepSleeping | RepLoaded (sent : Z) | RepFinishing (sent : Z) | RepAborted.

Definition abort_reporter (r : reporter) : reporter :=
  match r with RepLoaded sent => RepFinishing sent | RepSleeping => RepAborted | _ => r end.

Record Pool := mkPool {
  po_shared : Shared; po_threads : list Thread; po_main : main_phase;
  po_reporter : reporter; po_samples : list (Z * Z) }.

Definition main_running (m : main_phase) : bool :=
  match m with Finished _ => false | _ => true end.

Inductive pool_step : Pool → Pool → Prop :=
| pool_thread p i th an sh' th' :
    main_running (po_main p) = true → po_threads p !! i = Some th → exited th = false →
    thread_step an (po_shared p) th = (sh', th') →
    pool_step p (mkPool sh' (<[i := th']> (po_threads p)) (po_main p) (po_reporter p) (po_samples p))
| pool_report_sent p :
    main_running (po_main p) = true → po_reporter p = RepSleeping →
    pool_step p (mkPool (po_shared p) (po_threads p) (po_main p)
                   (RepLoaded (st_sent (sh_stats (po_shared p)))) (po_samples p))
| pool_report_bytes p sent :
    main_running (po_main p) = true → po_reporter p = RepLoaded sent →
    pool_step p (mkPool (po_shared p) (po_threads p) (po_main p) RepSleeping
                   (po_samples p ++ [(sent, st_bytes (sh_stats (po_shared p)))]))
| pool_report_last p sent :
    main_running (po_main p) = true → po_reporter p = RepFinishing sent →
    pool_step p (mkPool (po_shared p) (po_threads p) (po_main p) RepAborted
                   (po_samples p ++ [(sent, st_bytes (sh_stats (po_shared p)))]))
| pool_stop p :
    po_main p = Waiting →
    pool_step p (mkPool (mkShared false (sh_stats (po_shared p))) (po_threads p) Stopped
                   (po_reporter p) (po_samples p))
| pool_interrupt_fails p e :
    po_main p = Waiting →
    pool_step p (mkPool (po_shared p) (po_threads p) (Finished (Err e)) (po_reporter p) (po_samples p))
| pool_abort p :
    po_main p = Stopped →
    pool_step p (mkPool (po_shared p) (po_threads p) Joining (abort_reporter (po_reporter p)) (po_samples p))
| pool_join p :
    po_main p = Joining → Forall (fun th => exited th = true) (po_threads p) →
    pool_step p (mkPool (po_shared p) (po_threads p) (Finished (Ok (sh_stats (po_shared p))))
                   (po_reporter p) (po_samples p)).
End machine.

(** The workers of a plan, with the outcome of spawning each; the first thread that
    cannot be spawned ends [main]. *)
Fixpoint spawn_workers (seeds : list (Z * result unit ErrorKind)) : result (list Thread) ErrorKind :=
  match seeds with
  | [] => Ok []
  | (_, Err e) :: _ => Err e
  | (seed, Ok _) :: seeds' =>
      match spawn_workers seeds' with
      | Ok ths => Ok (spawned_thread seed :: ths)
      | Err e => Err e
      end
  end.

(** The run as it starts. *)
Definition pool_of (threads : list Thread) : Pool :=
  mkPool (mkShared true Stats_default) threads Waiting RepSleeping [].

(** The arguments and their defaults. The target decides the address a worker binds
    ([blast_local]); the duration decides when [main] stops waiting, which is the moment
    [pool_stop] happens and may also be an interrupt. *)
Record BlasterArgs := mkBlasterArgs {
  ba_target : SocketAddr; ba_threads : option Z; ba_duration : Z; ba_size : Z; ba_pps : Z }.

Definition blaster_default_args : BlasterArgs :=
  mkBlasterArgs (mkSocketAddr (V4 (ipv4 127 0 0 1)) 4433) None 10 MIN_INITIAL_DATAGRAM 0.

(** [main] from its arguments to the point where workers and reporter run: checking
    the size, dividing the work and spawning, given which threads can be spawned. *)
Inductive MainError := MainTemplate (e : TemplateError) | MainIo (e : ErrorKind).

Definition blaster_start (args : BlasterArgs) (available : option Z)
    (spawned : nat → result unit ErrorKind) : exec (result (Plan * Pool) MainError) :=
  p ← plan (ba_size args) (ba_pps args) (ba_threads args) available;
  match p with
  | Err e => mret (Err (MainTemplate e))
  | Ok p =>
      match spawn_workers (imap (fun i seed => (seed, spawned i)) (pl_seeds p)) with
      | Err e => mret (Err (MainIo e))
      | Ok ths => mret (Ok (p, pool_of ths))
      end
  end.

(** What [main] prints at its end: the counters, the mebibytes, and the rates for
    the time that went by, where that is not zero. *)
Record BlastSummary := mkBlastSummary {
  bs_sent : Z; bs_mib : f64; bs_errors : Z; bs_rates : option (f64 * f64) }.

Definition MIB : f64 := f64_of_u64 (1024 * 1024).

Definition blast_summary (st : Stats) (elapsed : f64) : BlastSummary :=
  let mib := f64_div (f64_of_u64 (st_bytes st)) MIB in
  mkBlastSummary (st_sent st) mib (st_errors st)
    (if mant elapsed =? 0 then None
     else Some (f64_div (f64_of_u64 (st_sent st)) elapsed,
                f64_div (f64_div (f64_of_u64 (st_bytes st)) elapsed) MIB)).

(** ** Invariants *)

(** What of a worker's sends the shared statistics contain: all but the additions
    that are still to come. *)
Definition sent_of (th : Thread) : Z :=
  Z.of_nat (length (List.filter is_ok (th_outcomes th))) -
  match th_phase th with CountSent _ _ => 1 | _ => 0 end.
Definition bytes_of_thread (th : Thread) : Z :=
  sum_ok (th_outcomes th) -
  match th_phase th with CountSent n _ | CountBytes n _ => Z.of_nat n | _ => 0 end.
Definition errors_of (th : Thread) : Z :=
  Z.of_nat (length (List.filter is_err (th_outcomes th))) -
  match th_phase th with CountError _ => 1 | _ => 0 end.

Definition tsum (f : Thread → Z) (ths : list Thread) : Z := foldr (fun th n => f th + n) 0 ths.

(** The statistics that [ths] account for. *)
Definition stats_of_threads (ths : list Thread) : Stats :=
  mkStats (wrap 64 (tsum sent_of ths)) (wrap 64 (tsum bytes_of_thread ths)) (wrap 64 (tsum errors_of ths)).

(** The clock after the pauses of some batches, from [sent] packets at [clock] on. *)
Fixpoint pace_through (pps sent clock : Z) (l : list (Z * Z)) : exec Z :=
  match l with
  | [] => mret clock
  | (time, late) :: l' =>
      let sent := u64_wrapping_add sent (Z.of_nat BATCH) in
      clock ← pace pps sent (clock + time) late;
      pace_through pps sent clock l'
  end.

Section invariants.
Context (big_endian : bool) (size pps : Z).

(** The sends of a worker are those of the sequential model: whole batches but for
    the one under way, each of the former followed by its pause. *)
Record thread_inv (th : Thread) : Prop := {
  ti_out : th_out th =
    map (datagram_at big_endian tpl_prefix (tpl_suffix size) (th_seed th)) (seq 0 (length (th_outcomes th)));
  ti_core : match th_phase th with
            | Starting | Exited (Err _) => th_outcomes th = [] ∧ th_pauses th = []
            | Unwound => True
            | _ => (∃ dcid, length dcid = TOKEN_LEN ∧
                      th_template th = mkInitialTemplate (tpl_prefix ++ dcid ++ tpl_suffix size) (length tpl_prefix)) ∧
                   th_rng th = state_after (3 * length (th_outcomes th)) (th_seed th)
            end;
  ti_batch : match th_phase th with
             | Sending k => (k <= BATCH ∧ length (th_outcomes th) + k = BATCH * S (length (th_pauses th)))%nat
             | CountSent _ k | CountBytes _ k | CountError k =>
                 (k < BATCH ∧ length (th_outcomes th) + k = BATCH * S (length (th_pauses th)))%nat
             | AtLoop | Exited (Ok _) => length (th_outcomes th) = (BATCH * length (th_pauses th))%nat
             | _ => True
             end;
  ti_clock : match th_phase th with
             | Starting | Exited (Err _) | Unwound => True
             | _ => pace_through pps 0 0 (th_pauses th) = Done (th_clock th) ∧
                    th_sent th = wrap 64 (Z.of_nat (BATCH * length (th_pauses th)))
             end
}.

Record pool_inv (p : Pool) : Prop := {
  pi_threads : Forall thread_inv (po_threads p);
  pi_stats : sh_stats (po_shared p) = stats_of_threads (po_threads p);
  pi_running : sh_running (po_shared p) = true ↔
               po_main p = Waiting ∨ ∃ e, po_main p = Finished (Err e);
  pi_finished : ∀ st, po_main p = Finished (Ok st) →
    st = sh_stats (po_shared p) ∧ Forall (fun th => exited th = true) (po_threads p);
  pi_reporter : po_main p = Joining → abort_reporter (po_reporter p) = po_reporter p
}.
End invariants.

(** ** Lemmas *)

Lemma tsum_insert f ths : ∀ i th th',
  ths !! i = Some th → tsum f (<[i := th']> ths) = tsum f ths + (f th' - f th).
Proof.
  unfold tsum. induction ths as [|t ths IH]; intros [|i] th th' Hi; try done.
  - injection Hi as ->. cbn. lia.
  - change (<[S i := th']> (t :: ths)) with (t :: <[i := th']> ths). cbn [foldr].
    rewrite (IH i th th' Hi). lia.
Qed.

(** What one step of a worker adds to the statistics. *)
Definition stats_moved (st : Stats) (th th' : Thread) : Stats :=
  mkStats (wrap 64 (st_sent st + (sent_of th' - sent_of th)))
    (wrap 64 (st_bytes st + (bytes_of_thread th' - bytes_of_thread th)))
    (wrap 64 (st_errors st + (errors_of th' - errors_of th))).

Lemma stats_of_threads_moved ths i th th' :
  ths !! i = Some th →
  stats_moved (stats_of_threads ths) th th' = stats_of_threads (<[i := th']> ths).
Proof.
  intros Hi. unfold stats_moved, stats_of_threads. cbn [st_sent st_bytes st_errors].
  by rewrite !(tsum_insert _ _ _ _ th' Hi), !wrap_add_l.
Qed.

Lemma stats_of_threads_wf ths : wf_stats (stats_of_threads ths).
Proof. unfold wf_stats, stats_of_threads. cbn. split_and!; apply wrap_u64. Qed.

Lemma sum_ok_single (r : result nat ErrorKind) :
  sum_ok [r] = match r with Ok n => Z.of_nat n | Err _ => 0 end.
Proof. destruct r; cbn; lia. Qed.

Lemma is_ok_snoc (rs : list (result nat ErrorKind)) r :
  Z.of_nat (length (List.filter is_ok (rs ++ [r]))) =
  Z.of_nat (length (List.filter is_ok rs)) + (if is_ok r then 1 else 0) ∧
  Z.of_nat (length (List.filter is_err (rs ++ [r]))) =
  Z.of_nat (length (List.filter is_err rs)) + (if is_err r then 1 else 0).
Proof. rewrite !List.filter_app, !length_app. destruct r; cbn; lia. Qed.

(** Reading the fields of a thread that was just built. *)
Ltac tfields :=
  cbn [sh_running sh_stats th_seed th_phase th_template th_rng th_sent th_clock th_out th_outcomes th_pauses
       tpl_bytes].

Lemma pace_through_snoc pps l time late : ∀ sent clock,
  pace_through pps sent clock (l ++ [(time, late)]) =
  (clock ← pace_through pps sent clock l;
   pace pps (wrap 64 (sent + Z.of_nat (BATCH * S (length l)))) (clock + time) late).
Proof.
  induction l as [|[t lt] l IH]; intros sent clock; cbn [app pace_through length].
  - run. unfold u64_wrapping_add. rewrite Nat.mul_1_r. by destruct (pace _ _ _ _).
  - destruct (pace _ _ (clock + t) lt) as [c|]; run; [|done]. rewrite IH. unfold u64_wrapping_add.
    rewrite wrap_add_l. destruct (pace_through _ _ _ _); run; [|done]. f_equal. f_equal. unfold BATCH. lia.
Qed.

Section lemmas.
Context (big_endian : bool) (size pps : Z).
Hypothesis size_ok : MIN_INITIAL_DATAGRAM <= size < 16434.

Lemma spawned_inv seed : thread_inv big_endian size pps (spawned_thread seed).
Proof. by split. Qed.

Lemma template_ok :
  InitialTemplate_new size =
  Done (Ok (mkInitialTemplate (tpl_prefix ++ replicate TOKEN_LEN Byte.x00 ++ tpl_suffix size) 6)).
Proof.
  unfold MIN_INITIAL_DATAGRAM in size_ok. rewrite InitialTemplate_new_eq.
  rewrite (proj2 (Z.ltb_ge size 1200)), (proj2 (Z.ltb_ge 65535 size)), (proj2 (Z.ltb_lt size 16434)) by lia.
  done.
Qed.

(** A step that leaves the worker's logs alone adds what its phases differ by. *)
Lemma stats_moved_phase st th th' ds db de :
  th_outcomes th' = th_outcomes th →
  match th_phase th with CountSent _ _ => 1 | _ => 0 end -
    match th_phase th' with CountSent _ _ => 1 | _ => 0 end = ds →
  match th_phase th with CountSent n _ | CountBytes n _ => Z.of_nat n | _ => 0 end -
    match th_phase th' with CountSent n _ | CountBytes n _ => Z.of_nat n | _ => 0 end = db →
  match th_phase th with CountError _ => 1 | _ => 0 end -
    match th_phase th' with CountError _ => 1 | _ => 0 end = de →
  stats_moved st th th' =
  mkStats (wrap 64 (st_sent st + ds)) (wrap 64 (st_bytes st + db)) (wrap 64 (st_errors st + de)).
Proof.
  intros Ho <- <- <-. unfold stats_moved, sent_of, bytes_of_thread, errors_of. rewrite Ho.
  f_equal; f_equal; lia.
Qed.

(** Sending adds to the logs what is not counted yet. *)
Lemma stats_moved_send st seed k tpl rng sent clock out rs l r tpl' rng' out' :
  wf_stats st →
  stats_moved st (mkThread seed (Sending (S k)) tpl rng sent clock out rs l)
    (mkThread seed (match r with Ok n => CountSent n k | Err _ => CountError k end) tpl' rng' sent clock out'
       (rs ++ [r]) l) = st.
Proof.
  intros (Hs & Hb & He). unfold stats_moved, sent_of, bytes_of_thread, errors_of.
  cbn [th_phase th_outcomes]. destruct (is_ok_snoc rs r) as [-> ->]. rewrite sum_ok_app.
  rewrite sum_ok_single.
  destruct st as [s b e]; cbn [st_sent st_bytes st_errors] in *.
  f_equal; etrans; try (by apply wrap_small); f_equal; destruct r; cbn; lia.
Qed.

(** A step of a worker that has not exited. *)
Lemma thread_step_spec an sh th sh' th' :
  thread_inv big_endian size pps th → wf_stats (sh_stats sh) → exited th = false →
  thread_step big_endian size pps an sh th = (sh', th') →
  sh_running sh' = sh_running sh ∧ sh_stats sh' = stats_moved (sh_stats sh) th th' ∧
  thread_inv big_endian size pps th'.
Proof.
  intros [Hout Hcore Hbatch Hclock] Hwf Hex. destruct sh as [running st]. cbn [sh_running sh_stats] in *.
  destruct th as [seed ph tpl rng sent clock out rs l]. unfold exited in Hex.
  cbn [th_seed th_phase th_template th_rng th_sent th_clock th_out th_outcomes th_pauses] in *.
  assert (mkStats (wrap 64 (st_sent st + 0)) (wrap 64 (st_bytes st + 0)) (wrap 64 (st_errors st + 0)) = st)
    as Hsame by (destruct Hwf as (? & ? & ?); rewrite !Z.add_0_r, !wrap_small by done; by destruct st).
  assert (wrap 64 (st_sent st + 0) = st_sent st ∧ wrap 64 (st_bytes st + 0) = st_bytes st ∧
          wrap 64 (st_errors st + 0) = st_errors st) as (Hs & Hb & He)
    by (destruct Hwf as (? & ? & ?); rewrite !Z.add_0_r; by rewrite !wrap_small).
  unfold thread_step, at_phase. tfields.
  destruct ph as [| |[|k]|n k|n k|k|r|]; [destruct (an_bound an) as [?|e]; [destruct (an_connected an) as [?|e]|]|..].
  - rewrite template_ok. destruct Hcore as [-> ->]. intros [= <- <-]. tfields. split; [done|].
    split; [by rewrite (stats_moved_phase _ _ _ 0 0 0)|]. split; tfields; try done.
    split; [|done]. by exists (replicate TOKEN_LEN Byte.x00).
  - intros [= <- <-]. tfields. split; [done|]. split; [by rewrite (stats_moved_phase _ _ _ 0 0 0)|]. by split.
  - intros [= <- <-]. tfields. split; [done|]. split; [by rewrite (stats_moved_phase _ _ _ 0 0 0)|]. by split.
  - destruct running; intros [= <- <-]; tfields; (split; [done|]; split; [by rewrite (stats_moved_phase _ _ _ 0 0 0)|]);
      split; tfields; try done. unfold BATCH in *. lia.
  - destruct (pace _ _ _ _) as [c|] eqn:Ep; intros [= <- <-]; tfields;
      (split; [done|]; split; [by rewrite (stats_moved_phase _ _ _ 0 0 0)|]); split; tfields; try done.
    + rewrite length_app. unfold BATCH in *. cbn [length]. lia.
    + destruct Hclock as [Hc Hsent]. rewrite pace_through_snoc, Hc. run.
      rewrite Hsent in Ep |- *. unfold u64_wrapping_add in *. rewrite wrap_add_l in *.
      rewrite length_app, Nat.add_1_r.
      replace (Z.of_nat (BATCH * length l) + Z.of_nat BATCH) with (Z.of_nat (BATCH * S (length l))) in *
        by (unfold BATCH; lia). done.
  - destruct Hcore as [(dcid & Hl & ->) Hrng]. rewrite randomize_dcid_eq by done.
    intros [<- <-]%pair_equal_spec. tfields. split; [done|]. split; [by rewrite stats_moved_send|].
    split; tfields.
    + rewrite length_app, Nat.add_1_r, seq_S, map_app, Hout. cbn [map app]. unfold datagram_at. by rewrite Hrng.
    + rewrite length_app, Nat.add_1_r. destruct (an_send an); (split; [|rewrite Hrng, <- state_after_add; f_equal; lia]);
        eexists; (split; [|reflexivity]); apply length_dcid_from.
    + rewrite length_app, Nat.add_1_r. destruct (an_send an); lia.
    + by destruct (an_send an).
  - intros [= <- <-]. tfields. split; [done|]. split; [|by split].
    rewrite (stats_moved_phase _ _ _ 1 0 0); [|tfields; (done || lia)..]. by rewrite Hb, He.
  - intros [= <- <-]. tfields. split; [done|].
    split; [rewrite (stats_moved_phase _ _ _ 0 (Z.of_nat n) 0); [|tfields; (done || lia)..]; by rewrite Hs, He|].
    split; tfields; try done. lia.
  - intros [= <- <-]. tfields. split; [done|].
    split; [rewrite (stats_moved_phase _ _ _ 0 0 1); [|tfields; (done || lia)..]; by rewrite Hs, Hb|].
    split; tfields; try done. lia.
  - done.
  - done.
Qed.

Lemma pool_of_inv threads :
  Forall (thread_inv big_endian size pps) threads → Forall (fun th => th_phase th = Starting) threads →
  pool_inv big_endian size pps (pool_of threads).
Proof.
  intros Hi Hs. split; cbn; try done; [|by split; [left|]].
  assert (tsum sent_of threads = 0 ∧ tsum bytes_of_thread threads = 0 ∧ tsum errors_of threads = 0)
    as (H1 & H2 & H3); [|unfold stats_of_threads; by rewrite H1, H2, H3].
  induction Hi as [|th threads Hth _ IH]; [done|]. apply Forall_cons in Hs as [Hph Hs].
  destruct (IH Hs) as (E1 & E2 & E3). pose proof (ti_core _ _ _ _ Hth) as Hc. rewrite Hph in Hc.
  unfold tsum in *. cbn [foldr]. rewrite E1, E2, E3.
  unfold sent_of, bytes_of_thread, errors_of. destruct Hc as [Hc _]. by rewrite Hph, Hc.
Qed.

Lemma pool_step_inv p p' :
  pool_step big_endian size pps p p' → pool_inv big_endian size pps p → pool_inv big_endian size pps p'.
Proof.
  intros Hstep [Ht Hst Hrun Hfin Hrep].
  destruct Hstep as [p i th an sh' th' Hm Hi Hex E|p Hm Hr|p s Hm Hr|p s Hm Hr|p Hm|p e Hm|p Hm|p Hm Hall].
  - apply thread_step_spec in E as (Hr2 & Hs2 & Hinv);
      [|by eapply Forall_lookup_1|rewrite Hst; apply stats_of_threads_wf|done].
    split; cbn.
    + by apply Forall_insert.
    + rewrite Hs2, Hst. by apply stats_of_threads_moved.
    + by rewrite Hr2.
    + intros st Hf. by rewrite Hf in Hm.
    + done.
  - split; cbn; try done. intros Hj. specialize (Hrep Hj). by rewrite Hr in Hrep.
  - split; cbn; try done. intros Hj. specialize (Hrep Hj). by rewrite Hr in Hrep.
  - by split.
  - split; cbn; try done. split; [done|]. intros [?|[? ?]]; done.
  - split; cbn; try done. split; [by eauto|]. intros _. apply Hrun. by left.
  - split; cbn; try done; [|by intros _; destruct (po_reporter p)]. split; [|intros [?|[? ?]]; done].
    intros [Hw|[e Hw]]%Hrun; by rewrite Hw in Hm.
  - split; cbn; try done.
    + split; [|intros [?|[? ?]]; done]. intros [Hw|[e Hw]]%Hrun; by rewrite Hw in Hm.
    + by intros st [= <-].
Qed.

Lemma pool_reachable_inv p p' :
  rtc (pool_step big_endian size pps) p p' → pool_inv big_endian size pps p → pool_inv big_endian size pps p'.
Proof. induction 1; eauto using pool_step_inv. Qed.

(** ** Stopping *)

(** How many steps a worker can still take once the flag is down. *)
Definition steps_left (th : Thread) : nat :=
  match th_phase th with
  | Starting => 2
  | AtLoop => 1
  | Sending k => 3 * k + 2
  | CountSent _ k => 3 * k + 4
  | CountBytes _ k | CountError k => 3 * k + 3
  | Exited _ | Unwound => 0
  end.

Definition pool_left (p : Pool) : nat :=
  foldr (fun th n => steps_left th + n)%nat
    (match po_main p with Joining => 1 | _ => 0 end +
     match po_reporter p with RepFinishing _ => 1 | _ => 0 end)%nat (po_threads p).

Lemma pool_left_insert m ths : ∀ i th th',
  ths !! i = Some th → (steps_left th' < steps_left th)%nat →
  (foldr (fun th n => steps_left th + n) m (<[i := th']> ths) <
   foldr (fun th n => steps_left th + n) m ths)%nat.
Proof.
  induction ths as [|t ths IH]; intros [|i] th th' Hi Hlt; try done.
  - injection Hi as ->. cbn. lia.
  - change (<[S i := th']> (t :: ths)) with (t :: <[i := th']> ths). cbn [foldr].
    specialize (IH i th th' Hi Hlt). lia.
Qed.

Lemma thread_step_left an sh th sh' th' :
  sh_running sh = false → exited th = false →
  thread_step big_endian size pps an sh th = (sh', th') → (steps_left th' < steps_left th)%nat.
Proof.
  intros Hr Hex. unfold thread_step, steps_left, exited in *.
  destruct (th_phase th) as [| |[|k]|n k|n k|k|r|] eqn:Hph.
  - destruct (an_bound an); [destruct (an_connected an)|];
      [rewrite template_ok|..]; intros [= <- <-]; cbn; lia.
  - rewrite Hr. intros [= <- <-]. cbn. lia.
  - destruct (pace _ _ _ _); intros [= <- <-]; cbn; lia.
  - destruct (randomize_dcid _ _ _) as [[t r]|]; intros [= <- <-]; tfields; [destruct (an_send an); lia|cbn; lia].
  - intros [= <- <-]. cbn. lia.
  - intros [= <- <-]. cbn. lia.
  - intros [= <- <-]. cbn. lia.
  - done.
  - done.
Qed.

(** Every step of a run that is being joined brings it closer to its end. *)
Lemma joining_step p p' :
  pool_inv big_endian size pps p → po_main p = Joining → pool_step big_endian size pps p p' →
  (pool_left p' < pool_left p)%nat ∧
  (po_main p' = Joining ∨ po_main p' = Finished (Ok (sh_stats (po_shared p')))).
Proof.
  intros Hinv Hj Hstep. pose proof (pi_reporter _ _ _ _ Hinv Hj) as Hrep.
  assert (sh_running (po_shared p) = false) as Hrun.
  { apply not_true_is_false. intros [Hw|[e Hw]]%(pi_running _ _ _ _ Hinv); congruence. }
  destruct Hstep as [p i th an sh' th' Hm Hi Hex E|p Hm Hr|p s Hm Hr|p s Hm Hr|p Hm|p e Hm|p Hm|p Hm Hall]; try congruence.
  - unfold pool_left. cbn. split; [|by left]. rewrite Hj.
    eapply pool_left_insert; [done|]. by eapply thread_step_left.
  - by rewrite Hr in Hrep.
  - by rewrite Hr in Hrep.
  - split; [|by left]. unfold pool_left. cbn. rewrite Hr. clear. induction (po_threads p); cbn; lia.
  - unfold pool_left. cbn. rewrite Hm. split; [|by right].
    clear. generalize (match po_reporter p with RepFinishing _ => 1 | _ => 0 end)%nat. intros r.
    induction (po_threads p); cbn [foldr]; lia.
Qed.

Lemma steps_left_bound th : thread_inv big_endian size pps th → (steps_left th <= 194)%nat.
Proof.
  intros [_ _ Hb _]. unfold steps_left. destruct (th_phase th); unfold BATCH in Hb; lia.
Qed.

(** Hence a bound on the number of steps, *)
Lemma joining_bounded n : ∀ p p',
  nsteps (pool_step big_endian size pps) n p p' → pool_inv big_endian size pps p → po_main p = Joining →
  (n <= pool_left p)%nat.
Proof.
  induction n as [|n IH]; intros p p' Hn Hinv Hj; [lia|].
  inversion Hn as [|? ? p1 ? Hstep Hrest]; subst.
  destruct (joining_step p p1 Hinv Hj Hstep) as [Hlt [Hj'|Hf]].
  - specialize (IH p1 p' Hrest (pool_step_inv _ _ Hstep Hinv) Hj'). lia.
  - destruct n; [lia|]. exfalso. inversion Hrest as [|? ? p2 ? Hstep2 _]; subst.
    destruct Hstep2 as [? ? ? ? ? ? Hm|? Hm|? ? Hm|? ? Hm|? Hm|? ? Hm|? Hm|? Hm]; rewrite Hf in Hm; done.
Qed.

(** where the run stays in its last stages, *)
Lemma joining_reaches p p' :
  rtc (pool_step big_endian size pps) p p' → pool_inv big_endian size pps p → po_main p = Joining →
  pool_inv big_endian size pps p' ∧
  (po_main p' = Joining ∨ po_main p' = Finished (Ok (sh_stats (po_shared p')))).
Proof.
  induction 1 as [p|p p1 p' Hstep Hrest IH]; intros Hinv Hj; [by split; [|left]|].
  destruct (joining_step p p1 Hinv Hj Hstep) as [_ [Hj'|Hf]]; [eauto using pool_step_inv|].
  pose proof (pool_step_inv _ _ Hstep Hinv) as Hinv1.
  destruct Hrest as [|p1 p2 p' Hstep2 _]; [by split; [|right]|].
  destruct Hstep2 as [? ? ? ? ? ? Hm|? Hm|? ? Hm|? ? Hm|? Hm|? ? Hm|? Hm|? Hm]; rewrite Hf in Hm; done.
Qed.

(** and never gets stuck. *)
Lemma joining_progress p :
  pool_inv big_endian size pps p → po_main p = Joining → ∃ p', pool_step big_endian size pps p p'.
Proof.
  intros Hinv Hj. destruct (decide (Forall (fun th => exited th = true) (po_threads p))) as [Hall|Hex].
  - eexists. by apply pool_join.
  - apply not_Forall_Exists, Exists_exists in Hex as (th & Hin & Hex%not_true_is_false); [|apply _].
    apply list_elem_of_lookup in Hin as [i Hi].
    destruct (thread_step big_endian size pps (mkAnswers (Ok tt) (Ok tt) (Ok 0%nat) 0 0) (po_shared p) th)
      as [sh' th'] eqn:E.
    eexists. eapply (pool_thread _ _ _ p i th); try done. by rewrite Hj.
Qed.
End lemmas.

Lemma spawn_workers_Ok l threads :
  spawn_workers l = Ok threads → threads = map spawned_thread (map fst l).
Proof.
  revert threads. induction l as [|[seed [?|e]] l IH]; intros threads; cbn; [by intros [= <-]| |done].
  destruct (spawn_workers l) as [ths|e]; [|done]. intros [= <-]. by rewrite (IH ths).
Qed.

Lemma spawned_pool_inv be size pps l threads :
  spawn_workers l = Ok threads → pool_inv be size pps (pool_of threads).
Proof.
  intros ->%spawn_workers_Ok. apply pool_of_inv; apply Forall_fmap, Forall_true; [|done].
  intros seed. apply spawned_inv.
Qed.

(** What a started run begins with. *)
Lemma blaster_start_Ok be args available spawned pl p0 :
  blaster_start args available spawned = Done (Ok (pl, p0)) →
  (MIN_INITIAL_DATAGRAM <= ba_size args < 16434) ∧ pool_inv be (ba_size args) (pl_pps pl) p0 ∧
  p0 = pool_of (map spawned_thread (pl_seeds pl)).
Proof.
  unfold blaster_start, plan. destruct (InitialTemplate_new (ba_size args)) as [[t|e]|] eqn:Et; run; try done.
  destruct (InitialTemplate_new_Ok _ _ Et) as [Hs _].
  destruct (spawn_workers _) as [ths|e] eqn:Esp; [|done]. intros [= <- <-]. split; [done|].
  split; [by eapply spawned_pool_inv|]. cbn [pl_seeds] in *. apply spawn_workers_Ok in Esp as ->. f_equal. f_equal.
  change (map fst ?l) with (fst <$> l). rewrite fmap_imap. apply list_eq. intros i.
  rewrite list_lookup_imap. by destruct (_ !! i).
Qed.

(** No thread changes its seed, so that the workers have those of the plan throughout. *)
Lemma thread_step_seed be size pps an sh th : th_seed (thread_step be size pps an sh th).2 = th_seed th.
Proof. unfold thread_step, at_phase. repeat case_match; done. Qed.

Lemma pool_run_seeds be size pps p p' :
  rtc (pool_step be size pps) p p' → map th_seed (po_threads p') = map th_seed (po_threads p).
Proof.
  induction 1 as [|p p1 p' Hstep _ IH]; [done|]. rewrite IH. destruct Hstep as [p i th an sh' th' _ Hi _ E| | | | | | |]; [|done..].
  cbn [po_threads]. change (map th_seed ?l) with (th_seed <$> l). rewrite list_fmap_insert. apply list_insert_id.
  rewrite list_lookup_fmap, Hi. cbn. f_equal. by rewrite <- (thread_step_seed be size pps an (po_shared p) th), E.
Qed.

(** A sequential worker that makes some sends. *)
Lemma sequential_sends be size seed rs :
  1200 <= size < 16434 →
  ∃ t w, InitialTemplate_new size = Done (Ok t) ∧
    blast_batch be rs (mkWorker t seed Stats_default [] 0) = Done w ∧
    wk_out w = map (datagram_at be tpl_prefix (tpl_suffix size) seed) (seq 0 (length rs)).
Proof.
  intros Hs. rewrite InitialTemplate_new_in_range by done.
  destruct (blast_batch_spec be tpl_prefix (tpl_suffix size) seed Stats_default rs 0 [] _ ltac:(done)
              (fresh_worker be size seed Stats_default ltac:(done))) as (w & E & [_ _ _ Ho] & _).
  by eexists _, w.
Qed.

(** The times of a pass of the sequential model. *)
Definition pass_times (p : pass) : Z * Z := (ps_time p, ps_late p).

(** Outcomes that come in whole batches, with the times of these, are those of some
    passes of the loop. *)
Lemma batches_of l : ∀ rs : list (result nat ErrorKind),
  length rs = (BATCH * length l)%nat → ∃ ps, outcomes ps = rs ∧ map pass_times ps = l.
Proof.
  induction l as [|[time late] l IH]; intros rs Hl; cbn [length] in Hl.
  - exists []. rewrite Nat.mul_0_r in Hl. by apply length_zero_iff_nil in Hl as ->.
  - destruct (IH (drop BATCH rs)) as (ps & Hps & Hb); [rewrite length_drop; unfold BATCH in *; lia|].
    exists (mkPass (fun i => default (Err WouldBlock) (rs !! i)) time late :: ps).
    split; [|cbn; by rewrite Hb].
    unfold outcomes in *. cbn [map concat ps_sends]. rewrite Hps.
    transitivity (take BATCH rs ++ drop BATCH rs); [|apply take_drop]. apply (f_equal (fun l => l ++ _)).
    apply list_eq. intros i. rewrite list_lookup_fmap. destruct (Nat.lt_ge_cases i BATCH).
    + rewrite lookup_seq_lt, lookup_take_lt by done. cbn.
      by destruct (lookup_lt_is_Some_2 rs i) as [r ->]; [unfold BATCH in *; lia|].
    + rewrite !(proj2 (lookup_ge_None _ _)); [done|rewrite length_take; lia|by rewrite length_seq].
Qed.

(** The sequential loop keeps the clock that the pauses of its passes give. *)
Lemma blast_loop_paced be size pps seed st0 ps : ∀ sent k rs w clock,
  wf_stats st0 → worker_at be tpl_prefix (tpl_suffix size) seed st0 k rs w →
  pace_through pps sent (wk_clock w) (map pass_times ps) = Done clock →
  ∃ w', blast_loop be pps ps sent w = Done w' ∧ wk_clock w' = clock.
Proof.
  induction ps as [|ps0 ps IH]; intros sent k rs w clock Hwf Hat; cbn [blast_loop map pass_times pace_through].
  - intros [= <-]. by exists w.
  - destruct (blast_batch_spec be tpl_prefix (tpl_suffix size) seed st0 (map (ps_sends ps0) (seq 0 BATCH)) k rs w Hwf Hat)
      as (w1 & -> & Hat1 & Hc). run. rewrite Hc.
    destruct (pace _ _ _ _) as [c|]; run; [|done]. intros E.
    eapply IH; [done| |exact E]. destruct Hat1 as [? ? ? Ho]. split; [..|exact Ho]; done.
Qed.

Lemma blast_paced be target size pps seed ps clock :
  1200 <= size < 16434 → pace_through pps 0 0 (map pass_times ps) = Done clock →
  ∃ w, blast be (fun _ => Ok tt) (fun _ => Ok tt) target size pps seed Stats_default ps = Done (Ok w) ∧ wk_clock w = clock ∧
    wk_out w = map (datagram_at be tpl_prefix (tpl_suffix size) seed) (seq 0 (BATCH * length ps)).
Proof.
  intros Hs Hp. assert (wf_stats Stats_default) as Hwf by (unfold wf_stats, is_u64; cbn; lia).
  pose proof (fresh_worker be size seed Stats_default Hwf) as Hat.
  destruct (blast_loop_paced be size pps seed Stats_default ps 0 0 [] _ clock Hwf Hat Hp) as (w & E & Hc).
  exists w. assert (blast be (fun _ => Ok tt) (fun _ => Ok tt) target size pps seed Stats_default ps = Done (Ok w)) as Eb
    by (unfold blast; rewrite InitialTemplate_new_in_range by done; run; by rewrite E).
  split; [done|]. split; [done|]. exact (at_out _ _ _ _ _ _ _ _ (proj2 (blast_returned _ _ _ _ _ _ _ _ Hwf Eb))).
Qed.

Lemma exited_counts th :
  exited th = true →
  sent_of th = Z.of_nat (length (List.filter is_ok (th_outcomes th))) ∧
  bytes_of_thread th = sum_ok (th_outcomes th) ∧
  errors_of th = Z.of_nat (length (List.filter is_err (th_outcomes th))).
Proof. unfold exited, sent_of, bytes_of_thread, errors_of. destruct (th_phase th); intros; try done; lia. Qed.

(** The statistics of workers that have all exited. *)
Lemma exited_stats ths :
  Forall (fun th => exited th = true) ths →
  stats_of_threads ths = stats_after Stats_default (concat (map th_outcomes ths)).
Proof.
  intros Hall. unfold stats_of_threads, stats_after. cbn [st_sent st_bytes st_errors Stats_default].
  rewrite !Z.add_0_l.
  assert (tsum sent_of ths = Z.of_nat (length (List.filter is_ok (concat (map th_outcomes ths)))) ∧
          tsum bytes_of_thread ths = sum_ok (concat (map th_outcomes ths)) ∧
          tsum errors_of ths = Z.of_nat (length (List.filter is_err (concat (map th_outcomes ths)))))
    as (-> & -> & ->); [|done].
  induction Hall as [|th ths He _ (IH1 & IH2 & IH3)]; [done|].
  destruct (exited_counts th He) as (E1 & E2 & E3). unfold tsum in *. cbn [foldr map concat].
  rewrite !List.filter_app, !length_app, sum_ok_app, IH1, IH2, IH3, E1, E2, E3. lia.
Qed.

(** ** The reporter *)

(** The reporter's subtractions as a build with overflow checks does them. *)
Fixpoint report_checked (samples : list (Z * Z)) (last_sent last_bytes : Z) : exec (list (Z * Z * Z)) :=
  match samples with
  | [] => mret []
  | (sent, bytes) :: samples' =>
      ds ← expect (checked_sub sent last_sent);
      db ← expect (checked_sub bytes last_bytes);
      rest ← report_checked samples' sent bytes;
      mret ((ds, db, sent) :: rest)
  end.

(** Readings of a growing total that is at [top] now. *)
Definition rising (l : list Z) (top : Z) : Prop :=
  StronglySorted Z.le l ∧ Forall (fun x => 0 <= x <= top) l ∧ 0 <= top.

Lemma rising_weaken l a b : rising l a → a <= b → rising l b.
Proof.
  intros (Hs & Hf & H0) Hab. split; [done|]. split; [|lia].
  eapply Forall_impl; [exact Hf|]. cbn. lia.
Qed.

Lemma rising_snoc l a : rising l a → rising (l ++ [a]) a.
Proof.
  intros (Hs & Hf & H0). split; [|split; [|done]].
  - apply StronglySorted_app. split_and!; [|done|by repeat constructor].
    intros x1 x2 Hx1 Hx2%list_elem_of_singleton. subst. rewrite Forall_forall in Hf. by apply Hf.
  - apply Forall_app. split; [done|]. repeat constructor; lia.
Qed.

(** The samples are true readings of the two totals, reduced modulo 2^64. *)
Definition report_inv (p : Pool) : Prop :=
  ∃ Ss Bs, po_samples p = zip (map (wrap 64) Ss) (map (wrap 64) Bs) ∧ length Ss = length Bs ∧
    rising Bs (tsum bytes_of_thread (po_threads p)) ∧
    match po_reporter p with
    | RepLoaded s | RepFinishing s => ∃ S, s = wrap 64 S ∧ rising (Ss ++ [S]) (tsum sent_of (po_threads p))
    | _ => rising Ss (tsum sent_of (po_threads p))
    end.

Section report_lemmas.
Context (big_endian : bool) (size pps : Z).
Hypothesis size_ok : MIN_INITIAL_DATAGRAM <= size < 16434.

(** The totals only grow. *)
Lemma thread_step_grows an sh th sh' th' :
  thread_step big_endian size pps an sh th = (sh', th') →
  sent_of th <= sent_of th' ∧ bytes_of_thread th <= bytes_of_thread th'.
Proof.
  unfold thread_step, at_phase, sent_of, bytes_of_thread.
  destruct (th_phase th) as [| |[|k]|n k|n k|k|r|] eqn:Hph.
  - destruct (an_bound an); [destruct (an_connected an)|];
      [rewrite template_ok by done|..]; intros [= <- <-]; tfields; lia.
  - destruct (sh_running sh); intros [= <- <-]; tfields; lia.
  - destruct (pace _ _ _ _); intros [= <- <-]; tfields; lia.
  - destruct (randomize_dcid _ _ _) as [[t r]|]; intros [= <- <-]; tfields; [|lia].
    rewrite (proj1 (is_ok_snoc _ _)), sum_ok_app. pose proof (sum_ok_single (an_send an)).
    destruct (an_send an); cbn [is_ok]; lia.
  - intros [= <- <-]. tfields. lia.
  - intros [= <- <-]. tfields. lia.
  - intros [= <- <-]. tfields. lia.
  - intros [= <- <-]. rewrite Hph. lia.
  - intros [= <- <-]. rewrite Hph. lia.
Qed.

(** A sample that is completed. *)
Lemma report_sampled p S Ss Bs r :
  sh_stats (po_shared p) = stats_of_threads (po_threads p) →
  po_samples p = zip (map (wrap 64) Ss) (map (wrap 64) Bs) → length Ss = length Bs →
  rising Bs (tsum bytes_of_thread (po_threads p)) → rising (Ss ++ [S]) (tsum sent_of (po_threads p)) →
  r = RepSleeping ∨ r = RepAborted →
  report_inv (mkPool (po_shared p) (po_threads p) (po_main p) r
                (po_samples p ++ [(wrap 64 S, st_bytes (sh_stats (po_shared p)))])).
Proof.
  intros Hst Hz Hl HB HS Hr.
  exists (Ss ++ [S]), (Bs ++ [tsum bytes_of_thread (po_threads p)]). cbn [po_samples po_threads po_reporter].
  split_and!.
  - rewrite Hz, !map_app, zip_with_app by (by rewrite !length_map). by rewrite Hst.
  - rewrite !length_app. cbn. lia.
  - by apply rising_snoc.
  - by destruct Hr as [->| ->].
Qed.

Lemma pool_step_report_inv p p' :
  pool_step big_endian size pps p p' → pool_inv big_endian size pps p → report_inv p → report_inv p'.
Proof.
  intros Hstep Hinv (Ss & Bs & Hz & Hl & HB & HS). pose proof (pi_stats _ _ _ _ Hinv) as Hst.
  destruct Hstep as [p i th an sh' th' Hm Hi Hex E|p Hm Hr|p s Hm Hr|p s Hm Hr|p Hm|p e Hm|p Hm|p Hm Hall];
    unfold report_inv; cbn [po_samples po_threads po_reporter].
  - destruct (thread_step_grows _ _ _ _ _ E) as [Hg1 Hg2]. exists Ss, Bs.
    rewrite !(tsum_insert _ _ _ _ th' Hi). split; [done|]. split; [done|].
    split; [eapply rising_weaken; [exact HB|lia]|].
    destruct (po_reporter p); try (eapply rising_weaken; [exact HS|lia]);
      (destruct HS as (S & -> & HS); exists S; split; [done|]; eapply rising_weaken; [exact HS|lia]).
  - rewrite Hr in HS. exists Ss, Bs. split_and!; try done. exists (tsum sent_of (po_threads p)).
    split; [by rewrite Hst|by apply rising_snoc].
  - rewrite Hr in HS. destruct HS as (S & -> & HS). apply (report_sampled p S Ss Bs RepSleeping); auto.
  - rewrite Hr in HS. destruct HS as (S & -> & HS). apply (report_sampled p S Ss Bs RepAborted); auto.
  - by exists Ss, Bs.
  - by exists Ss, Bs.
  - exists Ss, Bs. split_and!; try done. by destruct (po_reporter p).
  - by exists Ss, Bs.
Qed.

Lemma report_reachable_inv p p' :
  rtc (pool_step big_endian size pps) p p' → pool_inv big_endian size pps p → report_inv p → report_inv p'.
Proof. induction 1; eauto using pool_step_inv, pool_step_report_inv. Qed.
End report_lemmas.

(** Rising samples are subtracted without overflow. *)
Lemma report_checked_eq samples : ∀ s b,
  StronglySorted Z.le (s :: map fst samples) → StronglySorted Z.le (b :: map snd samples) →
  Forall is_u64 (s :: map fst samples) → Forall is_u64 (b :: map snd samples) →
  report_checked samples s b = Done (report samples s b).
Proof.
  induction samples as [|[s' b'] samples IH]; intros s b Hs Hb Hus Hub; [done|]. cbn [map fst snd] in *.
  inversion Hs as [|? ? Hs' Hfs]; inversion Hb as [|? ? Hb' Hfb]; subst.
  apply Forall_cons in Hfs as [Hss _], Hfb as [Hbb _].
  apply Forall_cons in Hus as [Hu1 Hus], Hub as [Hu2 Hub].
  pose proof (Forall_inv Hus) as Hu3. pose proof (Forall_inv Hub) as Hu4. unfold is_u64 in Hu1, Hu2, Hu3, Hu4.
  cbn [report_checked report]. unfold checked_sub. rewrite (proj2 (Z.leb_le s s') Hss), (proj2 (Z.leb_le b b') Hbb).
  run. rewrite IH by done. run. rewrite !wrap_small by (unfold is_u64; lia). done.
Qed.

Lemma rising_u64 l top :
  rising l top → top < 2 ^ 64 →
  map (wrap 64) l = l ∧ StronglySorted Z.le (0 :: l) ∧ Forall is_u64 (0 :: l).
Proof.
  intros (Hs & Hf & H0) Ht. assert (Forall is_u64 l) as Hu.
  { eapply Forall_impl; [exact Hf|]. unfold is_u64. cbn. lia. }
  split; [|split].
  - clear Hs Hf. induction Hu as [|x l Hx _ IH]; [done|]. cbn. by rewrite wrap_small, IH.
  - constructor; [done|]. eapply Forall_impl; [exact Hf|]. cbn. lia.
  - constructor; [unfold is_u64; lia|done].
Qed.

(** ** Theorems *)

Section theorems.
Context (big_endian : bool) (args : BlasterArgs) (available : option Z)
  (spawned : nat → result unit ErrorKind) (pl : Plan) (p0 : Pool).

(** C26: what [main] prints is exact: when it gets to its summary, under every
    interleaving of the workers, the reporter and itself, all workers have ended,
    and the statistics are those of all their sends together, each counted once as
    sent, with its bytes, or as an error. *)
Theorem blaster_summary_is_exact p st :
  blaster_start args available spawned = Done (Ok (pl, p0)) →
  rtc (pool_step big_endian (ba_size args) (pl_pps pl)) p0 p → po_main p = Finished (Ok st) →
  Forall (fun th => exited th = true) (po_threads p) ∧
  st = stats_after Stats_default (concat (map th_outcomes (po_threads p))) ∧
  (length (List.filter is_ok (concat (map th_outcomes (po_threads p)))) +
   length (List.filter is_err (concat (map th_outcomes (po_threads p)))))%nat =
    length (concat (map th_out (po_threads p))).
Proof.
  intros (Hs & Hinv0 & _)%(blaster_start_Ok big_endian) Hr Hf.
  pose proof (pool_reachable_inv _ _ _ Hs _ _ Hr Hinv0) as Hinv.
  destruct (pi_finished _ _ _ _ Hinv st Hf) as [-> Hall]. split; [done|].
  split; [rewrite (pi_stats _ _ _ _ Hinv); by apply exited_stats|].
  pose proof (pi_threads _ _ _ _ Hinv) as Ht. clear -Ht.
  induction Ht as [|th ths [Ho _ _ _] _ IH]; [done|]. cbn [map concat].
  rewrite !List.filter_app, !length_app, Ho, length_map, length_seq, <- IH.
  pose proof (count_ok_err (th_outcomes th)). lia.
Qed.

(** C27: a worker that runs among others behaves as the sequential model of it: at
    every moment of every run the workers have the seeds of the plan, in order, and each
    has sent what a sequential worker with its seed and a fresh template sends that gets
    the same outcomes, all of it pairwise distinct within 2^64; and a worker that ended
    normally did whole batches, exactly those of a sequential run with the same
    outcomes of its sends and the same pauses, and ended at the same time. *)
Theorem workers_refine_the_sequential_sender p th :
  blaster_start args available spawned = Done (Ok (pl, p0)) →
  rtc (pool_step big_endian (ba_size args) (pl_pps pl)) p0 p → th ∈ po_threads p →
  map th_seed (po_threads p) = pl_seeds pl ∧
  (∃ t w, InitialTemplate_new (ba_size args) = Done (Ok t) ∧
     blast_batch big_endian (th_outcomes th) (mkWorker t (th_seed th) Stats_default [] 0) = Done w ∧
     th_out th = wk_out w) ∧
  (Z.of_nat (length (th_out th)) <= 2 ^ 64 → NoDup (th_out th)) ∧
  (th_phase th = Exited (Ok tt) →
   ∃ ps w, blast big_endian (fun _ => Ok tt) (fun _ => Ok tt) (ba_target args) (ba_size args) (pl_pps pl) (th_seed th) Stats_default ps = Done (Ok w) ∧
     th_out th = wk_out w ∧ th_outcomes th = outcomes ps ∧ th_pauses th = map pass_times ps ∧
     th_clock th = wk_clock w).
Proof.
  intros (Hs & Hinv0 & Hp0)%(blaster_start_Ok big_endian) Hr Hin.
  pose proof (pool_reachable_inv _ _ _ Hs _ _ Hr Hinv0) as Hinv.
  pose proof (pi_threads _ _ _ _ Hinv) as Ht. rewrite Forall_forall in Ht.
  destruct (Ht th Hin) as [Ho _ Hb Hc]. split; [|split; [|split]].
  - rewrite (pool_run_seeds _ _ _ _ _ Hr), Hp0. cbn [pool_of po_threads]. rewrite map_map. apply map_id.
  - destruct (sequential_sends big_endian (ba_size args) (th_seed th) (th_outcomes th) Hs) as (t & w & Et & Ew & Hw).
    exists t, w. split; [done|]. split; [done|]. by rewrite Ho.
  - rewrite Ho, length_map, length_seq. apply NoDup_datagrams.
  - intros Hph. rewrite Hph in Hb, Hc. destruct Hc as [Hc _].
    destruct (batches_of (th_pauses th) (th_outcomes th) Hb) as (ps & Hps & Hl).
    rewrite <- Hl in Hc. destruct (blast_paced big_endian (ba_target args) (ba_size args) (pl_pps pl) (th_seed th) ps _ Hs Hc) as (w & E & Hcl & Hout).
    exists ps, w. split; [done|]. split_and!; [|done..].
    by rewrite Ho, Hout, <- Hps, length_outcomes.
Qed.

(** C28: a run that has been stopped ends: once [main] joins its workers, every
    schedule has at most 194 more steps per worker, one of [main] and one of the
    reporter, and in every state it can get to, either some thread can take a step
    or the summary has been reached. *)
Theorem blaster_run_ends p :
  blaster_start args available spawned = Done (Ok (pl, p0)) →
  rtc (pool_step big_endian (ba_size args) (pl_pps pl)) p0 p → po_main p = Joining →
  (∀ n p', nsteps (pool_step big_endian (ba_size args) (pl_pps pl)) n p p' → (n <= 194 * length (po_threads p) + 2)%nat) ∧
  (∀ p', rtc (pool_step big_endian (ba_size args) (pl_pps pl)) p p' →
     (∃ p'', pool_step big_endian (ba_size args) (pl_pps pl) p' p'') ∨ ∃ st, po_main p' = Finished (Ok st)).
Proof.
  intros (Hs & Hinv0 & _)%(blaster_start_Ok big_endian) Hr Hj.
  pose proof (pool_reachable_inv _ _ _ Hs _ _ Hr Hinv0) as Hinv.
  clear Hr Hinv0. split.
  - intros n p' Hn. transitivity (pool_left p).
    + by apply (joining_bounded big_endian (ba_size args) (pl_pps pl) Hs n p p').
    + unfold pool_left. rewrite Hj.
      assert (match po_reporter p with RepFinishing _ => 1 | _ => 0 end <= 1)%nat as Hrep
        by (destruct (po_reporter p); lia).
      revert Hrep. generalize (match po_reporter p with RepFinishing _ => 1 | _ => 0 end)%nat.
      intros r Hrep. pose proof (pi_threads _ _ _ _ Hinv) as Ht. clear -Ht Hrep.
      induction Ht as [|th ths Hth _ IH]; cbn [foldr length]; [lia|].
      pose proof (steps_left_bound _ _ _ _ Hth). lia.
  - intros p' Hr. destruct (joining_reaches _ _ _ Hs p p' Hr Hinv Hj) as [Hinv' [Hj'|Hf]]; [left|right; by eexists].
    by apply joining_progress.
Qed.

(** C29: as long as the run has sent fewer than 2^64 packets and bytes, the
    reporter's subtractions never overflow: what it samples between the workers'
    additions never goes down, although its two loads are not simultaneous. *)
Theorem reporter_never_underflows p :
  blaster_start args available spawned = Done (Ok (pl, p0)) →
  rtc (pool_step big_endian (ba_size args) (pl_pps pl)) p0 p →
  tsum sent_of (po_threads p) < 2 ^ 64 → tsum bytes_of_thread (po_threads p) < 2 ^ 64 →
  report_checked (po_samples p) 0 0 = Done (report (po_samples p) 0 0).
Proof.
  intros (Hs & Hinv & Hp0)%(blaster_start_Ok big_endian) Hr Hbs Hbb.
  assert (report_inv p0) as Hrep.
  { rewrite Hp0. exists [], []. split; [done|]. split; [done|].
    assert (∀ f l, (∀ seed, f (spawned_thread seed) = 0) → tsum f (map spawned_thread l) = 0) as Hz.
    { intros f l Hf. unfold tsum. induction l; cbn [map foldr]; [done|]. rewrite Hf. lia. }
    cbn [po_reporter po_threads pool_of]. rewrite !Hz by done.
    split; (split; [constructor|split; [constructor|done]]). }
  destruct (report_reachable_inv _ _ _ Hs _ _ Hr Hinv Hrep) as (Ss & Bs & Hz & Hl & HB & HS).
  assert (rising Ss (tsum sent_of (po_threads p))) as HS'.
  { destruct (po_reporter p); try done; destruct HS as (S & _ & (Hso & Hf & H0));
      apply StronglySorted_app in Hso as (_ & Hso & _); by apply Forall_app in Hf as [Hf _]. }
  destruct (rising_u64 _ _ HS' Hbs) as (E1 & H1 & H2), (rising_u64 _ _ HB Hbb) as (E2 & H3 & H4).
  rewrite E1, E2 in Hz. rewrite Hz.
  apply report_checked_eq; change (map fst ?x) with (x.*1); change (map snd ?x) with (x.*2);
    rewrite ?fst_zip, ?snd_zip by lia; done.
Qed.
End theorems.

(** ** Instances at concrete input

    A scheduler that plays a given order of steps. *)

Inductive choice :=
| ChThread (i : nat) (an : answers)
| ChReportSent
| ChReportBytes
| ChStop
| ChAbort
| ChJoin.

Section scheduler.
Context (big_endian : bool) (size pps : Z).

Definition pool_next (c : choice) (p : Pool) : option Pool :=
  if negb (main_running (po_main p)) then None
  else
    match c with
    | ChThread i an =>
        match po_threads p !! i with
        | Some th =>
            if exited th then None
            else
              let '(sh', th') := thread_step big_endian size pps an (po_shared p) th in
              Some (mkPool sh' (<[i := th']> (po_threads p)) (po_main p) (po_reporter p) (po_samples p))
        | None => None
        end
    | ChReportSent =>
        match po_reporter p with
        | RepSleeping => Some (mkPool (po_shared p) (po_threads p) (po_main p)
                                 (RepLoaded (st_sent (sh_stats (po_shared p)))) (po_samples p))
        | _ => None
        end
    | ChReportBytes =>
        match po_reporter p with
        | RepLoaded sent => Some (mkPool (po_shared p) (po_threads p) (po_main p) RepSleeping
                                    (po_samples p ++ [(sent, st_bytes (sh_stats (po_shared p)))]))
        | RepFinishing sent => Some (mkPool (po_shared p) (po_threads p) (po_main p) RepAborted
                                       (po_samples p ++ [(sent, st_bytes (sh_stats (po_shared p)))]))
        | _ => None
        end
    | ChStop =>
        match po_main p with
        | Waiting => Some (mkPool (mkShared false (sh_stats (po_shared p))) (po_threads p) Stopped
                             (po_reporter p) (po_samples p))
        | _ => None
        end
    | ChAbort =>
        match po_main p with
        | Stopped => Some (mkPool (po_shared p) (po_threads p) Joining (abort_reporter (po_reporter p))
                              (po_samples p))
        | _ => None
        end
    | ChJoin =>
        match po_main p with
        | Joining =>
            if forallb exited (po_threads p) then
              Some (mkPool (po_shared p) (po_threads p) (Finished (Ok (sh_stats (po_shared p))))
                      (po_reporter p) (po_samples p))
            else None
        | _ => None
        end
    end.

Fixpoint pool_run (cs : list choice) (p : Pool) : option Pool :=
  match cs with
  | [] => Some p
  | c :: cs' => match pool_next c p with Some p' => pool_run cs' p' | None => None end
  end.

Lemma pool_next_sound c p p' : pool_next c p = Some p' → pool_step big_endian size pps p p'.
Proof.
  unfold pool_next. destruct (main_running (po_main p)) eqn:Hm; [|done]. cbn [negb].
  destruct c as [i an| | | | |].
  - destruct (po_threads p !! i) as [th|] eqn:Hi; [|done]. destruct (exited th) eqn:Hex; [done|].
    destruct (thread_step _ _ _ _ _ _) as [sh' th'] eqn:E. intros [= <-]. by eapply pool_thread.
  - destruct (po_reporter p) eqn:Hr; try done. intros [= <-]. by apply pool_report_sent.
  - destruct (po_reporter p) eqn:Hr; try done; intros [= <-]; [by apply pool_report_bytes|by apply pool_report_last].
  - destruct (po_main p) eqn:Hp; try done. intros [= <-]. by apply pool_stop.
  - destruct (po_main p) eqn:Hp; try done. intros [= <-]. by apply pool_abort.
  - destruct (po_main p) eqn:Hp; try done. destruct (forallb exited (po_threads p)) eqn:Hf; [|done].
    intros [= <-]. apply pool_join; [done|]. apply Forall_forall. intros th Hin.
    by eapply forallb_forall in Hf; [|apply list_elem_of_In].
Qed.

Lemma pool_run_sound cs : ∀ p p', pool_run cs p = Some p' → rtc (pool_step big_endian size pps) p p'.
Proof.
  induction cs as [|c cs IH]; intros p p'; cbn [pool_run]; [by intros [= <-]|].
  destruct (pool_next c p) as [p1|] eqn:E; [|done]. intros Hr.
  eapply rtc_l; [by eapply pool_next_sound|by apply IH].
Qed.
End scheduler.

(** Two workers: the first sends a batch, one packet in which fails, while the
    reporter reads; the second gets no further than its loop. *)
Definition ex_ok : answers := mkAnswers (Ok tt) (Ok tt) (Ok 1200%nat) 1000 10.
Definition ex_fail : answers := mkAnswers (Ok tt) (Ok tt) (Err ConnectionRefused) 0 0.
Definition ex_plan : Plan := mkPlan 2 1000 (worker_seeds 2 MASTER_SEED).
Definition ex_start : Pool := pool_of (map spawned_thread (pl_seeds ex_plan)).

Definition ex_schedule : list choice :=
  [ChThread 0 ex_ok; ChThread 1 ex_ok; ChThread 0 ex_ok; ChThread 0 ex_fail; ChThread 0 ex_ok] ++
  repeat (ChThread 0 ex_ok) 100 ++ [ChReportSent] ++ repeat (ChThread 0 ex_ok) 10 ++
  [ChReportBytes; ChStop; ChAbort].
Definition ex_rest : list choice := repeat (ChThread 0 ex_ok) 81 ++ [ChThread 1 ex_ok; ChJoin].

Definition ex_joining : Pool := default (pool_of []) (pool_run false 1200 1000 ex_schedule ex_start).
Definition ex_finished : Pool := default (pool_of []) (pool_run false 1200 1000 ex_rest ex_joining).

Definition ex_args : BlasterArgs := mkBlasterArgs ex_target (Some 2) 1 1200 2000.

Example ex_blaster_start :
  blaster_start ex_args None (fun _ => Ok tt) = Done (Ok (ex_plan, ex_start)).
Proof. vm_compute. reflexivity. Qed.

Example ex_default_start :
  match blaster_start blaster_default_args (Some 4) (fun _ => Ok tt) with
  | Done (Ok (pl, p)) => (pl_threads pl, pl_pps pl, length (po_threads p))
  | _ => (0, 0, 0%nat)
  end = (4, 0, 4%nat).
Proof. vm_compute. reflexivity. Qed.

Lemma ex_joining_reached : rtc (pool_step false 1200 1000) ex_start ex_joining.
Proof.
  apply (pool_run_sound _ _ _ ex_schedule). unfold ex_joining.
  assert (is_Some (pool_run false 1200 1000 ex_schedule ex_start)) as [p ->]; [|done].
  apply not_eq_None_Some. vm_compute. discriminate.
Qed.

Lemma ex_finished_reached : rtc (pool_step false 1200 1000) ex_start ex_finished.
Proof.
  etrans; [apply ex_joining_reached|]. apply (pool_run_sound _ _ _ ex_rest). unfold ex_finished.
  assert (is_Some (pool_run false 1200 1000 ex_rest ex_joining)) as [p ->]; [|done].
  apply not_eq_None_Some. vm_compute. discriminate.
Qed.

Example ex_finished_main : po_main ex_finished = Finished (Ok (mkStats 63 75600 1)).
Proof. vm_compute. reflexivity. Qed.

Example ex_report : report (po_samples ex_joining) 0 0 = [(33, 43200, 33)].
Proof. vm_compute. reflexivity. Qed.

Lemma blaster_summary_is_exact_witness :
  mkStats 63 75600 1 = stats_after Stats_default (concat (map th_outcomes (po_threads ex_finished))).
Proof.
  exact (proj1 (proj2 (blaster_summary_is_exact false ex_args None (fun _ => Ok tt) ex_plan ex_start
           ex_finished _ ex_blaster_start ex_finished_reached ex_finished_main))).
Defined.

Definition ex_first_seed : Z := (next MASTER_SEED).1.

Lemma ex_first_worker :
  ∃ th, th ∈ po_threads ex_finished ∧ th_seed th = ex_first_seed ∧ th_phase th = Exited (Ok tt) ∧
    length (th_out th) = 64%nat ∧ th_clock th = 64000010.
Proof.
  assert ((fun th => (th_seed th, th_phase th, length (th_out th), th_clock th)) <$> po_threads ex_finished !! 0%nat =
          Some (ex_first_seed, Exited (Ok tt), 64%nat, 64000010)) as (th & Hl & E)%fmap_Some
    by (vm_compute; reflexivity).
  apply pair_equal_spec in E as [E Hc]. apply pair_equal_spec in E as [E Ho]. apply pair_equal_spec in E as [Hs Hp].
  exists th. exact (conj (list_elem_of_lookup_2 _ _ _ Hl) (conj (eq_sym Hs) (conj (eq_sym Hp) (conj (eq_sym Ho) (eq_sym Hc))))).
Qed.

Lemma workers_refine_the_sequential_sender_witness :
  ∃ ps w, blast false (fun _ => Ok tt) (fun _ => Ok tt) ex_target 1200 1000 ex_first_seed Stats_default ps = Done (Ok w) ∧
    length (wk_out w) = 64%nat ∧ wk_clock w = 64000010.
Proof.
  destruct ex_first_worker as (th & Hin & Hs & Hp & Hl & Hclock).
  destruct (proj2 (proj2 (proj2 (workers_refine_the_sequential_sender false ex_args None (fun _ => Ok tt) ex_plan
    ex_start ex_finished th ex_blaster_start ex_finished_reached Hin))) Hp) as (ps & w & Hb & Ho & _ & _ & Hc).
  rewrite Hs in Hb. exists ps, w. split; [exact Hb|]. rewrite <- Ho, <- Hc. exact (conj Hl Hclock).
Defined.

Lemma blaster_run_ends_witness :
  (∃ p', pool_step false 1200 1000 ex_joining p') ∨ ∃ st, po_main ex_joining = Finished (Ok st).
Proof.
  refine (proj2 (blaster_run_ends false ex_args None (fun _ => Ok tt) ex_plan ex_start ex_joining
                   ex_blaster_start ex_joining_reached _) ex_joining (rtc_refl _ _)).
  vm_compute. reflexivity.
Defined.

Lemma reporter_never_underflows_witness :
  report_checked (po_samples ex_joining) 0 0 = Done [(33, 43200, 33)].
Proof.
  refine (eq_trans (reporter_never_underflows false ex_args None (fun _ => Ok tt) ex_plan ex_start
                      ex_joining ex_blaster_start ex_joining_reached _ _) _).
  - vm_compute. reflexivity.
  - vm_compute. reflexivity.
  - exact (f_equal Done ex_report).
Defined.
