(* ===== verification/CommandLine.v ===== *)
(** * Arguments of the binaries ([src/bin/client.rs], [server.rs], [blaster.rs])

    From the options on the command line to the [Args] the binaries run on. What [clap]
    does itself stays outside: splitting the command line into options is an input
    ([given] has the text an option was given, by the option's long name, and a flag is
    set or not), and its value parsers of paths and strings are an interface. Modelled is
    what the declarations add: which option sets which field, the default text of an
    option that is not given, and the type's [FromStr], which refuses the command line
    where it fails. *)

From S2P Require Import Prelude Interfaces Text Auth Datagram CidGenerator Socket Ping Endpoint Client Server.
From S2P Require Import Binaries SplitMix Blaster BlasterTheorems BlasterThreads.

Local Open Scope Z_scope.

(** [clap]'s value parsers of [PathBuf] and [String] fields: a path is taken as it is but
    may not be empty, a string is taken as it is if it is UTF-8, as all ASCII text is. *)
Class ClapParsers := {
  parse_path : list byte → option (list byte);
  parse_string : list byte → option (list byte)
}.
Class ClapParsersLaws `{ClapParsers} : Prop := {
  parse_path_empty : parse_path [] = None;
  parse_path_given path : path ≠ [] → parse_path path = Some path;
  parse_string_ascii text : Forall (fun b => u8_Z b < 128) text → parse_string text = Some text
}.

Section parsers.
Context `{ClapParsers} (given : list byte → option (list byte)).

(** The text of an option: as given, or its [default_value]. *)
Definition option_text (name default_value : list byte) : list byte := default default_value (given name).

(** [Args] of the client, *)
Definition client_args : option Args :=
  server ← SocketAddr_from_str (option_text (str "server") (str "127.0.0.1:4433"));
  cert ← parse_path (option_text (str "cert") (str "server_cert.der"));
  server_name ← parse_string (option_text (str "server-name") (str "localhost"));
  count ← u64_from_str (option_text (str "count") (show_u64 5));
  interval_ms ← u64_from_str (option_text (str "interval-ms") (show_u64 500));
  size ← u64_from_str (option_text (str "size") (show_u64 64));
  local_ip ← Ipv4Addr_from_str (option_text (str "local-ip") (str "127.0.0.1"));
  Some (mkArgs server cert server_name count interval_ms (Z.to_nat size) local_ip).

(** of the server, *)
Definition server_args (no_dcid_validation_given : bool) : option ServerArgs :=
  listen ← SocketAddr_from_str (option_text (str "listen") (str "127.0.0.1:4433"));
  cert_out ← parse_path (option_text (str "cert-out") (str "server_cert.der"));
  server_name ← parse_string (option_text (str "server-name") (str "localhost"));
  Some (mkServerArgs listen cert_out server_name no_dcid_validation_given).

(** and of the blaster, where an absent [threads] stays absent. *)
Definition blaster_args : option BlasterArgs :=
  target ← SocketAddr_from_str (option_text (str "target") (str "127.0.0.1:4433"));
  threads ← match given (str "threads") with
            | None => Some None
            | Some s => Some <$> u64_from_str s
            end;
  duration ← u64_from_str (option_text (str "duration") (show_u64 10));
  size ← u64_from_str (option_text (str "size") (show_u64 MIN_INITIAL_DATAGRAM));
  pps ← u64_from_str (option_text (str "pps") (show_u64 0));
  Some (mkBlasterArgs target threads duration size pps).
End parsers.

(** ** Command lines *)

(** The option of each name in a list of options with their texts. *)
Fixpoint options (l : list (list byte * list byte)) (name : list byte) : option (list byte) :=
  match l with
  | [] => None
  | (n, text) :: l => if bool_decide (n = name) then Some text else options l name
  end.

(** A command line for given arguments, every option with the text of its value. *)
Definition client_words (ip : Ipv4Addr) (port : Z) (args : Args) : list (list byte * list byte) :=
  [(str "server", show_socket_v4 ip port); (str "cert", arg_cert args);
   (str "server-name", arg_client_server_name args); (str "count", show_u64 (arg_count args));
   (str "interval-ms", show_u64 (arg_interval_ms args)); (str "size", show_u64 (Z.of_nat (arg_size args)));
   (str "local-ip", show_ipv4 (arg_local_ip args))].

Definition server_words (ip : Ipv4Addr) (port : Z) (args : ServerArgs) : list (list byte * list byte) :=
  [(str "listen", show_socket_v4 ip port); (str "cert-out", arg_cert_out args);
   (str "server-name", arg_server_name args)].

Definition blaster_words (ip : Ipv4Addr) (port : Z) (args : BlasterArgs) : list (list byte * list byte) :=
  [(str "target", show_socket_v4 ip port); (str "duration", show_u64 (ba_duration args));
   (str "size", show_u64 (ba_size args)); (str "pps", show_u64 (ba_pps args))] ++
  match ba_threads args with Some n => [(str "threads", show_u64 n)] | None => [] end.

(** ** Lemmas *)

Lemma u64_MAX_is n : 0 <= n <= u64_MAX ↔ is_u64 n.
Proof. unfold u64_MAX, is_u64. lia. Qed.

Lemma u64_show n : is_u64 n → u64_from_str (show_u64 n) = Some n.
Proof. intros. by apply u64_from_str_show, u64_MAX_is. Qed.

Lemma u64_read s n : u64_from_str s = Some n → is_u64 n.
Proof. intros [H _]%u64_from_str_inv. by apply u64_MAX_is. Qed.

Lemma ipv4_show ip : Ipv4Addr_from_str (show_ipv4 ip) = Some ip.
Proof. by apply Ipv4Addr_from_str_iff. Qed.

(** What the parsers accept. *)
Lemma client_args_Some `{ClapParsers} given args :
  client_args given = Some args →
  address_ok (arg_server args) ∧ is_u64 (arg_count args) ∧ is_u64 (arg_interval_ms args) ∧
  is_u64 (Z.of_nat (arg_size args)).
Proof.
  unfold client_args. intros (a & Ea%SocketAddr_from_str_ok & E)%bind_Some.
  apply bind_Some in E as (p & _ & E). apply bind_Some in E as (nm & _ & E). apply bind_Some in E as (c & Ec%u64_read & E). apply bind_Some in E as (i & Ei%u64_read & E).
  apply bind_Some in E as (sz & Es%u64_read & E). apply bind_Some in E as (ip & _ & E). simplify_eq.
  cbn. do 3 (split; [done|]). unfold is_u64 in *. lia.
Qed.

Lemma blaster_args_Some given args :
  blaster_args given = Some args →
  address_ok (ba_target args) ∧ (∀ n, ba_threads args = Some n → is_u64 n) ∧ is_u64 (ba_duration args) ∧
  is_u64 (ba_size args) ∧ is_u64 (ba_pps args).
Proof.
  unfold blaster_args. intros (a & Ea%SocketAddr_from_str_ok & E)%bind_Some.
  apply bind_Some in E as (th & Et & E). apply bind_Some in E as (d & Ed%u64_read & E).
  apply bind_Some in E as (sz & Es%u64_read & E). apply bind_Some in E as (p & Ep%u64_read & E). simplify_eq.
  cbn. split; [done|]. split; [|done]. intros n ->. destruct (given (str "threads")) as [s|]; [|done].
  apply fmap_Some in Et as (n' & En%u64_read & [= ->]). done.
Qed.

(** The option of a name among options with different names, in any order. *)
Lemma options_in l name text : NoDup (map fst l) → (name, text) ∈ l → options l name = Some text.
Proof.
  induction l as [|[n t] l IH]; cbn [map fst]; intros Hnd; [by intros ?%not_elem_of_nil|].
  apply NoDup_cons in Hnd as [Hn Hnd]. intros [[= <- <-]|Hin]%elem_of_cons; cbn [options].
  - by rewrite bool_decide_true.
  - rewrite bool_decide_false; [by apply IH|]. intros ->. apply Hn. apply (list_elem_of_fmap_2 fst _ _ Hin).
Qed.

Lemma options_not_in l name : name ∉ map fst l → options l name = None.
Proof.
  induction l as [|[n t] l IH]; cbn [map fst options]; [done|]. intros [Hn Hl]%not_elem_of_cons.
  rewrite bool_decide_false by (by intros ->). by apply IH.
Qed.

Section words.
Context (l words : list (list byte * list byte)) (Hp : words ≡ₚ l) (Hnd : NoDup (map fst l)).

Lemma words_NoDup : NoDup (map fst words).
Proof using Hp Hnd. change (NoDup (fst <$> words)). by rewrite Hp. Qed.

Lemma options_words name text : (name, text) ∈ l → options words name = Some text.
Proof using Hp Hnd. intros Hin. apply options_in; [apply words_NoDup|by rewrite Hp]. Qed.

Lemma option_text_words name text d : (name, text) ∈ l → option_text (options words) name d = text.
Proof using Hp Hnd. intros Hin. unfold option_text. by rewrite (options_words _ _ Hin). Qed.

Lemma options_absent name : name ∉ map fst l → options words name = None.
Proof using Hp. intros Hin. apply options_not_in. change (name ∉ fst <$> words). by rewrite Hp. Qed.
End words.

(** Option names that are spelt out are compared by evaluation. *)
Ltac names_differ := cbn [map fst app]; apply (bool_decide_unpack _); vm_compute; exact I.
Ltac word_in := repeat first [apply list_elem_of_here | apply list_elem_of_further].

(** Reading back what was rendered, one option at a time. *)
Ltac words_differ H Hnd := match type of H with _ ≡ₚ ?l => assert (NoDup (map fst l)) as Hnd by names_differ end.
Ltac read_word H Hnd name :=
  rewrite (option_text_words _ _ H Hnd name _ _ ltac:(word_in)), ?SocketAddr_from_str_show, ?u64_show, ?ipv4_show by done;
  cbn [mbind option_bind].

Section round_trips.
Context `{ClapParsers} (ip : Ipv4Addr) (port : Z) (Hport : 0 <= port <= 65535).

Lemma client_words_round_trip cert name count interval size local words :
  parse_path cert = Some cert → parse_string name = Some name → is_u64 count → is_u64 interval → is_u64 (Z.of_nat size) →
  let args := mkArgs (mkSocketAddr (V4 ip) port) cert name count interval size local in
  words ≡ₚ client_words ip port args → client_args (options words) = Some args.
Proof using Hport.
  intros Hcert Hname Hc Hi Hs args Hw. unfold client_args, client_words in *. subst args.
  cbn [arg_cert arg_client_server_name arg_count arg_interval_ms arg_size arg_local_ip] in Hw. words_differ Hw Hnd.
  read_word Hw Hnd (str "server"). read_word Hw Hnd (str "cert"). rewrite Hcert. cbn [mbind option_bind].
  read_word Hw Hnd (str "server-name"). rewrite Hname. cbn [mbind option_bind].
  read_word Hw Hnd (str "count"). read_word Hw Hnd (str "interval-ms"). read_word Hw Hnd (str "size").
  read_word Hw Hnd (str "local-ip"). by rewrite Nat2Z.id.
Qed.

Lemma server_words_round_trip cert name flag words :
  parse_path cert = Some cert → parse_string name = Some name →
  let args := mkServerArgs (mkSocketAddr (V4 ip) port) cert name flag in
  words ≡ₚ server_words ip port args → server_args (options words) flag = Some args.
Proof using Hport.
  intros Hcert Hname args Hw. unfold server_args, server_words in *. subst args.
  cbn [arg_cert_out arg_server_name] in Hw. words_differ Hw Hnd.
  read_word Hw Hnd (str "listen"). read_word Hw Hnd (str "cert-out"). rewrite Hcert. cbn [mbind option_bind].
  read_word Hw Hnd (str "server-name"). by rewrite Hname.
Qed.

Lemma blaster_words_round_trip threads duration size pps words :
  (∀ n, threads = Some n → is_u64 n) → is_u64 duration → is_u64 size → is_u64 pps →
  let args := mkBlasterArgs (mkSocketAddr (V4 ip) port) threads duration size pps in
  words ≡ₚ blaster_words ip port args → blaster_args (options words) = Some args.
Proof using Hport.
  intros Ht Hd Hs Hp args Hw. unfold blaster_args, blaster_words in *. subst args.
  cbn [ba_threads ba_duration ba_size ba_pps] in Hw. destruct threads as [n|]; cbn [app] in Hw; words_differ Hw Hnd.
  - specialize (Ht n eq_refl). read_word Hw Hnd (str "target").
    rewrite (options_words _ _ Hw Hnd (str "threads") _ ltac:(word_in)), u64_show by done. cbn [fmap option_fmap option_map mbind option_bind].
    read_word Hw Hnd (str "duration"). read_word Hw Hnd (str "size"). by read_word Hw Hnd (str "pps").
  - read_word Hw Hnd (str "target"). rewrite (options_absent _ _ Hw (str "threads")) by names_differ. cbn [mbind option_bind].
    read_word Hw Hnd (str "duration"). read_word Hw Hnd (str "size"). by read_word Hw Hnd (str "pps").
Qed.
End round_trips.

(** The number of workers fits its type. *)
Lemma thread_count_range threads available :
  (∀ n, threads = Some n → is_u64 n) → (∀ n, available = Some n → 0 < n < 2 ^ 64) →
  0 < thread_count threads available < 2 ^ 64.
Proof.
  intros Ht Ha. assert (0 < match available with Some n => n | None => 1 end < 2 ^ 64) as Hd
    by (destruct available as [n|]; [by apply Ha|lia]).
  unfold thread_count. destruct threads as [[|n|n]|]; [done| |specialize (Ht _ eq_refl); unfold is_u64 in Ht; lia|done].
  specialize (Ht _ eq_refl). unfold is_u64 in Ht. lia.
Qed.

(** A run starts exactly when the plan is made and every thread is spawned. *)
Lemma blaster_start_plan args available spawned pl p0 :
  blaster_start args available spawned = Done (Ok (pl, p0)) →
  plan (ba_size args) (ba_pps args) (ba_threads args) available = Done (Ok pl).
Proof.
  unfold blaster_start. destruct (plan _ _ _ _) as [[p|e]|]; run; try done.
  destruct (spawn_workers _); [|done]. by intros [= -> _].
Qed.

Lemma spawn_all_Ok seeds :
  spawn_workers (imap (fun _ seed => (seed, Ok tt)) seeds) = Ok (map spawned_thread seeds).
Proof.
  induction seeds as [|seed seeds IH]; [done|]. rewrite imap_cons. cbn [spawn_workers map].
  change (_ ∘ S) with (fun (_ : nat) (seed : Z) => (seed, Ok (E := ErrorKind) tt)). by rewrite IH.
Qed.

(** ** Theorems *)

(** Command lines round trip: arguments of each binary, rendered as options with their
    values' texts and given in any order, are parsed to themselves, for an IPv4 address
    and any port, non-empty paths, ASCII names, and counts and sizes that fit their
    types; the blaster's thread count may be left out. *)
Theorem command_lines_round_trip `{ClapParsersLaws} ip port :
  0 <= port <= 65535 →
  let addr := mkSocketAddr (V4 ip) port in
  (∀ cert name count interval size local words,
     let args := mkArgs addr cert name count interval size local in
     cert ≠ [] → Forall (fun b => u8_Z b < 128) name →
     is_u64 count → is_u64 interval → is_u64 (Z.of_nat size) →
     words ≡ₚ client_words ip port args → client_args (options words) = Some args) ∧
  (∀ cert name flag words,
     let args := mkServerArgs addr cert name flag in
     cert ≠ [] → Forall (fun b => u8_Z b < 128) name →
     words ≡ₚ server_words ip port args → server_args (options words) flag = Some args) ∧
  (∀ threads duration size pps words,
     let args := mkBlasterArgs addr threads duration size pps in
     (∀ n, threads = Some n → is_u64 n) → is_u64 duration → is_u64 size → is_u64 pps →
     words ≡ₚ blaster_words ip port args → blaster_args (options words) = Some args).
Proof.
  intros Hp addr. split_and!.
  - intros. apply client_words_round_trip; auto using parse_path_given, parse_string_ascii.
  - intros. apply server_words_round_trip; auto using parse_path_given, parse_string_ascii.
  - intros. by apply blaster_words_round_trip.
Qed.

(** A command line is refused unless every value fits its type: the addresses,
    ports and numbers of accepted arguments are in range, an IPv4 address has to be
    written exactly as it is printed, and where no option is given the arguments are
    the documented defaults. *)
Theorem accepted_arguments_are_in_range `{ClapParsersLaws} given flag :
  (∀ args, client_args given = Some args →
     address_ok (arg_server args) ∧ is_u64 (arg_count args) ∧ is_u64 (arg_interval_ms args) ∧
     is_u64 (Z.of_nat (arg_size args)) ∧
     ∀ text, given (str "local-ip") = Some text → text = show_ipv4 (arg_local_ip args)) ∧
  (∀ args, server_args given flag = Some args →
     address_ok (arg_listen args) ∧ no_dcid_validation args = flag) ∧
  (∀ args, blaster_args given = Some args →
     address_ok (ba_target args) ∧ (∀ n, ba_threads args = Some n → is_u64 n) ∧ is_u64 (ba_duration args) ∧
     is_u64 (ba_size args) ∧ is_u64 (ba_pps args)) ∧
  client_args (fun _ => None) = Some client_default_args ∧
  server_args (fun _ => None) false = Some server_default_args ∧
  blaster_args (fun _ => None) = Some blaster_default_args.
Proof.
  assert (parse_path (str "server_cert.der") = Some (str "server_cert.der")) as Hpath by (by apply parse_path_given).
  assert (parse_string (str "localhost") = Some (str "localhost")) as Hname by (apply parse_string_ascii; by repeat constructor).
  split; [|split; [|split; [apply blaster_args_Some|split; [|split; [|vm_compute; reflexivity]]]]].
  - intros args E. destruct (client_args_Some _ _ E) as (Ha & Hc & Hi & Hs). do 4 (split; [done|]).
    intros text Ht. unfold client_args in E. apply bind_Some in E as (a & _ & E).
    apply bind_Some in E as (p & _ & E). apply bind_Some in E as (nm & _ & E).
    apply bind_Some in E as (c & _ & E). apply bind_Some in E as (i & _ & E). apply bind_Some in E as (z & _ & E).
    apply bind_Some in E as (lip & El & E). simplify_eq. unfold option_text in El. rewrite Ht in El.
    by apply Ipv4Addr_from_str_iff.
  - unfold server_args. intros args (a & Ea%SocketAddr_from_str_ok & E)%bind_Some.
    apply bind_Some in E as (p & _ & E). apply bind_Some in E as (nm & _ & E). by simplify_eq.
  - unfold client_args, option_text. cbn [default]. rewrite Hpath, Hname. vm_compute. reflexivity.
  - unfold server_args, option_text. cbn [default]. rewrite Hpath, Hname. vm_compute. reflexivity.
Qed.

(** C30: what the blaster does on a command line that is accepted, when the threads
    can be spawned: below 1200 bytes and above 65535 it refuses the size, between
    16434 and 65535 bytes it panics, and otherwise it starts at least one worker, as
    many as asked for unless that is zero, each with its own seed and at the rate
    that divides the one asked for. *)
Theorem blaster_starts_from_its_command_line given args available :
  blaster_args given = Some args → (∀ n, available = Some n → 0 < n < 2 ^ 64) →
  let size := ba_size args in
  match blaster_start args available (fun _ => Ok tt) with
  | Panic => 16434 <= size <= 65535
  | Done (Err e) =>
      (size < 1200 ∧ e = MainTemplate (SizeBelowMinimum size)) ∨
      (65535 < size ∧ e = MainTemplate (SizeAboveUdp size))
  | Done (Ok (pl, pool)) =>
      1200 <= size < 16434 ∧ 0 < pl_threads pl < 2 ^ 64 ∧
      (∀ n, ba_threads args = Some n → n ≠ 0 → pl_threads pl = n) ∧
      Z.of_nat (length (po_threads pool)) = pl_threads pl ∧ NoDup (map th_seed (po_threads pool)) ∧
      pl_pps pl = per_thread_pps (ba_pps args) (pl_threads pl)
  end.
Proof.
  intros Hargs Ha size. destruct (blaster_args_Some _ _ Hargs) as (_ & Ht & _).
  pose proof (thread_count_range _ _ Ht Ha) as Hc.
  destruct (blaster_start args available _) as [[[pl pool]|e]|] eqn:E.
  - pose proof (blaster_start_plan _ _ _ _ _ E) as Ep. destruct (blaster_start_Ok false _ _ _ _ _ E) as (Hs & _ & ->).
    assert (pl_threads pl = thread_count (ba_threads args) available) as En.
    { unfold plan in Ep. destruct (InitialTemplate_new _) as [[]|]; run; try done. by injection Ep as <-. }
    destruct (plan_gives_each_worker_its_own_seed (ba_size args) (ba_pps args) (ba_threads args) available pl) as (_ & Hl & Hnd & Hpps);
      [intros n Hn; destruct (Ht n Hn); lia|intros n Hn; destruct (Ha n Hn); lia|done|lia|].
    split; [done|]. rewrite En. split; [done|]. cbn [pool_of po_threads].
    rewrite length_map, <- En, map_map. split_and!; [|done| |done].
    + intros n Hn Hne. rewrite En, Hn. by destruct n.
    + change (map (fun x => th_seed (spawned_thread x)) (pl_seeds pl)) with (map (fun x : Z => x) (pl_seeds pl)). by rewrite map_id.
  - unfold blaster_start, plan in E. rewrite InitialTemplate_new_eq in E. fold size in E.
    destruct (Z.ltb_spec size 1200); [left; split; [done|by injection E]|].
    destruct (Z.ltb_spec 65535 size); [right; split; [done|by injection E]|].
    destruct (Z.ltb_spec size 16434); [|done]. cbn [mbind mret exec_bind exec_ret] in E. by rewrite spawn_all_Ok in E.
  - unfold blaster_start, plan in E. rewrite InitialTemplate_new_eq in E. fold size in E.
    destruct (Z.ltb_spec size 1200); [done|]. destruct (Z.ltb_spec 65535 size); [done|].
    destruct (Z.ltb_spec size 16434); [|lia]. cbn [mbind mret exec_bind exec_ret] in E. by rewrite spawn_all_Ok in E.
Qed.

(** ** Instances at concrete input *)

(** Value parsers of paths and of ASCII text. *)
#[export] Instance ascii_clap : ClapParsers := {
  parse_path := fun path => match path with [] => None | _ => Some path end;
  parse_string := fun text => if forallb (fun b => u8_Z b <? 128) text then Some text else None
}.

#[export] Instance ascii_clap_laws : ClapParsersLaws.
Proof.
  split; cbn; [done|by intros []|]. intros text Ht. rewrite (proj2 (forallb_forall _ text)); [done|].
  rewrite Forall_forall in Ht. intros b Hb%list_elem_of_In. by apply Z.ltb_lt, Ht.
Qed.

(** Options a user might type, not in the order of the fields and not all given. *)
Definition ex_options : list (list byte * list byte) :=
  [(str "count", str "0"); (str "local-ip", str "10.0.0.2"); (str "server", str "10.0.0.1:04433")].

Example ex_client_command_line :
  client_args (options ex_options) =
    Some (mkArgs (mkSocketAddr (V4 (ipv4 10 0 0 1)) 4433) (str "server_cert.der") (str "localhost") 0 500 64
            (ipv4 10 0 0 2)) ∧
  client_args (options [(str "local-ip", str "10.0.0.02")]) = None ∧
  client_args (options [(str "count", str "-1")]) = None ∧
  client_args (options [(str "cert", str "")]) = None ∧
  server_args (options [(str "listen", str "10.0.0.1")]) false = None ∧
  (ba_threads <$> blaster_args (options [(str "threads", str "0")])) = Some (Some 0).
Proof. vm_compute. repeat split. Qed.

Lemma command_lines_round_trip_witness :
  let addr := mkSocketAddr (V4 (ipv4 10 0 0 1)) 65535 in
  let args := mkBlasterArgs addr (Some 3) 10 1400 0 in
  blaster_args (options (rev (blaster_words (ipv4 10 0 0 1) 65535 args))) = Some args.
Proof.
  refine (proj2 (proj2 (command_lines_round_trip (ipv4 10 0 0 1) 65535 _)) _ _ _ _ _ _ _ _ _ _).
  - split; vm_compute; discriminate.
  - intros n [= <-]. by split.
  - by split.
  - by split.
  - by split.
  - symmetry. apply Permutation_rev.
Defined.

Lemma accepted_arguments_are_in_range_witness :
  ∃ args, client_args (options ex_options) = Some args ∧ address_ok (arg_server args) ∧
    str "10.0.0.2" = show_ipv4 (arg_local_ip args).
Proof.
  eexists. split; [vm_compute; reflexivity|].
  pose proof (proj1 (accepted_arguments_are_in_range (options ex_options) false) _ eq_refl) as (Ha & _ & _ & _ & Ht).
  split; [exact Ha|]. apply Ht. vm_compute. reflexivity.
Defined.

Lemma blaster_starts_from_its_command_line_witness :
  let given := options [(str "threads", str "2"); (str "pps", str "1000")] in
  ∃ args pl pool, blaster_args given = Some args ∧
    blaster_start args None (fun _ => Ok tt) = Done (Ok (pl, pool)) ∧ pl_threads pl = 2 ∧
    NoDup (map th_seed (po_threads pool)).
Proof.
  intros given. eexists _, _, _. split; [vm_compute; reflexivity|]. split; [vm_compute; reflexivity|].
  pose proof (blaster_starts_from_its_command_line given _ None eq_refl ltac:(discriminate)) as Hs.
  vm_compute in Hs. destruct Hs as (_ & _ & _ & _ & Hnd & _). split; [reflexivity|exact Hnd].
Defined.
