(* ===== verification/UnitTests.v ===== *)
(** * The unit tests of the crate ([src/auth.rs], [src/lib.rs], [src/bin/blaster.rs])

    Each [#[test]] as the program it is: a computation that panics where an
    assertion fails. The tests of the tokens draw random nonces, so that running
    them shows one draw; here they are analysed for all draws and every block
    cipher, which tells the tests that always pass from those that fail on a
    collision of the truncated cipher output, and only then. *)

From S2P Require Import Prelude Interfaces Aes Instances Auth AuthTheorems Datagram CidGenerator.
From S2P Require Import Ping SplitMix Blaster.

(** A [for] loop over a state. *)
Fixpoint for_each {A S} (l : list A) (body : A → S → exec S) (s : S) : exec S :=
  match l with
  | [] => mret s
  | x :: l' => s ← body x s; for_each l' body s
  end.

(** [assert_eq!] and [assert_ne!]. *)
Definition assert_eq `{EqDecision A} (a b : A) : exec unit := rust_assert (bool_decide (a = b)).
Definition assert_ne `{EqDecision A} (a b : A) : exec unit := rust_assert (bool_decide (a ≠ b)).

(** ** The tests of [auth.rs] *)

Section auth_tests.
Context `{BlockCipher, Rng, QuinnCid}.

Definition PEERS : Peers := mkPeers (ipv4 10 0 0 1) (ipv4 10 0 0 2).

Definition check_on_path (token : list byte) (direction : Direction) : exec (result unit AuthError) :=
  let '(src, dst) := direction_path direction PEERS in verify token direction src dst.

Definition test_minted_tokens_verify_on_their_own_path (g : rng) : exec rng :=
  for_each [ClientToServer; ServerToClient] (fun direction g =>
    '(token, g) ← mint direction PEERS g;
    _ ← assert_eq (length token) TOKEN_LEN;
    r ← check_on_path token direction;
    _ ← assert_eq r (Ok tt);
    mret g) g.

Definition test_tokens_do_not_verify_for_the_reverse_direction (g : rng) : exec unit :=
  '(token, _) ← mint ClientToServer PEERS g;
  r ← check_on_path token ServerToClient;
  assert_eq r (Err WrongDirection).

Definition test_tokens_are_bound_to_the_address_pair (g : rng) : exec unit :=
  '(token, _) ← mint ClientToServer PEERS g;
  let elsewhere := ipv4 192 0 2 9 in
  r ← verify token ClientToServer elsewhere (server PEERS);
  _ ← assert_eq r (Err BadTag);
  r ← verify token ClientToServer (client PEERS) elsewhere;
  _ ← assert_eq r (Err BadTag);
  r ← verify token ClientToServer (server PEERS) (client PEERS);
  assert_eq r (Err BadTag).

Definition test_every_corrupted_byte_is_detected (g : rng) : exec unit :=
  '(token, _) ← mint ClientToServer PEERS g;
  for_each (List.seq 0 TOKEN_LEN) (fun byte _ =>
    b ← expect (token !! byte);
    let corrupted := <[byte := u8_xor b Byte.x01]> token in
    r ← check_on_path corrupted ClientToServer;
    rust_assert (is_err r)) tt.

Definition test_tags_are_deterministic_and_nonce_dependent : exec unit :=
  let '(src, dst) := direction_path ClientToServer PEERS in
  let nonce := replicate NONCE_LEN (Z_u8 7) in
  let key := direction_key ClientToServer in
  t1 ← tag key nonce src dst;
  t2 ← tag key nonce src dst;
  _ ← assert_eq t1 t2;
  t3 ← tag key (replicate NONCE_LEN (Z_u8 8)) src dst;
  _ ← assert_ne t1 t3;
  t4 ← tag F_AB nonce src dst;
  t5 ← tag F_BA nonce src dst;
  assert_ne t4 t5.

Definition test_malformed_tokens_are_rejected_rather_than_panicking (g : rng) : exec unit :=
  _ ← for_each [0; 1; TOKEN_LEN - 1; TOKEN_LEN + 1] (fun len _ =>
    r ← check_on_path (replicate len Byte.x00) ClientToServer;
    assert_eq r (Err (BadLength len))) tt;
  '(token, _) ← mint ClientToServer PEERS g;
  token ← copy_range token 0 SELECTOR_LEN (to_be_bytes 2 0xbeef);
  r ← check_on_path token ClientToServer;
  assert_eq r (Err (UnknownSelector 0xbeef)).

Definition test_generated_cids_bind_the_peer_they_are_issued_for (g : rng) : exec unit :=
  let server := ipv4 10 0 0 2 in
  let alice := ipv4 10 0 0 1 in
  let bob := ipv4 198 51 100 7 in
  let generator := AuthCidGenerator_new ClientToServer server in
  '(for_alice, generator, g) ← gen_generate_cid_for generator (mkSocketAddr (V4 alice) 4433) None g;
  '(for_bob, _, _) ← gen_generate_cid_for generator (mkSocketAddr (V4 bob) 4433) None g;
  r ← verify (ConnectionId_bytes for_alice) ClientToServer alice server;
  _ ← assert_eq r (Ok tt);
  r ← verify (ConnectionId_bytes for_bob) ClientToServer bob server;
  _ ← assert_eq r (Ok tt);
  r ← verify (ConnectionId_bytes for_alice) ClientToServer bob server;
  assert_eq r (Err BadTag).

Definition test_cids_generated_without_a_peer_address_never_authenticate (g : rng) : exec unit :=
  let server := ipv4 10 0 0 2 in
  let client := ipv4 10 0 0 1 in
  let generator := AuthCidGenerator_new ClientToServer server in
  '(blind, _, _) ← gen_generate_cid generator g;
  r ← verify (ConnectionId_bytes blind) ClientToServer client server;
  assert_eq r (Err BadTag).

Definition test_destination_cid_is_located_in_both_header_forms (g : rng) : exec unit :=
  '(token, _) ← mint ClientToServer PEERS g;
  let long := bytes_of [0xc0; 0x00; 0x00; 0x00; 0x01]%Z ++ [Z_u8 (Z.of_nat TOKEN_LEN)] ++ token ++
              replicate 32 (Z_u8 0xaa) in
  _ ← assert_eq (destination_cid long) (Some token);
  let short := [Z_u8 0x40] ++ token ++ replicate 32 (Z_u8 0xaa) in
  assert_eq (destination_cid short) (Some token).

Definition test_truncated_datagrams_do_not_panic : exec unit :=
  _ ← assert_eq (destination_cid []) None;
  _ ← assert_eq (destination_cid (bytes_of [0xc0; 0x00; 0x00; 0x00; 0x01; 20; 0x00]%Z)) None;
  _ ← assert_eq (destination_cid (bytes_of [0x40; 0x00]%Z)) None;
  assert_eq (destination_cid (bytes_of [0xc0; 0x00; 0x00; 0x00; 0x01; 21]%Z)) None.
End auth_tests.

(** ** The tests of [lib.rs] *)

Definition test_ping_payload_carries_sequence_number : exec unit :=
  payload ← ping_payload 0x0102030405060708 16;
  _ ← assert_eq (length payload) 16;
  head ← index_range payload 0 8;
  assert_eq head (bytes_of [1; 2; 3; 4; 5; 6; 7; 8]%Z).

Definition test_ping_payload_handles_sizes_below_the_header : exec unit :=
  payload ← ping_payload (2 ^ 64 - 1) 0;
  _ ← rust_assert (bool_decide (payload = []));
  payload ← ping_payload (2 ^ 64 - 1) 3;
  assert_eq payload (bytes_of [0xff; 0xff; 0xff]%Z).

(** ** The tests of [blaster.rs] *)

Section blaster_tests.
Context (big_endian : bool).

(** [InitialTemplate::new(MIN_INITIAL_DATAGRAM).expect(..)]. *)
Definition minimal_template : exec InitialTemplate :=
  r ← InitialTemplate_new MIN_INITIAL_DATAGRAM;
  match r with Ok t => mret t | Err _ => Panic end.

(** The last assertion compares the addresses of two slices of one buffer, that is
    their positions in it. *)
Definition test_the_template_is_a_parseable_quic_initial : exec unit :=
  template ← minimal_template;
  _ ← assert_eq (Z.of_nat (length (tpl_bytes template))) MIN_INITIAL_DATAGRAM;
  dcid ← expect (destination_cid (tpl_bytes template));
  _ ← assert_eq (length dcid) TOKEN_LEN;
  assert_eq (get_range (tpl_bytes template) (dcid_offset template) (dcid_offset template + TOKEN_LEN))
    (Some dcid).

Definition test_randomizing_rewrites_only_the_connection_id : exec unit :=
  template ← minimal_template;
  let original := tpl_bytes template in
  '(template, _) ← randomize_dcid big_endian template 1;
  let offset := dcid_offset template in
  let stop := offset + TOKEN_LEN in
  new ← index_range (tpl_bytes template) offset stop;
  old ← index_range original offset stop;
  _ ← assert_ne new old;
  new ← index_range (tpl_bytes template) 0 offset;
  old ← index_range original 0 offset;
  _ ← assert_eq new old;
  new ← index_range (tpl_bytes template) stop (length (tpl_bytes template));
  old ← index_range original stop (length original);
  assert_eq new old.

(** The body of the loop of [generated_connection_ids_do_not_repeat]; the set of
    connection IDs seen is a list. *)
Definition draw_and_insert (s : InitialTemplate * Z * list (list byte))
    : exec (InitialTemplate * Z * list (list byte)) :=
  let '(template, rng, seen) := s in
  '(template, rng) ← randomize_dcid big_endian template rng;
  rest ← index_range (tpl_bytes template) (dcid_offset template) (length (tpl_bytes template));
  dcid ← index_range rest 0 TOKEN_LEN;
  _ ← rust_assert (bool_decide (dcid ∉ seen));
  mret (template, rng, dcid :: seen).

Definition test_generated_connection_ids_do_not_repeat (seed : Z) (rounds : nat) : exec unit :=
  template ← minimal_template;
  _ ← for_each (List.seq 0 rounds) (fun _ => draw_and_insert) (template, seed, []);
  mret tt.

Definition test_undersized_datagrams_are_refused : exec unit :=
  r ← InitialTemplate_new (MIN_INITIAL_DATAGRAM - 1);
  rust_assert (is_err r).
End blaster_tests.

(** ** Lemmas *)

Lemma assert_eq_Done `{EqDecision A} (a b : A) : assert_eq a b = Done tt ↔ a = b.
Proof. unfold assert_eq, rust_assert. case_bool_decide; done. Qed.

Lemma assert_eq_refl `{EqDecision A} (a : A) : assert_eq a a = Done tt.
Proof. by apply assert_eq_Done. Qed.

(** A loop without state succeeds when each of its rounds does. *)
Lemma for_each_unit {A} (l : list A) (f : A → exec unit) :
  for_each l (fun x _ => f x) tt = Done tt ↔ Forall (fun x => f x = Done tt) l.
Proof.
  induction l as [|x l IH]; cbn [for_each]; [by split|]. rewrite Forall_cons, <- IH.
  destruct (f x) as [[]|]; run; [by split; [|intros [_ ?]]|by split; [|intros [? _]]].
Qed.

(** An assertion that a verdict is [BadTag], where the alternative is a collision. *)
Lemma assert_bad_tag {A} (x y : list byte) (k : exec A) (v : A) :
  (_ ← assert_eq (if decide (x = y) then Ok tt else Err BadTag) (Err BadTag : result unit AuthError); k) = Done v ↔
  x ≠ y ∧ k = Done v.
Proof. destruct (decide (x = y)); cbn; split; try done; [by intros [? _]|by intros [_ ?]]. Qed.

Lemma assert_bad_tag_last (x y : list byte) :
  assert_eq (if decide (x = y) then Ok tt else Err BadTag) (Err BadTag : result unit AuthError) = Done tt ↔ x ≠ y.
Proof. by destruct (decide (x = y)); cbn. Qed.

Section auth_lemmas.
Context `{BlockCipherLaws, RngLaws, QuinnCidLaws}.

(** The nonce a draw from [g] gives. *)
Definition drawn (g : rng) : list byte := (fill_bytes NONCE_LEN g).1.

Lemma length_drawn g : length (drawn g) = 8.
Proof. apply fill_bytes_length. Qed.

Lemma mint_drawn d src dst g :
  mint_between d src dst g = Done (token_of d (drawn g) src dst, (fill_bytes 8 g).2).
Proof.
  destruct (mint_between_eq d src dst g) as (nonce & _ & E & ->). unfold drawn, NONCE_LEN. by rewrite E.
Qed.

Lemma mint_cid_drawn d src dst g :
  ∃ cid, mint_cid d src dst g = Done (cid, (fill_bytes 8 g).2) ∧
    ConnectionId_bytes cid = token_of d (drawn g) src dst.
Proof.
  unfold mint_cid. rewrite mint_drawn. run. eexists. split; [done|].
  apply ConnectionId_bytes_new. by rewrite length_token_of by apply length_drawn.
Qed.

Lemma verify_own d nonce src dst :
  length nonce = 8 → verify (token_of d nonce src dst) d src dst = Done (Ok tt).
Proof. intros Hn. rewrite verify_eq, token_of_other_path by done. by rewrite decide_True. Qed.

Lemma verify_other d nonce src dst src' dst' :
  length nonce = 8 →
  verify (token_of d nonce src dst) d src' dst' =
  Done (if decide (token_tag d nonce src dst = token_tag d nonce src' dst') then Ok tt else Err BadTag).
Proof. intros Hn. by rewrite verify_eq, token_of_other_path. Qed.

(** Overwriting a byte of the nonce inside a token. *)
Lemma nonce_field_insert d nonce src dst k b :
  length nonce = 8 → k < 8 →
  nonce_field (<[2 + k := b]> (token_of d nonce src dst)) = <[k := b]> nonce.
Proof.
  intros Hn Hk. unfold nonce_field. rewrite drop_insert_ge by lia. replace (2 + k - 2) with k by lia.
  rewrite take_insert_lt by lia. f_equal.
  exact (proj1 (proj2 (token_of_fields d nonce src dst Hn))).
Qed.

Lemma u8_xor_1_ne b : u8_xor b Byte.x01 ≠ b.
Proof. revert b. by_bytes. Qed.

(** One round of the corruption test. *)
Lemma corrupted_round d nonce src dst i b :
  length nonce = 8 → token_of d nonce src dst !! i = Some b →
  (r ← verify (<[i := u8_xor b Byte.x01]> (token_of d nonce src dst)) d src dst; rust_assert (is_err r)) = Done tt ↔
  (2 ≤ i < 10 → token_tag d (<[i - 2 := u8_xor b Byte.x01]> nonce) src dst ≠ token_tag d nonce src dst).
Proof.
  intros Hn Hi. rewrite verify_eq. run.
  assert (verify_spec (token_of d nonce src dst) d src dst = Ok tt) as Hok
    by (apply verify_spec_token_of; by exists nonce).
  pose proof (corrupted_byte_iff _ d src dst i b _ Hok Hi (u8_xor_1_ne b)) as Hiff.
  destruct (token_of_fields d nonce src dst Hn) as (_ & Hnf & _). rewrite Hnf in Hiff.
  assert (2 ≤ i < 10 → nonce_field (<[i := u8_xor b Byte.x01]> (token_of d nonce src dst)) =
            <[i - 2 := u8_xor b Byte.x01]> nonce) as Hins.
  { intros Hr. rewrite <- (nonce_field_insert d nonce src dst (i - 2)) by lia. do 2 f_equal. lia. }
  destruct (verify_spec (<[i := _]> _) d src dst) as [[]|e]; cbn [is_err rust_assert].
  - split; [done|]. intros Hc. destruct (proj1 Hiff eq_refl) as [Hr Heq]. rewrite Hins in Heq by lia.
    destruct (Hc ltac:(lia) Heq).
  - split; [|done]. intros _ Hr Heq. rewrite <- Hins in Heq by done.
    by assert (Err e = Ok tt :> result unit AuthError) by (apply Hiff; split; [lia|done]).
Qed.

Lemma nonce_in_token d nonce src dst k :
  length nonce = 8 → k < 8 → token_of d nonce src dst !! (2 + k) = nonce !! k.
Proof.
  intros Hn Hk. destruct (token_of_fields d nonce src dst Hn) as (_ & Hf & _).
  rewrite <- Hf at 2. unfold nonce_field. by rewrite lookup_take_lt, lookup_drop by lia.
Qed.

(** The loop of the corruption test. *)
Lemma corrupted_loop d nonce src dst :
  length nonce = 8 →
  for_each (List.seq 0 TOKEN_LEN) (fun byte _ =>
    b ← expect (token_of d nonce src dst !! byte);
    r ← verify (<[byte := u8_xor b Byte.x01]> (token_of d nonce src dst)) d src dst;
    rust_assert (is_err r)) tt = Done tt ↔
  ∀ k b, nonce !! k = Some b →
    token_tag d (<[k := u8_xor b Byte.x01]> nonce) src dst ≠ token_tag d nonce src dst.
Proof.
  intros Hn. rewrite for_each_unit, Forall_forall. split.
  - intros Hall k b Hk. pose proof (lookup_lt_Some _ _ _ Hk) as Hlt. rewrite Hn in Hlt.
    assert (token_of d nonce src dst !! (2 + k) = Some b) as Hb by by rewrite nonce_in_token.
    specialize (Hall (2 + k) ltac:(apply elem_of_seq; unfold TOKEN_LEN; lia)). rewrite Hb in Hall. cbn [expect mbind exec_bind] in Hall.
    apply (corrupted_round d nonce src dst (2 + k) b Hn Hb) in Hall; [|lia].
    by replace (2 + k - 2) with k in Hall by lia.
  - intros Hc i Hi%elem_of_seq.
    destruct (lookup_lt_is_Some_2 (token_of d nonce src dst) i) as [b Hb];
      [rewrite length_token_of by done; unfold TOKEN_LEN in *; lia|].
    rewrite Hb. run. apply (corrupted_round d nonce src dst i b Hn Hb). intros Hr. apply Hc.
    rewrite <- (nonce_in_token d nonce src dst) by (done || lia).
    by replace (2 + (i - 2)) with i by lia.
Qed.

Lemma assert_ne_then {A} (x y : list byte) (k : exec A) (v : A) :
  (_ ← assert_ne x y; k) = Done v ↔ x ≠ y ∧ k = Done v.
Proof. unfold assert_ne, rust_assert. case_bool_decide; run; split; try done; by intros []. Qed.

(** The test of deterministic tags. *)
Lemma deterministic_tags :
  test_tags_are_deterministic_and_nonce_dependent = Done tt ↔
  let sevens := replicate NONCE_LEN (Z_u8 7) in
  let tag d nonce := token_tag d nonce (client PEERS) (server PEERS) in
  tag ClientToServer sevens ≠ tag ClientToServer (replicate NONCE_LEN (Z_u8 8)) ∧
  tag ClientToServer sevens ≠ tag ServerToClient sevens.
Proof.
  unfold test_tags_are_deterministic_and_nonce_dependent. cbn [direction_path].
  change F_AB with (direction_key ClientToServer). change F_BA with (direction_key ServerToClient).
  rewrite !tag_eq by done. run. rewrite assert_eq_refl. run. rewrite assert_ne_then.
  unfold assert_ne, rust_assert. case_bool_decide as Hd; by split; intros [H' H''].
Qed.
End auth_lemmas.

(** ** The template tests: lemmas *)

Section blaster_lemmas.
Context (big_endian : bool).

Lemma minimal_template_eq :
  minimal_template =
  Done (mkInitialTemplate (tpl_prefix ++ replicate TOKEN_LEN Byte.x00 ++ tpl_suffix 1200) (length tpl_prefix)).
Proof. unfold minimal_template. rewrite InitialTemplate_new_eq. reflexivity. Qed.

Lemma draw_and_insert_eq dcid seed i (seen : list (list byte)) :
  length dcid = TOKEN_LEN → (Z.of_nat i < 2 ^ 64)%Z →
  seen = map (fun j => dcid_from big_endian (state_after (3 * j) seed)) (rev (List.seq 0 i)) →
  draw_and_insert big_endian
    (mkInitialTemplate (tpl_prefix ++ dcid ++ tpl_suffix 1200) (length tpl_prefix),
     state_after (3 * i) seed, seen) =
  Done (mkInitialTemplate (tpl_prefix ++ dcid_from big_endian (state_after (3 * i) seed) ++ tpl_suffix 1200)
          (length tpl_prefix),
        state_after (3 * S i) seed,
        dcid_from big_endian (state_after (3 * i) seed) :: seen).
Proof.
  intros Hl Hi Hseen. unfold draw_and_insert. rewrite randomize_dcid_eq by done. run.
  cbn [tpl_bytes dcid_offset]. set (d := dcid_from big_endian (state_after (3 * i) seed)).
  assert (length d = TOKEN_LEN) as Hd by apply length_dcid_from.
  assert (index_range (tpl_prefix ++ d ++ tpl_suffix 1200) (length tpl_prefix)
            (length (tpl_prefix ++ d ++ tpl_suffix 1200)) = Done (d ++ tpl_suffix 1200)) as ->.
  { unfold index_range. rewrite <- (app_nil_r (d ++ tpl_suffix 1200)) at 1.
    by rewrite get_range_app by (rewrite ?length_app; lia). }
  run. unfold index_range. rewrite get_range_prefix by done. run.
  rewrite bool_decide_eq_true_2.
  - run. rewrite <- state_after_add. by replace (3 * S i) with (3 + 3 * i) by lia.
  - rewrite Hseen. intros (j & E & Hj)%list_elem_of_fmap.
    apply list_elem_of_In, in_rev, list_elem_of_In, elem_of_seq in Hj.
    apply dcid_from_inj in E as [c Hc]. nia.
Qed.

Lemma draws_do_not_repeat seed n : ∀ i dcid seen,
  length dcid = TOKEN_LEN → (Z.of_nat (i + n) <= 2 ^ 64)%Z →
  seen = map (fun j => dcid_from big_endian (state_after (3 * j) seed)) (rev (List.seq 0 i)) →
  ∃ s, for_each (List.seq i n) (fun _ => draw_and_insert big_endian)
         (mkInitialTemplate (tpl_prefix ++ dcid ++ tpl_suffix 1200) (length tpl_prefix),
          state_after (3 * i) seed, seen) = Done s.
Proof.
  induction n as [|n IH]; intros i dcid seen Hl Hb Hseen; cbn [List.seq for_each]; [by eexists|].
  rewrite (draw_and_insert_eq dcid seed i seen Hl ltac:(lia) Hseen). run.
  apply IH; [apply length_dcid_from|lia|]. rewrite seq_S, rev_app_distr. cbn [rev app map]. by rewrite Hseen.
Qed.
End blaster_lemmas.

(** ** Theorems *)

Section theorems.
Context `{BlockCipherLaws, RngLaws, QuinnCidLaws}.

(** C37: the ten tests of [auth.rs], for every block cipher and every state of the random
    generator: the tests on own paths, on the reverse direction, on malformed tokens, on
    locating the connection ID and on truncated datagrams pass; and each of the other
    five fails exactly when two tags of 80 bits coincide that belong to different
    addresses, to nonces one bit apart (the corruption test), or to the two nonces or
    the two keys of the test of deterministic tags. *)
Theorem unit_tests_fail_only_on_collisions g :
  let tag := token_tag ClientToServer (drawn g) in
  let alice := ipv4 10 0 0 1 in let srv := ipv4 10 0 0 2 in
  test_minted_tokens_verify_on_their_own_path g ≠ Panic ∧
  test_tokens_do_not_verify_for_the_reverse_direction g = Done tt ∧
  test_malformed_tokens_are_rejected_rather_than_panicking g = Done tt ∧
  test_destination_cid_is_located_in_both_header_forms g = Done tt ∧
  test_truncated_datagrams_do_not_panic = Done tt ∧
  (test_tokens_are_bound_to_the_address_pair g = Done tt ↔
     tag alice srv ≠ tag (ipv4 192 0 2 9) srv ∧ tag alice srv ≠ tag alice (ipv4 192 0 2 9) ∧
     tag alice srv ≠ tag srv alice) ∧
  (test_every_corrupted_byte_is_detected g = Done tt ↔
     ∀ k b, drawn g !! k = Some b →
       token_tag ClientToServer (<[k := u8_xor b Byte.x01]> (drawn g)) alice srv ≠ tag alice srv) ∧
  (test_generated_cids_bind_the_peer_they_are_issued_for g = Done tt ↔
     tag alice srv ≠ tag (ipv4 198 51 100 7) srv) ∧
  (test_cids_generated_without_a_peer_address_never_authenticate g = Done tt ↔
     tag UNSPECIFIED srv ≠ tag alice srv) ∧
  (test_tags_are_deterministic_and_nonce_dependent = Done tt ↔
     let sevens := replicate NONCE_LEN (Z_u8 7) in
     token_tag ClientToServer sevens alice srv ≠ token_tag ClientToServer (replicate NONCE_LEN (Z_u8 8)) alice srv ∧
     token_tag ClientToServer sevens alice srv ≠ token_tag ServerToClient sevens alice srv).
Proof.
  intros tag alice srv. pose proof (length_drawn g) as Hn. split_and!.
  - unfold test_minted_tokens_verify_on_their_own_path, mint, check_on_path. cbn [for_each direction_path].
    do 2 (rewrite mint_drawn; run; rewrite length_token_of by apply length_drawn; rewrite assert_eq_refl; run;
          rewrite verify_own by apply length_drawn; run; rewrite assert_eq_refl; run). done.
  - unfold test_tokens_do_not_verify_for_the_reverse_direction, mint, check_on_path. cbn [direction_path].
    rewrite mint_drawn. run. rewrite verify_eq. run. unfold verify_spec.
    rewrite decide_True by by apply length_token_of.
    destruct (token_of_fields ClientToServer (drawn g) (client PEERS) (server PEERS) Hn) as (-> & _ & _).
    by rewrite from_selector_selector, decide_False.
  - unfold test_malformed_tokens_are_rejected_rather_than_panicking, mint. cbn [direction_path].
    assert (for_each [0; 1; TOKEN_LEN - 1; TOKEN_LEN + 1] (fun len _ =>
              r ← check_on_path (replicate len Byte.x00) ClientToServer;
              assert_eq r (Err (BadLength len))) tt = Done tt) as ->.
    { apply for_each_unit. repeat constructor; unfold check_on_path; cbn [direction_path];
        rewrite verify_eq; run; unfold verify_spec; rewrite length_replicate;
        (rewrite decide_False by (unfold TOKEN_LEN; lia)); apply assert_eq_refl. }
    run. rewrite mint_drawn. run. unfold token_of. rewrite copy_range_head by done. run.
    unfold check_on_path. cbn [direction_path]. rewrite verify_eq. run. unfold verify_spec.
    rewrite decide_True by (rewrite !length_app, Hn, length_token_tag; done).
    unfold selector_field. rewrite (take_app_length' (to_be_bytes 2 0xbeef)) by done.
    apply assert_eq_refl.
  - unfold test_destination_cid_is_located_in_both_header_forms, mint. cbn [direction_path].
    rewrite mint_drawn. run. set (t := token_of _ _ _ _).
    assert (length t = TOKEN_LEN) as Ht by by apply length_token_of.
    assert (∀ d, quic_dcid d t → destination_cid d = Some t) as Hq by (intros d; apply destination_cid_iff).
    pose proof (long_header (Z_u8 0xc0) (bytes_of [0; 0; 0; 1]%Z) t (replicate 32 (Z_u8 0xaa))
                  ltac:(done) eq_refl ltac:(lia)) as Hlong. rewrite Ht in Hlong.
    pose proof (short_header (Z_u8 0x40) t (replicate 32 (Z_u8 0xaa)) ltac:(done) Ht) as Hshort.
    apply Hq in Hlong, Hshort. etrans; [exact (f_equal (fun x => _ ← assert_eq x (Some t); _) Hlong)|].
    rewrite assert_eq_refl. run. apply assert_eq_Done. exact Hshort.
  - vm_compute; reflexivity.
  - unfold test_tokens_are_bound_to_the_address_pair, mint. cbn [direction_path]. rewrite mint_drawn. run.
    rewrite !verify_other by done. run. rewrite !assert_bad_tag, assert_bad_tag_last. done.
  - unfold test_every_corrupted_byte_is_detected, mint, check_on_path. cbn [direction_path].
    rewrite mint_drawn. run. change (client PEERS) with alice. change (server PEERS) with srv.
    by apply corrupted_loop.
  - unfold test_generated_cids_bind_the_peer_they_are_issued_for, gen_generate_cid_for.
    cbn [sock_ip gen_direction gen_local_ip].
    destruct (mint_cid_drawn ClientToServer alice srv g) as (c1 & E1 & Hc1).
    fold alice srv. rewrite E1. run. cbn [gen_direction gen_local_ip].
    destruct (mint_cid_drawn ClientToServer (ipv4 198 51 100 7) srv (fill_bytes 8 g).2) as (c2 & E2 & Hc2).
    rewrite E2. run. rewrite Hc1, Hc2, !verify_own by apply length_drawn. run. rewrite !assert_eq_refl. run.
    rewrite verify_other by done. run. apply assert_bad_tag_last.
  - unfold test_cids_generated_without_a_peer_address_never_authenticate, gen_generate_cid.
    cbn [gen_direction gen_local_ip].
    destruct (mint_cid_drawn ClientToServer UNSPECIFIED srv g) as (c1 & E1 & Hc1).
    fold alice srv. rewrite E1. run. rewrite Hc1, verify_other by done. run. apply assert_bad_tag_last.
  - apply deterministic_tags.
Qed.
End theorems.

(** The tests without random tokens pass on machines of either byte order, and
    the one that draws 10000 connection IDs from seed 42 passes for every seed and
    for any number of rounds up to 2^64. *)
Theorem deterministic_unit_tests_pass big_endian seed rounds :
  (Z.of_nat rounds <= 2 ^ 64)%Z →
  test_truncated_datagrams_do_not_panic = Done tt ∧
  test_ping_payload_carries_sequence_number = Done tt ∧
  test_ping_payload_handles_sizes_below_the_header = Done tt ∧
  test_the_template_is_a_parseable_quic_initial = Done tt ∧
  test_randomizing_rewrites_only_the_connection_id big_endian = Done tt ∧
  test_generated_connection_ids_do_not_repeat big_endian seed rounds = Done tt ∧
  test_undersized_datagrams_are_refused = Done tt.
Proof.
  intros Hr. split_and!.
  - vm_compute; reflexivity.
  - vm_compute; reflexivity.
  - vm_compute; reflexivity.
  - vm_compute; reflexivity.
  - destruct big_endian; vm_compute; reflexivity.
  - unfold test_generated_connection_ids_do_not_repeat. rewrite minimal_template_eq. run.
    destruct (draws_do_not_repeat big_endian seed rounds 0 (replicate TOKEN_LEN Byte.x00) []) as [s E];
      [done|exact Hr|done|].
    change (state_after (3 * 0) seed) with seed in E. rewrite E. done.
  - vm_compute; reflexivity.
Qed.

(** ** Instances at concrete input *)

(** With AES, the collisions do not happen on the nonces of the tape. *)
Example ex_tests_with_aes :
  test_tags_are_deterministic_and_nonce_dependent = Done tt ∧
  test_tokens_are_bound_to_the_address_pair ex_tape = Done tt ∧
  test_every_corrupted_byte_is_detected ex_tape = Done tt ∧
  test_generated_cids_bind_the_peer_they_are_issued_for ex_tape = Done tt ∧
  test_cids_generated_without_a_peer_address_never_authenticate ex_tape = Done tt.
Proof. vm_compute. auto. Qed.

Lemma unit_tests_fail_only_on_collisions_witness :
  test_minted_tokens_verify_on_their_own_path ex_tape ≠ Panic.
Proof. exact (proj1 (unit_tests_fail_only_on_collisions ex_tape)). Defined.

Lemma deterministic_unit_tests_pass_witness :
  test_generated_connection_ids_do_not_repeat false 42 (Z.to_nat 10000) = Done tt.
Proof.
  refine (proj1 (proj2 (proj2 (proj2 (proj2 (proj2
            (deterministic_unit_tests_pass false 42 (Z.to_nat 10000) _))))))).
  rewrite Z2Nat.id; discriminate.
Defined.
