(* ===== verification/IntegrationTests.v ===== *)
(** * The integration tests of the crate ([tests/echo.rs])

    The end-to-end tests start a server and a client on the loopback interface and
    look at what is echoed and at the counters. Their set-up, the datagrams they
    forge and the payloads they echo are modelled here, Quinn and the network being
    those of [System.v] and the streams those of [Ping.v]; the theorems say for all
    runs, all schedules and all draws of the random generator what the tests observe
    in one. *)

From stdpp Require Import gmap relations.
From Stdlib Require Import Strings.String Strings.Byte.
From S2P Require Import Prelude Interfaces Aes Instances Auth AuthTheorems Datagram CidGenerator.
From S2P Require Import Socket Sender SocketTheorems Ping EchoTasks Endpoint Client Server System FilterService Conversation.
From S2P Require Import Binaries SplitMix Blaster UnitTests.

(** ** Set-up *)

Definition ECHO_PEERS : Peers := mkPeers LOCALHOST LOCALHOST.

(** The address of [elsewhere] and [wrong] in the tests. *)
Definition ELSEWHERE : Peers := mkPeers (ipv4 192 0 2 9) LOCALHOST.

(** [Result::expect]. *)
Definition expect_ok {A E} (r : result A E) : exec A := match r with Ok a => Done a | Err _ => Panic end.

Section setup.
Context `{TlsLib, BlockCipher, Rng}.

(** The outcomes of the operating system's calls for one socket. *)
Record SocketCalls := mkSocketCalls {
  sk_bound : result unit ErrorKind; sk_nonblocking : result unit ErrorKind;
  sk_registered : result unit ErrorKind; sk_local_addr : result unit ErrorKind;
  sk_created : result unit ErrorKind }.

Definition start_server_with (authenticator : option Authenticator) (os : SocketCalls)
    (cs : Crypto) : exec (Endpoint * Certificate * Crypto) :=
  '(credentials, cs) ← self_signed_server_config [str "localhost"] cs;
  credentials ← expect_ok credentials;
  socket ← expect_ok (bind (sk_bound os) (sk_nonblocking os) (sk_registered os) authenticator);
  _ ← expect_ok (sk_local_addr os);
  endpoint ← expect_ok (server_endpoint socket (config credentials) LOCALHOST (sk_created os));
  mret (endpoint, cert_der credentials, cs).

Definition start_server (os : SocketCalls) (cs : Crypto)
    : exec (Endpoint * Certificate * Crypto) :=
  start_server_with (Some (Authenticator_new ClientToServer LOCALHOST)) os cs.

(** [connect] up to the handshake, which is Quinn's; a test of its own uses other
    [peers]. *)
Definition connect_endpoint (cert : Certificate) (peers : Peers) (os : SocketCalls) (cs : Crypto)
    : exec (Endpoint * Crypto) :=
  socket ← expect_ok (bind (sk_bound os) (sk_nonblocking os) (sk_registered os)
                        (Some (Authenticator_new ServerToClient LOCALHOST)));
  '(cfg, cs) ← client_config [cert] cs;
  cfg ← expect_ok cfg;
  endpoint ← expect_ok (client_endpoint socket cfg peers (sk_created os));
  mret (endpoint, cs).

(** A test's server and client, set up and not yet run. *)
Definition test_world (authenticator : option Authenticator) (peers : Peers) (w : World) : Prop :=
  ∃ os os' cs cs' cs'' sep cep cert,
    start_server_with authenticator os cs = Done (sep, cert, cs') ∧
    connect_endpoint cert peers os' cs' = Done (cep, cs'') ∧
    w_client w = host_of cep ∧ w_server w = host_of sep ∧ w_initial w = [].

(** ** Forged datagrams *)

Definition forged_long (token : list byte) : list byte :=
  bytes_of [0xc0; 0x00; 0x00; 0x00; 0x01]%Z ++ [Z_u8 (Z.of_nat TOKEN_LEN)] ++ token ++ replicate 1180 (Z_u8 0xaa).

Definition forgeries (g : rng) : exec (list (list byte) * rng) :=
  '(token, g) ← mint ServerToClient ECHO_PEERS g;
  mret ([forged_long (replicate TOKEN_LEN Byte.x00);
         [Z_u8 0x40] ++ replicate TOKEN_LEN (Z_u8 0x5a) ++ replicate 64 (Z_u8 0xaa);
         forged_long token;
         list_byte_of_string "definitely not a quic packet"], g).

(** The datagram of [tokens_minted_for_another_address_are_rejected]. *)
Definition minted_elsewhere (g : rng) : exec (list byte * rng) :=
  '(token, g) ← mint ClientToServer ELSEWHERE g;
  mret (forged_long token, g).
End setup.

(** ** Counted datagrams *)

(** The assertions of [every_datagram_passes_through_our_socket], on the counts before
    and after a ping of [payload_len] bytes. *)
Definition datagram_asserts (before after : PacketCounts) (payload_len : Z) : exec unit :=
  if (pc_sent before <? pc_sent after)%Z && (pc_received before <? pc_received after)%Z then
    if (payload_len <=? pc_sent_bytes after)%Z then
      if (0 <? pc_sent before)%Z && (0 <? pc_received before)%Z then mret tt
      else Panic
    else Panic
  else Panic.

(** The last assertion of [forged_packets_are_dropped_before_quinn_sees_them]; tests are
    built with overflow checks. *)
Definition forgery_asserts (before after : PacketCounts) (forged : nat) : exec unit :=
  if (pc_rejected after <? pc_rejected before)%Z then Panic
  else rust_assert (pc_rejected after - pc_rejected before =? Z.of_nat forged)%Z.

(** The assertions on the counts of [tokens_minted_for_another_address_are_rejected] and
    of [a_client_with_mismatched_bindings_cannot_connect]. *)
Definition other_address_asserts (c : PacketCounts) : exec unit := rust_assert (pc_rejected c =? 1)%Z.
Definition mismatched_asserts (c : PacketCounts) : exec unit := rust_assert (0 <? pc_rejected c)%Z.

Example ex_datagram_asserts :
  datagram_asserts (mkPacketCounts 9 5000 7 4000 0) (mkPacketCounts 14 9900 12 9000 0) 4096 = Done tt ∧
  datagram_asserts (mkPacketCounts 9 5000 7 4000 0) (mkPacketCounts 14 9900 7 4000 0) 4096 = Panic.
Proof. by split. Qed.

(** ** Echoed payloads *)

Definition echo_sizes : list nat := [0; 1; 64; 1500; Z.to_nat MAX_PING_BYTES].

Section echo.
Context `{Streams}.

(** The loop of [server_reflects_payloads_of_varying_size]; the connection opens a
    stream for each ping. *)
Fixpoint reflects (opened : Z → result (SendStream * (SendStream → RecvStream)) ConnectionError) (rtt : Z → Z)
    (seq : Z) (sizes : list nat) : exec unit :=
  match sizes with
  | [] => mret tt
  | size :: sizes =>
      payload ← ping_payload seq size;
      _ ← expect_ok (ping (opened seq) payload (rtt seq));
      reflects opened rtt (seq + 1) sizes
  end.

(** A stream nothing was written to yet and that takes any payload. *)
Definition healthy (s : SendStream) : Prop :=
  written s = [] ∧ ∀ payload, ∃ s1 s2, write_all s payload = Ok s1 ∧ finish s1 = Ok s2.

(** The streams a client's pings arrive on: it wrote the payload and finished. *)
Definition pinged (payload : list byte) (send : SendStream) (recv : RecvStream) : Prop :=
  written send = [] ∧ ∃ s1 s2, write_all send payload = Ok s1 ∧ finish s1 = Ok s2 ∧ recv = transport s2.
End echo.

(** ** Lemmas *)

Lemma expect_ok_Done {A E} (r : result A E) a : expect_ok r = Done a → r = Ok a.
Proof. destruct r; by intros [= <-]. Qed.

Lemma filter_Permutation {A} (p : A → bool) l l' : l ≡ₚ l' → List.filter p l ≡ₚ List.filter p l'.
Proof.
  induction 1 as [|x l l' _ IH|x y l|l l1 l' _ IH _ IH']; cbn; [done| | |by rewrite IH].
  - destruct (p x); [by rewrite IH|done].
  - destruct (p x), (p y); (done || constructor).
Qed.

Lemma filter_shorter {A} (p : A → bool) l :
  length (List.filter p l) ≤ length l ∧ (length (List.filter p l) < length l ↔ Exists (fun x => p x = false) l).
Proof.
  induction l as [|x l [Hle IH]]; cbn; [split; [lia|]; rewrite Exists_nil; lia|].
  rewrite Exists_cons, <- IH. destruct (p x); cbn; (split; [lia|]); [|by split; [left|lia]].
  split; [right; lia|]. intros [?|?]; [done|lia].
Qed.

Lemma filter_nothing {A} (p : A → bool) l : List.filter p l = [] ↔ Forall (fun x => p x = false) l.
Proof.
  induction l as [|x l IH]; cbn; [by rewrite Forall_nil|]. rewrite Forall_cons, <- IH.
  destruct (p x); by split; [|intros []].
Qed.

Section lemmas.
Context {X : Type} `{TlsLib, BlockCipherLaws, RngLaws, QuinnCidLaws} (dflt : RecvMeta X).

Lemma bind_Ok {A} bound nonblocking registered (a : option A) inner :
  bind bound nonblocking registered a = Ok inner → inner = mkInner a Counters_default.
Proof. unfold bind. destruct bound, nonblocking, registered; by intros [= <-]. Qed.

Lemma start_server_with_spec auth os cs sep cert cs' :
  start_server_with auth os cs = Done (sep, cert, cs') →
  ep_socket sep = mkInner auth Counters_default ∧ ep_cid_generator sep = AuthCidGenerator_new ClientToServer LOCALHOST.
Proof.
  unfold start_server_with. destruct (self_signed_server_config _ cs) as [[[creds|e] cs1]|]; run; [|done..].
  cbn [expect_ok]. run. destruct (bind _ _ _ auth) as [inner|e] eqn:E; cbn [expect_ok]; run; [|done].
  apply bind_Ok in E as ->. destruct (sk_local_addr os); cbn [expect_ok]; run; [|done].
  unfold server_endpoint. destruct (sk_created os); cbn [expect_ok]; run; [|done]. by intros [= <- _ _].
Qed.

Lemma connect_endpoint_spec cert peers os cs cep cs' :
  connect_endpoint cert peers os cs = Done (cep, cs') →
  ep_socket cep = mkInner (Some (Authenticator_new ServerToClient LOCALHOST)) Counters_default ∧
  ep_cid_generator cep = AuthCidGenerator_new ServerToClient (client peers).
Proof.
  unfold connect_endpoint. destruct (bind _ _ _ _) as [inner|e] eqn:E; cbn [expect_ok]; run; [|done].
  apply bind_Ok in E as ->. destruct (client_config _ cs) as [[[cfg|e] cs1]|]; run; [|done..]. cbn [expect_ok]. run.
  unfold client_endpoint. destruct (sk_created os); cbn [expect_ok]; run; [|done]. by intros [= <- _].
Qed.

(** Every state of a test's run. *)
Lemma test_inv auth peers w0 w :
  test_world auth peers w0 → rtc (world_step dflt peers) w0 w →
  world_inv peers (Some (Authenticator_new ServerToClient LOCALHOST)) auth
    (AuthCidGenerator_new ServerToClient (client peers)) (AuthCidGenerator_new ClientToServer LOCALHOST) w.
Proof.
  intros (os & os' & cs & cs' & cs'' & sep & cep & cert & Es & Ec & Hwc & Hws & Hi) Hr.
  apply start_server_with_spec in Es as [Hss Hsg]. apply connect_endpoint_spec in Ec as [Hcs Hcg].
  eapply reachable_inv; [done|]. split.
  - rewrite Hwc. pose proof (host_of_inv cep) as HI. rewrite Hcs, Hcg in HI. by apply HI.
  - rewrite Hws. pose proof (host_of_inv sep) as HI. rewrite Hss, Hsg in HI. by apply HI.
  - by rewrite Hi.
Qed.

(** A datagram whose token has another selector is never genuine. *)
Lemma wrong_selector d me data cid addr :
  quic_dcid data cid → selector_field cid ≠ selector d → ¬ genuine d me data addr.
Proof.
  intros Hq Hs (ip & nonce & _ & Hn & Hq'). rewrite (quic_dcid_unique _ _ _ Hq Hq') in Hs.
  apply Hs. by destruct (token_of_fields d nonce ip me Hn) as (-> & _ & _).
Qed.

Lemma forged_long_dcid token : length token = TOKEN_LEN → quic_dcid (forged_long token) token.
Proof.
  intros Hl. unfold forged_long. rewrite <- Hl.
  apply (long_header (Z_u8 0xc0) (bytes_of [0; 0; 0; 1]%Z)); [by vm_compute|done|lia].
Qed.

(** None of the forgeries is genuine, whatever is drawn. *)
Lemma forgeries_not_genuine g addr :
  ∃ fs g', forgeries g = Done (fs, g') ∧ length fs = 4 ∧ Forall (fun f => ¬ genuine ClientToServer LOCALHOST f addr) fs.
Proof.
  unfold forgeries, mint. cbn [direction_path].
  destruct (mint_between_eq ServerToClient (server ECHO_PEERS) (client ECHO_PEERS) g) as (nonce & Hn & _ & ->). run.
  eexists _, _. split; [done|]. split; [done|]. repeat constructor.
  - eapply wrong_selector; [by apply forged_long_dcid|by vm_compute].
  - eapply wrong_selector; [by apply (short_header (Z_u8 0x40) (replicate TOKEN_LEN (Z_u8 0x5a)))|by vm_compute].
  - eapply wrong_selector; [by apply forged_long_dcid, length_token_of|].
    by destruct (token_of_fields ServerToClient nonce (server ECHO_PEERS) (client ECHO_PEERS) Hn) as (-> & _ & _).
  - eapply wrong_selector; [apply destination_cid_iff; by vm_compute|by vm_compute].
Qed.

(** What a host has counted as rejected, as long as the count has not wrapped. *)
Lemma rejected_exactly auth gen h :
  host_inv auth gen h → (Z.of_nat (length (datagrams (h_read h))) < 2 ^ 64)%Z →
  pc_rejected (counts (h_inner h)) =
    (Z.of_nat (length (datagrams (h_read h))) - Z.of_nat (length (accepted auth (h_read h))))%Z.
Proof.
  intros Hi Hl. rewrite (counts_published _ _ _ Hi). cbn [published pc_rejected service_of sv_dropped].
  rewrite (inv_quinn _ _ _ Hi). pose proof (accepted_length_le auth (h_read h)). apply Z.mod_small. lia.
Qed.
End lemmas.

Section more_lemmas.
Context {X : Type} `{TlsLib, BlockCipherLaws, RngLaws, QuinnCidLaws} (dflt : RecvMeta X).

Lemma accepted_all (auth : option Authenticator) (l : list (list byte * SocketAddr * nat)) :
  Forall (fun '(data, addr, _) => accepts auth data addr = true) l →
  List.filter (fun '(data, addr, _) => accepts auth data addr) l = l.
Proof. induction 1 as [|[[data addr] n] l Hx _ IH]; cbn; [done|]. by rewrite Hx, IH. Qed.

(** On the loopback interface, what the client has written is accepted. *)
Lemma loopback_accepts w data addr n :
  world_inv ECHO_PEERS (Some (Authenticator_new ServerToClient LOCALHOST)) (Some (Authenticator_new ClientToServer LOCALHOST))
    (AuthCidGenerator_new ServerToClient LOCALHOST) (AuthCidGenerator_new ClientToServer LOCALHOST) w →
  speaks ECHO_PEERS w → from_peer LOCALHOST (h_wire (w_client w)) (data, addr, n) = true →
  accepts (Some (Authenticator_new ClientToServer LOCALHOST)) data addr = true.
Proof.
  intros Hinv Hsp Hf. unfold from_peer in Hf. apply andb_true_iff in Hf as [Hip%bool_decide_eq_true Hd%bool_decide_eq_true].
  destruct (client_says ECHO_PEERS _ _ _ w data Hinv Hsp Hd) as (nonce & Hn & Hq).
  apply (accepts_genuine true). intros _. by exists LOCALHOST, nonce.
Qed.
End more_lemmas.

(** ** Theorems *)

Section theorems.
Context {X : Type} `{TlsLib, BlockCipherLaws, RngLaws, QuinnCidLaws} (dflt : RecvMeta X).

Definition loopback (port : Z) : SocketAddr := mkSocketAddr (V4 LOCALHOST) port.

Definition test_authenticator : option Authenticator := Some (Authenticator_new ClientToServer LOCALHOST).

(** The accepted part of forgeries and what the client wrote. *)
Lemma accepted_of_mixture (refused rest l : list (list byte * SocketAddr * nat)) w :
  world_inv ECHO_PEERS (Some (Authenticator_new ServerToClient LOCALHOST)) test_authenticator
    (AuthCidGenerator_new ServerToClient LOCALHOST) (AuthCidGenerator_new ClientToServer LOCALHOST) w →
  speaks ECHO_PEERS w → l ≡ₚ refused ++ rest →
  Forall (fun '(data, addr, _) => accepts test_authenticator data addr = false) refused →
  Forall (fun d => from_peer LOCALHOST (h_wire (w_client w)) d = true) rest →
  List.filter (fun '(data, addr, _) => accepts test_authenticator data addr) l ≡ₚ rest.
Proof.
  intros Hinv Hsp Hp Href Hrest. rewrite (filter_Permutation _ _ _ Hp), List.filter_app.
  rewrite (accepted_all test_authenticator rest).
  - assert (List.filter (fun '(data, addr, _) => accepts test_authenticator data addr) refused = []) as ->; [|done].
    clear -Href. induction Href as [|[[data addr] n] l Hd _ IH]; [done|]. cbn [List.filter]. by rewrite Hd.
  - eapply Forall_impl; [exact Hrest|]. intros [[data addr] n] Hfp. by eapply loopback_accepts.
Qed.

(** C38: the test of the forged packets fails only if they were not all read: for every
    draw and in every run in which the server reads, between the two looks at the
    counters, some of the four forgeries, each at most once, and otherwise only what the
    client wrote, in whatever order, and in which it has read fewer than 2^64 datagrams,
    it counts as many more rejections as it read forgeries, Quinn is handed all of the
    rest and none of the forgeries, and the last assertion of the test passes exactly if
    all four had been read. No collision of tags can make it fail. *)
Theorem forgery_test_passes_iff_all_were_read g fs g' port read_fs used rest w0 w w' :
  test_world test_authenticator ECHO_PEERS w0 →
  rtc (world_step dflt ECHO_PEERS) w0 w → rtc (world_step dflt ECHO_PEERS) w w' →
  forgeries g = Done (fs, g') → h_read (w_server w') = h_read (w_server w) ++ used →
  read_fs ⊆+ fs → datagrams used ≡ₚ map (fun f => (f, loopback port, length f)) read_fs ++ rest →
  speaks ECHO_PEERS w' → Forall (fun d => from_peer LOCALHOST (h_wire (w_client w')) d = true) rest →
  (Z.of_nat (length (datagrams (h_read (w_server w')))) < 2 ^ 64)%Z →
  let before := counts (h_inner (w_server w)) in
  let after := counts (h_inner (w_server w')) in
  length fs = 4 ∧
  pc_rejected after = (pc_rejected before + Z.of_nat (length read_fs))%Z ∧
  (∃ passed, h_quinn (w_server w') = h_quinn (w_server w) ++ passed ∧ passed ≡ₚ rest) ∧
  (forgery_asserts before after (length fs) = Done tt ↔ length read_fs = length fs).
Proof.
  intros Hw0 Hr Hr' Hf Hread Hsub Hperm Hsp Hrest Hlen before after.
  pose proof (test_inv dflt _ _ _ _ Hw0 Hr) as [_ Hi _].
  pose proof (test_inv dflt _ _ _ _ Hw0 (rtc_trans _ _ _ Hr Hr')) as Hinv'.
  destruct (forgeries_not_genuine g (loopback port)) as (fs' & g1 & Hf' & Hl4 & Hng). rewrite Hf in Hf'. injection Hf' as <- _.
  assert (accepted test_authenticator used ≡ₚ rest) as Hacc.
  { eapply accepted_of_mixture; [exact Hinv'|done|exact Hperm| |done]. apply Forall_fmap, Forall_forall. intros f Hin. cbn.
    rewrite Forall_forall in Hng. apply not_true_iff_false. intros Ha. apply (Hng f); [by eapply elem_of_submseteq|].
    by apply (accepts_genuine true). }
  assert (pc_rejected after = (pc_rejected before + Z.of_nat (length read_fs))%Z) as Hrej.
  { unfold before, after. rewrite (rejected_exactly _ _ _ (inv_server _ _ _ _ _ _ Hinv') Hlen).
    rewrite Hread, datagrams_app, length_app in Hlen. rewrite (rejected_exactly _ _ _ Hi) by lia.
    rewrite Hread, datagrams_app, accepted_app, !length_app, Hperm, Hacc, length_app, length_map. lia. }
  split; [done|]. split; [done|]. split.
  - exists (accepted test_authenticator used). split; [|done].
    rewrite (inv_quinn _ _ _ Hi), (inv_quinn _ _ _ (inv_server _ _ _ _ _ _ Hinv')), Hread. apply accepted_app.
  - unfold forgery_asserts. rewrite Hrej. destruct (Z.ltb_spec (pc_rejected before + Z.of_nat (length read_fs)) (pc_rejected before)); [lia|].
    unfold rust_assert. destruct (Z.eqb_spec (pc_rejected before + Z.of_nat (length read_fs) - pc_rejected before) (Z.of_nat (length fs)));
      split; try done; lia.
Qed.

(** The tags a token minted for the other address has on the two paths coincide. *)
Definition collides (nonce : list byte) : Prop :=
  token_tag ClientToServer nonce (client ELSEWHERE) LOCALHOST = token_tag ClientToServer nonce LOCALHOST LOCALHOST.

Lemma elsewhere_accepted data nonce port :
  length nonce = 8 → quic_dcid data (token_of ClientToServer nonce (client ELSEWHERE) LOCALHOST) →
  (accepts test_authenticator data (loopback port) = true ↔ collides nonce).
Proof.
  intros Hn Hq. unfold test_authenticator.
  change (Some (Authenticator_new ?d ?me)) with (filter_of true d me). rewrite accepts_genuine. split.
  - intros Hg. destruct (Hg eq_refl) as (ip & nonce' & [= <-] & Hn' & Hq'').
    pose proof (quic_dcid_unique _ _ _ Hq Hq'') as E.
    pose proof (token_of_other_path ClientToServer nonce (client ELSEWHERE) LOCALHOST LOCALHOST LOCALHOST Hn) as Ho.
    rewrite E, (proj2 (verify_spec_token_of _ _ _ _)) in Ho by (by exists nonce'). by case_decide.
  - intros Hc _. exists LOCALHOST, nonce. split; [done|]. split; [done|]. unfold token_of in *. by rewrite <- Hc.
Qed.

(** A datagram with one of the client's first connection IDs, from the loopback address. *)
Definition dials (w : World) (d : list byte * SocketAddr * nat) : Prop :=
  ∃ port cid, d.1.2 = loopback port ∧ cid ∈ w_initial w ∧ quic_dcid d.1.1 cid.

(** Its token is one that does not pass on the path it took. *)
Definition misfits (d : list byte * SocketAddr * nat) : Prop := ∃ cid, quic_dcid d.1.1 cid ∧ ¬ collides (nonce_field cid).

Lemma dials_accepted w0 w d :
  test_world test_authenticator ELSEWHERE w0 → rtc (world_step dflt ELSEWHERE) w0 w → dials w d →
  accepts test_authenticator d.1.1 d.1.2 = false ↔ misfits d.
Proof.
  intros Hw0 Hr (port & cid & -> & Hcid & Hq). pose proof (test_inv dflt _ _ _ _ Hw0 Hr) as [_ _ Hi].
  rewrite Forall_forall in Hi. destruct (Hi cid Hcid) as (nonce & Hn & ->).
  destruct (token_of_fields ClientToServer nonce (client ELSEWHERE) (server ELSEWHERE) Hn) as (_ & Hf & _).
  rewrite <- not_true_iff_false, (elsewhere_accepted _ _ port Hn Hq). split.
  - intros Hc. eexists. split; [exact Hq|]. by rewrite Hf.
  - intros (cid & Hq' & Hc). by rewrite (quic_dcid_unique _ _ _ Hq' Hq), Hf in Hc.
Qed.

(** C39: the tests of tokens for other addresses, as to their assertions on the counts.
    For every draw and in every run in which the server has read fewer than 2^64
    datagrams, [k] times the datagram minted for another client and otherwise only what
    the client wrote, the assertion that one was rejected passes exactly if [k] is one
    and the tags of that token on the two paths do not coincide. And in every run with a
    client configured for another address, in which the server has read only datagrams
    with first connection IDs of its connections, the assertion that something was
    rejected passes exactly if a datagram was read whose token's tags do not coincide,
    and the server's Quinn, without which no handshake completes, has been handed
    nothing exactly if that is so of all that were read. *)
Theorem other_address_tests_fail_only_unread_or_on_collisions :
  (∀ g packet g' port k rest w0 w,
     test_world test_authenticator ECHO_PEERS w0 → rtc (world_step dflt ECHO_PEERS) w0 w → speaks ECHO_PEERS w →
     minted_elsewhere g = Done (packet, g') →
     datagrams (h_read (w_server w)) ≡ₚ replicate k (packet, loopback port, length packet) ++ rest →
     Forall (fun d => from_peer LOCALHOST (h_wire (w_client w)) d = true) rest →
     (Z.of_nat (length (datagrams (h_read (w_server w)))) < 2 ^ 64)%Z →
     other_address_asserts (counts (h_inner (w_server w))) = Done tt ↔ k = 1 ∧ ¬ collides (drawn g)) ∧
  (∀ w0 w,
     test_world test_authenticator ELSEWHERE w0 → rtc (world_step dflt ELSEWHERE) w0 w →
     let read := datagrams (h_read (w_server w)) in
     Forall (dials w) read → (Z.of_nat (length read) < 2 ^ 64)%Z →
     (mismatched_asserts (counts (h_inner (w_server w))) = Done tt ↔ Exists misfits read) ∧
     (h_quinn (w_server w) = [] ↔ Forall misfits read)).
Proof.
  split.
  - intros g packet g' port k rest w0 w Hw0 Hr Hsp Hm Hp Hrest Hlen.
    pose proof (test_inv dflt _ _ _ _ Hw0 Hr) as Hinv.
    unfold minted_elsewhere, mint in Hm. cbn [direction_path] in Hm. rewrite mint_drawn in Hm. injection Hm as <- _.
    set (packet := forged_long _) in *.
    assert (accepts test_authenticator packet (loopback port) = true ↔ collides (drawn g)) as Hacc.
    { apply elsewhere_accepted; [apply length_drawn|]. by apply forged_long_dcid, length_token_of, length_drawn. }
    unfold other_address_asserts, rust_assert. rewrite (rejected_exactly _ _ _ (inv_server _ _ _ _ _ _ Hinv) Hlen).
    unfold accepted. destruct (accepts test_authenticator packet (loopback port)) eqn:Ha.
    + rewrite (filter_Permutation _ _ _ Hp), accepted_all, Hp, Z.sub_diag.
      * split; [done|]. intros [_ Hc]. by destruct Hc; apply Hacc.
      * apply Forall_app. split; [by apply Forall_replicate|]. eapply Forall_impl; [exact Hrest|].
        intros [[data addr] n] Hfp. by eapply loopback_accepts.
    + assert (¬ collides (drawn g)) as Hc by (intros Hc; by apply Hacc in Hc).
      rewrite (accepted_of_mixture _ _ _ _ Hinv Hsp Hp ltac:(by apply Forall_replicate) Hrest), Hp, length_app, length_replicate.
      destruct (Z.eqb_spec (Z.of_nat (k + length rest) - Z.of_nat (length rest)) 1); split; try done; [|lia]. intros _. split; [lia|done].
  - intros w0 w Hw0 Hr read Hd Hlen. pose proof (test_inv dflt _ _ _ _ Hw0 Hr) as [_ Hi _].
    set (p := fun '((data, addr, _) : list byte * SocketAddr * nat) => accepts test_authenticator data addr).
    assert (∀ d, d ∈ read → p d = false ↔ misfits d) as Hp.
    { intros [[data addr] n] Hin. rewrite Forall_forall in Hd. exact (dials_accepted w0 w _ Hw0 Hr (Hd _ Hin)). }
    unfold mismatched_asserts, rust_assert. rewrite (rejected_exactly _ _ _ Hi Hlen), (inv_quinn _ _ _ Hi).
    unfold accepted. fold p. fold read. destruct (filter_shorter p read) as [Hle Hlt]. split.
    + assert (Exists misfits read ↔ Exists (fun d => p d = false) read) as ->
        by (rewrite !Exists_exists; split; intros (d & Hin & Hx); exists d; split; try done; by apply Hp).
      rewrite <- Hlt. destruct (Z.ltb_spec 0 (Z.of_nat (length read) - Z.of_nat (length (List.filter p read)))); split; try done; lia.
    + rewrite filter_nothing, !Forall_forall. split; intros Hx d Hin; apply Hp; auto.
Qed.

(** With validation off nothing is ever rejected, and Quinn sees all that is read. *)
Theorem validation_off_rejects_nothing peers w0 w :
  test_world None peers w0 → rtc (world_step dflt peers) w0 w →
  h_quinn (w_server w) = datagrams (h_read (w_server w)) ∧ pc_rejected (counts (h_inner (w_server w))) = 0%Z.
Proof.
  intros Hw0 Hr. pose proof (test_inv dflt _ _ _ _ Hw0 Hr) as [_ Hs _]. by eapply unfiltered_host.
Qed.

(** No counter of a host has wrapped yet. *)
Definition unwrapped (h : Host) : Prop :=
  (Z.of_nat (length (h_wire h)) < 2 ^ 64)%Z ∧ (0 <= sum_ok (h_outcomes h) < 2 ^ 64)%Z ∧
  (Z.of_nat (length (datagrams (h_read h))) < 2 ^ 64)%Z.

(** What the client's socket has counted then. *)
Lemma client_counted auth peers w0 w :
  test_world auth peers w0 → rtc (world_step dflt peers) w0 w → unwrapped (w_client w) →
  pc_sent (counts (h_inner (w_client w))) = Z.of_nat (length (h_wire (w_client w))) ∧
  pc_sent_bytes (counts (h_inner (w_client w))) = sum_ok (h_outcomes (w_client w)) ∧
  pc_received (counts (h_inner (w_client w))) = Z.of_nat (length (datagrams (h_read (w_client w)))).
Proof.
  intros Hw0 Hr (Hs & Hb & Hd). pose proof (test_inv dflt _ _ _ _ Hw0 Hr) as [Hc _ _].
  rewrite (counts_published _ _ _ Hc). cbn [published pc_sent pc_sent_bytes pc_received service_of sv_sent sv_sent_bytes sv_seen].
  rewrite !Z.mod_small by lia. done.
Qed.

(** The test of the counted datagrams passes exactly if the socket did what the test is
    about: datagrams were written and read before the ping and more of both after it,
    and at least as many bytes were written as the payload has. *)
Theorem datagram_asserts_pass_iff_datagrams_moved auth peers w0 w w' payload_len :
  test_world auth peers w0 → rtc (world_step dflt peers) w0 w → rtc (world_step dflt peers) w0 w' →
  unwrapped (w_client w) → unwrapped (w_client w') →
  datagram_asserts (counts (h_inner (w_client w))) (counts (h_inner (w_client w'))) payload_len = Done tt ↔
    0 < length (h_wire (w_client w)) < length (h_wire (w_client w')) ∧
    0 < length (datagrams (h_read (w_client w))) < length (datagrams (h_read (w_client w'))) ∧
    (payload_len <= sum_ok (h_outcomes (w_client w')))%Z.
Proof.
  intros Hw0 Hr Hr' Hu Hu'. unfold datagram_asserts.
  destruct (client_counted _ _ _ _ Hw0 Hr Hu) as (-> & _ & ->).
  destruct (client_counted _ _ _ _ Hw0 Hr' Hu') as (-> & -> & ->).
  repeat match goal with |- context [Z.ltb ?a ?b] => destruct (Z.ltb_spec a b)
    | |- context [Z.leb ?a ?b] => destruct (Z.leb_spec a b) end; cbn [andb]; (split; [try done; lia|try done; lia]).
Qed.
End theorems.

Section echo_theorems.
Context `{StreamsLaws}.

(** A ping in flight: what the client wrote, its sending half, the two halves the
    server accepted and the address it came from. *)
Record PingInFlight := mkPingInFlight {
  pf_payload : list byte; pf_send : SendStream; pf_reply : SendStream; pf_recv : RecvStream;
  pf_remote : SocketAddr }.

Definition in_flight (p : PingInFlight) : Prop :=
  (Z.of_nat (length (pf_payload p)) <= MAX_PING_BYTES)%Z ∧ healthy (pf_reply p) ∧
  pinged (pf_payload p) (pf_send p) (pf_recv p).

(** The connections of some clients, each with its pings and how it ends, if it
    does. *)
Definition client_accepts (closing : option ConnectionError) (pings : list PingInFlight) : Accepts :=
  map (fun p => Ok (pf_reply p, pf_recv p, pf_remote p)) pings ++
  match closing with Some e => [Err e] | None => [] end.

Definition clients_incoming (clients : list (list PingInFlight)) (closing : option ConnectionError)
    : list (option Handshake) :=
  map (fun pings => Some (Ok (client_accepts closing pings))) clients.

Lemma serve_goal_pings pings closing :
  (serve_goal (client_accepts closing pings)).1 =
  map (fun p => (pf_remote p, echo_stream (pf_reply p) (pf_recv p))) pings.
Proof.
  unfold client_accepts. induction pings as [|p pings IH]; [by destruct closing|]. cbn [map app serve_goal].
  destruct (serve_goal _) as [rs r]. cbn [fst] in *. by rewrite IH.
Qed.

Lemma loop_goal_clients clients closing :
  map Some (loop_goal (clients_incoming clients closing)).1 = clients_incoming clients closing.
Proof.
  induction clients as [|pings clients IH]; [done|]. unfold clients_incoming in *. cbn [map loop_goal].
  destruct (loop_goal _) as [hs r]. cbn [fst map] in *. by rewrite IH.
Qed.

Lemma loop_goal_client clients closing i pings :
  clients !! i = Some pings →
  (loop_goal (clients_incoming clients closing)).1 !! i = Some (Ok (client_accepts closing pings)).
Proof.
  intros Hi. assert (clients_incoming clients closing !! i = Some (Some (Ok (client_accepts closing pings)))) as Hc
    by (etrans; [apply list_lookup_fmap|]; by rewrite Hi).
  rewrite <- loop_goal_clients in Hc. by apply list_lookup_fmap_Some in Hc as (h & [= <-] & Hh).
Qed.

(** The server reflects the payloads of the test's sizes, the largest included. *)
Theorem echo_sizes_are_reflected opened rtt :
  (∀ seq, ∃ send reply failed, opened seq = Ok (send, echo_answer reply failed) ∧ healthy send ∧ healthy reply) →
  reflects opened rtt 0 echo_sizes = Done tt.
Proof.
  intros Hopen.
  assert (∀ sizes seq, Forall (fun size => (Z.of_nat size <= MAX_PING_BYTES)%Z) sizes →
            reflects opened rtt seq sizes = Done tt) as Hall; [|apply Hall; repeat constructor; by vm_compute].
  intros sizes. induction sizes as [|size sizes IH]; intros seq; [done|]. intros [Hs Hsizes]%Forall_cons.
  cbn [reflects]. rewrite ping_payload_eq. set (payload := take _ _ ++ _). run.
  assert (length payload = size) as Hl.
  { unfold payload. rewrite length_app, length_take, length_to_be_bytes, length_map, length_seq. lia. }
  destruct (Hopen seq) as (send & reply & failed & -> & (Hw & Hws) & (Hw' & Hws')).
  destruct (Hws payload) as (s1 & s2 & E1 & E2). destruct (Hws' payload) as (r1 & r2 & E1' & E2').
  destruct (ping_comes_back send reply failed s1 s2 r1 r2 payload (rtt seq)) as (_ & _ & ->); [done..|lia|].
  cbn [expect_ok]. run. by apply IH.
Qed.

(** C40: the tests of concurrent pings and of clients that come and go pass under
    every schedule of the server's tasks: for any number of clients with any number
    of pings in flight each, which may all close their connections, when the server
    has nothing left to do every ping has been echoed, so that each client's
    comparison succeeds; nothing has been printed. *)
Theorem every_client_gets_its_echoes clients closing n w :
  Forall (Forall in_flight) clients →
  nsteps server_step n (start_echo_server (clients_incoming clients closing)) w → quiescent w →
  es_log w = [] ∧
  ∀ i j pings p rtt, clients !! i = Some pings → pings !! j = Some p →
    ∃ t reply, es_tasks w !! i = Some t ∧ ct_echoes t !! j = Some (pf_remote p, Returned (Ok reply)) ∧
      ping (Ok (pf_send p, fun _ => transport reply)) (pf_payload p) rtt = Ok rtt.
Proof.
  intros Hfl Hrun Hq. destruct (server_run_inv _ _ _ _ Hrun (start_inv _)) as [Hinv _].
  assert (∀ p rtt, in_flight p → ∃ reply, echo_stream (pf_reply p) (pf_recv p) = Ok reply ∧
            ping (Ok (pf_send p, fun _ => transport reply)) (pf_payload p) rtt = Ok rtt) as Hecho.
  { intros p rtt (Hl & (Hw & Hws) & (Hw' & s1 & s2 & E1 & E2 & Hrecv)). destruct (Hws (pf_payload p)) as (r1 & r2 & E1' & E2').
    rewrite Hrecv. exists r2.
    destruct (ping_comes_back (pf_send p) (pf_reply p) (pf_recv p) s1 s2 r1 r2 (pf_payload p) rtt) as (? & ? & _); done. }
  split.
  - destruct (tasks_at_rest w _ Hinv Hq) as [_ Hl]. apply Permutation_nil_r. rewrite Hl. unfold lines.
    pose proof (loop_goal_clients clients closing) as Hc. revert Hc. generalize (loop_goal (clients_incoming clients closing)).1.
    clear -Hfl Hecho. induction Hfl as [|pings clients Hp _ IH]; intros [|h hs]; cbn; try done.
    intros [= -> Hc]. rewrite (IH hs Hc), app_nil_r. unfold outcome_failures. cbn [handshake_goal].
    rewrite (surjective_pairing (serve_goal _)). rewrite serve_goal_pings. clear -Hp Hecho.
    induction Hp as [|p pings Hp _ IH]; [done|]. cbn. destruct (Hecho p 0%Z Hp) as (reply & -> & _). exact IH.
  - intros i j pings p rtt Hi Hj. rewrite Forall_lookup in Hfl. specialize (Hfl i pings Hi). rewrite Forall_lookup in Hfl.
    destruct (Hecho p rtt (Hfl j p Hj)) as (reply & E & Hping).
    destruct (quiescent_echo _ w i j _ (pf_remote p) (Ok reply) Hinv Hq (loop_goal_client _ closing _ _ Hi)) as (t & Ht & He).
    { rewrite serve_goal_pings, <- E. by apply (map_lookup (fun p => (pf_remote p, echo_stream (pf_reply p) (pf_recv p)))) in Hj. }
    by exists t, reply.
Qed.
End echo_theorems.

(** ** Instances at concrete input *)

Definition ex_calls : SocketCalls := mkSocketCalls (Ok tt) (Ok tt) (Ok tt) (Ok tt) (Ok tt).

(** The hosts of the tests as they start, the client minting for [peers]. *)
Definition ex_test_host : Host :=
  mkHost (mkInner test_authenticator Counters_default) (AuthCidGenerator_new ClientToServer LOCALHOST) ∅ [] [] [] [] [].

Definition ex_test_client (peers : Peers) : Host :=
  mkHost (mkInner (Some (Authenticator_new ServerToClient LOCALHOST)) Counters_default)
    (AuthCidGenerator_new ServerToClient (client peers)) ∅ [] [] [] [] [].

Definition ex_test_world (peers : Peers) (initial : list (list byte)) (g : rng (Rng := tape_rng)) : World :=
  mkWorld (H0 := tape_rng) g (ex_test_client peers) ex_test_host initial.

Lemma ex_test_started peers g : test_world test_authenticator peers (ex_test_world peers [] g).
Proof. exists ex_calls, ex_calls, ex_crypto. do 5 eexists. repeat split. Qed.

(** One poll of the test's server that reads [data] from the loopback interface. *)
Definition ex_slots_1 : list (list byte) := [replicate 1500 Byte.x00].

Definition ex_arrivals (data : list (list byte)) : list rx_event := map (fun f => RxDatagram f (loopback 9)) data.

Lemma ex_arrivals_datagrams data :
  datagrams (ex_arrivals data) = map (fun f => (f, loopback 9, length f)) data.
Proof. induction data as [|f data IH]; [done|]. cbn. f_equal. exact IH. Qed.

Lemma ex_test_reads peers initial g data :
  Forall (fun f => length f ≤ 1500) data →
  ∃ h used, rtc (world_step ex_meta peers) (ex_test_world peers initial g)
              (mkWorld (H0 := tape_rng) g (ex_test_client peers) h initial) ∧
    h_read h = used ∧ h_wire h = [] ∧
    ∃ r inner st, poll_recv ex_meta (h_inner ex_test_host) ex_slots_1 [ex_meta] [Ready (Ok tt)] (ex_arrivals data) =
                    Done (r, inner, st) ∧ ex_arrivals data = used ++ rs_rx st.
Proof.
  intros Hl. assert (fits ex_slots_1 (ex_arrivals data)) as Hf.
  { apply Forall_forall. intros ev Hin. apply list_elem_of_fmap in Hin as (f & -> & Hin).
    rewrite Forall_forall in Hl. apply Forall_singleton. rewrite length_replicate. by apply Hl. }
  destruct (poll_recv_spec ex_meta (h_inner ex_test_host) ex_slots_1 [ex_meta] [Ready (Ok tt)] (ex_arrivals data) Hf)
    as (r & st & used & E & [Hrx _ _ _ _ _ _]); [done|exact wf_Counters_default|].
  eexists _, used. split.
  - apply rtc_once. eapply (server_moves ex_meta peers (ex_test_world peers initial g) g).
    eapply (host_recv (H0 := tape_rng) ex_meta g ex_test_host ex_slots_1 [ex_meta] _ _ _ _ _ used Hf ltac:(done) E Hrx).
  - split; [done|]. split; [done|]. by eexists _, _, _.
Qed.

(** Whether a poll has read everything. *)
Definition reads_all (data : list (list byte)) : bool :=
  match poll_recv ex_meta (h_inner ex_test_host) ex_slots_1 [ex_meta] [Ready (Ok tt)] (ex_arrivals data) with
  | Done (_, _, st) => match rs_rx st with [] => true | _ => false end
  | Panic => false
  end.

Lemma ex_test_reads_all peers initial g data :
  forallb (fun f => length f <=? 1500) data = true → reads_all data = true →
  ∃ h, rtc (world_step ex_meta peers) (ex_test_world peers initial g)
         (mkWorld (H0 := tape_rng) g (ex_test_client peers) h initial) ∧
    h_read h = ex_arrivals data ∧ h_wire h = [].
Proof.
  intros Hl Hall. destruct (ex_test_reads peers initial g data) as (h & used & Hr & Hu & Hw & r & inner & st & E & Hrx).
  { rewrite forallb_forall in Hl. apply Forall_forall. intros f Hin%list_elem_of_In. by apply Nat.leb_le, Hl. }
  exists h. unfold reads_all in Hall. rewrite E in Hall. destruct (rs_rx st) eqn:Hst; [|done].
  by rewrite Hrx, Hu, app_nil_r.
Qed.

Definition ex_forgeries : list (list byte) := match forgeries ex_tape with Done (fs, _) => fs | Panic => [] end.

Lemma ex_forgeries_eq : forgeries ex_tape = Done (ex_forgeries, []).
Proof. vm_compute. reflexivity. Qed.

Lemma ex_speaks_nothing peers g h :
  h_wire h = [] → speaks peers (mkWorld (H0 := tape_rng) g (ex_test_client peers) h []).
Proof.
  intros Hw. split; intros to data Hin; [by apply not_elem_of_nil in Hin|].
  cbn [w_server] in Hin. rewrite Hw in Hin. by apply not_elem_of_nil in Hin.
Qed.

Lemma forgery_test_passes_iff_all_were_read_witness :
  ∃ w, rtc (world_step ex_meta ECHO_PEERS) (ex_test_world ECHO_PEERS [] []) w ∧
    forgery_asserts (counts (h_inner (w_server (ex_test_world ECHO_PEERS [] [])))) (counts (h_inner (w_server w))) 4 = Done tt.
Proof.
  destruct (ex_test_reads_all ECHO_PEERS [] [] ex_forgeries) as (h & Hr & Hread & Hwire); [vm_compute; reflexivity..|].
  eexists. split; [exact Hr|].
  destruct (forgery_test_passes_iff_all_were_read ex_meta ex_tape ex_forgeries [] 9 ex_forgeries (ex_arrivals ex_forgeries) [] _ _ _
              (ex_test_started ECHO_PEERS []) (rtc_refl _ _) Hr ex_forgeries_eq) as (Hl & _ & _ & Ha).
  - cbn [w_server ex_test_world ex_test_host h_read app]. exact Hread.
  - reflexivity.
  - rewrite app_nil_r. apply reflexive_eq, ex_arrivals_datagrams.
  - exact (ex_speaks_nothing ECHO_PEERS [] h Hwire).
  - exact (Forall_nil_2 _).
  - cbn [w_server]. rewrite Hread. vm_compute. reflexivity.
  - rewrite Hl in Ha. apply Ha. vm_compute. reflexivity.
Defined.

(** A client that mints for another address opens a connection. *)
Definition ex_wrong_token : list byte :=
  match mint ClientToServer ELSEWHERE ex_tape with Done (token, _) => token | Panic => [] end.

Lemma ex_wrong_dialled : initial_dst_cid_provider ELSEWHERE ex_tape = Done (ex_wrong_token, []).
Proof. vm_compute. reflexivity. Qed.

Lemma ex_test_dials peers g g' cid :
  initial_dst_cid_provider peers g = Done (cid, g') →
  world_step ex_meta peers (ex_test_world peers [] g) (ex_test_world peers [cid] g').
Proof. apply (client_dials (H := aes128) (H0 := tape_rng) (H1 := bytes_cid) ex_meta peers (ex_test_world peers [] g)). Qed.

Lemma other_address_tests_fail_only_unread_or_on_collisions_witness :
  ∃ w, rtc (world_step ex_meta ELSEWHERE) (ex_test_world ELSEWHERE [] ex_tape) w ∧
    mismatched_asserts (counts (h_inner (w_server w))) = Done tt ∧ h_quinn (w_server w) = [].
Proof.
  destruct (ex_test_reads_all ELSEWHERE [ex_wrong_token] [] [forged_long ex_wrong_token]) as (h & Hr & Hread & Hwire);
    [vm_compute; reflexivity..|].
  pose proof (rtc_l _ _ _ _ (ex_test_dials ELSEWHERE ex_tape [] ex_wrong_token ex_wrong_dialled) Hr) as Hrun.
  eexists. split; [exact Hrun|].
  assert (quic_dcid (forged_long ex_wrong_token) ex_wrong_token) as Hq
    by (apply forged_long_dcid; vm_compute; reflexivity).
  assert (misfits (forged_long ex_wrong_token, loopback 9, 1206)) as Hm
    by (exists ex_wrong_token; split; [exact Hq|intros Hc; vm_compute in Hc; discriminate Hc]).
  assert (datagrams (h_read h) = [(forged_long ex_wrong_token, loopback 9, 1206)]) as Hd
    by (rewrite Hread; vm_compute; reflexivity).
  destruct (proj2 (other_address_tests_fail_only_unread_or_on_collisions ex_meta) _ _ (ex_test_started ELSEWHERE ex_tape) Hrun)
    as [Ha Hq0]; cbn [w_server].
  - cbn [w_server]. rewrite Hd. apply Forall_singleton. exists 9%Z, ex_wrong_token.
    split; [reflexivity|]. split; [apply list_elem_of_here|exact Hq].
  - cbn [w_server]. rewrite Hd. reflexivity.
  - cbn [w_server] in Ha, Hq0. rewrite Hd in Ha, Hq0. split.
    + apply Ha. by apply Exists_cons_hd.
    + apply Hq0. by apply Forall_singleton.
Defined.

(** Two clients on in-memory streams, the second with two pings; both close. *)
Definition ex_ping (seq : Z) (size : nat) : PingInFlight :=
  let payload := match ping_payload seq size with Done p => p | Panic => [] end in
  mkPingInFlight payload ex_stream ex_stream (Ok payload) ex_remote.

Definition ex_clients : list (list PingInFlight) := [[ex_ping 0 128]; [ex_ping 1 256; ex_ping 2 3]].

Lemma ex_clients_in_flight : Forall (Forall in_flight) ex_clients.
Proof.
  assert (∀ seq size, (Z.of_nat size <= MAX_PING_BYTES)%Z → in_flight (ex_ping seq size)) as Hp.
  { intros seq size Hs. unfold ex_ping. rewrite ping_payload_eq. set (payload := take _ _ ++ _).
    assert (length payload = size) as Hl.
    { unfold payload. rewrite length_app, length_take, length_to_be_bytes, length_map, length_seq. lia. }
    split; [cbn [pf_payload]; lia|]. split; split; try done.
    - intros p. by eexists _, _.
    - by eexists _, _. }
  repeat apply Forall_cons_2; try apply Forall_nil_2; apply Hp; by vm_compute.
Qed.

Definition ex_clients_schedule : list Choice :=
  [AcceptLoop; AcceptLoop; TaskOf 1; TaskOf 1; TaskOf 0; TaskOf 1; StreamOf 1 1; TaskOf 0; StreamOf 0 0; TaskOf 0;
   StreamOf 1 1; TaskOf 1; StreamOf 1 0; StreamOf 0 0; StreamOf 1 0].

Lemma every_client_gets_its_echoes_witness :
  ∃ w, run_tasks ex_clients_schedule (start_echo_server (clients_incoming ex_clients (Some (ApplicationClosed 0)))) = Some w ∧
    ∃ t reply, es_tasks w !! 1 = Some t ∧ ct_echoes t !! 1 = Some (ex_remote, Returned (Ok reply)) ∧
      ping (Ok (ex_stream, fun _ => transport reply)) (bytes_of [0; 0; 0]%Z) 42 = Ok 42%Z.
Proof.
  destruct (run_tasks ex_clients_schedule (start_echo_server (clients_incoming ex_clients (Some (ApplicationClosed 0)))))
    as [w|] eqn:E; [|exfalso; by vm_compute in E].
  exists w. split; [reflexivity|].
  exact (proj2 (every_client_gets_its_echoes ex_clients (Some (ApplicationClosed 0)) (length ex_clients_schedule) w
           ex_clients_in_flight (run_tasks_nsteps _ _ _ E)
           ltac:(apply quiescentb_true; vm_compute in E; injection E as <-; vm_compute; reflexivity))
           1 1 _ _ 42%Z eq_refl eq_refl).
Defined.
